(** * PantherAI chat gateway: a shallow embedding of the backend and its
      checked properties.

    The development follows the layout of the repository:
    - [JS]         the JavaScript string and value operations the backend uses;
    - [Config]     backend/config/env.js;
    - the effect layer: the process-wide maps, the durable store and the log
      of calls made on outside collaborators (response object, file system,
      identity service, billing service, provider endpoints);
    - [FileUtils]  backend/fileUtils.js;
    - [Gemini], [OpenAI], [Claude], [Grok]  the provider services;
    - [Server]     backend/server.js: upload middleware, subscription
      resolution, the one-shot and the streaming chat handlers. *)

From Stdlib Require Import ZArith Lia Bool Ascii String.
From stdpp Require Import base option list strings gmap.

Set Warnings "-register-all".

Open Scope string_scope.
Open Scope Z_scope.
Open Scope list_scope.

(* ===================================================================== *)
(** ** JavaScript strings and values *)
(* ===================================================================== *)

Module JS.

(** [s.startsWith(p)] *)
Fixpoint startsWith (s p : string) : bool :=
  match p, s with
  | EmptyString, _ => true
  | String c p', String d s' => if Ascii.eqb c d then startsWith s' p' else false
  | String _ _, EmptyString => false
  end.

(** [s.includes(p)] *)
Fixpoint includes (s p : string) : bool :=
  startsWith s p ||
  match s with
  | EmptyString => false
  | String _ s' => includes s' p
  end.

(** [s.toLowerCase()] on the ASCII letters; other bytes are kept. *)
Definition lower_ascii (c : Ascii.ascii) : ascii :=
  let n := Ascii.nat_of_ascii c in
  if (Nat.leb 65 n && Nat.leb n 90)%bool then Ascii.ascii_of_nat (n + 32) else c.

Fixpoint toLowerCase (s : string) : string :=
  match s with
  | EmptyString => EmptyString
  | String c s' => String (lower_ascii c) (toLowerCase s')
  end.

(** A string used as a condition: the empty string is falsy. *)
Definition truthy_str (s : string) : bool :=
  match s with EmptyString => false | _ => true end.

(** An optional string used as a condition ([undefined] is falsy). *)
Definition truthy_ostr (o : option string) : bool :=
  match o with Some s => truthy_str s | None => false end.

(** [a || b] on strings. *)
Definition or_str (o : option string) (d : string) : string :=
  match o with
  | Some s => if truthy_str s then s else d
  | None => d
  end.

(** [s.split(sep)] for a one-character separator. *)
Fixpoint split_aux (sep : Ascii.ascii) (s : string) (cur : string) : list string :=
  match s with
  | EmptyString => [String.rev cur]
  | String c s' =>
      if Ascii.eqb c sep then String.rev cur :: split_aux sep s' EmptyString
      else split_aux sep s' (String c cur)
  end.

Definition split (sep : Ascii.ascii) (s : string) : list string :=
  split_aux sep s EmptyString.

(** [s.substring(n)] *)
Fixpoint substring_from (n : nat) (s : string) : string :=
  match n, s with
  | O, _ => s
  | S n', String _ s' => substring_from n' s'
  | S _, EmptyString => EmptyString
  end.

(** [s.trim() !== ''] : some character is not white space (ASCII white
    space; the multi-byte Unicode spaces are not modelled). *)
Definition is_space (c : Ascii.ascii) : bool :=
  let n := Ascii.nat_of_ascii c in
  (Nat.eqb n 32 || (Nat.leb 9 n && Nat.leb n 13))%bool.

Fixpoint trim_nonempty (s : string) : bool :=
  match s with
  | EmptyString => false
  | String c s' => negb (is_space c) || trim_nonempty s'
  end.

(** [arr.join(sep)] *)
Fixpoint join (sep : string) (l : list string) : string :=
  match l with
  | [] => ""
  | [x] => x
  | x :: rest => x +:+ sep +:+ join sep rest
  end.

(** Concatenation of a list of strings, in order. *)
Definition concat_str (l : list string) : string :=
  fold_right String.append "" l.

(** JSON values as the backend sees them after [JSON.parse] or in an SDK
    object.  A number carries its JavaScript string form; it is falsy iff
    that form is "0". *)
Inductive Json : Type :=
| JNull
| JBool (b : bool)
| JNum (repr : string)
| JStr (s : string)
| JArr (l : list Json)
| JObj (fields : list (string * Json)).

(** A JavaScript value: [None] is [undefined]. *)
Definition Value := option Json.

Definition truthy (v : Value) : bool :=
  match v with
  | None | Some JNull => false
  | Some (JBool b) => b
  | Some (JNum r) => negb (String.eqb r "0")
  | Some (JStr s) => truthy_str s
  | Some (JArr _) | Some (JObj _) => true
  end.

Fixpoint assoc (k : string) (fs : list (string * Json)) : Value :=
  match fs with
  | [] => None
  | (k', v) :: fs' => if String.eqb k k' then Some v else assoc k fs'
  end.

(** Outcome of evaluating an expression: a value, or a thrown error. *)
Inductive Outcome (A : Type) : Type :=
| Ok (a : A)
| Throw (msg : string).
Arguments Ok {A} a.
Arguments Throw {A} msg.

(** [v.f] : reading a property of [null] or [undefined] throws. *)
Definition getp (v : Value) (f : string) : Outcome Value :=
  match v with
  | None | Some JNull => Throw ("TypeError: Cannot read properties of null or undefined (reading '" +:+ f +:+ "')")
  | Some (JObj fs) => Ok (assoc f fs)
  | Some _ => Ok None
  end.

(** [v?.f] *)
Definition getp_opt (v : Value) (f : string) : Value :=
  match v with
  | Some (JObj fs) => assoc f fs
  | _ => None
  end.

Definition string_head (s : string) : Value :=
  match s with
  | EmptyString => None
  | String c _ => Some (JStr (String c EmptyString))
  end.

(** [v[0]] *)
Definition get0 (v : Value) : Outcome Value :=
  match v with
  | None | Some JNull => Throw "TypeError: Cannot read properties of null or undefined (reading '0')"
  | Some (JArr l) => Ok (head l)
  | Some (JObj fs) => Ok (assoc "0" fs)
  | Some (JStr s) => Ok (string_head s)
  | Some _ => Ok None
  end.

(** [a.length > 0] for a value used as an array. *)
Definition nonempty_arr (v : Value) : bool :=
  match v with
  | Some (JArr (_ :: _)) => true
  | Some (JStr (String _ _)) => true
  | _ => false
  end.

(** String conversion, as [+=] on a string applies it. *)
Fixpoint to_string (j : Json) : string :=
  match j with
  | JNull => "null"
  | JBool true => "true"
  | JBool false => "false"
  | JNum r => r
  | JStr s => s
  | JArr l =>
      join "," (map (fun x => match x with JNull => "" | _ => to_string x end) l)
  | JObj _ => "[object Object]"
  end.

End JS.

Import JS.

(* ===================================================================== *)
(** ** Data model *)
(* ===================================================================== *)

(** One part of a multi-part message content, in the wire shapes the
    backend builds: [{type:"text",text}], [{type:"image_url",image_url:{url}}],
    [{type:"image",source:{type:"base64",media_type,data}}] and Gemini's
    [{inlineData:{data,mimeType}}]. *)
Inductive ContentPart : Type :=
| PText (text : string)
| PImageUrl (url : string)
| PImage (media_type : string) (data : option string)
| PInline (data mimeType : string).

(** A message content is a string or an array of parts. *)
Inductive Content : Type :=
| CText (s : string)
| CParts (ps : list ContentPart).

Record Message : Type := mkMessage { role : string; content : Content }.

(** [msg.content === s] for a string [s]. *)
Definition content_is (c : Content) (s : string) : bool :=
  match c with
  | CText t => String.eqb t s
  | CParts _ => false
  end.

(** A file as multer hands it to the handlers in [req.files]. *)
Record UploadedFile : Type := mkFile {
  fieldname : string;
  originalname : string;
  mimetype : string;
  size : Z;
  path : string;
  filename : string }.

(** The record [processUploadedFiles] keeps per session. *)
Record FileInfo : Type := mkFileInfo {
  fi_filename : string;
  fi_originalName : string;
  fi_mimetype : string;
  fi_size : Z;
  fi_path : string }.

(** A file on the disk of the upload directory. *)
Record FsFile : Type := mkFsFile {
  f_size : Z;            (* what [stat] reports *)
  f_data : string;       (* the bytes *)
  f_readable : bool }.   (* [false]: reading it fails with an I/O error *)

(** One row of the durable [chats] table. *)
Record ChatRow : Type := mkChatRow {
  user_id : string;
  messages : option (list Message);
  message_count : option Z }.

(** One row of the durable [users] table. *)
Record Profile : Type := mkProfile {
  is_subscribed : option bool;
  stripe_subscription_id : option string }.

(* ===================================================================== *)
(** ** Outside collaborators *)
(* ===================================================================== *)

Inductive Provider : Type := OpenAI | Gemini | Claude | Grok.

Record ClaudeMessage : Type := mkClaudeMessage {
  c_role : string;
  c_content : list ContentPart }.

(** What the services' model tables resolve a name to.  [TABLE[name]] on an
    object literal finds the entry of that name and, when the table has
    none, the property of that name which every object inherits from
    [Object.prototype] (a function; for [__proto__] the prototype object).
    Such a value is truthy, so [TABLE[name] || fallback] is that value and
    the service goes on with it in the place of a model name. *)
Inductive ModelRef : Type :=
| ModelName (name : string)
| Inherited (property : string).

(** What is sent to a provider endpoint. *)
Inductive NetRequest : Type :=
| ReqOpenAI (model : string) (msgs : list Message) (stream : bool)
| ReqClaude (model : ModelRef) (system : option Content)
            (msgs : list ClaudeMessage) (stream : bool)
| ReqGrok (model : ModelRef) (msgs : list Message) (stream : bool)
| ReqGemini (apiModel : ModelRef) (parts : list ContentPart).

Definition provider_of (r : NetRequest) : Provider :=
  match r with
  | ReqOpenAI _ _ _ => OpenAI
  | ReqClaude _ _ _ _ => Claude
  | ReqGrok _ _ _ => Grok
  | ReqGemini _ _ => Gemini
  end.

(** What comes back from a provider endpoint, with every view the services
    take of it: status, [text()], [json()], the decoded blocks that
    [body.getReader()] delivers (or, for the OpenAI SDK, the chunk objects
    of the async iterator), and the error that ends the stream early. *)
Record NetResponse : Type := mkNetResponse {
  r_ok : bool;
  r_status : string;
  r_statusText : string;
  r_text : string;
  r_json : Outcome Value;
  r_reads : list string;
  r_chunks : list Value;
  r_stream_error : option string }.

Inductive AuthResult : Type :=
| AuthThrows (msg : string)
| AuthError (msg : string)
| AuthNoUser
| AuthUser (id email : string).

(** [process.env], as far as the backend reads it. *)
Record ProcessEnv : Type := mkProcessEnv {
  OPENAI_API_KEY : option string;
  GEMINI_API_KEY : option string;
  CLAUDE_API_KEY : option string;
  GROK_API_KEY : option string }.

(** A server-sent event, the JSON after [data: ]. *)
Inductive SseEvent : Type :=
| SChunk (text : string)                       (* {chunk} *)
| SDone                                        (* {done: true} *)
| SError (msg : string) (details : option string).   (* {error, details?} *)

(** A call on the store (the [users] and [chats] tables). *)
Inductive DbOp : Type :=
| SelectUser (uid : string)
| UpdateUser (uid : string) (flag : bool)
| SelectChat (sid uid : string)
| CountChats (uid : string)
| InsertChat (sid : string)
| UpdateChat (sid : string)
| DeleteChat (sid uid : string).

(** The outside world of one request: the environment variables and the
    answers of the collaborators.  [store_error] is the error, if any, with
    which the store answers an operation of a handler that branches on it:
    the delete of a chat, and the read and the write of the subscription
    override.  The other handlers do not look at the error of their reads
    and writes; for them the store answers. *)
Record Env : Type := mkEnv {
  penv : ProcessEnv;
  auth_getUser : string -> AuthResult;             (* supabase.auth.getUser *)
  stripe_retrieve : string -> Outcome string;      (* subscription status *)
  net : NetRequest -> Outcome NetResponse;         (* fetch / the OpenAI SDK *)
  json_parse : string -> Outcome Value;            (* JSON.parse *)
  base64 : string -> string;                       (* Buffer.toString('base64') *)
  kb_fixed2 : Z -> string;                         (* (size / 1024).toFixed(2) *)
  now : string;                                    (* Date.now() *)
  store_error : DbOp -> option string }.           (* { error } of a store call *)

(* ===================================================================== *)
(** ** backend/config/env.js *)
(* ===================================================================== *)

Module Config.

Definition GEMINI_PLACEHOLDER : string := "<YOUR_GEMINI_API_KEY>".

Definition openai_apiKey (pe : ProcessEnv) : option string := OPENAI_API_KEY pe.
Definition gemini_apiKey (pe : ProcessEnv) : string :=
  or_str (GEMINI_API_KEY pe) GEMINI_PLACEHOLDER.
Definition claude_apiKey (pe : ProcessEnv) : string := or_str (CLAUDE_API_KEY pe) "".
Definition grok_apiKey (pe : ProcessEnv) : string := or_str (GROK_API_KEY pe) "".

Definition gemini_isConfigured (pe : ProcessEnv) : bool :=
  truthy_str (gemini_apiKey pe) && negb (String.eqb (gemini_apiKey pe) GEMINI_PLACEHOLDER).
Definition claude_isConfigured (pe : ProcessEnv) : bool :=
  truthy_str (claude_apiKey pe) && startsWith (claude_apiKey pe) "sk-ant-".
Definition grok_isConfigured (pe : ProcessEnv) : bool :=
  truthy_str (grok_apiKey pe) && startsWith (grok_apiKey pe) "xai-".

End Config.

(* ===================================================================== *)
(** ** Effects: state, log of outside calls, exceptions *)
(* ===================================================================== *)

(** A call on an outside collaborator, in the order the code makes it. *)
Inductive Event : Type :=
| EStatusJson (code : Z) (error : string) (details : option string)
                                          (* res.status(code).json({error,details}) *)
| EJsonReply (reply : string)             (* res.json({reply}) *)
| EJsonSuccess                            (* res.json({success: true}) *)
| ESseHeaders                             (* the setHeader calls opening the event stream *)
| EWrite (e : SseEvent)                   (* res.write(`data: ...`) *)
| EEnd                                    (* res.end() *)
| EAuth (token : string)
| EStripe (id : string)
| EDb (op : DbOp)
| EExists (p : string)                    (* fs.existsSync *)
| EStat (p : string)                      (* fs.promises.stat *)
| EReadFile (p : string)                  (* fs.promises.readFile *)
| EReadHead (p : string)                  (* open/read of the first 100 KiB *)
| EStore (p : string)                     (* multer writing an upload to disk *)
| ENet (r : NetRequest).                  (* a request to a provider endpoint *)

Record World : Type := mkWorld {
  sessionFiles : gmap string (list FileInfo);
  userConversations : gmap string (list Message);
  userSelectedModel : gmap string string;
  chats : gmap string ChatRow;
  users : gmap string Profile;
  disk : gmap string FsFile;
  log : list Event }.

Definition M (A : Type) : Type := World -> Outcome A * World.

Definition ret {A} (a : A) : M A := fun w => (Ok a, w).
Definition throw {A} (msg : string) : M A := fun w => (Throw msg, w).
Definition bind {A B} (m : M A) (k : A -> M B) : M B :=
  fun w => match m w with
           | (Ok a, w') => k a w'
           | (Throw e, w') => (Throw e, w')
           end.
(** [try { m } catch (e) { h e }] *)
Definition try_catch {A} (m : M A) (h : string -> M A) : M A :=
  fun w => match m w with
           | (Ok a, w') => (Ok a, w')
           | (Throw e, w') => h e w'
           end.
Definition lift {A} (o : Outcome A) : M A := fun w => (o, w).
Definition get_world : M World := fun w => (Ok w, w).

Declare Scope m_scope.
Delimit Scope m_scope with M.
Notation "'let*' x ':=' m 'in' k" := (bind m (fun x => k))
  (at level 10, x name, m at level 100, k at level 200, only parsing) : m_scope.
Open Scope m_scope.

Definition emit (e : Event) : M unit :=
  fun w => (Ok tt, mkWorld (sessionFiles w) (userConversations w) (userSelectedModel w)
                           (chats w) (users w) (disk w) (log w ++ [e])).

Definition set_sessionFiles (m : gmap string (list FileInfo)) : M unit :=
  fun w => (Ok tt, mkWorld m (userConversations w) (userSelectedModel w)
                           (chats w) (users w) (disk w) (log w)).
Definition set_userConversations (m : gmap string (list Message)) : M unit :=
  fun w => (Ok tt, mkWorld (sessionFiles w) m (userSelectedModel w)
                           (chats w) (users w) (disk w) (log w)).
Definition set_userSelectedModel (m : gmap string string) : M unit :=
  fun w => (Ok tt, mkWorld (sessionFiles w) (userConversations w) m
                           (chats w) (users w) (disk w) (log w)).
Definition set_chats (m : gmap string ChatRow) : M unit :=
  fun w => (Ok tt, mkWorld (sessionFiles w) (userConversations w) (userSelectedModel w)
                           m (users w) (disk w) (log w)).
Definition set_users (m : gmap string Profile) : M unit :=
  fun w => (Ok tt, mkWorld (sessionFiles w) (userConversations w) (userSelectedModel w)
                           (chats w) m (disk w) (log w)).
Definition set_disk (m : gmap string FsFile) : M unit :=
  fun w => (Ok tt, mkWorld (sessionFiles w) (userConversations w) (userSelectedModel w)
                           (chats w) (users w) m (log w)).

(** [Promise.all(xs.map(f))] and [for (const x of xs)]: the calls are made
    in list order; the first rejection is the result. *)
Fixpoint mapM {A B} (f : A -> M B) (l : list A) : M (list B) :=
  match l with
  | [] => ret []
  | x :: l' => let* y := f x in let* ys := mapM f l' in ret (y :: ys)
  end.

(** The response object. *)
Definition res_status_json (code : Z) (error : string) (details : option string) : M unit :=
  emit (EStatusJson code error details).
Definition res_write (e : SseEvent) : M unit := emit (EWrite e).
Definition res_end : M unit := emit EEnd.

(** The file system. *)
Definition fs_existsSync (p : string) : M bool :=
  let* _ := emit (EExists p) in let* w := get_world in ret (bool_decide (is_Some (disk w !! p))).
Definition fs_stat (p : string) : M Z :=
  let* _ := emit (EStat p) in let* w := get_world in
  match disk w !! p with
  | Some f => ret (f_size f)
  | None => throw ("ENOENT: no such file or directory, stat '" +:+ p +:+ "'")
  end.
Definition fs_readFile (p : string) : M string :=
  let* _ := emit (EReadFile p) in let* w := get_world in
  match disk w !! p with
  | Some f => if f_readable f then ret (f_data f)
              else throw ("EIO: i/o error, read '" +:+ p +:+ "'")
  | None => throw ("ENOENT: no such file or directory, open '" +:+ p +:+ "'")
  end.

(** A provider endpoint. *)
Definition call_net (env : Env) (r : NetRequest) : M NetResponse :=
  let* _ := emit (ENet r) in lift (net env r).

(* ===================================================================== *)
(** ** backend/fileUtils.js *)
(* ===================================================================== *)

Module FileUtils.

Definition MiB : Z := 1024 * 1024.
Definition KiB : Z := 1024.

Definition is_image (f : UploadedFile) : bool := startsWith (mimetype f) "image/".

(** [processUploadedFiles(files, sessionId, sessionFilesMap)] *)
Definition process_one (env : Env) (sid : string) (file : UploadedFile) : M (option FileInfo) :=
  if negb (truthy_str (path file)) then ret None
  else
    let* ex := fs_existsSync (path file) in
    if negb ex then ret None
    else
      let fileInfo :=
        {| fi_filename := or_str (Some (filename file)) ("file-" +:+ now env);
           fi_originalName := or_str (Some (originalname file)) "unknown";
           fi_mimetype := or_str (Some (mimetype file)) "application/octet-stream";
           fi_size := size file;
           fi_path := path file |} in
      let* w := get_world in
      let* _ := set_sessionFiles
                  (<[sid := default [] (sessionFiles w !! sid) ++ [fileInfo]]> (sessionFiles w)) in
      ret (Some fileInfo).

Definition processUploadedFiles (env : Env) (files : list UploadedFile) (sessionId : string)
  : M (list FileInfo) :=
  match files with
  | [] => ret []
  | _ =>
      let sid := if truthy_str sessionId then sessionId else "unknown-" +:+ now env in
      let* w := get_world in
      let* _ := match sessionFiles w !! sid with
                | Some _ => ret tt
                | None => set_sessionFiles (<[sid := []]> (sessionFiles w))
                end in
      let* rs := mapM (fun f => try_catch (process_one env sid f) (fun _ => ret None)) files in
      ret (omap id rs)
  end.

(** The first 100 KiB of a file, as [fd.read] into a fresh buffer gives. *)
Definition fs_readHead (p : string) : M string :=
  let* _ := emit (EReadHead p) in
  let* w := get_world in
  match disk w !! p with
  | Some f => if f_readable f
              then ret (String.substring 0 (Z.to_nat (100 * KiB)) (f_data f))
              else throw ("EIO: i/o error, read '" +:+ p +:+ "'")
  | None => throw ("ENOENT: no such file or directory, open '" +:+ p +:+ "'")
  end.

Definition TRUNCATED : string :=
  String (Ascii.ascii_of_nat 10) (String (Ascii.ascii_of_nat 10)
    "... [Content truncated due to size] ...").

(** [readFileContent(filePath)]: [None] is [null]. *)
Definition readFileContent (filePath : string) : M (option string) :=
  try_catch
    (let* ex := fs_existsSync filePath in
     if negb ex then ret None
     else
       let* sz := fs_stat filePath in
       if 1 * MiB <? sz then
         let* content := fs_readHead filePath in
         ret (Some (content +:+ TRUNCATED))
       else
         let* content := fs_readFile filePath in
         ret (Some content))
    (fun _ => ret None).

(** [fileToDataURL(filePath, mimeType)]: [None] is [null]. *)
Definition fileToDataURL (env : Env) (filePath mimeType : string) : M (option string) :=
  try_catch
    (let* ex := fs_existsSync filePath in
     if negb ex then ret None
     else
       let* sz := fs_stat filePath in
       if 10 * MiB <? sz then ret None
       else
         let* fileBuffer := fs_readFile filePath in
         let base64Data := base64 env fileBuffer in
         ret (Some ("data:" +:+ or_str (Some mimeType) "application/octet-stream"
                      +:+ ";base64," +:+ base64Data)))
    (fun _ => ret None).

(** The filter both image preparers start with:
    [file && file.mimetype && file.mimetype.startsWith('image/') && fs.existsSync(file.path)] *)
Fixpoint filter_images (files : list UploadedFile) : M (list UploadedFile) :=
  match files with
  | [] => ret []
  | f :: rest =>
      let* keep := if truthy_str (mimetype f) && is_image f
                   then fs_existsSync (path f) else ret false in
      let* rest' := filter_images rest in
      ret (if keep then f :: rest' else rest')
  end.

Definition claude_image (env : Env) (file : UploadedFile) : M (option ContentPart) :=
  try_catch
    (let* sz := fs_stat (path file) in
     if 10 * MiB <? sz then ret None
     else
       let* fileBuffer := fs_readFile (path file) in
       ret (Some (PImage (mimetype file) (Some (base64 env fileBuffer)))))
    (fun _ => ret None).

(** [prepareClaudeImages(files)] *)
Definition prepareClaudeImages (env : Env) (files : list UploadedFile) : M (list ContentPart) :=
  match files with
  | [] => ret []
  | _ =>
      let* imageFiles := filter_images files in
      match imageFiles with
      | [] => ret []
      | _ =>
          try_catch
            (let* results := mapM (claude_image env) imageFiles in
             ret (omap id results))
            (fun _ => ret [])
      end
  end.

Definition gemini_image (env : Env) (file : UploadedFile) : M (option ContentPart) :=
  try_catch
    (let* sz := fs_stat (path file) in
     if 10 * MiB <? sz then ret None
     else
       let* fileBuffer := fs_readFile (path file) in
       ret (Some (PInline (base64 env fileBuffer) (mimetype file))))
    (fun _ => ret None).

(** The Grok branch and the default (OpenAI) branch have the same body. *)
Definition dataurl_image (env : Env) (file : UploadedFile) : M (option ContentPart) :=
  try_catch
    (let* sz := fs_stat (path file) in
     if 20 * MiB <? sz then ret None
     else
       let* dataUrl := fileToDataURL env (path file) (mimetype file) in
       match dataUrl with
       | None => ret None
       | Some u => if truthy_str u then ret (Some (PImageUrl u)) else ret None
       end)
    (fun _ => ret None).

Definition grok_image := dataurl_image.
Definition openai_image := dataurl_image.

(** [prepareImagesForModel(files, targetModel)]; a [None] entry is a [null]
    left in the returned array.  The per-file calls of one [Promise.all] are
    listed file after file; for each file they come in the order of the
    source. *)
Definition prepareImagesForModel (env : Env) (files : list UploadedFile) (targetModel : string)
  : M (list (option ContentPart)) :=
  match files with
  | [] => ret []
  | _ =>
      let* imageFiles := filter_images files in
      match imageFiles with
      | [] => ret []
      | _ =>
          if includes targetModel "claude" then
            let* r := prepareClaudeImages env imageFiles in ret (map Some r)
          else
            try_catch
              (if includes targetModel "gemini" then mapM (gemini_image env) imageFiles
               else if includes targetModel "grok" then mapM (grok_image env) imageFiles
               else mapM (openai_image env) imageFiles)
              (fun _ => ret [])
      end
  end.

End FileUtils.

(** A value stored or sent where the data model has text: its string form. *)
Definition text_of (v : Value) : string :=
  match v with
  | Some j => to_string j
  | None => "undefined"
  end.

(** The entries of a static alias table: [own_property table name] is the
    entry the object literal has under [name] itself. *)
Fixpoint own_property (table : list (string * string)) (name : string) : option string :=
  match table with
  | [] => None
  | (k, v) :: rest => if String.eqb name k then Some v else own_property rest name
  end.

(** The names of the properties of [Object.prototype]. *)
Definition OBJECT_PROTOTYPE : list string :=
  [ "constructor"; "__defineGetter__"; "__defineSetter__"; "hasOwnProperty";
    "__lookupGetter__"; "__lookupSetter__"; "isPrototypeOf"; "propertyIsEnumerable";
    "toString"; "valueOf"; "__proto__"; "toLocaleString" ].

Definition inherited (name : string) : bool :=
  existsb (String.eqb name) OBJECT_PROTOTYPE.

(** [TABLE[name] || fallback]: the table's own entry if it is truthy; else,
    for the name of an inherited property, that property; else the
    fallback. *)
Definition resolve_alias (table : list (string * string)) (name fallback : string) : ModelRef :=
  match own_property table name with
  | Some v => ModelName (if truthy_str v then v else fallback)
  | None => if inherited name then Inherited name else ModelName fallback
  end.

Definition LF : string := String (Ascii.ascii_of_nat 10) EmptyString.

(* ===================================================================== *)
(** ** backend/geminiService.js *)
(* ===================================================================== *)

Module GeminiService.

Definition GEMINI_MODEL_MAPPING : list (string * string) :=
  [ ("gemini-pro", "gemini-pro");
    ("gemini-pro-vision", "gemini-pro-vision");
    ("gemini-2.0-flash", "gemini-2.0-flash");
    ("gemini-flash", "gemini-2.0-flash");
    ("gemini-2.0-pro", "gemini-2.0-pro") ].

(** [isGeminiConfigured()] *)
Definition isGeminiConfigured (pe : ProcessEnv) : bool :=
  truthy_str (Config.gemini_apiKey pe)
  && negb (String.eqb (Config.gemini_apiKey pe) "<YOUR_GEMINI_API_KEY>").

(** [getCurrentGeminiModel(modelName)] *)
Definition getCurrentGeminiModel (modelName : string) : ModelRef :=
  resolve_alias GEMINI_MODEL_MAPPING modelName "gemini-pro".

Definition gemini_inline (env : Env) (file : UploadedFile) : M (option ContentPart) :=
  try_catch
    (let* fileBuffer := fs_readFile (path file) in
     ret (Some (PInline (base64 env fileBuffer) (mimetype file))))
    (fun _ => ret None).

(** [processImagesForGemini(imageFiles)] *)
Definition processImagesForGemini (env : Env) (imageFiles : list UploadedFile)
  : M (list (option ContentPart)) :=
  match imageFiles with
  | [] => ret []
  | _ => try_catch (mapM (gemini_inline env) imageFiles) (fun _ => ret [])
  end.

Definition DEFAULT_REPLY : string := "Error processing Gemini response.".

(** The extraction of the reply text from the parsed response body. *)
Definition extract_reply (geminiData : Value) : Outcome string :=
  let candidates := getp_opt geminiData "candidates" in
  if truthy candidates && nonempty_arr candidates then
    match get0 candidates with
    | Throw e => Throw e
    | Ok candidate =>
        match getp candidate "content" with
        | Throw e => Throw e
        | Ok content =>
            if truthy content then
              match getp content "parts" with
              | Throw e => Throw e
              | Ok parts =>
                  if truthy parts && nonempty_arr parts then
                    match get0 parts with
                    | Throw e => Throw e
                    | Ok part0 =>
                        match getp part0 "text" with
                        | Throw e => Throw e
                        | Ok text => Ok (if truthy text then text_of text else DEFAULT_REPLY)
                        end
                    end
                  else Ok DEFAULT_REPLY
              end
            else Ok DEFAULT_REPLY
        end
    end
  else Ok DEFAULT_REPLY.

(** [generateGeminiResponse(userContent, modelName, imageFiles)] *)
Definition generateGeminiResponse (env : Env) (userContent : string) (modelName : string)
    (imageFiles : list UploadedFile) : M string :=
  let geminiModel := getCurrentGeminiModel modelName in
  if negb (isGeminiConfigured (penv env)) then
    throw "Gemini API key not configured. Please contact administrator."
  else
    let hasImages := match imageFiles with [] => false | _ => true end in
    let* apiModel :=
      if hasImages then
        match geminiModel with
        | ModelName g =>
            ret (if negb (includes g "2.0") && negb (includes g "gemini-pro-vision")
                 then ModelName "gemini-pro-vision" else geminiModel)
        | Inherited _ => throw "geminiModel.includes is not a function"
        end
      else ret geminiModel in
    let parts0 := if truthy_str userContent then [PText userContent] else [] in
    let* parts :=
      if hasImages then
        let* processedImages := processImagesForGemini env imageFiles in
        ret (parts0 ++ omap id processedImages)
      else ret parts0 in
    let* geminiResponse := call_net env (ReqGemini apiModel parts) in
    if negb (r_ok geminiResponse) then
      throw ("Gemini API responded with " +:+ r_status geminiResponse +:+ ": "
               +:+ r_text geminiResponse)
    else
      let* geminiData := lift (r_json geminiResponse) in
      lift (extract_reply geminiData).

(** [handleGeminiStreamingRequest(res, userContent, selectedModel, imageFiles)] *)
Definition handleGeminiStreamingRequest (env : Env) (userContent : string)
    (selectedModel : string) (imageFiles : list UploadedFile) : M string :=
  try_catch
    (let* botReply := generateGeminiResponse env userContent selectedModel imageFiles in
     let* _ := res_write (SChunk botReply) in
     let* _ := res_write SDone in
     let* _ := res_end in
     ret botReply)
    (fun error =>
       let* _ := res_write (SError ("Gemini API error: " +:+ error) None) in
       let* _ := res_end in
       throw error).

End GeminiService.

(* ===================================================================== *)
(** ** backend/openaiService.js *)
(* ===================================================================== *)

Module OpenAIService.

(** [isOpenAIConfigured()] *)
Definition isOpenAIConfigured (pe : ProcessEnv) : bool :=
  match Config.openai_apiKey pe with
  | Some k => truthy_str k && startsWith k "sk-"
  | None => false
  end.

(** [response.choices[0].message.content] *)
Definition completion_content (response : Value) : Outcome Value :=
  match getp response "choices" with
  | Throw e => Throw e
  | Ok choices =>
      match get0 choices with
      | Throw e => Throw e
      | Ok c0 =>
          match getp c0 "message" with
          | Throw e => Throw e
          | Ok message => getp message "content"
          end
      end
  end.

(** [generateOpenAIResponse(messages, model)] *)
Definition generateOpenAIResponse (env : Env) (messages : list Message) (model : string)
  : M string :=
  if negb (isOpenAIConfigured (penv env)) then
    throw "OpenAI API key not configured. Please contact administrator."
  else
    let* response := call_net env (ReqOpenAI model messages false) in
    let* body := lift (r_json response) in
    let* content := lift (completion_content body) in
    ret (text_of content).

(** [chunk.choices[0]?.delta?.content || ''] *)
Definition chunk_content (chunk : Value) : Outcome string :=
  match getp chunk "choices" with
  | Throw e => Throw e
  | Ok choices =>
      match get0 choices with
      | Throw e => Throw e
      | Ok c0 =>
          let content := getp_opt (getp_opt c0 "delta") "content" in
          Ok (if truthy content then text_of content else "")
      end
  end.

(** The [for await] loop: each chunk with content is written and appended. *)
Fixpoint openai_loop (chunks : list Value) (completeResponse : string) : M string :=
  match chunks with
  | [] => ret completeResponse
  | chunk :: rest =>
      let* content := lift (chunk_content chunk) in
      if truthy_str content then
        let* _ := res_write (SChunk content) in
        openai_loop rest (completeResponse +:+ content)
      else openai_loop rest completeResponse
  end.

(** [generateOpenAIStreamingResponse(res, messages, model, onComplete)];
    [None] is the [undefined] of the early return. *)
Definition generateOpenAIStreamingResponse (env : Env) (messages : list Message)
    (model : string) (onComplete : string -> M unit) : M (option string) :=
  if negb (isOpenAIConfigured (penv env)) then
    let* _ := res_write (SError "OpenAI API key not configured. Please contact administrator." None) in
    let* _ := res_end in
    ret None
  else
    try_catch
      (let* stream := call_net env (ReqOpenAI model messages true) in
       let* completeResponse := openai_loop (r_chunks stream) "" in
       let* _ := match r_stream_error stream with
                 | Some e => throw e
                 | None => ret tt
                 end in
       let* _ := res_write SDone in
       let* _ := res_end in
       let* _ := onComplete completeResponse in
       ret (Some completeResponse))
      (fun error =>
         let* _ := res_write (SError "Failed to generate AI response" (Some error)) in
         let* _ := res_end in
         throw error).

End OpenAIService.

(* ===================================================================== *)
(** ** The streaming loop shared by the fetch-based services *)
(* ===================================================================== *)

(** The Claude and the Grok service read the response body with the same
    loop: every decoded block is split into lines; a line starting with
    [data: ] other than [data: [DONE]] is parsed, and when the service's
    extraction finds content, it is written as a chunk and appended to
    [completeResponse].  A parse or extraction error is caught per line.
    [extract] is the extraction of each service. *)
Section StreamLoop.
Variable env : Env.
Variable extract : Value -> Outcome (option string).

Definition line_content (line : string) : option string :=
  if startsWith line "data: " then
    if String.eqb line "data: [DONE]" then None
    else
      match json_parse env (substring_from 6 line) with
      | Throw _ => None
      | Ok data =>
          match extract data with
          | Throw _ => None
          | Ok c => c
          end
      end
  else None.

Fixpoint lines_loop (lines : list string) (completeResponse : string) : M string :=
  match lines with
  | [] => ret completeResponse
  | line :: rest =>
      match line_content line with
      | Some content =>
          let* _ := res_write (SChunk content) in
          lines_loop rest (completeResponse +:+ content)
      | None => lines_loop rest completeResponse
      end
  end.

Fixpoint reads_loop (reads : list string) (completeResponse : string) : M string :=
  match reads with
  | [] => ret completeResponse
  | chunk :: rest =>
      let* acc := lines_loop (split (Ascii.ascii_of_nat 10) chunk) completeResponse in
      reads_loop rest acc
  end.

(** From [response.body.getReader()] to the end of the function body. *)
Definition stream_body (response : NetResponse) (onComplete : string -> M unit)
  : M (option string) :=
  let* completeResponse := reads_loop (r_reads response) "" in
  let* _ := match r_stream_error response with
            | Some e => throw e
            | None => ret tt
            end in
  let* _ := res_write SDone in
  let* _ := res_end in
  let* _ := onComplete completeResponse in
  ret (Some completeResponse).

(** The [catch] of the streaming functions. *)
Definition stream_catch (error : string) : M (option string) :=
  let* _ := res_write (SError "Failed to generate AI response" (Some error)) in
  let* _ := res_end in
  throw error.
End StreamLoop.

(* ===================================================================== *)
(** ** backend/claudeService.js *)
(* ===================================================================== *)

Module ClaudeService.

Definition CLAUDE_MODEL_MAPPING : list (string * string) :=
  [ ("claude-3-5-sonnet", "claude-3-5-sonnet-20240620");
    ("claude-3-7-sonnet", "claude-3-7-sonnet-20250219");
    ("claude-3-opus", "claude-3-opus-20240229");
    ("claude-3-haiku", "claude-3-5-haiku-20240307") ].

(** [isClaudeConfigured()] *)
Definition isClaudeConfigured (pe : ProcessEnv) : bool := Config.claude_isConfigured pe.

(** [getClaudeModelName(modelName)] *)
Definition getClaudeModelName (modelName : string) : ModelRef :=
  if includes modelName "-202" then ModelName modelName
  else resolve_alias CLAUDE_MODEL_MAPPING modelName "claude-3-5-sonnet-20240620".

(** One content part, reshaped for Claude. *)
Definition format_part (p : ContentPart) : list ContentPart :=
  match p with
  | PText t => [PText t]
  | PImage mt d => [PImage mt d]
  | PImageUrl url =>
      if startsWith url "data:" then
        let parts := split "," url in
        let mediaType :=
          nth 1 (split ":" (nth 0 (split ";" (nth 0 parts "")) "")) "" in
        [PImage mediaType (parts !! 1%nat)]
      else []
  | PInline _ _ => []
  end.

Definition format_message (msg : Message) : list ClaudeMessage :=
  if String.eqb (role msg) "system" then []
  else if String.eqb (role msg) "user" || String.eqb (role msg) "assistant" then
    match content msg with
    | CParts ps => [mkClaudeMessage (role msg) (concat (map format_part ps))]
    | CText s => [mkClaudeMessage (role msg) [PText s]]
    end
  else [].

(** [formatMessagesForClaude(messages)] *)
Definition formatMessagesForClaude (messages : list Message) : Content * list ClaudeMessage :=
  let systemMessages := filter (fun m => String.eqb (role m) "system" = true) messages in
  let systemPrompt := match systemMessages with
                      | m :: _ => content m
                      | [] => CText ""
                      end in
  (systemPrompt, concat (map format_message messages)).

Definition truthy_content (c : Content) : bool :=
  match c with
  | CText s => truthy_str s
  | CParts _ => true
  end.

Definition claude_request (messages : list Message) (model : string) (stream : bool) : NetRequest :=
  let '(systemPrompt, formattedMessages) := formatMessagesForClaude messages in
  ReqClaude (getClaudeModelName model)
            (if truthy_content systemPrompt then Some systemPrompt else None)
            formattedMessages stream.

Definition http_error (name : string) (response : NetResponse) : string :=
  name +:+ " API error: " +:+ r_status response +:+ " " +:+ r_statusText response.

(** [data.content[0].text] *)
Definition reply_text (data : Value) : Outcome Value :=
  match getp data "content" with
  | Throw e => Throw e
  | Ok c =>
      match get0 c with
      | Throw e => Throw e
      | Ok c0 => getp c0 "text"
      end
  end.

(** [generateClaudeResponse(messages, model)] *)
Definition generateClaudeResponse (env : Env) (messages : list Message) (model : string)
  : M string :=
  if negb (isClaudeConfigured (penv env)) then
    throw "Claude API key not configured. Please contact administrator."
  else
    let* response := call_net env (claude_request messages model false) in
    if negb (r_ok response) then throw (http_error "Claude" response)
    else
      let* data := lift (r_json response) in
      let* text := lift (reply_text data) in
      ret (text_of text).

(** [data.type === 'content_block_delta' && data.delta && data.delta.text] *)
Definition delta_text (data : Value) : Outcome (option string) :=
  match getp data "type" with
  | Throw e => Throw e
  | Ok (Some (JStr "content_block_delta")) =>
      match getp data "delta" with
      | Throw e => Throw e
      | Ok delta =>
          if truthy delta then
            match getp delta "text" with
            | Throw e => Throw e
            | Ok text => Ok (if truthy text then Some (text_of text) else None)
            end
          else Ok None
      end
  | Ok _ => Ok None
  end.

(** [generateClaudeStreamingResponse(res, messages, model, onComplete)] *)
Definition generateClaudeStreamingResponse (env : Env) (messages : list Message)
    (model : string) (onComplete : string -> M unit) : M (option string) :=
  if negb (isClaudeConfigured (penv env)) then
    let* _ := res_write (SError "Claude API key not configured. Please contact administrator." None) in
    let* _ := res_end in
    ret None
  else
    try_catch
      (let* response := call_net env (claude_request messages model true) in
       if negb (r_ok response) then throw (http_error "Claude" response)
       else stream_body env delta_text response onComplete)
      stream_catch.

End ClaudeService.

(* ===================================================================== *)
(** ** backend/grokService.js *)
(* ===================================================================== *)

Module GrokService.

Definition GROK_MODEL_MAPPING : list (string * string) :=
  [ ("grok-1", "grok-1");
    ("grok-2", "grok-2-latest");
    ("grok-2-latest", "grok-2-latest");
    ("grok", "grok-2-latest") ].

(** [isGrokConfigured()] *)
Definition isGrokConfigured (pe : ProcessEnv) : bool := Config.grok_isConfigured pe.

(** [getGrokModelName(modelName)] *)
Definition getGrokModelName (modelName : string) : ModelRef :=
  resolve_alias GROK_MODEL_MAPPING modelName "grok-2-latest".

(** [generateGrokResponse(messages, model)] *)
Definition generateGrokResponse (env : Env) (messages : list Message) (model : string)
  : M string :=
  if negb (isGrokConfigured (penv env)) then
    throw "Grok API key not configured. Please contact administrator."
  else
    let* response := call_net env (ReqGrok (getGrokModelName model) messages false) in
    if negb (r_ok response) then throw (ClaudeService.http_error "Grok" response)
    else
      let* data := lift (r_json response) in
      let* text := lift (OpenAIService.completion_content data) in
      ret (text_of text).

(** [data.choices && data.choices[0] && data.choices[0].delta
     && data.choices[0].delta.content] *)
Definition delta_content (data : Value) : Outcome (option string) :=
  match getp data "choices" with
  | Throw e => Throw e
  | Ok choices =>
      if truthy choices then
        match get0 choices with
        | Throw e => Throw e
        | Ok c0 =>
            if truthy c0 then
              match getp c0 "delta" with
              | Throw e => Throw e
              | Ok delta =>
                  if truthy delta then
                    match getp delta "content" with
                    | Throw e => Throw e
                    | Ok c => Ok (if truthy c then Some (text_of c) else None)
                    end
                  else Ok None
              end
            else Ok None
        end
      else Ok None
  end.

(** [generateGrokStreamingResponse(res, messages, model, onComplete)] *)
Definition generateGrokStreamingResponse (env : Env) (messages : list Message)
    (model : string) (onComplete : string -> M unit) : M (option string) :=
  if negb (isGrokConfigured (penv env)) then
    let* _ := res_write (SError "Grok API key not configured. Please contact administrator." None) in
    let* _ := res_end in
    ret None
  else
    try_catch
      (let* response := call_net env (ReqGrok (getGrokModelName model) messages true) in
       if negb (r_ok response) then throw (ClaudeService.http_error "Grok" response)
       else stream_body env delta_content response onComplete)
      stream_catch.

End GrokService.

(* ===================================================================== *)
(** ** backend/server.js *)
(* ===================================================================== *)

Module Server.

Import FileUtils.

(** One file part of a multipart request, before the upload middleware. *)
Record Part : Type := mkPart {
  part_fieldname : string;
  part_originalname : string;
  part_mimetype : string;
  part_size : Z;           (* length of the part in bytes *)
  part_data : string;
  part_suffix : string }.  (* unique suffix and extension the storage engine draws for it *)

Record Request : Type := mkRequest {
  body_sessionId : option string;
  body_message : option string;
  body_model : option string;
  parts : list Part;
  authorization : option string }.

(** A handler that has answered stops; otherwise it goes on with a value. *)
Inductive Flow (A : Type) : Type :=
| Continue (a : A)
| Returned.
Arguments Continue {A} a.
Arguments Returned {A}.

Notation "'let?' x ':=' m 'in' k" :=
  (bind m (fun r => match r with Continue x => k | Returned => ret Returned end))
  (at level 10, x name, m at level 100, k at level 200, only parsing) : m_scope.

(** *** The upload middleware *)

(** [limits: { fileSize: 10 * 1024 * 1024 }] *)
Definition fileSize_limit : Z := 10 * 1024 * 1024.

(** [fileFilter] *)
Definition fileFilter (mt : string) : bool :=
  startsWith mt "image/" || includes mt "pdf" || includes mt "text/"
  || includes mt "application/json" || includes mt "csv".

Definition stored_file (sid : string) (p : Part) : UploadedFile :=
  let name := part_fieldname p +:+ "-" +:+ part_suffix p in
  {| fieldname := part_fieldname p;
     originalname := part_originalname p;
     mimetype := part_mimetype p;
     size := part_size p;
     path := "uploads/" +:+ sid +:+ "/" +:+ name;
     filename := name |}.

Inductive UploadResult : Type :=
| Uploaded (files : list UploadedFile)
| LIMIT_FILE_SIZE.

(** multer's [.any()] with the disk storage: the parts are taken in order;
    a part the filter refuses is skipped; an accepted part is written to the
    session's upload directory; an accepted part longer than the limit
    aborts the upload. *)
Fixpoint upload (sid : string) (ps : list Part) : M UploadResult :=
  match ps with
  | [] => ret (Uploaded [])
  | p :: rest =>
      if negb (fileFilter (part_mimetype p)) then upload sid rest
      else if fileSize_limit <? part_size p then ret LIMIT_FILE_SIZE
      else
        let file := stored_file sid p in
        let* _ := emit (EStore (path file)) in
        let* w := get_world in
        let* _ := set_disk (<[path file := mkFsFile (part_size p) (part_data p) true]> (disk w)) in
        let* r := upload sid rest in
        match r with
        | Uploaded files => ret (Uploaded (file :: files))
        | LIMIT_FILE_SIZE => ret LIMIT_FILE_SIZE
        end
  end.

(** [enhancedUpload(req, res, next)]: [Continue files] is the call of
    [next()] with [req.files = files].  An aborted upload leaves no file of
    the request on disk. *)
Definition enhancedUpload (req : Request) : M (Flow (list UploadedFile)) :=
  let* w0 := get_world in
  let* r := upload (or_str (body_sessionId req) "unknown") (parts req) in
  match r with
  | LIMIT_FILE_SIZE =>
      let* _ := set_disk (disk w0) in
      let* _ := res_status_json 413 "File too large. Maximum size is 10MB." None in
      ret Returned
  | Uploaded files => ret (Continue files)
  end.

(** *** Subscription status *)

Definition db_select_user (uid : string) : M (option Profile) :=
  let* _ := emit (EDb (SelectUser uid)) in
  let* w := get_world in ret (users w !! uid).

Definition db_update_user (uid : string) (flag : bool) : M unit :=
  let* _ := emit (EDb (UpdateUser uid flag)) in
  let* w := get_world in
  set_users (alter (fun p => mkProfile (Some flag) (stripe_subscription_id p)) uid (users w)).

Definition stripe_subscriptions_retrieve (env : Env) (id : string) : M string :=
  let* _ := emit (EStripe id) in lift (stripe_retrieve env id).

Definition flag_of (profile : option Profile) : bool :=
  match profile with
  | Some p => default false (is_subscribed p)
  | None => false
  end.

(** [isUserSubscribed(userId)] *)
Definition isUserSubscribed (env : Env) (userId : string) : M bool :=
  try_catch
    (if negb (truthy_str userId) then ret false
     else
       let* profile := db_select_user userId in
       match profile with
       | Some p =>
           if truthy_ostr (stripe_subscription_id p) then
             try_catch
               (let* status := stripe_subscriptions_retrieve env
                                 (default "" (stripe_subscription_id p)) in
                let isActive := String.eqb status "active" || String.eqb status "trialing" in
                let* _ := if bool_decide (is_subscribed p = Some isActive) then ret tt
                          else db_update_user userId isActive in
                ret isActive)
               (fun _ => ret (flag_of profile))
           else ret (flag_of profile)
       | None => ret (flag_of profile)
       end)
    (fun _ => ret false).

(** *** The durable chats table *)

(** [from('chats').select('messages, message_count').eq('id', sessionId)
     .eq('user_id', uid).maybeSingle()] *)
Definition db_select_chat (sid uid : string) : M (option ChatRow) :=
  let* _ := emit (EDb (SelectChat sid uid)) in
  let* w := get_world in
  ret (match chats w !! sid with
       | Some row => if String.eqb (user_id row) uid then Some row else None
       | None => None
       end).

(** [from('chats').select('*', { count: 'exact', head: true }).eq('user_id', uid)] *)
Definition db_count_chats (uid : string) : M Z :=
  let* _ := emit (EDb (CountChats uid)) in
  let* w := get_world in
  ret (Z.of_nat (base.size (filter (fun kv => user_id (snd kv) = uid) (chats w)))).

(** [from('chats').insert(row)]; [id] is the key of the table: inserting an
    id that is taken fails and changes nothing. *)
Definition db_insert_chat (sid : string) (row : ChatRow) : M unit :=
  let* _ := emit (EDb (InsertChat sid)) in
  let* w := get_world in
  match chats w !! sid with
  | Some _ => ret tt
  | None => set_chats (<[sid := row]> (chats w))
  end.

(** [from('chats').update({messages, message_count}).eq('id', sid)] *)
Definition db_update_chat (sid : string) (msgs : list Message) (count : Z) : M unit :=
  let* _ := emit (EDb (UpdateChat sid)) in
  let* w := get_world in
  set_chats (alter (fun row => mkChatRow (user_id row) (Some msgs) (Some count)) sid (chats w)).

(** [x || 0] on a number. *)
Definition or_zero (o : option Z) : Z :=
  match o with Some n => n | None => 0 end.

(** The "Save chat to database" block, which the one-shot handler, the
    Gemini branch of the streaming handler and [saveCompletedChat] share. *)
Definition save_chat (existingChat : option ChatRow) (sessionId uid userContent reply : string)
  : M unit :=
  try_catch
    (match existingChat with
     | None =>
         let chatMessages := [ mkMessage "user" (CText userContent);
                               mkMessage "assistant" (CText reply) ] in
         db_insert_chat sessionId (mkChatRow uid (Some chatMessages) (Some 1))
     | Some existing =>
         let updatedMessages :=
           default [] (messages existing)
             ++ [ mkMessage "user" (CText userContent); mkMessage "assistant" (CText reply) ] in
         db_update_chat sessionId updatedMessages (or_zero (message_count existing) + 1)
     end)
    (fun _ => ret tt).

(** *** The in-memory conversation *)

Definition SYSTEM_PROMPT : string := "You are PantherAI, a helpful assistant.".

(** [conversationHistory.push(msg)] on the array stored for the session. *)
Definition history_push (sid : string) (msg : Message) : M unit :=
  let* w := get_world in
  set_userConversations
    (<[sid := default [] (userConversations w !! sid) ++ [msg]]> (userConversations w)).

(** "Initialize conversation in memory if needed" *)
Definition init_conversation (sid : string) (model : option string) : M unit :=
  let* w := get_world in
  match userConversations w !! sid with
  | Some _ => ret tt
  | None =>
      let* _ := set_userConversations
                  (<[sid := [mkMessage "system" (CText SYSTEM_PROMPT)]]>
                     (userConversations w)) in
      set_userSelectedModel
        (<[sid := or_str model "gpt-3.5-turbo"]> (userSelectedModel w))
  end.

(** The choice of [selectedModel]: the model of the request, else the one
    last used in the session, else the baseline. *)
Definition select_model (sid : string) (model : option string) : M string :=
  let* w := get_world in
  let selectedModel :=
    if truthy_ostr model then default "" model
    else or_str (userSelectedModel w !! sid) "gpt-3.5-turbo" in
  let* _ := set_userSelectedModel (<[sid := selectedModel]> (userSelectedModel w)) in
  ret selectedModel.

(** *** Model access control *)

Definition premiumModels : list string := ["gpt-4"; "claude"; "grok"; "deepseek"].

(** [premiumModels.some(pm => selectedModel.toLowerCase().includes(pm))] *)
Definition isPremiumModel (selectedModel : string) : bool :=
  let modelName := toLowerCase selectedModel in
  existsb (fun pm => includes modelName pm) premiumModels.

(** [n >= 20] where [n] may be [null]. *)
Definition ge_num (o : option Z) (k : Z) : bool := k <=? or_zero o.

(** "Enforce free tier chat limits".  [reject] is how the handler answers:
    a 403 JSON body on the one-shot path, an error event on the stream. *)
Definition check_quota (isSubscribed : bool) (existingChat : option ChatRow) (uid : string)
    (reject_chats reject_messages : M unit) : M (Flow unit) :=
  if negb isSubscribed then
    match existingChat with
    | None =>
        let* totalChats := db_count_chats uid in
        if 3 <=? totalChats then let* _ := reject_chats in ret Returned
        else ret (Continue tt)
    | Some c =>
        if ge_num (message_count c) 20 then let* _ := reject_messages in ret Returned
        else ret (Continue tt)
    end
  else ret (Continue tt).

(** *** Documents attached to the message *)

Definition is_readable_text (mt : string) : bool :=
  startsWith mt "text/" || includes mt "json" || includes mt "csv".

Definition FENCE : string := "```".

Definition text_file_info (env : Env) (file : UploadedFile) : M string :=
  let fileInfo := "- " +:+ originalname file +:+ " (" +:+ mimetype file +:+ ", "
                    +:+ kb_fixed2 env (size file) +:+ " KB)" in
  if is_readable_text (mimetype file) then
    try_catch
      (let* fileContent := readFileContent (path file) in
       ret (if truthy_ostr fileContent
            then fileInfo +:+ LF +:+ LF +:+ "Content of " +:+ originalname file +:+ ":" +:+ LF
                   +:+ FENCE +:+ LF +:+ default "" fileContent +:+ LF +:+ FENCE
            else fileInfo))
      (fun _ => ret fileInfo)
  else ret (fileInfo +:+ LF +:+ "[Binary file]").

Definition text_files_content (env : Env) (textFiles : list UploadedFile) : M string :=
  match textFiles with
  | [] => ret ""
  | _ =>
      try_catch
        (let* textFilesInfo := mapM (text_file_info env) textFiles in
         ret ("I've attached the following text-based files:" +:+ LF
                +:+ join (LF +:+ LF) textFilesInfo +:+ LF +:+ LF))
        (fun _ => ret "I've attached some text files, but they couldn't be processed properly.")
  end.

(** [message || ''] followed by the text of the documents. *)
Definition user_content (message : option string) (textFilesContent : string) : string :=
  let userContent := or_str message "" in
  if truthy_str textFilesContent
  then userContent +:+ (if truthy_str userContent then LF +:+ LF else "") +:+ textFilesContent
  else userContent.

Definition image_message (userContent : string) (valid : list ContentPart) : Message :=
  let promptText := or_str (Some userContent) "Please analyze these images and provide insights:" in
  mkMessage "user" (CParts (PText promptText :: valid)).

Definition nonempty {A} (l : list A) : bool :=
  match l with [] => false | _ => true end.

(** *** POST /api/chat *)

(** The three image branches of the one-shot handler share this body. *)
Definition chat_with_images (env : Env) (imageFiles : list UploadedFile) (target : string)
    (userContent : string) (messages : list Message) : M (list Message) :=
  let* imageContents := prepareImagesForModel env imageFiles target in
  let validImageContents := omap id imageContents in
  if nonempty validImageContents
  then ret (removelast messages ++ [image_message userContent validImageContents])
  else ret messages.

Definition chat_images (env : Env) (selectedModel : string) (imageFiles : list UploadedFile)
    (userContent : string) (messages : list Message) : M (Flow (list Message)) :=
  if nonempty imageFiles then
    try_catch
      (let* ms :=
         if includes selectedModel "claude"
         then chat_with_images env imageFiles "claude" userContent messages
         else if negb (includes selectedModel "gemini") && negb (includes selectedModel "grok")
         then chat_with_images env imageFiles "openai" userContent messages
         else if includes selectedModel "grok"
         then chat_with_images env imageFiles "grok" userContent messages
         else ret messages in
       ret (Continue ms))
      (fun e =>
         let* _ := res_status_json 500 ("Error processing images: " +:+ e) None in
         ret Returned)
  else ret (Continue messages).

(** "Handle different model types" *)
Definition chat_dispatch (env : Env) (selectedModel userContent : string)
    (imageFiles : list UploadedFile) (messages : list Message) : M string :=
  if includes selectedModel "gemini"
  then GeminiService.generateGeminiResponse env userContent selectedModel imageFiles
  else if includes selectedModel "claude"
  then ClaudeService.generateClaudeResponse env messages selectedModel
  else if includes selectedModel "grok"
  then GrokService.generateGrokResponse env messages selectedModel
  else OpenAIService.generateOpenAIResponse env messages selectedModel.

(** "Process any uploaded files for this message" *)
Definition register_uploads (env : Env) (files : list UploadedFile) (sessionId : string)
    (fail : string -> M unit) : M (Flow unit) :=
  if nonempty files then
    try_catch
      (let* _ := processUploadedFiles env files sessionId in ret (Continue tt))
      (fun e => let* _ := fail ("Error processing uploaded files: " +:+ e) in ret Returned)
  else ret (Continue tt).

(** From the processing of the uploads to the choice of the model: the
    uploads are registered, the conversation is initialised, the documents
    are read into the user message, the message is appended to the
    conversation.  The result is [userContent] and [selectedModel]. *)
Definition chat_attachments (env : Env) (req : Request) (files : list UploadedFile)
    (sessionId : string) : M (Flow (string * string)) :=
  let? _ := register_uploads env files sessionId
              (fun msg => res_status_json 500 msg None) in
  let* _ := init_conversation sessionId (body_model req) in
  let imageFiles := filter (fun f => is_image f = true) files in
  let textFiles := filter (fun f => is_image f = false) files in
  let* textFilesContent := text_files_content env textFiles in
  let userContent0 := user_content (body_message req) textFilesContent in
  let userContent :=
    if negb (truthy_str userContent0) && (nonempty imageFiles || nonempty textFiles)
    then "Please analyze the attached files." else userContent0 in
  let* _ := history_push sessionId (mkMessage "user" (CText userContent)) in
  let* selectedModel := select_model sessionId (body_model req) in
  ret (Continue (userContent, selectedModel)).

(** The block under the innermost [try] of the one-shot handler: images,
    provider call, conversation update, durable save, answer. *)
Definition chat_generate (env : Env) (files : list UploadedFile)
    (selectedModel userContent : string) (existingChat : option ChatRow)
    (sessionId uid : string) : M (Flow unit) :=
  let imageFiles := filter (fun f => is_image f = true) files in
  try_catch
    (let* w := get_world in
     let messages0 := default [] (userConversations w !! sessionId) in
     let? messages := chat_images env selectedModel imageFiles userContent messages0 in
     let* botReply := chat_dispatch env selectedModel userContent imageFiles messages in
     let* _ := history_push sessionId (mkMessage "assistant" (CText botReply)) in
     let* _ := save_chat existingChat sessionId uid userContent botReply in
     let* _ := emit (EJsonReply botReply) in
     ret (Continue tt))
    (fun error =>
       let* _ := res_status_json 500 (selectedModel +:+ " API error: " +:+ error) None in
       ret Returned).

Definition QUOTA_CHATS : string :=
  "Free tier limit reached: Maximum 3 chats allowed. Please upgrade to continue.".
Definition QUOTA_MESSAGES : string :=
  "Free tier limit: Maximum 20 messages per chat reached. Please start a new chat or upgrade for unlimited access.".
Definition PREMIUM_REQUIRED : string :=
  "Model not available for free users. Please subscribe to access this model.".

(** The handler from the subscription check on, for the authenticated user. *)
Definition chat_authenticated (env : Env) (req : Request) (files : list UploadedFile)
    (sessionId uid : string) : M (Flow unit) :=
  let* isSubscribed := isUserSubscribed env uid in
  let* existingChat := db_select_chat sessionId uid in
  let? _ := check_quota isSubscribed existingChat uid
              (res_status_json 403 QUOTA_CHATS None)
              (res_status_json 403 QUOTA_MESSAGES None) in
  let? p := chat_attachments env req files sessionId in
  let userContent := fst p in
  let selectedModel := snd p in
  if isPremiumModel selectedModel && negb isSubscribed then
    let* _ := res_status_json 403 PREMIUM_REQUIRED None in
    ret Returned
  else
    chat_generate env files selectedModel userContent existingChat sessionId uid.

(** [authHeader.split(' ')[1]] *)
Definition bearer_token (authHeader : string) : option string :=
  split " " authHeader !! 1%nat.

(** The handler, after the upload middleware called [next()]. *)
Definition chat_handler (env : Env) (req : Request) (files : list UploadedFile) : M unit :=
  try_catch
    (if negb (truthy_ostr (body_sessionId req))
        || (negb (truthy_ostr (body_message req)) && negb (nonempty files))
     then res_status_json 400 "Session ID and either message or files are required." None
     else
       let sessionId := default "" (body_sessionId req) in
       if negb (truthy_ostr (authorization req))
       then res_status_json 401 "Missing Authorization header" None
       else
         let token := bearer_token (default "" (authorization req)) in
         if negb (truthy_ostr token)
         then res_status_json 401 "Malformed Authorization header" None
         else
           try_catch
             (let* _ := emit (EAuth (default "" token)) in
              match auth_getUser env (default "" token) with
              | AuthThrows e => throw e
              | AuthError msg => res_status_json 401 ("Authentication failed: " +:+ msg) None
              | AuthNoUser => res_status_json 401 "No user found for this token" None
              | AuthUser uid _ =>
                  let* _ := chat_authenticated env req files sessionId uid in ret tt
              end)
             (fun _ => res_status_json 500 "Authentication error" None))
    (fun error => res_status_json 500 "Internal server error" (Some error)).

(** [app.post("/api/chat", enhancedUpload, handler)] *)
Definition chat (env : Env) (req : Request) : M unit :=
  let* up := enhancedUpload req in
  match up with
  | Returned => ret tt
  | Continue files => chat_handler env req files
  end.

(** *** POST /api/chat/stream *)

Definition STREAM_SYSTEM_PROMPT : string :=
  "You are PantherAI, a helpful assistant that can analyze various types of documents and images to help users.".

(** An error event followed by the end of the stream. *)
Definition stream_error (msg : string) (details : option string) : M unit :=
  let* _ := res_write (SError msg details) in res_end.

Definition last_is_user (messages : list Message) : bool :=
  match last messages with
  | Some m => String.eqb (role m) "user"
  | None => false
  end.

(** The three image branches of the streaming handler share this body. *)
Definition stream_with_images (env : Env) (imageFiles : list UploadedFile) (target name : string)
    (userContent : string) (messages : list Message) : M (Flow (list Message)) :=
  let* imageContents := prepareImagesForModel env imageFiles target in
  let validImageContents := omap id imageContents in
  if nonempty validImageContents then
    let messages' := if last_is_user messages then removelast messages else messages in
    ret (Continue (messages' ++ [image_message userContent validImageContents]))
  else
    let* _ := stream_error ("Failed to process image attachments for " +:+ name) None in
    ret Returned.

Definition stream_images (env : Env) (selectedModel : string) (imageFiles : list UploadedFile)
    (userContent : string) (messages : list Message) : M (Flow (list Message)) :=
  if nonempty imageFiles then
    try_catch
      (if includes selectedModel "claude"
       then stream_with_images env imageFiles "claude" "Claude" userContent messages
       else if negb (includes selectedModel "gemini") && negb (includes selectedModel "grok")
       then stream_with_images env imageFiles "openai" "OpenAI" userContent messages
       else if includes selectedModel "grok"
       then stream_with_images env imageFiles "grok" "Grok" userContent messages
       else ret (Continue messages))
      (fun e =>
         let* _ := stream_error ("Error processing images: " +:+ e) None in
         ret Returned)
  else ret (Continue messages).

(** [saveCompletedChat(completeResponse)] *)
Definition saveCompletedChat (existingChat : option ChatRow) (sessionId uid userContent : string)
    (completeResponse : string) : M unit :=
  let* w := get_world in
  let conversationHistory := default [] (userConversations w !! sessionId) in
  let* _ :=
    if truthy_str userContent
       && negb (existsb (fun msg => String.eqb (role msg) "user"
                                    && content_is (content msg) userContent)
                        conversationHistory)
    then history_push sessionId (mkMessage "user" (CText userContent))
    else ret tt in
  let* _ := history_push sessionId (mkMessage "assistant" (CText completeResponse)) in
  save_chat existingChat sessionId uid userContent completeResponse.

(** "Handle different model types with cleaner logic" *)
Definition stream_dispatch (env : Env) (selectedModel userContent : string)
    (imageFiles : list UploadedFile) (messages : list Message)
    (existingChat : option ChatRow) (sessionId uid : string) : M unit :=
  let onComplete := saveCompletedChat existingChat sessionId uid userContent in
  if includes selectedModel "gemini" then
    try_catch
      (let geminiUserContent := or_str (Some userContent) "Please analyze these images." in
       let* botReply := GeminiService.handleGeminiStreamingRequest
                          env geminiUserContent selectedModel imageFiles in
       let* _ := history_push sessionId (mkMessage "user" (CText userContent)) in
       let* _ := history_push sessionId (mkMessage "assistant" (CText botReply)) in
       save_chat existingChat sessionId uid userContent botReply)
      (fun _ => ret tt)
  else if includes selectedModel "claude" then
    try_catch
      (let* _ := ClaudeService.generateClaudeStreamingResponse env messages selectedModel onComplete in
       ret tt)
      (fun _ => ret tt)
  else if includes selectedModel "grok" then
    try_catch
      (let* _ := GrokService.generateGrokStreamingResponse env messages selectedModel onComplete in
       ret tt)
      (fun _ => ret tt)
  else
    let* _ := OpenAIService.generateOpenAIStreamingResponse env messages selectedModel onComplete in
    ret tt.

(** The block under the innermost [try] of the streaming handler. *)
Definition stream_generate (env : Env) (req : Request) (files : list UploadedFile)
    (selectedModel : string) (existingChat : option ChatRow) (sessionId uid : string)
  : M (Flow unit) :=
  let* w := get_world in
  let conversationHistory := default [] (userConversations w !! sessionId) in
  let messages0 :=
    mkMessage "system" (CText STREAM_SYSTEM_PROMPT) :: tail conversationHistory in
  let imageFiles :=
    filter (fun f => (truthy_str (mimetype f) && is_image f) = true) files in
  let textFiles :=
    filter (fun f => (truthy_str (mimetype f) && negb (is_image f)) = true) files in
  let* textFilesContent := text_files_content env textFiles in
  let userContent0 := user_content (body_message req) textFilesContent in
  let userContent :=
    if negb (truthy_str userContent0) && negb (nonempty imageFiles)
    then "Please analyze the attached files." else userContent0 in
  let messages1 :=
    if truthy_str userContent
    then messages0 ++ [mkMessage "user" (CText userContent)] else messages0 in
  let? messages := stream_images env selectedModel imageFiles userContent messages1 in
  let* _ := stream_dispatch env selectedModel userContent imageFiles messages
              existingChat sessionId uid in
  ret (Continue tt).

(** From the processing of the uploads to the choice of the model. *)
Definition stream_attachments (env : Env) (req : Request) (files : list UploadedFile)
    (sessionId : string) : M (Flow string) :=
  let? _ := register_uploads env files sessionId (fun msg => stream_error msg None) in
  let* _ := init_conversation sessionId (body_model req) in
  let* selectedModel := select_model sessionId (body_model req) in
  ret (Continue selectedModel).

Definition STREAM_QUOTA_CHATS : string :=
  "Free tier limit reached: Maximum 3 chats allowed.".
Definition STREAM_QUOTA_MESSAGES : string :=
  "Free tier limit: Maximum 20 messages per chat reached.".

(** The handler from the subscription check on, for the authenticated user. *)
Definition stream_authenticated (env : Env) (req : Request) (files : list UploadedFile)
    (sessionId uid : string) : M (Flow unit) :=
  let* isSubscribed := isUserSubscribed env uid in
  let* existingChat := db_select_chat sessionId uid in
  let? _ := check_quota isSubscribed existingChat uid
              (stream_error STREAM_QUOTA_CHATS None)
              (stream_error STREAM_QUOTA_MESSAGES None) in
  let? selectedModel := stream_attachments env req files sessionId in
  if isPremiumModel selectedModel && negb isSubscribed then
    let* _ := stream_error PREMIUM_REQUIRED None in
    ret Returned
  else
    try_catch
      (stream_generate env req files selectedModel existingChat sessionId uid)
      (fun error =>
         let* _ := stream_error "Failed to generate AI response" (Some error) in
         ret Returned).

(** The handler, after the upload middleware called [next()]. *)
Definition chat_stream_handler (env : Env) (req : Request) (files : list UploadedFile) : M unit :=
  try_catch
    (if negb (truthy_ostr (body_sessionId req))
     then res_status_json 400 "Session ID is required." None
     else
       let sessionId := default "" (body_sessionId req) in
       let hasMessage := truthy_ostr (body_message req)
                         && trim_nonempty (default "" (body_message req)) in
       let hasFiles := nonempty files in
       if negb hasMessage && negb hasFiles
       then res_status_json 400 "Message or files are required." None
       else if negb (truthy_ostr (authorization req))
       then res_status_json 401 "Missing Authorization header" None
       else
         let token := bearer_token (default "" (authorization req)) in
         if negb (truthy_ostr token)
         then res_status_json 401 "Malformed Authorization header" None
         else
           let* _ := emit ESseHeaders in
           try_catch
             (let* _ := emit (EAuth (default "" token)) in
              match auth_getUser env (default "" token) with
              | AuthThrows e => throw e
              | AuthError msg => stream_error ("Authentication failed: " +:+ msg) None
              | AuthNoUser => stream_error "No user found for this token" None
              | AuthUser uid _ =>
                  let* _ := stream_authenticated env req files sessionId uid in ret tt
              end)
             (fun err => stream_error "Authentication error" (Some err)))
    (fun error => stream_error "Internal server error" (Some error)).

(** [app.post("/api/chat/stream", enhancedUpload, handler)] *)
Definition chat_stream (env : Env) (req : Request) : M unit :=
  let* up := enhancedUpload req in
  match up with
  | Returned => ret tt
  | Continue files => chat_stream_handler env req files
  end.

(** *** DELETE /api/chat/:sessionId *)

(** [from('chats').delete().eq('id', sid).eq('user_id', uid)] *)
(** The result is [deleteError]: a refused delete removes nothing. *)
Definition db_delete_chat (env : Env) (sid uid : string) : M (option string) :=
  let* _ := emit (EDb (DeleteChat sid uid)) in
  match store_error env (DeleteChat sid uid) with
  | Some e => ret (Some e)
  | None =>
      let* w := get_world in
      let* _ := match chats w !! sid with
                | Some row =>
                    if String.eqb (user_id row) uid then set_chats (delete sid (chats w))
                    else ret tt
                | None => ret tt
                end in
      ret None
  end.

Definition chat_delete (env : Env) (sessionId : string) (authHeader : option string) : M unit :=
  if negb (truthy_str sessionId)
  then res_status_json 400 "Chat ID is required." None
  else if negb (truthy_ostr authHeader)
  then res_status_json 401 "Missing Authorization header" None
  else
    let token := bearer_token (default "" authHeader) in
    if negb (truthy_ostr token)
    then res_status_json 401 "Malformed Authorization header" None
    else
      try_catch
        (let* _ := emit (EAuth (default "" token)) in
         match auth_getUser env (default "" token) with
         | AuthThrows e => throw e
         | AuthError msg => res_status_json 401 ("Authentication failed: " +:+ msg) None
         | AuthNoUser => res_status_json 401 "No user found for this token" None
         | AuthUser uid _ =>
             try_catch
               (let* deleteError := db_delete_chat env sessionId uid in
                match deleteError with
                | Some _ => res_status_json 500 "Failed to delete chat." None
                | None =>
                    let* w := get_world in
                    let* _ := set_sessionFiles (delete sessionId (sessionFiles w)) in
                    let* _ := set_userConversations (delete sessionId (userConversations w)) in
                    let* _ := set_userSelectedModel (delete sessionId (userSelectedModel w)) in
                    emit EJsonSuccess
                end)
               (fun _ => res_status_json 500 "Internal server error" None)
         end)
        (fun _ => res_status_json 500 "Authentication error" None).

End Server.

(* ===================================================================== *)
(** ** Specifications over the effect layer *)
(* ===================================================================== *)
(** [hoare P m Q]: from a world satisfying [P], the run of [m] ends with an
    outcome and a world related by [Q].  Every run ends: [M] is a total
    function of the world. *)
Definition hoare {A} (P : World -> Prop) (m : M A) (Q : Outcome A -> World -> Prop) : Prop :=
  forall w, P w -> Q (m w).1 (m w).2.

(** [inv I m]: the run of [m] preserves [I], whatever its outcome. *)
Definition inv {A} (I : World -> Prop) (m : M A) : Prop :=
  forall w, I w -> I (m w).2.

(** [total m]: [m] never throws. *)
Definition total {A} (m : M A) : Prop :=
  forall w, exists a, (m w).1 = Ok a.

(** *** The log *)
Definition add_log (w : World) (l : list Event) : World :=
  mkWorld (sessionFiles w) (userConversations w) (userSelectedModel w)
          (chats w) (users w) (disk w) (log w ++ l).

(** [extends P L0 w]: the log of [w] is [L0] followed by events that all
    satisfy [P]. *)
Definition extends (P : Event -> bool) (L0 : list Event) (w : World) : Prop :=
  exists l, log w = L0 ++ l /\ forallb P l = true.

(** [emits P m]: whatever the world, [m] adds to the log only events
    satisfying [P]. *)
Definition emits {A} (P : Event -> bool) (m : M A) : Prop :=
  forall L0, inv (extends P L0) m.

(** Event classes. *)
Definition is_net (e : Event) : bool := match e with ENet _ => true | _ => false end.

Definition is_fs (e : Event) : bool :=
  match e with
  | EExists _ | EStat _ | EReadFile _ | EReadHead _ => true
  | _ => false
  end.

Definition is_read (e : Event) : bool :=
  match e with EReadFile _ | EReadHead _ => true | _ => false end.

(* ===================================================================== *)
(** ** The provider adapters under one interface *)
(* ===================================================================== *)
(** What the handlers pass to a service. *)
Record Args : Type := mkArgs {
  a_messages : list Message;
  a_model : string;
  a_userContent : string;
  a_imageFiles : list UploadedFile }.

(** The three entry points every service exports, and the credential its
    configuration check looks at. *)
Class Adapter : Type := mkAdapter {
  provider : Provider;
  credential : ProcessEnv -> option string;      (* the environment variable *)
  plausible : string -> bool;                    (* the syntactic test on it *)
  isConfigured : ProcessEnv -> bool;
  generate : Env -> Args -> M string;
  generateStreaming : Env -> Args -> (string -> M unit) -> M (option string) }.

#[local] Instance openai_adapter : Adapter :=
  {| provider := OpenAI;
     credential := OPENAI_API_KEY;
     plausible := fun k => startsWith k "sk-";
     isConfigured := OpenAIService.isOpenAIConfigured;
     generate := fun env a => OpenAIService.generateOpenAIResponse env (a_messages a) (a_model a);
     generateStreaming := fun env a k =>
       OpenAIService.generateOpenAIStreamingResponse env (a_messages a) (a_model a) k |}.

#[local] Instance claude_adapter : Adapter :=
  {| provider := Claude;
     credential := CLAUDE_API_KEY;
     plausible := fun k => startsWith k "sk-ant-";
     isConfigured := ClaudeService.isClaudeConfigured;
     generate := fun env a => ClaudeService.generateClaudeResponse env (a_messages a) (a_model a);
     generateStreaming := fun env a k =>
       ClaudeService.generateClaudeStreamingResponse env (a_messages a) (a_model a) k |}.

#[local] Instance grok_adapter : Adapter :=
  {| provider := Grok;
     credential := GROK_API_KEY;
     plausible := fun k => startsWith k "xai-";
     isConfigured := GrokService.isGrokConfigured;
     generate := fun env a => GrokService.generateGrokResponse env (a_messages a) (a_model a);
     generateStreaming := fun env a k =>
       GrokService.generateGrokStreamingResponse env (a_messages a) (a_model a) k |}.

(** The Gemini service takes the user text and the image files; its
    streaming entry point has no completion callback. *)
#[local] Instance gemini_adapter : Adapter :=
  {| provider := Gemini;
     credential := GEMINI_API_KEY;
     plausible := fun k => negb (String.eqb k Config.GEMINI_PLACEHOLDER);
     isConfigured := GeminiService.isGeminiConfigured;
     generate := fun env a =>
       GeminiService.generateGeminiResponse env (a_userContent a) (a_model a) (a_imageFiles a);
     generateStreaming := fun env a _ =>
       let* r := GeminiService.handleGeminiStreamingRequest
                   env (a_userContent a) (a_model a) (a_imageFiles a) in
       ret (Some r) |}.

Definition adapters : list Adapter :=
  [openai_adapter; gemini_adapter; claude_adapter; grok_adapter].

(** The message of a configuration error. *)
Definition not_configured (p : Provider) : string :=
  match p with
  | OpenAI => "OpenAI" | Gemini => "Gemini" | Claude => "Claude" | Grok => "Grok"
  end +:+ " API key not configured. Please contact administrator.".

(** A one-shot call that stopped at the configuration check: it throws the
    configuration error and has called nothing. *)
Definition config_failure (p : Provider) (w : World) (r : Outcome string * World) : Prop :=
  r = (Throw (not_configured p), w).

(** A streaming call that stopped at the configuration check: it has only
    written one error event naming the configuration error and ended the
    stream; the completion callback has not run. *)
Definition config_failure_streaming (p : Provider) (w : World)
    (r : Outcome (option string) * World) : Prop :=
  exists msg,
    includes msg (not_configured p) = true /\
    (r.1 = Ok None \/ r.1 = Throw (not_configured p)) /\
    r.2 = add_log w [EWrite (SError msg None); EEnd].

(* ===================================================================== *)
(** ** Simulated streaming *)
(* ===================================================================== *)

(** Streaming simulated over a blocking call, as the adapter contract
    describes it: the blocking call is made; its whole result is delivered
    as one chunk, followed at once by the done event; a failure of the call
    is delivered as one error event and raised again. *)
Definition simulated_streaming (errorPrefix : string) (generate : M string) : M string :=
  fun w =>
    match generate w with
    | (Ok text, w1) => (Ok text, add_log w1 [EWrite (SChunk text); EWrite SDone; EEnd])
    | (Throw e, w1) => (Throw e, add_log w1 [EWrite (SError (errorPrefix +:+ e) None); EEnd])
    end.

(** The events written on the stream, in order. *)
Definition sse_of (l : list Event) : list SseEvent :=
  omap (fun e => match e with EWrite s => Some s | _ => None end) l.

(** The chunk strings written on the stream, in order. *)
Definition chunks_of (l : list Event) : list string :=
  omap (fun e => match e with EWrite (SChunk s) => Some s | _ => None end) l.

Definition is_terminal (s : SseEvent) : bool :=
  match s with SDone | SError _ _ => true | SChunk _ => false end.



(** Neither a terminal event nor the end of the response. *)
Definition streaming (e : Event) : bool :=
  match e with
  | EWrite s => negb (is_terminal s)
  | EEnd | EStatusJson _ _ _ | EJsonReply _ | EJsonSuccess => false
  | _ => true
  end.


(** The stream opened at the end of [L1] has been ended: chunks at most
    were written, then one terminal event, then the response was ended.
    What the handler does after that ([rest]) reaches the client no more. *)
Definition Ended (L1 : list Event) (w : World) : Prop :=
  exists l t rest,
    log w = L1 ++ l ++ [EWrite t; EEnd] ++ rest
    /\ forallb streaming l = true /\ is_terminal t = true.

Definition is_store (e : Event) : bool := match e with EStore _ => true | _ => false end.

(** A world that differs from [w] in its disk and by a longer log. *)
Definition with_disk_log (w : World) (d : gmap string FsFile) (l : list Event) : World :=
  mkWorld (sessionFiles w) (userConversations w) (userSelectedModel w)
          (chats w) (users w) d (log w ++ l).

(** The answer of the upload middleware to an upload over the limit. *)
Definition TOO_LARGE : Event := EStatusJson 413 "File too large. Maximum size is 10MB." None.

(* ===================================================================== *)
(** ** The durable record of a turn *)
(* ===================================================================== *)

Definition turn_messages (userContent reply : string) : list Message :=
  [mkMessage "user" (CText userContent); mkMessage "assistant" (CText reply)].

(** The row a first turn creates. *)
Definition fresh_row (uid userContent reply : string) : ChatRow :=
  mkChatRow uid (Some (turn_messages userContent reply)) (Some 1).

(** The row a later turn leaves. *)
Definition appended_row (row : ChatRow) (userContent reply : string) : ChatRow :=
  mkChatRow (user_id row)
            (Some (default [] (messages row) ++ turn_messages userContent reply))
            (Some (Server.or_zero (message_count row) + 1)).

(** The row of session [sid] that user [uid] can see. *)
Definition select_row (c : gmap string ChatRow) (sid uid : string) : option ChatRow :=
  match c !! sid with
  | Some row => if String.eqb (user_id row) uid then Some row else None
  | None => None
  end.

(** What persisting one turn of user [uid] in session [sid] does to the
    table: a new row; or two more messages and one more on the counter of
    the user's row; nothing when the id belongs to another user's chat. *)
Definition persist (sid uid userContent reply : string) (c : gmap string ChatRow)
  : gmap string ChatRow :=
  match c !! sid with
  | None => <[sid := fresh_row uid userContent reply]> c
  | Some row =>
      if String.eqb (user_id row) uid
      then <[sid := appended_row row userContent reply]> c
      else c
  end.

(** The effect of one chat request on the chats table: none; or a new
    row holding the two messages of the turn with the counter at 1; or an
    existing row with the two messages of the turn appended and the counter
    increased by 1. *)
Inductive turn_effect (c : gmap string ChatRow) : gmap string ChatRow -> Prop :=
| turn_none : turn_effect c c
| turn_insert sid uid userContent reply :
    c !! sid = None ->
    turn_effect c (<[sid := fresh_row uid userContent reply]> c)
| turn_update sid row userContent reply :
    c !! sid = Some row ->
    turn_effect c (<[sid := appended_row row userContent reply]> c).

(** A row whose counter is half the number of its messages. *)
Definition row_ok (row : ChatRow) : Prop :=
  exists ms n, messages row = Some ms /\ message_count row = Some n
               /\ Z.of_nat (length ms) = 2 * n.

Definition db_ok (c : gmap string ChatRow) : Prop :=
  forall sid row, c !! sid = Some row -> row_ok row.

(** The worlds the server can be in: it starts with an empty chats table
    and serves chat, streaming-chat and delete requests. *)
Inductive reachable : World -> Prop :=
| reach_start w : chats w = ∅ -> reachable w
| reach_chat env req w : reachable w -> reachable (Server.chat env req w).2
| reach_stream env req w : reachable w -> reachable (Server.chat_stream env req w).2
| reach_delete env sid auth w : reachable w -> reachable (Server.chat_delete env sid auth w).2.

(** [steps I F m]: from a world satisfying [I], the run of [m] ends in a
    world satisfying [F], whatever its outcome. *)
Definition steps {A} (I F : World -> Prop) (m : M A) : Prop :=
  forall w, I w -> F (m w).2.

(** [gives I m v]: from a world satisfying [I], [m] returns [v]. *)
Definition gives {A} (I : World -> Prop) (m : M A) (v : A) : Prop :=
  forall w, I w -> (m w).1 = Ok v.

Definition with_chats_log (w : World) (c : gmap string ChatRow) (l : list Event) : World :=
  mkWorld (sessionFiles w) (userConversations w) (userSelectedModel w)
          c (users w) (disk w) (log w ++ l).

Definition is_db (e : Event) : bool := match e with EDb _ => true | _ => false end.

(* ===================================================================== *)
(** ** The states of a streaming turn *)
(* ===================================================================== *)

Definition is_chunk (e : Event) : bool :=
  match e with EWrite (SChunk _) => true | _ => false end.
Definition is_done (e : Event) : bool :=
  match e with EWrite SDone => true | _ => false end.
Definition not_done (e : Event) : bool := negb (is_done e).
(** Neither a chunk nor the done event. *)
Definition quiet (e : Event) : bool := negb (is_chunk e) && negb (is_done e).

Section StreamStates.
Variable L0 : list Event.               (* the log when the request arrives *)
Variable c0 : gmap string ChatRow.      (* the chats table when it arrives *)
Variable sid : string.                  (* the session of the request *)
Variable uid : string.                  (* the user of the request *)

(** Nothing of the answer has been written yet. *)
Definition Before (w : World) : Prop :=
  chats w = c0 /\ extends quiet L0 w.

(** Chunks are being written; [acc] is the accumulation buffer. *)
Definition Streaming (acc : string) (w : World) : Prop :=
  chats w = c0 /\
  exists l, log w = L0 ++ l /\ forallb not_done l = true /\ concat_str (chunks_of l) = acc.

(** The turn ended without a done event. *)
Definition Failed (w : World) : Prop :=
  chats w = c0 /\ extends not_done L0 w.

(** The done event has been written; nothing is persisted yet. *)
Definition Completed (reply : string) (w : World) : Prop :=
  chats w = c0 /\
  exists l, log w = L0 ++ l /\ existsb is_done l = true /\ concat_str (chunks_of l) = reply.

(** The done event has been written and the turn is persisted: the
    assistant message appended to the session in memory, and the one
    given to the durable store for the user of the request, is the
    concatenation of the chunks. *)
Definition Persisted (w : World) : Prop :=
  exists l userContent,
    log w = L0 ++ l /\ existsb is_done l = true /\
    chats w = persist sid uid userContent (concat_str (chunks_of l)) c0 /\
    exists hist,
      userConversations w !! sid
      = Some (hist ++ [mkMessage "assistant" (CText (concat_str (chunks_of l)))]).
End StreamStates.

Definition with_conversations (w : World) (m : gmap string (list Message)) : World :=
  mkWorld (sessionFiles w) m (userSelectedModel w) (chats w) (users w) (disk w) (log w).

(* ===================================================================== *)
(** ** Access control: what a request is answered with *)
(* ===================================================================== *)

(** The subscription status that [isUserSubscribed] resolves, as a function
    of the users table and of the billing service. *)
Definition subscribed (env : Env) (us : gmap string Profile) (uid : string) : bool :=
  if negb (truthy_str uid) then false
  else
    match us !! uid with
    | Some p =>
        if truthy_ostr (stripe_subscription_id p) then
          match stripe_retrieve env (default "" (stripe_subscription_id p)) with
          | Ok status => String.eqb status "active" || String.eqb status "trialing"
          | Throw _ => default false (is_subscribed p)
          end
        else default false (is_subscribed p)
    | None => false
    end.

(** The model a request asks for: the model it names, else the one last
    used in its session, else the baseline. *)
Definition requested_model (w : World) (sid : string) (model : option string) : string :=
  if truthy_ostr model then default "" model
  else
    match userConversations w !! sid with
    | Some _ => or_str (userSelectedModel w !! sid) "gpt-3.5-turbo"
    | None => "gpt-3.5-turbo"
    end.

(** The calls that answer the client. *)
Definition is_response (e : Event) : bool :=
  match e with
  | EStatusJson _ _ _ | EJsonReply _ | EJsonSuccess | EWrite _ | EEnd => true
  | _ => false
  end.

Definition responses (l : list Event) : list Event :=
  List.filter is_response l.

(** Neither an answer to the client nor a call on a provider. *)
Definition silent (e : Event) : bool := negb (is_response e) && negb (is_net e).

Definition no_net (l : list Event) : Prop := forallb (fun e => negb (is_net e)) l = true.
Definition no_fs (l : list Event) : Prop := forallb (fun e => negb (is_fs e)) l = true.

(** [Rejected L0 answer w]: since [L0], the request has been answered with
    [answer] and nothing else, and no provider has been called. *)
Definition Rejected (L0 : list Event) (answer : list Event) (w : World) : Prop :=
  exists l, log w = L0 ++ l /\ responses l = answer /\ no_net l.

(** The answers of the two endpoints to a request they refuse: a 403 with
    a JSON body; one error event and the end of the stream. *)
Definition answer403 (msg : string) : list Event := [EStatusJson 403 msg None].
Definition answer_error (msg : string) : list Event := [EWrite (SError msg None); EEnd].

(** A request that passes the intake checks of both chat endpoints and the
    identity check, as user [uid] in session [sid]. *)
Definition authenticated (env : Env) (req : Server.Request) (files : list UploadedFile)
    (sid tok uid : string) : Prop :=
  Server.body_sessionId req = Some sid /\ truthy_str sid = true
  /\ ((truthy_ostr (Server.body_message req)
       && trim_nonempty (default "" (Server.body_message req)))
      || Server.nonempty files) = true
  /\ (exists h, Server.authorization req = Some h /\ Server.bearer_token h = Some tok)
  /\ truthy_str tok = true
  /\ exists email, auth_getUser env tok = AuthUser uid email.

(* ===================================================================== *)
(** ** The order of the access checks *)
(* ===================================================================== *)
(** The calls by which the handlers resolve the subscription and read the
    quota counters. *)
Definition is_access (e : Event) : bool :=
  match e with
  | EStripe _ => true
  | EDb (SelectUser _) | EDb (UpdateUser _ _) | EDb (SelectChat _ _) | EDb (CountChats _) => true
  | _ => false
  end.

(** The work that costs: attachment processing on the disk and provider
    calls. *)
Definition is_work (e : Event) : bool := is_fs e || is_net e.

Definition no_work (e : Event) : bool := negb (is_work e).
Definition no_access (e : Event) : bool := negb (is_access e).

(** [ordered P Q L0 w]: since [L0], the log is a run of events satisfying
    [P] followed by a run of events satisfying [Q]. *)
Definition ordered (P Q : Event -> bool) (L0 : list Event) (w : World) : Prop :=
  exists l1, forallb P l1 = true /\ extends Q (L0 ++ l1) w.

(** The free tier is used up: twenty on the counter of the session's row,
    or no row for the session and three chats already. *)
Definition over_quota (c : gmap string ChatRow) (sid uid : string) : bool :=
  match select_row c sid uid with
  | Some row => Server.ge_num (message_count row) 20
  | None => 3 <=? Z.of_nat (base.size (filter (fun kv => user_id (snd kv) = uid) c))
  end.


(* ===================================================================== *)
(** ** Concrete inputs *)
(* ===================================================================== *)

Module Sample.

Import Server.

(** A fresh process: empty maps, empty tables, empty disk, empty log. *)
Definition w0 : World := mkWorld ∅ ∅ ∅ ∅ ∅ ∅ [].

Definition no_keys : ProcessEnv := mkProcessEnv None None None None.
Definition all_keys : ProcessEnv :=
  mkProcessEnv (Some "sk-test") (Some "AIza-test") (Some "sk-ant-test") (Some "xai-test").

Definition net_down (r : NetRequest) : Outcome NetResponse := Throw "connect ECONNREFUSED".

(** An environment whose identity service knows every token as user [u1],
    with no billing record. *)
Definition env_of (pe : ProcessEnv) (n : NetRequest -> Outcome NetResponse) : Env :=
  mkEnv pe (fun _ => AuthUser "u1" "user@example.com")
        (fun _ => Throw "No such subscription") n
        (fun _ => Throw "SyntaxError: Unexpected token") (fun s => s) (fun _ => "0.00") "0" (fun _ => None).

Definition args0 : Args := mkArgs [mkMessage "user" (CText "hello")] "gpt-3.5-turbo" "hello" [].

(** Two stored images: one byte over 10 MiB, and a small one. *)
Definition big_image : UploadedFile :=
  mkFile "files" "big.png" "image/png" (10 * 1024 * 1024 + 1)
         "uploads/s1/files-1.png" "files-1.png".
Definition small_image : UploadedFile :=
  mkFile "files" "small.png" "image/png" 4 "uploads/s1/files-2.png" "files-2.png".

Definition disk_images : gmap string FsFile :=
  <[path big_image := mkFsFile (10 * 1024 * 1024 + 1) "BIG" true]>
    (<[path small_image := mkFsFile 4 "tiny" true]> ∅).

Definition w_images : World := mkWorld ∅ ∅ ∅ ∅ ∅ disk_images [].

Definition gemini_ok : NetResponse :=
  mkNetResponse true "200" "OK" ""
    (Ok (Some (JObj [("candidates",
                      JArr [JObj [("content",
                                   JObj [("parts", JArr [JObj [("text", JStr "A picture.")]])])]])])))
    [] [] None.

(** A request carrying an archive of 11 MiB, which the upload filter
    refuses, and one carrying an image of 11 MiB. *)
Definition zip_part : Part :=
  mkPart "files" "backup.zip" "application/zip" (11 * 1024 * 1024) "PK" "7.zip".
Definition big_part : Part :=
  mkPart "files" "big.png" "image/png" (11 * 1024 * 1024) "BIG" "8.png".

Definition req_zip : Request :=
  mkRequest (Some "s1") (Some "hello") (Some "gpt-3.5-turbo") [zip_part] (Some "Bearer t").
Definition req_big : Request :=
  mkRequest (Some "s1") (Some "hello") (Some "gpt-3.5-turbo") [big_part] (Some "Bearer t").

(** A request for a Gemini model carrying a small image and an image one
    byte over 10 MiB, and the same request with the small image alone. *)
Definition small_part : Part := mkPart "files" "small.png" "image/png" 4 "tiny" "1.png".
Definition over_part : Part :=
  mkPart "files" "big.png" "image/png" (10 * 1024 * 1024 + 1) "BIG" "2.png".

Definition req_images : Request :=
  mkRequest (Some "s1") (Some "look") (Some "gemini-2.0-flash") [small_part; over_part]
            (Some "Bearer t").
Definition req_small_image : Request :=
  mkRequest (Some "s1") (Some "look") (Some "gemini-2.0-flash") [small_part]
            (Some "Bearer t").

Definition env_gemini : Env := env_of all_keys (fun _ => Ok gemini_ok).

(** An OpenAI stream delivering "he" and "llo", and the completion "hi". *)
Definition delta (s : string) : Value :=
  Some (JObj [("choices", JArr [JObj [("delta", JObj [("content", JStr s)])]])]).
Definition openai_ok : NetResponse :=
  mkNetResponse true "200" "OK" ""
    (Ok (Some (JObj [("choices", JArr [JObj [("message", JObj [("content", JStr "hi")])]])])))
    [] [delta "he"; delta "llo"] None.

Definition env_ok : Env := env_of all_keys (fun _ => Ok openai_ok).

(** A first message in session [s1], for the baseline model. *)
Definition req_hello : Request :=
  mkRequest (Some "s1") (Some "hello") (Some "gpt-3.5-turbo") [] (Some "Bearer t").

(** A request for a premium model, with and without a text document. *)
Definition notes_part : Part := mkPart "files" "notes.txt" "text/plain" 5 "notes" "9.txt".
Definition req_premium : Request :=
  mkRequest (Some "s1") (Some "hello") (Some "gpt-4") [] (Some "Bearer t").
Definition req_premium_notes : Request :=
  mkRequest (Some "s1") (Some "hello") (Some "gpt-4") [notes_part] (Some "Bearer t").

(** The world after [n] one-shot turns of [req_hello]. *)
Definition after_turns (n : nat) : World :=
  Nat.iter n (fun w => (chat env_ok req_hello w).2) w0.

End Sample.
(* ===================================================================== *)
(** ** Strings without a given character *)
(* ===================================================================== *)

(** [s.includes(c)] for a character [c]. *)
Fixpoint has_char (c : Ascii.ascii) (s : string) : bool :=
  match s with
  | EmptyString => false
  | String d s' => Ascii.eqb d c || has_char c s'
  end.

(** A media type that can stand in a data URL: it holds none of the
    separators the URL is cut at. *)
Definition plain_media_type (mt : string) : bool :=
  negb (has_char "," mt) && negb (has_char ";" mt) && negb (has_char ":" mt).

(** The roles Claude's message format keeps. *)
Definition is_chat_role (r : string) : bool :=
  String.eqb r "user" || String.eqb r "assistant".

(** The requests of the Claude service: to the Claude endpoint, for a
    dated model. *)
Definition claude_dated (e : Event) : bool :=
  match e with
  | ENet (ReqClaude (ModelName m) _ _ _) => includes m "-202"
  | ENet _ => false
  | _ => true
  end.

(** The requests of the Grok service: to the Grok endpoint, for one of
    the two models its table resolves to. *)
Definition grok_resolved (e : Event) : bool :=
  match e with
  | ENet (ReqGrok (ModelName m) _ _) => String.eqb m "grok-1" || String.eqb m "grok-2-latest"
  | ENet _ => false
  | _ => true
  end.

(** The models the Gemini service asks for. *)
Definition gemini_models : list string :=
  ["gemini-pro"; "gemini-pro-vision"; "gemini-2.0-flash"; "gemini-2.0-pro"].

Definition gemini_resolved (e : Event) : bool :=
  match e with
  | ENet (ReqGemini (ModelName m) _) => existsb (String.eqb m) gemini_models
  | ENet _ => false
  | _ => true
  end.

(** The same of the calls a chat handler makes, whichever service it
    dispatches to: a call on the Claude endpoint names a dated model, a call
    on the Grok or the Gemini endpoint one of the models of the service. *)
Definition claude_calls_dated (e : Event) : bool :=
  match e with
  | ENet (ReqClaude (ModelName m) _ _ _) => includes m "-202"
  | ENet (ReqClaude (Inherited _) _ _ _) => false
  | _ => true
  end.

Definition grok_calls_resolved (e : Event) : bool :=
  match e with
  | ENet (ReqGrok (ModelName m) _ _) => String.eqb m "grok-1" || String.eqb m "grok-2-latest"
  | ENet (ReqGrok (Inherited _) _ _) => false
  | _ => true
  end.

Definition gemini_calls_resolved (e : Event) : bool :=
  match e with
  | ENet (ReqGemini (ModelName m) _) => existsb (String.eqb m) gemini_models
  | ENet (ReqGemini (Inherited _) _) => false
  | _ => true
  end.

(** Accesses to the disk in which a whole file is read only when it is at
    most 10 MiB long on the disk [d]. *)
Definition small_read (d : gmap string FsFile) (e : Event) : bool :=
  match e with
  | EExists _ | EStat _ => true
  | EReadFile p =>
      match d !! p with
      | Some f => f_size f <=? 10 * FileUtils.MiB
      | None => false
      end
  | _ => false
  end.

(** The disk is [d], and since [L] whole files were read only when small. *)
Definition reads_small (d : gmap string FsFile) (L : list Event) (w : World) : Prop :=
  disk w = d /\ extends (small_read d) L w.

(** [w'] differs from [w] by its log only. *)
Definition same_state (w w' : World) : Prop :=
  sessionFiles w' = sessionFiles w /\ userConversations w' = userConversations w
  /\ userSelectedModel w' = userSelectedModel w /\ chats w' = chats w
  /\ users w' = users w /\ disk w' = disk w.

(** A world that differs from [w] in the registry of uploads and by a
    longer log. *)
Definition with_files_log (w : World) (sf : gmap string (list FileInfo)) (l : list Event)
  : World :=
  mkWorld sf (userConversations w) (userSelectedModel w) (chats w) (users w) (disk w)
          (log w ++ l).

(** The uploads that [processUploadedFiles] registers: those with a path,
    found on the disk. *)
Definition on_disk (d : gmap string FsFile) (f : UploadedFile) : bool :=
  truthy_str (path f) && bool_decide (is_Some (d !! path f)).

Definition is_exists (e : Event) : bool :=
  match e with EExists _ => true | _ => false end.

(** A world that differs from [w] in the users table and by a longer log. *)
Definition with_users_log (w : World) (us : gmap string Profile) (l : list Event) : World :=
  mkWorld (sessionFiles w) (userConversations w) (userSelectedModel w) (chats w) us (disk w)
          (log w ++ l).



(* ===================================================================== *)
(** ** More concrete inputs *)
(* ===================================================================== *)

Module Sample2.



(** A user whose row says subscribed, with no Stripe subscription. *)
Definition w_flag_only : World :=
  mkWorld ∅ ∅ ∅ ∅ (<["u1" := mkProfile (Some true) None]> ∅) ∅ [].

(** An environment whose identity service knows no token. *)
Definition env_stranger : Env :=
  mkEnv Sample.all_keys (fun _ => AuthNoUser)
        (fun _ => Throw "No such subscription") (fun _ => Ok Sample.openai_ok)
        (fun _ => Throw "SyntaxError: Unexpected token") (fun s => s) (fun _ => "0.00") "0" (fun _ => None).

End Sample2.

(* ===================================================================== *)
(** ** Refusals and routing *)
(* ===================================================================== *)




(** The provider a model name is routed to by both chat handlers. *)
Definition route (selectedModel : string) : Provider :=
  if includes selectedModel "gemini" then Gemini
  else if includes selectedModel "claude" then Claude
  else if includes selectedModel "grok" then Grok
  else OpenAI.

Definition provider_eqb (p q : Provider) : bool :=
  match p, q with
  | OpenAI, OpenAI | Gemini, Gemini | Claude, Claude | Grok, Grok => true
  | _, _ => false
  end.

(** Every provider call goes to [p]. *)
Definition calls_only (p : Provider) (e : Event) : bool :=
  match e with
  | ENet r => provider_eqb (provider_of r) p
  | _ => true
  end.


(** The number of chat rows of a user. *)
Definition chats_of_user (c : gmap string ChatRow) (uid : string) : Z :=
  Z.of_nat (base.size (filter (fun kv => user_id (snd kv) = uid) c)).
(* ===================================================================== *)
(** ** One answer per request *)
(* ===================================================================== *)

Definition unanswered (e : Event) : bool := negb (is_response e).

(** The user the identity service names for the token of the request. *)
Definition user_of (env : Env) (req : Server.Request) : option string :=
  match Server.bearer_token (default "" (Server.authorization req)) with
  | Some tok =>
      match auth_getUser env tok with
      | AuthUser uid _ => Some uid
      | _ => None
      end
  | None => None
  end.

Definition session_of (req : Server.Request) : string := default "" (Server.body_sessionId req).

(** Since [L0] nothing has been answered, and the table of chats is [c0]. *)
Definition Pending (L0 : list Event) (c0 : gmap string ChatRow) (w : World) : Prop :=
  extends unanswered L0 w /\ chats w = c0.

(** The write by which a turn of user [uid] in session [sid] is saved: an
    update when the user has a row for the session, an insert otherwise. *)
Definition save_op (c : gmap string ChatRow) (sid uid : string) : DbOp :=
  match select_row c sid uid with
  | Some _ => UpdateChat sid
  | None => InsertChat sid
  end.

(** The reply is the last thing the handler did, and the write of the
    turn on the table of chats came just before it, for the user of the
    request; the table is [c0] with that write applied ([persist]), and the
    session's conversation in memory ends with the reply. *)
Definition saved_as (env : Env) (req : Server.Request) (c0 : gmap string ChatRow)
    (l : list Event) (reply : string) (w : World) : Prop :=
  exists uid userContent hist l0,
    user_of env req = Some uid
    /\ l = l0 ++ [EDb (save_op c0 (session_of req) uid); EJsonReply reply]
    /\ chats w = persist (session_of req) uid userContent reply c0
    /\ userConversations w !! session_of req
       = Some (hist ++ [mkMessage "assistant" (CText reply)]).

(** What the store holds once the one-shot endpoint has sent [e], the
    events of the request being [l]. *)
Definition settled (env : Env) (req : Server.Request) (c0 : gmap string ChatRow)
    (l : list Event) (e : Event) (w : World) : Prop :=
  match e with
  | EStatusJson _ _ _ => chats w = c0
  | EJsonReply reply => saved_as env req c0 l reply w
  | _ => False
  end.

(** Since [L0], exactly one answer has been given. *)
Definition Answered (env : Env) (req : Server.Request) (L0 : list Event)
    (c0 : gmap string ChatRow) (w : World) : Prop :=
  exists l e, log w = L0 ++ l /\ responses l = [e] /\ settled env req c0 l e w.

(** How a part of a handler ends: in [D] when its result says that it has
    answered ([good]), in [U] otherwise; and it throws only from [U]. *)
Definition ends {A} (U D : World -> Prop) (good : A -> bool) (r : Outcome A) (w : World)
  : Prop :=
  match r with
  | Ok a => if good a then D w else U w
  | Throw _ => U w
  end.

Definition answers {A} (U D : World -> Prop) (good : A -> bool) (m : M A) : Prop :=
  hoare U m (ends U D good).

Definition is_returned {A} (r : Server.Flow A) : bool :=
  match r with Server.Returned => true | Server.Continue _ => false end.

Definition always {A} (a : A) : bool := true.

(* ===================================================================== *)
(** ** Every response is closed *)
(* ===================================================================== *)

Definition anything (e : Event) : bool := true.




(* ===================================================================== *)
(** ** What the client of the streaming endpoint receives *)
(* ===================================================================== *)







(* ===================================================================== *)
(** ** Provider calls of a turn *)
(* ===================================================================== *)

Definition not_net (e : Event) : bool := negb (is_net e).

Definition net_calls (l : list Event) : list Event := List.filter is_net l.

(** Since [L0], no provider has been called. *)
Definition Uncalled (L0 : list Event) (w : World) : Prop := extends not_net L0 w.

(** Since [L0], at most one call has gone to a provider. *)
Definition CalledOnce (L0 : list Event) (w : World) : Prop :=
  exists l, log w = L0 ++ l /\ (length (net_calls l) <= 1)%nat.

(** Since [L0], exactly one call has gone to a provider, and it went to
    provider [p]. *)
Definition CalledAt (p : Provider) (L0 : list Event) (w : World) : Prop :=
  exists l r, log w = L0 ++ l /\ net_calls l = [ENet r] /\ provider_of r = p.
(* ===================================================================== *)
(** ** Sessions are kept apart *)
(* ===================================================================== *)

(** What the server holds for session [s]: its uploads, its conversation
    and its model in memory, its row in the table of chats. *)
Definition session_state (w : World) (s : string)
  : option (list FileInfo) * option (list Message) * option string * option ChatRow :=
  (sessionFiles w !! s, userConversations w !! s, userSelectedModel w !! s, chats w !! s).

(** [w] holds for every session other than [sid] what [w0] holds. *)
Definition Elsewhere (sid : string) (w0 w : World) : Prop :=
  forall s, s <> sid -> session_state w s = session_state w0 s.

(** Every conversation of [u0] is still in memory, with the same messages
    in the same places, possibly followed by more. *)
Definition Kept (u0 : gmap string (list Message)) (w : World) : Prop :=
  forall s h, u0 !! s = Some h -> exists ext, userConversations w !! s = Some (h ++ ext).

(* ===================================================================== *)
(** ** backend/server.js: the subscription override *)
(* ===================================================================== *)

Module Admin.

(** [action === name] on a field of the JSON body. *)
Definition action_is (action : option string) (name : string) : bool :=
  match action with Some a => String.eqb a name | None => false end.

(** [from('users').select('id, email, is_subscribed').eq('id', userId).maybeSingle()]:
    [userData] and [userError]. *)
Definition select_user (env : Env) (uid : string) : M (option Profile * option string) :=
  match store_error env (SelectUser uid) with
  | Some e => let* _ := emit (EDb (SelectUser uid)) in ret (None, Some e)
  | None => let* userData := Server.db_select_user uid in ret (userData, None)
  end.

(** [from('users').update({is_subscribed, updated_at}).eq('id', userId)]:
    [error]; a refused update changes nothing. *)
Definition update_user (env : Env) (uid : string) (flag : bool) : M (option string) :=
  match store_error env (UpdateUser uid flag) with
  | Some e => let* _ := emit (EDb (UpdateUser uid flag)) in ret (Some e)
  | None => let* _ := Server.db_update_user uid flag in ret None
  end.

(** The two branches of the handler that set the flag. *)
Definition set_subscription (env : Env) (uid : string) (flag : bool) : M unit :=
  let* error := update_user env uid flag in
  match error with
  | Some e => res_status_json 500 "Failed to update subscription" (Some e)
  | None => emit EJsonSuccess
  end.

(** [app.post("/api/admin/override-subscription", express.json(), handler)];
    [userId] and [action] are the fields of the body.  The handler reads no
    header.  Of the success body, [{success: true, message, user}], the
    event keeps that it is the success answer. *)
Definition override_subscription (env : Env) (userId action : option string) : M unit :=
  try_catch
    (if negb (truthy_ostr userId) then res_status_json 400 "User ID is required" None
     else
       let uid := default "" userId in
       let* r := select_user env uid in
       match r with
       | (Some _, None) =>
           if action_is action "enable" then set_subscription env uid true
           else if action_is action "disable" then set_subscription env uid false
           else res_status_json 400 "Invalid action. Use 'enable' or 'disable'." None
       | (_, userError) => res_status_json 404 "User not found" userError
       end)
    (fun err => res_status_json 500 "Server error" (Some err)).

(** The value of [action] that sets the flag to [flag]. *)
Definition action_for (flag : bool) : string := if flag then "enable" else "disable".

End Admin.

(* ===================================================================== *)
(** ** Which provider is configured *)
(* ===================================================================== *)

(** The configuration check of the service of provider [p]. *)
Definition configured (pe : ProcessEnv) (p : Provider) : bool :=
  match p with
  | OpenAI => OpenAIService.isOpenAIConfigured pe
  | Gemini => GeminiService.isGeminiConfigured pe
  | Claude => ClaudeService.isClaudeConfigured pe
  | Grok => GrokService.isGrokConfigured pe
  end.

(* ===================================================================== *)
(** ** Whole-file reads of a request *)
(* ===================================================================== *)

(** A whole-file read is of a file of at most 10 MiB on the disk [d]. *)
Definition bounded_read (d : gmap string FsFile) (e : Event) : bool :=
  match e with
  | EReadFile p =>
      match d !! p with
      | Some f => f_size f <=? 10 * FileUtils.MiB
      | None => true
      end
  | _ => true
  end.

(** The disk is [d], and since [L0] whole files were read only up to
    10 MiB. *)
Definition Within (d : gmap string FsFile) (L0 : list Event) (w : World) : Prop :=
  disk w = d /\ extends (bounded_read d) L0 w.

(** The uploads of a request, as the handlers get them: each is on the disk
    with at most 10 MiB. *)
Definition stored_small (d : gmap string FsFile) (files : list UploadedFile) : Prop :=
  Forall (fun f => exists e, d !! path f = Some e /\ f_size e <= 10 * FileUtils.MiB) files.

(** An image, as the image preparers select them:
    [file.mimetype && file.mimetype.startsWith('image/')]. *)
Definition image_file (f : UploadedFile) : bool :=
  truthy_str (mimetype f) && FileUtils.is_image f.

(** The file is on the disk [d], readable and at most 10 MiB long. *)
Definition readable_small (d : gmap string FsFile) (f : UploadedFile) : Prop :=
  exists e, d !! path f = Some e /\ f_readable e = true /\ f_size e <= 10 * FileUtils.MiB.

Module Sample3.

(** A first message in a session of one's choice. *)
Definition req_in (sid : string) : Server.Request :=
  Server.mkRequest (Some sid) (Some "hello") (Some "gpt-3.5-turbo") [] (Some "Bearer t").

(** The world after a first turn in each of three sessions. *)
Definition w_three_chats : World :=
  fold_left (fun w sid => (Server.chat Sample.env_ok (req_in sid) w).2)
            ["s1"; "s2"; "s3"] Sample.w0.

End Sample3.
(* ===================================================================== *)
(** ** Rules and lemmas *)
(* ===================================================================== *)

Lemma bind_ok {A B : Type} (m : M A) (k : A -> M B) w a w1 :
  m w = (Ok a, w1) -> bind m k w = k a w1.
Proof. intros H. unfold bind. now rewrite H. Qed.

Lemma bind_throw {A B : Type} (m : M A) (k : A -> M B) w e w1 :
  m w = (Throw e, w1) -> bind m k w = (Throw e, w1).
Proof. intros H. unfold bind. now rewrite H. Qed.

Lemma try_ok {A : Type} (m : M A) (h : string -> M A) w a w1 :
  m w = (Ok a, w1) -> try_catch m h w = (Ok a, w1).
Proof. intros H. unfold try_catch. now rewrite H. Qed.

Lemma try_throw {A : Type} (m : M A) (h : string -> M A) w e w1 :
  m w = (Throw e, w1) -> try_catch m h w = h e w1.
Proof. intros H. unfold try_catch. now rewrite H. Qed.

Lemma inv_bind {A B : Type} I (m : M A) (k : A -> M B) :
  inv I m -> (forall a, inv I (k a)) -> inv I (bind m k).
Proof.
  intros Hm Hk w Hw. unfold bind. specialize (Hm w Hw).
  destruct (m w) as [[a|e] w1]; simpl in *; [now apply Hk | exact Hm].
Qed.

Lemma inv_try_catch {A : Type} I (m : M A) (h : string -> M A) :
  inv I m -> (forall e, inv I (h e)) -> inv I (try_catch m h).
Proof.
  intros Hm Hh w Hw. unfold try_catch. specialize (Hm w Hw).
  destruct (m w) as [[a|e] w1]; simpl in *; [exact Hm | now apply Hh].
Qed.

Lemma inv_ret {A : Type} I (a : A) : inv I (ret a).
Proof. intros w Hw. exact Hw. Qed.

Lemma inv_throw {A : Type} I (e : string) : inv I (@throw A e).
Proof. intros w Hw. exact Hw. Qed.

Lemma inv_lift {A : Type} I (o : Outcome A) : inv I (lift o).
Proof. intros w Hw. exact Hw. Qed.

Lemma inv_mapM {A B : Type} I (f : A -> M B) (l : list A) :
  (forall x, inv I (f x)) -> inv I (mapM f l).
Proof.
  intros Hf. induction l as [|x l IH]; simpl.
  - apply inv_ret.
  - apply inv_bind; [apply Hf|]. intros y.
    apply inv_bind; [exact IH|]. intros ys. apply inv_ret.
Qed.

Lemma hoare_bind {A B : Type} P R Q (m : M A) (k : A -> M B) :
  hoare P m R ->
  (forall a, hoare (R (Ok a)) (k a) Q) ->
  (forall e w, R (Throw e) w -> Q (Throw e) w) ->
  hoare P (bind m k) Q.
Proof.
  intros Hm Hk Ht w Hw. unfold bind. specialize (Hm w Hw).
  destruct (m w) as [[a|e] w1]; simpl in *; [now apply Hk | now apply Ht].
Qed.

Lemma hoare_try_catch {A : Type} P R Q (m : M A) (h : string -> M A) :
  hoare P m R ->
  (forall e, hoare (R (Throw e)) (h e) Q) ->
  (forall a w, R (Ok a) w -> Q (Ok a) w) ->
  hoare P (try_catch m h) Q.
Proof.
  intros Hm Hh Ho w Hw. unfold try_catch. specialize (Hm w Hw).
  destruct (m w) as [[a|e] w1]; simpl in *; [now apply Ho | now apply Hh].
Qed.

Lemma total_bind {A B : Type} (m : M A) (k : A -> M B) :
  total m -> (forall a, total (k a)) -> total (bind m k).
Proof.
  intros Hm Hk w. unfold bind. destruct (Hm w) as [a Ha].
  destruct (m w) as [[a'|e] w1]; simpl in *; [apply (Hk a') | discriminate].
Qed.

Lemma total_try_catch {A : Type} (m : M A) (h : string -> M A) :
  (forall e, total (h e)) -> total (try_catch m h).
Proof.
  intros Hh w. unfold try_catch.
  destruct (m w) as [[a|e] w1]; simpl; [eauto | apply Hh].
Qed.

Lemma total_ret {A : Type} (a : A) : total (ret a).
Proof. intros w. now exists a. Qed.

Lemma lift_ok_bind {A B} (a : A) (k : A -> M B) w : bind (lift (Ok a)) k w = k a w.
Proof. reflexivity. Qed.

Lemma lift_throw_bind {A B} e (k : A -> M B) w : bind (lift (Throw e)) k w = (Throw e, w).
Proof. reflexivity. Qed.

Lemma ret_bind {A B} (a : A) (k : A -> M B) w : bind (ret a) k w = k a w.
Proof. reflexivity. Qed.

Lemma get_world_bind {B} (k : World -> M B) w : bind get_world k w = k w w.
Proof. reflexivity. Qed.

Lemma bind_assoc {A B C} (m : M A) (k1 : A -> M B) (k2 : B -> M C) w :
  bind (bind m k1) k2 w = bind m (fun a => bind (k1 a) k2) w.
Proof. unfold bind. destruct (m w) as [[a|e] w1]; reflexivity. Qed.

Lemma try_bind_ok {A B} (m : M A) (k : A -> M B) h w a w1 :
  m w = (Ok a, w1) -> try_catch (bind m k) h w = try_catch (k a) h w1.
Proof. intros H. unfold try_catch, bind. now rewrite H. Qed.

Lemma try_bind_throw {A B} (m : M A) (k : A -> M B) h w e w1 :
  m w = (Throw e, w1) -> try_catch (bind m k) h w = h e w1.
Proof. intros H. unfold try_catch, bind. now rewrite H. Qed.

Lemma try_ret_snd {A} (m : M A) (x : A) w : (try_catch m (fun _ => ret x) w).2 = (m w).2.
Proof. unfold try_catch. destruct (m w) as [[a|e] w1]; reflexivity. Qed.

Lemma inv_get_world I : inv I get_world.
Proof. intros w Hw. exact Hw. Qed.

Lemma inv_hoare {A} I (m : M A) : inv I m -> hoare I m (fun _ => I).
Proof. intros H w Hw. now apply H. Qed.

Lemma hoare_weaken {A} (P P' : World -> Prop) (Q Q' : Outcome A -> World -> Prop) (m : M A) :
  hoare P m Q -> (forall w, P' w -> P w) -> (forall r w, Q r w -> Q' r w) -> hoare P' m Q'.
Proof. intros H HP HQ w Hw. apply HQ, H, HP, Hw. Qed.

Lemma add_log_nil w : add_log w [] = w.
Proof. destruct w. unfold add_log. simpl. now rewrite app_nil_r. Qed.

Lemma add_log_app w l1 l2 : add_log (add_log w l1) l2 = add_log w (l1 ++ l2).
Proof. unfold add_log. simpl. now rewrite app_assoc. Qed.

Lemma emit_eq e w : emit e w = (Ok tt, add_log w [e]).
Proof. reflexivity. Qed.

Lemma extends_refl P w : extends P (log w) w.
Proof. exists []. split; [now rewrite app_nil_r | reflexivity]. Qed.

Lemma extends_emit P L0 e : P e = true -> inv (extends P L0) (emit e).
Proof.
  intros He w [l [Hl Hp]]. exists (l ++ [e]). simpl. split.
  - rewrite Hl. now rewrite app_assoc.
  - rewrite forallb_app, Hp. simpl. now rewrite He.
Qed.

Lemma extends_weaken (P Q : Event -> bool) L0 w :
  (forall e, P e = true -> Q e = true) -> extends P L0 w -> extends Q L0 w.
Proof.
  intros H [l [Hl Hp]]. exists l. split; [exact Hl|].
  rewrite forallb_forall in *. intros e He. 
  apply H, Hp, He.
Qed.

Lemma emits_delta {A} P (m : M A) w :
  emits P m -> exists l, log (m w).2 = log w ++ l /\ forallb P l = true.
Proof. intros H. exact (H (log w) w (extends_refl P w)). Qed.

(** *** Invariants of the loops *)
Section LoopInvariants.
Variable I : World -> Prop.

Lemma inv_upload sid ps :
  (forall p, inv I (emit (EStore p))) -> (forall d, inv I (set_disk d)) ->
  inv I (Server.upload sid ps).
Proof.
  intros He Hd. induction ps as [|p ps IH]; simpl.
  - apply inv_ret.
  - destruct (negb _); [exact IH|].
    destruct (_ <? _); [apply inv_ret|].
    apply inv_bind; [apply He|]. intros _.
    apply inv_bind; [apply inv_get_world|]. intros w.
    apply inv_bind; [apply Hd|]. intros _.
    apply inv_bind; [exact IH|]. intros [files|]; apply inv_ret.
Qed.

Lemma inv_fs_existsSync p : inv I (emit (EExists p)) -> inv I (fs_existsSync p).
Proof.
  intros He. unfold fs_existsSync.
  apply inv_bind; [exact He|]. intros _.
  apply inv_bind; [apply inv_get_world|]. intros w. apply inv_ret.
Qed.

Lemma inv_fs_stat p : inv I (emit (EStat p)) -> inv I (fs_stat p).
Proof.
  intros He. unfold fs_stat.
  apply inv_bind; [exact He|]. intros _.
  apply inv_bind; [apply inv_get_world|]. intros w.
  destruct (disk w !! p); [apply inv_ret | apply inv_throw].
Qed.

Lemma inv_fs_readFile p : inv I (emit (EReadFile p)) -> inv I (fs_readFile p).
Proof.
  intros He. unfold fs_readFile.
  apply inv_bind; [exact He|]. intros _.
  apply inv_bind; [apply inv_get_world|]. intros w.
  destruct (disk w !! p) as [f|]; [|apply inv_throw].
  destruct (f_readable f); [apply inv_ret | apply inv_throw].
Qed.

Lemma inv_fs_readHead p : inv I (emit (EReadHead p)) -> inv I (FileUtils.fs_readHead p).
Proof.
  intros He. unfold FileUtils.fs_readHead.
  apply inv_bind; [exact He|]. intros _.
  apply inv_bind; [apply inv_get_world|]. intros w.
  destruct (disk w !! p) as [f|]; [|apply inv_throw].
  destruct (f_readable f); [apply inv_ret | apply inv_throw].
Qed.

Lemma inv_filter_images files :
  (forall p, inv I (emit (EExists p))) -> inv I (FileUtils.filter_images files).
Proof.
  intros He. induction files as [|f files IH]; simpl.
  - apply inv_ret.
  - apply inv_bind.
    + destruct (_ && _); [apply inv_fs_existsSync, He | apply inv_ret].
    + intros keep. apply inv_bind; [exact IH|]. intros r. apply inv_ret.
Qed.

Lemma inv_openai_loop chunks acc :
  (forall s, inv I (emit (EWrite (SChunk s)))) ->
  inv I (OpenAIService.openai_loop chunks acc).
Proof.
  intros He. revert acc. induction chunks as [|c chunks IH]; intros acc; simpl.
  - apply inv_ret.
  - apply inv_bind; [apply inv_lift|]. intros s.
    destruct (truthy_str s); [|apply IH].
    apply inv_bind; [apply He|]. intros _. apply IH.
Qed.

Lemma inv_lines_loop env extract lines acc :
  (forall s, inv I (emit (EWrite (SChunk s)))) ->
  inv I (lines_loop env extract lines acc).
Proof.
  intros He. revert acc. induction lines as [|l lines IH]; intros acc; simpl.
  - apply inv_ret.
  - destruct (line_content env extract l); [|apply IH].
    apply inv_bind; [apply He|]. intros _. apply IH.
Qed.

Lemma inv_reads_loop env extract reads acc :
  (forall s, inv I (emit (EWrite (SChunk s)))) ->
  inv I (reads_loop env extract reads acc).
Proof.
  intros He. revert acc. induction reads as [|r reads IH]; intros acc; simpl.
  - apply inv_ret.
  - apply inv_bind; [now apply inv_lines_loop|]. intros a. apply IH.
Qed.
End LoopInvariants.

(** *** Strings and the chunks in a log *)

Lemma str_app_nil_r (s : string) : s +:+ "" = s.
Proof.
  induction s as [|c s IH]; [reflexivity|].
  change (String c (s +:+ "") = String c s). f_equal. exact IH.
Qed.

Lemma str_app_assoc (a b c : string) : (a +:+ b) +:+ c = a +:+ (b +:+ c).
Proof.
  induction a as [|x a IH]; [reflexivity|].
  change (String x ((a +:+ b) +:+ c) = String x (a +:+ (b +:+ c))). f_equal. exact IH.
Qed.

Lemma concat_str_snoc l s : concat_str (l ++ [s]) = concat_str l +:+ s.
Proof.
  induction l as [|x l IH].
  - apply str_app_nil_r.
  - change (x +:+ concat_str (l ++ [s]) = (x +:+ concat_str l) +:+ s).
    rewrite IH. symmetry. apply str_app_assoc.
Qed.

Lemma chunks_of_app l1 l2 : chunks_of (l1 ++ l2) = chunks_of l1 ++ chunks_of l2.
Proof. unfold chunks_of. apply omap_app. Qed.

Lemma chunks_of_quiet l : forallb quiet l = true -> chunks_of l = [].
Proof.
  induction l as [|e l IH]; simpl; [reflexivity|].
  intros H. apply andb_true_iff in H as [He Hl].
  unfold quiet in He. apply andb_true_iff in He as [Hc _].
  destruct e as [| | | |[]| | | | | | | | | |]; simpl in *; try discriminate; now apply IH.
Qed.

Lemma chunks_of_one e : is_chunk e = false -> chunks_of [e] = [].
Proof. destruct e as [| | | |[]| | | | | | | | | |]; simpl; [..|reflexivity]; try reflexivity; discriminate. Qed.

Lemma persisted_emit L0 c0 sid uid e :
  is_chunk e = false -> inv (Persisted L0 c0 sid uid) (emit e).
Proof.
  intros He w (l & uc & Hl & Hd & Hc & Hh).
  exists (l ++ [e]), uc. simpl.
  rewrite chunks_of_app, (chunks_of_one e He), app_nil_r.
  repeat split; [rewrite Hl; now rewrite app_assoc| |exact Hc|exact Hh].
  rewrite existsb_app, Hd. reflexivity.
Qed.

(** Nothing the handler does after the end of the response changes what
    the client received. *)
Lemma ended_add_log L1 w l : Ended L1 w -> Ended L1 (add_log w l).
Proof.
  intros (l1 & t & rest & Hl & Hq & Ht). exists l1, t, (rest ++ l).
  split; [|split; assumption]. cbn [log add_log]. rewrite Hl.
  now rewrite <- !app_assoc.
Qed.

Lemma ended_emit L1 e : inv (Ended L1) (emit e).
Proof. intros w Hw. now apply (ended_add_log L1 w [e]). Qed.

Lemma inv_and {A} (I J : World -> Prop) (m : M A) :
  inv I m -> inv J m -> inv (fun w => I w /\ J w) m.
Proof. intros HI HJ w [Hi Hj]. split; [now apply HI | now apply HJ]. Qed.

Lemma inv_or {A} (I J : World -> Prop) (m : M A) :
  inv I m -> inv J m -> inv (fun w => I w \/ J w) m.
Proof. intros HI HJ w [Hi|Hj]; [left; now apply HI | right; now apply HJ]. Qed.

(** *** Computations that never throw *)

Lemma total_get_world : total get_world.
Proof. intros w. now exists w. Qed.

Lemma total_unit_step (m : M unit) : (forall w, exists w', m w = (Ok tt, w')) -> total m.
Proof. intros H w. destruct (H w) as [w' ->]. now exists tt. Qed.

Lemma total_emit e : total (emit e).
Proof. apply total_unit_step. intros w. eexists. reflexivity. Qed.

Lemma total_mapM {A B} (f : A -> M B) (l : list A) :
  (forall x, total (f x)) -> total (mapM f l).
Proof.
  intros Hf. induction l as [|x l IH]; simpl.
  - apply total_ret.
  - apply total_bind; [apply Hf|]. intros y.
    apply total_bind; [exact IH|]. intros ys. apply total_ret.
Qed.

Lemma total_fs_existsSync p : total (fs_existsSync p).
Proof.
  unfold fs_existsSync. apply total_bind; [apply total_emit|]. intros _.
  apply total_bind; [apply total_get_world|]. intros w. apply total_ret.
Qed.

Lemma total_upload sid ps : total (Server.upload sid ps).
Proof.
  induction ps as [|p ps IH]; simpl.
  - apply total_ret.
  - destruct (negb _); [exact IH|].
    destruct (_ <? _); [apply total_ret|].
    apply total_bind; [apply total_emit|]. intros _.
    apply total_bind; [apply total_get_world|]. intros w.
    apply total_bind; [apply total_unit_step; intros w'; eexists; reflexivity|]. intros _.
    apply total_bind; [exact IH|]. intros [files|]; apply total_ret.
Qed.

Lemma total_filter_images files : total (FileUtils.filter_images files).
Proof.
  induction files as [|f files IH]; simpl.
  - apply total_ret.
  - apply total_bind.
    + destruct (_ && _); [apply total_fs_existsSync | apply total_ret].
    + intros keep. apply total_bind; [exact IH|]. intros r. apply total_ret.
Qed.

Ltac total_prim := apply total_unit_step; let w := fresh "w" in intros w; eexists; reflexivity.

Ltac total_auto :=
  lazymatch goal with
  | |- total (bind _ _) => apply total_bind; [total_auto | intros ?; total_auto]
  | |- total (try_catch _ _) => apply total_try_catch; intros ?; total_auto
  | |- total (ret _) => apply total_ret
  | |- total get_world => apply total_get_world
  | |- total (emit _) => apply total_emit
  | |- total (set_sessionFiles _) => total_prim
  | |- total (set_userConversations _) => total_prim
  | |- total (set_userSelectedModel _) => total_prim
  | |- total (set_chats _) => total_prim
  | |- total (set_users _) => total_prim
  | |- total (set_disk _) => total_prim
  | |- total (mapM _ _) => apply total_mapM; intros ?; total_auto
  | |- total (fs_existsSync _) => apply total_fs_existsSync
  | |- total (Server.upload _ _) => apply total_upload
  | |- total (FileUtils.filter_images _) => apply total_filter_images
  | |- total (match ?x with _ => _ end) => destruct x; total_auto
  | |- total (let _ := _ in _) => cbv zeta; total_auto
  | |- total ?m =>
      let h := lazymatch m with
               | ?f _ _ _ _ _ _ _ _ _ => f | ?f _ _ _ _ _ _ _ _ => f
               | ?f _ _ _ _ _ _ _ => f | ?f _ _ _ _ _ _ => f | ?f _ _ _ _ _ => f
               | ?f _ _ _ _ => f | ?f _ _ _ => f | ?f _ _ => f | ?f _ => f | ?f => f
               end in
      unfold h; total_auto
  end.

Lemma inv_try_total {A} I (m : M A) (h : string -> M A) :
  total m -> inv I m -> inv I (try_catch m h).
Proof.
  intros Ht Hm w Hw. unfold try_catch. specialize (Hm w Hw). destruct (Ht w) as [a Ha].
  destruct (m w) as [[a'|e] w1]; simpl in *; [exact Hm | discriminate].
Qed.

(** Stepping through a computation to establish an invariant: the rules
    above are applied along the structure of the code; what is left are
    the primitive steps, which [inv_prim] settles for the invariants used
    in this development (log extensions and equations on one component of
    the world). *)
Lemma ordered_start P Q L0 w : extends P L0 w -> ordered P Q L0 w.
Proof.
  intros (l & Hl & Hp). exists l. split; [exact Hp|].
  exists []. rewrite app_nil_r. split; [exact Hl | reflexivity].
Qed.

Lemma ordered_emit P Q L0 e : Q e = true -> inv (ordered P Q L0) (emit e).
Proof.
  intros He w (l1 & Hp & Hq). exists l1. split; [exact Hp|].
  now apply extends_emit.
Qed.

Ltac inv_prim :=
  first [ apply extends_emit; reflexivity
        | apply persisted_emit; reflexivity
        | apply ended_emit
        | apply ordered_emit; reflexivity
        | let w := fresh "w" in let H := fresh "H" in intros w H; exact H ].

Ltac inv_auto :=
  lazymatch goal with
  | |- inv (fun w => @?A w /\ @?B w) _ => apply inv_and; inv_auto
  | |- inv (fun w => @?A w \/ @?B w) _ => apply inv_or; inv_auto
  | |- inv _ (bind _ _) => apply inv_bind; [inv_auto | intros ?; inv_auto]
  | |- inv _ (try_catch _ _) =>
      first [ apply inv_try_total; [ solve [total_auto] | inv_auto ]
            | apply inv_try_catch; [inv_auto | intros ?; inv_auto] ]
  | |- inv _ (ret _) => apply inv_ret
  | |- inv _ (throw _) => apply inv_throw
  | |- inv _ (lift _) => apply inv_lift
  | |- inv _ get_world => apply inv_get_world
  | |- inv _ (mapM _ _) => apply inv_mapM; intros ?; inv_auto
  | |- inv _ (emit _) => inv_prim
  | |- inv _ (set_sessionFiles _) => inv_prim
  | |- inv _ (set_userConversations _) => inv_prim
  | |- inv _ (set_userSelectedModel _) => inv_prim
  | |- inv _ (set_chats _) => inv_prim
  | |- inv _ (set_users _) => inv_prim
  | |- inv _ (set_disk _) => inv_prim
  | |- inv _ (fs_existsSync _) => apply inv_fs_existsSync; inv_prim
  | |- inv _ (fs_stat _) => apply inv_fs_stat; inv_prim
  | |- inv _ (fs_readFile _) => apply inv_fs_readFile; inv_prim
  | |- inv _ (FileUtils.fs_readHead _) => apply inv_fs_readHead; inv_prim
  | |- inv _ (Server.upload _ _) => apply inv_upload; intros ?; inv_prim
  | |- inv _ (FileUtils.filter_images _) => apply inv_filter_images; intros ?; inv_prim
  | |- inv _ (OpenAIService.openai_loop _ _) => apply inv_openai_loop; intros ?; inv_prim
  | |- inv _ (reads_loop _ _ _ _) => apply inv_reads_loop; intros ?; inv_prim
  | |- inv _ (match ?x with _ => _ end) => destruct x; inv_auto
  | |- inv _ (let _ := _ in _) => cbv zeta; inv_auto
  | |- inv _ ?m =>
      let h := lazymatch m with
               | ?f _ _ _ _ _ _ _ _ _ => f | ?f _ _ _ _ _ _ _ _ => f
               | ?f _ _ _ _ _ _ _ => f | ?f _ _ _ _ _ _ => f | ?f _ _ _ _ _ => f
               | ?f _ _ _ _ => f | ?f _ _ _ => f | ?f _ _ => f | ?f _ => f | ?f => f
               end in
      unfold h; inv_auto
  end.

Lemma emits_prepareImagesForModel env files target :
  emits (fun e => is_fs e) (FileUtils.prepareImagesForModel env files target).
Proof. intros L0. inv_auto. Qed.

Lemma emit_bind {A} e (k : M A) w : (let* _ := emit e in k) w = k (add_log w [e]).
Proof. reflexivity. Qed.

Lemma write_end {A} ev (k : M A) w :
  (let* _ := res_write ev in let* _ := res_end in k) w = k (add_log w [EWrite ev; EEnd]).
Proof.
  unfold res_write, res_end. rewrite !emit_bind, add_log_app. reflexivity.
Qed.


Lemma total_run {A} (m : M A) w : total m -> exists a, m w = (Ok a, (m w).2).
Proof. intros H. destruct (H w) as [a Ha]. exists a. destruct (m w); simpl in *. now subst. Qed.

Lemma total_chat_authenticated env req files sid uid :
  total (Server.chat_authenticated env req files sid uid).
Proof. total_auto. Qed.

Lemma total_stream_authenticated env req files sid uid :
  total (Server.stream_authenticated env req files sid uid).
Proof. total_auto. Qed.

Lemma total_saveCompletedChat ec sid uid uc reply :
  total (Server.saveCompletedChat ec sid uid uc reply).
Proof. total_auto. Qed.

Lemma total_enhancedUpload req : total (Server.enhancedUpload req).
Proof. total_auto. Qed.

(** *** Two-phase reasoning: [I] holds up to one distinguished step, [F]
    from then on *)

Lemma steps_inv {A} (I F : World -> Prop) (m : M A) :
  inv I m -> (forall w, I w -> F w) -> steps I F m.
Proof. intros Hm HIF w Hw. apply HIF, Hm, Hw. Qed.

Lemma steps_bind_inv {A B} (I F : World -> Prop) (m : M A) (k : A -> M B) :
  inv I m -> (forall a, steps I F (k a)) -> (forall w, I w -> F w) ->
  steps I F (bind m k).
Proof.
  intros Hm Hk HIF w Hw. unfold bind. specialize (Hm w Hw).
  destruct (m w) as [[a|e] w1]; simpl in *; [now apply Hk | now apply HIF].
Qed.

Lemma steps_bind_val {A B} (I F : World -> Prop) (m : M A) (k : A -> M B) v :
  gives I m v -> inv I m -> steps I F (k v) -> steps I F (bind m k).
Proof.
  intros Hv Hm Hk w Hw. unfold bind. specialize (Hm w Hw). specialize (Hv w Hw).
  destruct (m w) as [[a|e] w1]; simpl in *; [|discriminate].
  injection Hv as ->. now apply Hk.
Qed.

Lemma steps_bind_switch {A B} (I F : World -> Prop) (m : M A) (k : A -> M B) :
  steps I F m -> (forall a, inv F (k a)) -> steps I F (bind m k).
Proof.
  intros Hm Hk w Hw. unfold bind. specialize (Hm w Hw).
  destruct (m w) as [[a|e] w1]; simpl in *; [now apply Hk | exact Hm].
Qed.

Lemma steps_try_catch {A} (I F : World -> Prop) (m : M A) (h : string -> M A) :
  steps I F m -> (forall e, inv F (h e)) -> steps I F (try_catch m h).
Proof.
  intros Hm Hh w Hw. unfold try_catch. specialize (Hm w Hw).
  destruct (m w) as [[a|e] w1]; simpl in *; [exact Hm | now apply Hh].
Qed.

(** *** The chats table *)

Lemma db_select_chat_eq sid uid w :
  Server.db_select_chat sid uid w
  = (Ok (select_row (chats w) sid uid), add_log w [EDb (SelectChat sid uid)]).
Proof. reflexivity. Qed.

Lemma alter_as_insert (f : ChatRow -> ChatRow) sid row (c : gmap string ChatRow) :
  c !! sid = Some row -> alter f sid c = <[sid := f row]> c.
Proof.
  intros H. apply map_eq. intros j. destruct (decide (sid = j)) as [<-|Hne].
  - rewrite lookup_alter_eq, lookup_insert_eq, H. reflexivity.
  - rewrite lookup_alter_ne, lookup_insert_ne by assumption. reflexivity.
Qed.

(** Saving a turn, with the snapshot the handler took of the row. *)
Lemma save_chat_eq sid uid uc reply w :
  exists ev,
    is_db ev = true /\
    Server.save_chat (select_row (chats w) sid uid) sid uid uc reply w
    = (Ok tt, with_chats_log w (persist sid uid uc reply (chats w)) [ev]).
Proof.
  unfold Server.save_chat, select_row, persist.
  destruct (chats w !! sid) as [row|] eqn:Hrow.
  - destruct (String.eqb (user_id row) uid) eqn:Hu.
    + exists (EDb (UpdateChat sid)). split; [reflexivity|].
      unfold try_catch, Server.db_update_chat. rewrite emit_bind. unfold bind, get_world.
      simpl. rewrite (alter_as_insert _ sid row) by exact Hrow. reflexivity.
    + exists (EDb (InsertChat sid)). split; [reflexivity|].
      unfold try_catch, Server.db_insert_chat. rewrite emit_bind. unfold bind, get_world.
      simpl. rewrite Hrow. destruct w; reflexivity.
  - exists (EDb (InsertChat sid)). split; [reflexivity|].
    unfold try_catch, Server.db_insert_chat. rewrite emit_bind. unfold bind, get_world.
    simpl. rewrite Hrow. reflexivity.
Qed.

Lemma persist_effect sid uid uc reply c : turn_effect c (persist sid uid uc reply c).
Proof.
  unfold persist. destruct (c !! sid) as [row|] eqn:Hrow.
  - destruct (String.eqb (user_id row) uid); [now apply turn_update | apply turn_none].
  - now apply turn_insert.
Qed.

Lemma turn_effect_ok c c' : turn_effect c c' -> db_ok c -> db_ok c'.
Proof.
  intros [|sid uid uc reply Hnone|sid row uc reply Hrow] Hok; [exact Hok| |];
    intros sid' row'; (destruct (decide (sid = sid')) as [<-|Hne];
      [rewrite lookup_insert_eq | rewrite lookup_insert_ne by assumption; apply Hok]).
  - intros [= <-]. exists (turn_messages uc reply), 1. repeat split.
  - intros [= <-]. destruct (Hok sid row Hrow) as (ms & n & Hms & Hn & Hlen).
    exists (ms ++ turn_messages uc reply), (n + 1). unfold appended_row. simpl.
    rewrite Hms, Hn. repeat split. rewrite length_app. simpl. lia.
Qed.

Lemma gives_select_chat (I : World -> Prop) c0 sid uid :
  (forall w, I w -> chats w = c0) ->
  gives I (Server.db_select_chat sid uid) (select_row c0 sid uid).
Proof. intros H w Hw. rewrite db_select_chat_eq. simpl. now rewrite (H w Hw). Qed.

Lemma steps_save_chat c0 sid uid uc reply :
  steps (fun w => chats w = c0) (fun w => chats w = persist sid uid uc reply c0)
        (Server.save_chat (select_row c0 sid uid) sid uid uc reply).
Proof.
  intros w <-. destruct (save_chat_eq sid uid uc reply w) as (ev & _ & ->). reflexivity.
Qed.

(** Stepping through a handler in two phases.  [leaf] settles the
    distinguished step; the implication from [I] to [F] is taken from the
    context. *)
Ltac head_of m :=
  lazymatch m with
  | ?f _ _ _ _ _ _ _ _ _ => f | ?f _ _ _ _ _ _ _ _ => f
  | ?f _ _ _ _ _ _ _ => f | ?f _ _ _ _ _ _ => f | ?f _ _ _ _ _ => f
  | ?f _ _ _ _ => f | ?f _ _ _ => f | ?f _ _ => f | ?f _ => f | ?f => f
  end.

Ltac steps_auto leaf :=
  lazymatch goal with
  | |- steps _ _ (bind (Server.db_select_chat _ _) _) =>
      eapply steps_bind_val;
      [ apply gives_select_chat; let w := fresh "w" in let Hc := fresh "Hc" in intros w Hc; first [exact Hc | exact (proj1 Hc)]
      | inv_auto | steps_auto leaf ]
  | |- steps _ _ (bind _ _) =>
      first [ apply steps_bind_inv; [ solve [inv_auto] | intros ?; steps_auto leaf | assumption ]
            | solve [leaf]
            | apply steps_bind_switch; [ steps_auto leaf | intros ?; solve [inv_auto] ] ]
  | |- steps _ _ (try_catch _ _) =>
      apply steps_try_catch; [ steps_auto leaf | intros ?; solve [inv_auto] ]
  | |- steps _ _ (match ?x with _ => _ end) => destruct x; steps_auto leaf
  | |- steps _ _ (let _ := _ in _) => cbv zeta; steps_auto leaf
  | |- steps _ _ ?m =>
      first [ apply steps_inv; [ solve [inv_auto] | assumption ]
            | solve [leaf]
            | let h := head_of m in unfold h; steps_auto leaf ]
  end.

Lemma chat_effect env req w0 : turn_effect (chats w0) (chats (Server.chat env req w0).2).
Proof.
  set (c0 := chats w0).
  assert (HIF : forall w, chats w = c0 -> turn_effect c0 (chats w))
    by (intros w ->; apply turn_none).
  assert (H : steps (fun w => chats w = c0) (fun w => turn_effect c0 (chats w))
                    (Server.chat env req)).
  2:{ apply H. reflexivity. }
  steps_auto ltac:(
    eapply steps_bind_switch;
    [ intros w Hw; rewrite (steps_save_chat c0 _ _ _ _ w Hw); apply persist_effect
    | intros ?; inv_auto ]).
Qed.

(** *** The Gemini streaming entry point, unfolded *)

Lemma handleGemini_eq env userContent model imageFiles w :
  GeminiService.handleGeminiStreamingRequest env userContent model imageFiles w
  = simulated_streaming "Gemini API error: "
      (GeminiService.generateGeminiResponse env userContent model imageFiles) w.
Proof.
  unfold GeminiService.handleGeminiStreamingRequest, simulated_streaming.
  destruct (GeminiService.generateGeminiResponse env userContent model imageFiles w)
    as [[text|e] w1] eqn:Hg.
  - erewrite try_ok; [reflexivity|].
    erewrite bind_ok; [|exact Hg].
    unfold res_write, res_end. rewrite !emit_bind, !add_log_app. reflexivity.
  - erewrite try_throw; [|erewrite bind_throw; [reflexivity | exact Hg]].
    rewrite write_end. reflexivity.
Qed.

(** *** The upload middleware *)

Lemma with_disk_log_id w : with_disk_log w (disk w) [] = w.
Proof. destruct w. unfold with_disk_log. simpl. now rewrite app_nil_r. Qed.

Lemma with_disk_log_twice w d l d' l' :
  with_disk_log (with_disk_log w d l) d' l' = with_disk_log w d' (l ++ l').
Proof. unfold with_disk_log. simpl. now rewrite app_assoc. Qed.

Lemma upload_step sid p rest w :
  Server.fileFilter (Server.part_mimetype p) = true ->
  (Server.fileSize_limit <? Server.part_size p) = false ->
  Server.upload sid (p :: rest) w
  = (let* r := Server.upload sid rest in
     match r with
     | Server.Uploaded files => ret (Server.Uploaded (Server.stored_file sid p :: files))
     | Server.LIMIT_FILE_SIZE => ret Server.LIMIT_FILE_SIZE
     end)
      (with_disk_log w
         (<[path (Server.stored_file sid p)
            := mkFsFile (Server.part_size p) (Server.part_data p) true]> (disk w))
         [EStore (path (Server.stored_file sid p))]).
Proof. intros Hf Hsz. simpl. rewrite Hf, Hsz. reflexivity. Qed.

(** What [upload] does: it only writes the disk and logs the files it
    stores; it stops at the first accepted part over the limit; the files
    it hands on, and every disk entry it wrote, are within the limit. *)
Lemma upload_spec sid ps : forall w,
  exists r d l,
    Server.upload sid ps w = (Ok r, with_disk_log w d l)
    /\ forallb is_store l = true
    /\ (forall q, d !! q = disk w !! q
                  \/ exists e, d !! q = Some e /\ f_size e <= Server.fileSize_limit)
    /\ match r with
       | Server.LIMIT_FILE_SIZE =>
           exists p, In p ps /\ Server.fileFilter (Server.part_mimetype p) = true
                     /\ Server.fileSize_limit < Server.part_size p
       | Server.Uploaded files =>
           (forall p, In p ps -> Server.fileFilter (Server.part_mimetype p) = true ->
                      Server.part_size p <= Server.fileSize_limit)
           /\ Forall (fun f => size f <= Server.fileSize_limit
                               /\ exists e, d !! path f = Some e
                                            /\ f_size e <= Server.fileSize_limit) files
       end.
Proof.
  induction ps as [|p ps IH]; intros w.
  - exists (Server.Uploaded []), (disk w), []. rewrite with_disk_log_id.
    repeat split; auto. intros p [].
  - destruct (Server.fileFilter (Server.part_mimetype p)) eqn:Hf.
    2:{ destruct (IH w) as (r & d & l & Hr & Hl & Hd & Hres).
        exists r, d, l. split; [simpl; rewrite Hf; exact Hr|]. repeat split; auto.
        destruct r as [files|].
        - destruct Hres as [Hall Hfiles]. split; [|exact Hfiles].
          intros p' [<-|Hin] Hp'; [congruence | now apply Hall].
        - destruct Hres as (p' & Hin & Hp'). exists p'. split; [now right | exact Hp']. }
    destruct (Server.fileSize_limit <? Server.part_size p) eqn:Hsz.
    + exists Server.LIMIT_FILE_SIZE, (disk w), []. rewrite with_disk_log_id.
      split; [simpl; rewrite Hf, Hsz; reflexivity|].
      repeat split; auto. exists p. repeat split; [now left | exact Hf | lia].
    + rewrite (upload_step sid p ps w Hf Hsz).
      assert (Hsize : size (Server.stored_file sid p) = Server.part_size p) by reflexivity.
      remember (Server.stored_file sid p) as file eqn:Hfile.
      remember (mkFsFile (Server.part_size p) (Server.part_data p) true) as entry eqn:Hentry.
      assert (Hes : f_size entry <= Server.fileSize_limit) by (subst entry; simpl; lia).
      remember (with_disk_log w (<[path file := entry]> (disk w)) [EStore (path file)])
        as w1 eqn:Hw1.
      assert (Hdisk1 : disk w1 = <[path file := entry]> (disk w)) by (subst w1; reflexivity).
      destruct (IH w1) as (r & d & l & Hr & Hl & Hd & Hres).
      erewrite bind_ok; [|exact Hr].
      assert (Hd' : forall q, d !! q = disk w !! q
                   \/ exists e, d !! q = Some e /\ f_size e <= Server.fileSize_limit).
      { intros q. destruct (Hd q) as [Hq|Hq]; [|now right].
        rewrite Hdisk1 in Hq. destruct (decide (path file = q)) as [Heq|Hne].
        - right. exists entry. rewrite Hq, <- Heq, lookup_insert_eq. split; [reflexivity|exact Hes].
        - left. now rewrite Hq, lookup_insert_ne. }
      assert (Hw : forall l', with_disk_log w1 d l' = with_disk_log w d (EStore (path file) :: l')).
      { intros l'. subst w1. now rewrite with_disk_log_twice. }
      rewrite Hw.
      destruct r as [files|].
      * exists (Server.Uploaded (file :: files)), d, (EStore (path file) :: l).
        split; [reflexivity|]. split; [exact Hl|]. split; [exact Hd'|].
        destruct Hres as [Hall Hfiles]. split.
        -- intros p' [<-|Hin] Hp'; [lia | now apply Hall].
        -- constructor; [|exact Hfiles]. split; [lia|].
           destruct (Hd (path file)) as [Hq|Hq]; [|exact Hq].
           exists entry. rewrite Hq, Hdisk1, lookup_insert_eq. split; [reflexivity | exact Hes].
      * exists Server.LIMIT_FILE_SIZE, d, (EStore (path file) :: l).
        split; [reflexivity|]. split; [exact Hl|]. split; [exact Hd'|].
        destruct Hres as (p' & Hin & Hp'). exists p'. split; [now right | exact Hp'].
Qed.


(* ===================================================================== *)
(** ** A streaming turn, state by state *)
(* ===================================================================== *)

Section StreamProof.
Variable env : Env.
Variable L0 : list Event.
Variable c0 : gmap string ChatRow.
Variable sid : string.
Variable uid : string.

Lemma before_streaming w : Before L0 c0 w -> Streaming L0 c0 "" w.
Proof.
  intros [Hc (l & Hl & Hq)]. split; [exact Hc|]. exists l. split; [exact Hl|]. split.
  - rewrite forallb_forall in *. intros e He. specialize (Hq e He).
    unfold quiet in Hq. apply andb_true_iff in Hq as [_ Hd]. exact Hd.
  - now rewrite chunks_of_quiet.
Qed.

Lemma before_failed w : Before L0 c0 w -> Failed L0 c0 w.
Proof.
  intros [Hc He]. split; [exact Hc|]. eapply extends_weaken; [|exact He].
  intros e. unfold quiet, not_done. intros H. now apply andb_true_iff in H as [_ H].
Qed.

Lemma streaming_failed acc w : Streaming L0 c0 acc w -> Failed L0 c0 w.
Proof. intros [Hc (l & Hl & Hd & _)]. split; [exact Hc|]. now exists l. Qed.

Lemma streaming_chunk acc s w :
  Streaming L0 c0 acc w -> Streaming L0 c0 (acc +:+ s) (add_log w [EWrite (SChunk s)]).
Proof.
  intros [Hc (l & Hl & Hd & Ha)]. split; [exact Hc|].
  exists (l ++ [EWrite (SChunk s)]). simpl. split; [rewrite Hl; now rewrite app_assoc|].
  split; [rewrite forallb_app, Hd; reflexivity|].
  rewrite chunks_of_app. simpl. now rewrite concat_str_snoc, Ha.
Qed.

Lemma streaming_done acc w :
  Streaming L0 c0 acc w -> Completed L0 c0 acc (add_log w [EWrite SDone; EEnd]).
Proof.
  intros [Hc (l & Hl & Hd & Ha)]. split; [exact Hc|].
  exists (l ++ [EWrite SDone; EEnd]). simpl. split; [rewrite Hl; now rewrite app_assoc|].
  split; [rewrite existsb_app; simpl; now rewrite orb_true_r|].
  rewrite chunks_of_app. simpl. now rewrite app_nil_r.
Qed.

(** The accumulation buffer is the concatenation of the chunks written. *)
Section Loops.
Variable extract : Value -> Outcome (option string).

Lemma lines_loop_spec lines : forall acc,
  hoare (Streaming L0 c0 acc) (lines_loop env extract lines acc)
        (fun r w => exists acc', r = Ok acc' /\ Streaming L0 c0 acc' w).
Proof.
  induction lines as [|line lines IH]; intros acc w Hw; simpl.
  - exists acc. split; [reflexivity | exact Hw].
  - destruct (line_content env extract line) as [content|]; [|now apply IH].
    unfold res_write. rewrite emit_bind. apply IH. now apply streaming_chunk.
Qed.

Lemma reads_loop_spec reads : forall acc,
  hoare (Streaming L0 c0 acc) (reads_loop env extract reads acc)
        (fun r w => exists acc', r = Ok acc' /\ Streaming L0 c0 acc' w).
Proof.
  induction reads as [|chunk reads IH]; intros acc w Hw; simpl.
  - exists acc. split; [reflexivity | exact Hw].
  - destruct (lines_loop_spec (split (Ascii.ascii_of_nat 10) chunk) acc w Hw)
      as (acc' & Hr & Hs).
    destruct (lines_loop env extract _ acc w) as [r w1] eqn:E. simpl in *. subst r.
    erewrite bind_ok; [|exact E]. now apply IH.
Qed.
End Loops.

Lemma openai_loop_spec chunks : forall acc,
  hoare (Streaming L0 c0 acc) (OpenAIService.openai_loop chunks acc)
        (fun r w => match r with
                    | Ok acc' => Streaming L0 c0 acc' w
                    | Throw _ => Failed L0 c0 w
                    end).
Proof.
  induction chunks as [|chunk chunks IH]; intros acc w Hw; simpl.
  - exact Hw.
  - destruct (OpenAIService.chunk_content chunk) as [content|e].
    + rewrite lift_ok_bind. destruct (truthy_str content); [|now apply IH].
      unfold res_write. rewrite emit_bind. apply IH. now apply streaming_chunk.
    + rewrite lift_throw_bind. now apply streaming_failed in Hw.
Qed.

Lemma history_push_eq s msg w :
  Server.history_push s msg w
  = (Ok tt, with_conversations w
              (<[s := default [] (userConversations w !! s) ++ [msg]]> (userConversations w))).
Proof. reflexivity. Qed.

Lemma db_not_chunk ev : is_db ev = true -> is_chunk ev = false.
Proof. destruct ev; simpl; congruence. Qed.

(** From the done event to the persisted turn: what the "save" steps do
    once the last message of the session is the assistant's reply. *)
Lemma completed_save uc reply w :
  Completed L0 c0 reply w ->
  (exists hist, userConversations w !! sid
                = Some (hist ++ [mkMessage "assistant" (CText reply)])) ->
  Persisted L0 c0 sid uid (Server.save_chat (select_row c0 sid uid) sid uid uc reply w).2.
Proof.
  intros [Hc (l & Hl & Hd & Hr)] Hh.
  destruct (save_chat_eq sid uid uc reply w) as (ev & Hev & Heq).
  rewrite Hc in Heq. rewrite Heq. simpl.
  exists (l ++ [ev]), uc. simpl.
  rewrite chunks_of_app, (chunks_of_one ev (db_not_chunk ev Hev)), app_nil_r, Hr.
  repeat split; [rewrite Hl; now rewrite app_assoc| |exact Hh].
  rewrite existsb_app, Hd. reflexivity.
Qed.

Lemma completed_push reply s msg w :
  Completed L0 c0 reply w -> Completed L0 c0 reply (Server.history_push s msg w).2.
Proof. intros H. exact H. Qed.

Lemma push_last s msg w :
  exists hist, userConversations (Server.history_push s msg w).2 !! s = Some (hist ++ [msg]).
Proof.
  rewrite history_push_eq. simpl. eexists. apply lookup_insert_eq.
Qed.

(** [saveCompletedChat] takes a completed turn to a persisted one. *)
Lemma saveCompletedChat_spec uc reply :
  steps (Completed L0 c0 reply) (Persisted L0 c0 sid uid)
        (Server.saveCompletedChat (select_row c0 sid uid) sid uid uc reply).
Proof.
  intros w Hw. unfold Server.saveCompletedChat. rewrite get_world_bind.
  set (first := if _ && _ then _ else ret tt).
  assert (H1 : exists w1, first w = (Ok tt, w1) /\ Completed L0 c0 reply w1).
  { subst first. destruct (_ && _).
    - eexists. split; [apply history_push_eq | exact Hw].
    - exists w. split; [reflexivity | exact Hw]. }
  destruct H1 as (w1 & E1 & Hw1). erewrite bind_ok; [|exact E1].
  erewrite bind_ok; [|apply history_push_eq].
  apply completed_save; [exact Hw1|].
  eexists. simpl. apply lookup_insert_eq.
Qed.

(** The body of the fetch-based streaming functions. *)
Lemma stream_body_spec extract response (onComplete : string -> M unit) :
  (forall reply, steps (Completed L0 c0 reply) (Persisted L0 c0 sid uid) (onComplete reply)) ->
  steps (Before L0 c0) (fun w => Failed L0 c0 w \/ Persisted L0 c0 sid uid w)
        (stream_body env extract response onComplete).
Proof.
  intros Hcb w Hw. unfold stream_body.
  destruct (reads_loop_spec extract (r_reads response) "" w (before_streaming w Hw))
    as (acc & Hr & Hs).
  destruct (reads_loop env extract (r_reads response) "" w) as [r w1] eqn:E.
  simpl in Hr, Hs. subst r. erewrite bind_ok; [|exact E].
  destruct (r_stream_error response) as [e|].
  - left. now apply streaming_failed in Hs.
  - rewrite ret_bind, write_end. right.
    pose proof (Hcb acc _ (streaming_done acc w1 Hs)) as Hp.
    unfold bind. destruct (onComplete acc _) as [[[]|e] w2]; exact Hp.
Qed.

Lemma before_ends w : Before L0 c0 w -> Failed L0 c0 w \/ Persisted L0 c0 sid uid w.
Proof. intros H. left. now apply before_failed. Qed.

Section Adapters.
Variable onComplete : string -> M unit.
Hypothesis Hcb :
  forall reply, steps (Completed L0 c0 reply) (Persisted L0 c0 sid uid) (onComplete reply).

Lemma claude_streaming_spec messages model :
  steps (Before L0 c0) (fun w => Failed L0 c0 w \/ Persisted L0 c0 sid uid w)
        (ClaudeService.generateClaudeStreamingResponse env messages model onComplete).
Proof.
  pose proof before_ends as HIF. unfold Before, Failed in HIF |- *.
  steps_auto ltac:(apply stream_body_spec; exact Hcb).
Qed.

Lemma grok_streaming_spec messages model :
  steps (Before L0 c0) (fun w => Failed L0 c0 w \/ Persisted L0 c0 sid uid w)
        (GrokService.generateGrokStreamingResponse env messages model onComplete).
Proof.
  pose proof before_ends as HIF. unfold Before, Failed in HIF |- *.
  steps_auto ltac:(apply stream_body_spec; exact Hcb).
Qed.

Lemma openai_body_spec (stream : NetResponse) :
  steps (Before L0 c0) (fun w => Failed L0 c0 w \/ Persisted L0 c0 sid uid w)
        (let* completeResponse := OpenAIService.openai_loop (r_chunks stream) "" in
         let* _ := match r_stream_error stream with
                   | Some e => throw e
                   | None => ret tt
                   end in
         let* _ := res_write SDone in
         let* _ := res_end in
         let* _ := onComplete completeResponse in
         ret (Some completeResponse)).
Proof.
  intros w Hw.
  pose proof (openai_loop_spec (r_chunks stream) "" w (before_streaming w Hw)) as Hs.
  destruct (OpenAIService.openai_loop (r_chunks stream) "" w) as [[acc|e] w1] eqn:E;
    simpl in Hs.
  - erewrite bind_ok; [|exact E].
    destruct (r_stream_error stream) as [e|].
    + left. now apply streaming_failed in Hs.
    + rewrite ret_bind, write_end. right.
      pose proof (Hcb acc _ (streaming_done acc w1 Hs)) as Hp.
      unfold bind. destruct (onComplete acc _) as [[[]|e] w2]; exact Hp.
  - erewrite bind_throw; [|exact E]. left. exact Hs.
Qed.

Lemma openai_streaming_spec messages model :
  steps (Before L0 c0) (fun w => Failed L0 c0 w \/ Persisted L0 c0 sid uid w)
        (OpenAIService.generateOpenAIStreamingResponse env messages model onComplete).
Proof.
  pose proof before_ends as HIF. unfold Before, Failed in HIF |- *.
  steps_auto ltac:(apply openai_body_spec).
Qed.
End Adapters.

Lemma inv_before_generateGemini userContent model imageFiles :
  inv (Before L0 c0) (GeminiService.generateGeminiResponse env userContent model imageFiles).
Proof. unfold Before. inv_auto. Qed.

Lemma failed_error w msg d :
  Failed L0 c0 w -> Failed L0 c0 (add_log w [EWrite (SError msg d); EEnd]).
Proof.
  intros [Hc (l & Hl & Hd)]. split; [exact Hc|].
  exists (l ++ [EWrite (SError msg d); EEnd]). simpl.
  split; [rewrite Hl; now rewrite app_assoc|]. rewrite forallb_app, Hd. reflexivity.
Qed.

(** The "save" steps of the Gemini branch take a completed turn to a
    persisted one. *)
Lemma gemini_save_spec uc reply :
  steps (Completed L0 c0 reply) (Persisted L0 c0 sid uid)
        (let* _ := Server.history_push sid (mkMessage "user" (CText uc)) in
         let* _ := Server.history_push sid (mkMessage "assistant" (CText reply)) in
         Server.save_chat (select_row c0 sid uid) sid uid uc reply).
Proof.
  intros w Hw.
  erewrite bind_ok; [|apply history_push_eq].
  erewrite bind_ok; [|apply history_push_eq].
  apply completed_save; [exact Hw|].
  eexists. simpl. apply lookup_insert_eq.
Qed.

(** The Gemini branch of the streaming handler. *)
Lemma gemini_branch_spec uc guc model imageFiles :
  steps (Before L0 c0) (fun w => Failed L0 c0 w \/ Persisted L0 c0 sid uid w)
        (try_catch
           (let* botReply := GeminiService.handleGeminiStreamingRequest
                               env guc model imageFiles in
            let* _ := Server.history_push sid (mkMessage "user" (CText uc)) in
            let* _ := Server.history_push sid (mkMessage "assistant" (CText botReply)) in
            Server.save_chat (select_row c0 sid uid) sid uid uc botReply)
           (fun _ => ret tt)).
Proof.
  intros w Hw.
  pose proof (inv_before_generateGemini guc model imageFiles w Hw) as Hg.
  pose proof (handleGemini_eq env guc model imageFiles w) as Heq.
  unfold simulated_streaming in Heq.
  destruct (GeminiService.generateGeminiResponse env guc model imageFiles w)
    as [[text|e] w1]; simpl in Hg.
  - assert (Hc : Completed L0 c0 text
                   (add_log w1 [EWrite (SChunk text); EWrite SDone; EEnd])).
    { pose proof (streaming_done _ _
                    (streaming_chunk "" text w1 (before_streaming w1 Hg))) as H.
      rewrite add_log_app in H. exact H. }
    rewrite (try_bind_ok _ _ _ _ _ _ Heq), try_ret_snd. right.
    exact (gemini_save_spec uc text _ Hc).
  - rewrite (try_bind_throw _ _ _ _ _ _ Heq). left.
    apply failed_error. now apply before_failed.
Qed.

(** The dispatch to the services. *)
Lemma stream_dispatch_spec selectedModel uc imageFiles messages :
  steps (Before L0 c0) (fun w => Failed L0 c0 w \/ Persisted L0 c0 sid uid w)
        (Server.stream_dispatch env selectedModel uc imageFiles messages
           (select_row c0 sid uid) sid uid).
Proof.
  pose proof (saveCompletedChat_spec uc) as Hcb.
  unfold Server.stream_dispatch.
  destruct (includes selectedModel "gemini"); [apply gemini_branch_spec|].
  pose proof before_ends as HIF. unfold Before, Failed in HIF |- *.
  destruct (includes selectedModel "claude").
  { apply steps_try_catch; [|intros ?; inv_auto].
    apply steps_bind_switch; [|intros ?; inv_auto].
    now apply claude_streaming_spec. }
  destruct (includes selectedModel "grok").
  { apply steps_try_catch; [|intros ?; inv_auto].
    apply steps_bind_switch; [|intros ?; inv_auto].
    now apply grok_streaming_spec. }
  apply steps_bind_switch; [|intros ?; inv_auto].
  now apply openai_streaming_spec.
Qed.
End StreamProof.

(** The streaming endpoint as a whole: it ends without a done event and
    with the chats table untouched, or with the turn persisted for the user
    the token of the request names. *)
Lemma chat_stream_spec env req w0 :
  let w' := (Server.chat_stream env req w0).2 in
  Failed (log w0) (chats w0) w'
  \/ exists uid, user_of env req = Some uid
                 /\ Persisted (log w0) (chats w0) (session_of req) uid w'.
Proof.
  set (L0 := log w0). set (c0 := chats w0). set (sid := session_of req).
  set (uid := default "" (user_of env req)).
  assert (H : steps (Before L0 c0)
                    (fun w => Failed L0 c0 w
                              \/ (user_of env req = Some uid /\ Persisted L0 c0 sid uid w))
                    (Server.chat_stream env req)).
  2:{ destruct (H w0) as [Hf|[Hu Hp]].
      - split; [reflexivity | apply extends_refl].
      - now left.
      - right. now exists uid. }
  assert (HIF : forall w, Before L0 c0 w ->
                  Failed L0 c0 w \/ (user_of env req = Some uid /\ Persisted L0 c0 sid uid w))
    by (intros w Hw; left; now apply before_failed).
  unfold Before, Failed in HIF |- *.
  unfold Server.chat_stream.
  apply steps_bind_inv; [inv_auto| |exact HIF]. intros [files|]; [|apply steps_inv; [inv_auto|exact HIF]].
  unfold Server.chat_stream_handler.
  apply steps_try_catch; [|intros ?; inv_auto].
  match goal with |- steps _ _ (if ?c then _ else _) => destruct c end;
    [apply steps_inv; [inv_auto|exact HIF]|]. cbv zeta.
  match goal with |- steps _ _ (if ?c then _ else _) => destruct c end;
    [apply steps_inv; [inv_auto|exact HIF]|].
  match goal with |- steps _ _ (if ?c then _ else _) => destruct c end;
    [apply steps_inv; [inv_auto|exact HIF]|].
  destruct (Server.bearer_token (default "" (Server.authorization req))) as [tok|] eqn:Htok;
    [|cbn [truthy_ostr negb]; apply steps_inv; [inv_auto|exact HIF]].
  match goal with |- steps _ _ (if ?c then _ else _) => destruct c end;
    [apply steps_inv; [inv_auto|exact HIF]|].
  apply steps_bind_inv; [inv_auto| |exact HIF]. intros _.
  apply steps_try_catch; [|intros ?; inv_auto].
  apply steps_bind_inv; [inv_auto| |exact HIF]. intros _.
  change (default "" (Some tok)) with tok.
  destruct (auth_getUser env tok) as [e|msg| |u email] eqn:Hauth;
    try (apply steps_inv; [inv_auto|exact HIF]).
  assert (Hu : user_of env req = Some u) by (unfold user_of; now rewrite Htok, Hauth).
  assert (Huid : uid = u) by (unfold uid; now rewrite Hu).
  rewrite <- Huid in *. clear Huid.
  apply steps_bind_switch; [|intros ?; inv_auto].
  unfold Server.stream_authenticated.
  apply steps_bind_inv; [inv_auto| |exact HIF]. intros isSubscribed.
  eapply steps_bind_val; [apply gives_select_chat; intros w Hc; exact (proj1 Hc) | inv_auto |].
  apply steps_bind_inv; [inv_auto| |exact HIF]. intros [[]|]; [|apply steps_inv; [inv_auto|exact HIF]].
  apply steps_bind_inv; [inv_auto| |exact HIF]. intros [selectedModel|]; [|apply steps_inv; [inv_auto|exact HIF]].
  match goal with |- steps _ _ (if ?c then _ else _) => destruct c end;
    [apply steps_inv; [inv_auto|exact HIF]|].
  apply steps_try_catch; [|intros ?; inv_auto].
  unfold Server.stream_generate. cbv zeta.
  apply steps_bind_inv; [inv_auto| |exact HIF]. intros w.
  apply steps_bind_inv; [inv_auto| |exact HIF]. intros textFilesContent.
  apply steps_bind_inv; [inv_auto| |exact HIF]. intros [messages|]; [|apply steps_inv; [inv_auto|exact HIF]].
  apply steps_bind_switch; [|intros ?; inv_auto].
  intros w1 Hw1.
  match goal with
  | |- context [Server.stream_dispatch env ?a ?b ?c ?d _ _ _ w1] =>
      destruct (stream_dispatch_spec env L0 c0 sid uid a b c d w1 Hw1) as [Hf|Hp]
  end; [ left; exact Hf | right; split; [exact Hu | exact Hp] ].
Qed.

(* ===================================================================== *)
(** ** From the endpoint to the access checks *)
(* ===================================================================== *)

Lemma enhancedUpload_eq req w :
  exists r d l,
    forallb is_store l = true
    /\ (forall q, d !! q = disk w !! q
                  \/ exists e, d !! q = Some e /\ f_size e <= Server.fileSize_limit)
    /\ match r with
       | Server.LIMIT_FILE_SIZE =>
           (exists p, In p (Server.parts req)
                      /\ Server.fileFilter (Server.part_mimetype p) = true
                      /\ Server.fileSize_limit < Server.part_size p)
           /\ Server.enhancedUpload req w = (Ok Server.Returned, add_log w (l ++ [TOO_LARGE]))
       | Server.Uploaded files =>
           (forall p, In p (Server.parts req) ->
                      Server.fileFilter (Server.part_mimetype p) = true ->
                      Server.part_size p <= Server.fileSize_limit)
           /\ Forall (fun f => size f <= Server.fileSize_limit
                               /\ exists e, d !! path f = Some e
                                            /\ f_size e <= Server.fileSize_limit) files
           /\ Server.enhancedUpload req w = (Ok (Server.Continue files), with_disk_log w d l)
       end.
Proof.
  destruct (upload_spec (or_str (Server.body_sessionId req) "unknown") (Server.parts req) w)
    as (r & d & l & Hr & Hl & Hd & Hres).
  exists r, d, l. split; [exact Hl|]. split; [exact Hd|].
  assert (Hup : Server.enhancedUpload req w
                = match r with
                  | Server.LIMIT_FILE_SIZE => (Ok Server.Returned, add_log w (l ++ [TOO_LARGE]))
                  | Server.Uploaded files => (Ok (Server.Continue files), with_disk_log w d l)
                  end).
  { unfold Server.enhancedUpload. rewrite get_world_bind.
    erewrite bind_ok; [|exact Hr]. destruct r; [reflexivity|].
    unfold add_log, with_disk_log, TOO_LARGE. simpl. now rewrite app_assoc. }
  destruct r as [files|].
  - destruct Hres as [Hall Hfiles]. repeat split; assumption.
  - split; assumption.
Qed.

Lemma bearer_token_nonempty h tok : Server.bearer_token h = Some tok -> truthy_str h = true.
Proof. destruct h; [discriminate | reflexivity]. Qed.

(** An authenticated request enters the one-shot handler's access checks. *)
Lemma chat_handler_authenticated env req files sid tok uid w :
  authenticated env req files sid tok uid ->
  Server.chat_handler env req files w
  = (Ok tt, (Server.chat_authenticated env req files sid uid (add_log w [EAuth tok])).2).
Proof.
  intros (Hsid & Hts & Hmsg & (h & Hh & Htok) & Htt & (email & Hauth)).
  unfold Server.chat_handler. rewrite Hsid, Hh. simpl default. simpl truthy_ostr.
  rewrite Hts, (bearer_token_nonempty h tok Htok), Htok. simpl truthy_ostr. rewrite Htt.
  assert (Hm : negb (truthy_ostr (Server.body_message req)) && negb (Server.nonempty files)
               = false).
  { apply orb_true_iff in Hmsg as [Hm|Hf].
    - apply andb_true_iff in Hm as [Hm _]. now rewrite Hm.
    - rewrite Hf. now rewrite andb_false_r. }
  rewrite Hm. simpl negb. simpl orb. cbv iota.
  destruct (total_run (Server.chat_authenticated env req files sid uid) (add_log w [EAuth tok])
              (total_chat_authenticated env req files sid uid)) as [a Ha].
  erewrite try_ok; [reflexivity|].
  erewrite try_ok; [reflexivity|].
  rewrite emit_bind. change (default "" (Some tok)) with tok. rewrite Hauth.
  erewrite bind_ok; [|exact Ha]. reflexivity.
Qed.

(** An authenticated request enters the streaming handler's access checks. *)
Lemma chat_stream_handler_authenticated env req files sid tok uid w :
  authenticated env req files sid tok uid ->
  Server.chat_stream_handler env req files w
  = (Ok tt, (Server.stream_authenticated env req files sid uid
               (add_log w [ESseHeaders; EAuth tok])).2).
Proof.
  intros (Hsid & Hts & Hmsg & (h & Hh & Htok) & Htt & (email & Hauth)).
  unfold Server.chat_stream_handler. rewrite Hsid, Hh. simpl default. simpl truthy_ostr.
  rewrite Hts, (bearer_token_nonempty h tok Htok), Htok. simpl truthy_ostr. rewrite Htt.
  assert (Hm : negb (truthy_ostr (Server.body_message req)
                     && trim_nonempty (default "" (Server.body_message req)))
               && negb (Server.nonempty files) = false).
  { apply orb_true_iff in Hmsg as [Hm|Hf].
    - now rewrite Hm.
    - rewrite Hf. now rewrite andb_false_r. }
  rewrite Hm. simpl negb. cbv iota.
  destruct (total_run (Server.stream_authenticated env req files sid uid)
              (add_log w [ESseHeaders; EAuth tok])
              (total_stream_authenticated env req files sid uid)) as [a Ha].
  erewrite try_ok; [reflexivity|].
  rewrite emit_bind.
  erewrite try_ok; [reflexivity|].
  rewrite emit_bind, add_log_app. change (default "" (Some tok)) with tok. rewrite Hauth.
  erewrite bind_ok; [|exact Ha]. reflexivity.
Qed.

(** *** The subscription status *)

Lemma isUserSubscribed_gives env uid w :
  (Server.isUserSubscribed env uid w).1 = Ok (subscribed env (users w) uid).
Proof.
  unfold Server.isUserSubscribed, subscribed.
  destruct (negb (truthy_str uid)); [reflexivity|].
  erewrite try_bind_ok; [|reflexivity]. simpl users.
  destruct (users w !! uid) as [p|]; [|reflexivity].
  destruct (truthy_ostr (stripe_subscription_id p)); [|reflexivity].
  unfold Server.stripe_subscriptions_retrieve, try_catch.
  rewrite bind_assoc, emit_bind.
  destruct (stripe_retrieve env (default "" (stripe_subscription_id p))) as [status|e].
  - rewrite lift_ok_bind. destruct (bool_decide _); reflexivity.
  - rewrite lift_throw_bind. reflexivity.
Qed.

(** *** Answers *)

Lemma responses_app l1 l2 : responses (l1 ++ l2) = responses l1 ++ responses l2.
Proof. unfold responses. apply List.filter_app. Qed.

Lemma responses_silent l : forallb silent l = true -> responses l = [].
Proof.
  induction l as [|e l IH]; simpl; [reflexivity|].
  intros H. apply andb_true_iff in H as [He Hl].
  unfold silent in He. apply andb_true_iff in He as [Hr _].
  apply negb_true_iff in Hr. rewrite Hr. now apply IH.
Qed.

Lemma no_net_silent l : forallb silent l = true -> no_net l.
Proof.
  unfold no_net. rewrite !forallb_forall. intros H e He. specialize (H e He).
  unfold silent in H. now apply andb_true_iff in H as [_ H].
Qed.

Lemma no_net_app l1 l2 : no_net l1 -> no_net l2 -> no_net (l1 ++ l2).
Proof. unfold no_net. intros H1 H2. now rewrite forallb_app, H1, H2. Qed.

(** Answering a request that has been silent so far. *)
Lemma silent_then_answer L0 answer w :
  extends silent L0 w -> responses answer = answer -> no_net answer ->
  Rejected L0 answer (add_log w answer).
Proof.
  intros (l & Hl & Hs) Ha Hn. exists (l ++ answer). simpl. split.
  - rewrite Hl. now rewrite app_assoc.
  - split; [now rewrite responses_app, (responses_silent l Hs), Ha|].
    apply no_net_app; [now apply no_net_silent | exact Hn].
Qed.

Lemma extends_add_log P L0 w l :
  extends P L0 w -> forallb P l = true -> extends P L0 (add_log w l).
Proof.
  intros (l0 & Hl & Hp) Hl'. exists (l0 ++ l). simpl. split.
  - rewrite Hl. now rewrite app_assoc.
  - now rewrite forallb_app, Hp, Hl'.
Qed.

(** *** The quota check *)

Section Quota.
Variable L0 : list Event.
Variables answer_chats answer_messages : list Event.
Variables reject_chats reject_messages : M unit.
Hypothesis Hchats : forall w, reject_chats w = (Ok tt, add_log w answer_chats).
Hypothesis Hmessages : forall w, reject_messages w = (Ok tt, add_log w answer_messages).
Hypothesis Hac : responses answer_chats = answer_chats /\ no_net answer_chats.
Hypothesis Ham : responses answer_messages = answer_messages /\ no_net answer_messages.

(** The quota check answers with one of the two quota answers and stops,
    or lets the request through without a word. *)
Lemma check_quota_spec isSubscribed existingChat uid w :
  extends silent L0 w ->
  let r := Server.check_quota isSubscribed existingChat uid reject_chats reject_messages w in
  (r.1 = Ok Server.Returned /\ isSubscribed = false
   /\ (Rejected L0 answer_chats r.2 \/ Rejected L0 answer_messages r.2))
  \/ (r.1 = Ok (Server.Continue tt) /\ extends silent L0 r.2
      /\ userConversations r.2 = userConversations w
      /\ userSelectedModel r.2 = userSelectedModel w).
Proof.
  intros Hw. cbv zeta. unfold Server.check_quota.
  destruct isSubscribed.
  { right. repeat split. exact Hw. }
  change (negb false) with true. cbv iota.
  destruct existingChat as [c|].
  - destruct (Server.ge_num (message_count c) 20).
    + left. erewrite bind_ok; [|apply Hmessages]. simpl.
      repeat split. right. apply silent_then_answer; [exact Hw | apply Ham | apply Ham].
    + right. repeat split. exact Hw.
  - erewrite bind_ok; [|reflexivity]. simpl chats.
    destruct (3 <=? _).
    + left. erewrite bind_ok; [|apply Hchats]. simpl. repeat split. left.
      apply silent_then_answer; [|apply Hac|apply Hac].
      apply extends_add_log; [exact Hw | reflexivity].
    + right. simpl. repeat split. apply extends_add_log; [exact Hw | reflexivity].
Qed.

(** An unsubscribed user with a row whose counter has reached 20 is
    answered with the per-chat quota answer. *)
Lemma check_quota_messages c uid w :
  extends silent L0 w -> Server.ge_num (message_count c) 20 = true ->
  let r := Server.check_quota false (Some c) uid reject_chats reject_messages w in
  r.1 = Ok Server.Returned /\ Rejected L0 answer_messages r.2.
Proof.
  intros Hw Hge. cbv zeta. unfold Server.check_quota.
  change (negb false) with true. cbv iota. rewrite Hge.
  erewrite bind_ok; [|apply Hmessages]. simpl. split; [reflexivity|].
  apply silent_then_answer; [exact Hw | apply Ham | apply Ham].
Qed.
End Quota.

(** *** The choice of the model *)

Lemma requested_model_frame w w' sid model :
  userConversations w' = userConversations w ->
  userSelectedModel w' = userSelectedModel w ->
  requested_model w' sid model = requested_model w sid model.
Proof. intros H1 H2. unfold requested_model. now rewrite H1, H2. Qed.

Lemma register_uploads_gives env files sid fail w :
  exists w1,
    Server.register_uploads env files sid fail w = (Ok (Server.Continue tt), w1)
    /\ userConversations w1 = userConversations w
    /\ userSelectedModel w1 = userSelectedModel w.
Proof.
  unfold Server.register_uploads. destruct (Server.nonempty files).
  2:{ exists w. repeat split. }
  assert (Ht : total (FileUtils.processUploadedFiles env files sid)) by total_auto.
  assert (Hf : inv (fun w' => userConversations w' = userConversations w
                              /\ userSelectedModel w' = userSelectedModel w)
                   (FileUtils.processUploadedFiles env files sid)) by inv_auto.
  destruct (total_run _ w Ht) as [a Ha]. specialize (Hf w (conj eq_refl eq_refl)).
  eexists. split; [|exact Hf].
  erewrite try_ok; [reflexivity|]. erewrite bind_ok; [|exact Ha]. reflexivity.
Qed.

(** After the initialisation of the conversation, the model chosen is the
    requested model. *)
Lemma init_then_select sid model w1 :
  exists w2,
    Server.init_conversation sid model w1 = (Ok tt, w2)
    /\ if truthy_ostr model then True
       else or_str (userSelectedModel w2 !! sid) "gpt-3.5-turbo" = requested_model w1 sid model.
Proof.
  unfold Server.init_conversation, requested_model. rewrite get_world_bind.
  destruct (userConversations w1 !! sid) as [hist|].
  - exists w1. split; [reflexivity|]. now destruct (truthy_ostr model).
  - eexists. split; [reflexivity|]. simpl. rewrite lookup_insert_eq.
    destruct model as [[|c m]|]; reflexivity.
Qed.

Lemma select_model_eq sid model w :
  Server.select_model sid model w
  = (Ok (if truthy_ostr model then default "" model
         else or_str (userSelectedModel w !! sid) "gpt-3.5-turbo"),
     (Server.select_model sid model w).2).
Proof. reflexivity. Qed.

Lemma chat_attachments_gives env req files sid w :
  exists userContent,
    (Server.chat_attachments env req files sid w).1
    = Ok (Server.Continue (userContent, requested_model w sid (Server.body_model req))).
Proof.
  unfold Server.chat_attachments.
  destruct (register_uploads_gives env files sid (fun msg => res_status_json 500 msg None) w)
    as (w1 & E1 & Hc1 & Hm1).
  erewrite bind_ok; [|exact E1]. cbv iota beta.
  destruct (init_then_select sid (Server.body_model req) w1) as (w2 & E2 & Hsel).
  erewrite bind_ok; [|exact E2].
  rewrite (requested_model_frame w w1 sid _ Hc1 Hm1) in Hsel.
  match goal with
  | |- context [bind (Server.text_files_content env ?tf) _ w2] =>
      assert (Ht : total (Server.text_files_content env tf)) by total_auto;
      assert (Hf : inv (fun w' => userSelectedModel w' = userSelectedModel w2)
                       (Server.text_files_content env tf)) by inv_auto;
      destruct (total_run _ w2 Ht) as [tfc Htfc]; specialize (Hf w2 eq_refl);
      erewrite bind_ok; [|exact Htfc]
  end.
  erewrite bind_ok; [|reflexivity].
  erewrite bind_ok; [|apply select_model_eq].
  unfold ret. cbn [fst]. eexists. f_equal. f_equal. f_equal.
  simpl userSelectedModel. rewrite Hf.
  destruct (truthy_ostr (Server.body_model req)) eqn:Hm; [|exact Hsel].
  unfold requested_model. now rewrite Hm.
Qed.

Lemma stream_attachments_gives env req files sid w :
  (Server.stream_attachments env req files sid w).1
  = Ok (Server.Continue (requested_model w sid (Server.body_model req))).
Proof.
  unfold Server.stream_attachments.
  destruct (register_uploads_gives env files sid (fun msg => Server.stream_error msg None) w)
    as (w1 & E1 & Hc1 & Hm1).
  erewrite bind_ok; [|exact E1]. cbv iota beta.
  destruct (init_then_select sid (Server.body_model req) w1) as (w2 & E2 & Hsel).
  erewrite bind_ok; [|exact E2].
  rewrite (requested_model_frame w w1 sid _ Hc1 Hm1) in Hsel.
  erewrite bind_ok; [|apply select_model_eq].
  unfold ret. cbn [fst]. f_equal. f_equal.
  destruct (truthy_ostr (Server.body_model req)) eqn:Hm; [|exact Hsel].
  unfold requested_model. now rewrite Hm.
Qed.

(** *** The access checks of an unsubscribed user *)

Lemma bind_fst_ok {A B} (m : M A) (k : A -> M B) w a :
  (m w).1 = Ok a -> bind m k w = k a (m w).2.
Proof. unfold bind. destruct (m w) as [r w1]. simpl. now intros ->. Qed.

Lemma isUserSubscribed_run env uid L0 w :
  extends silent L0 w ->
  exists w1,
    Server.isUserSubscribed env uid w = (Ok (subscribed env (users w) uid), w1)
    /\ extends silent L0 w1 /\ chats w1 = chats w
    /\ userConversations w1 = userConversations w
    /\ userSelectedModel w1 = userSelectedModel w.
Proof.
  intros Hw.
  assert (H1 : inv (extends silent L0) (Server.isUserSubscribed env uid)) by inv_auto.
  assert (H2 : inv (fun w' => chats w' = chats w /\ userConversations w' = userConversations w
                              /\ userSelectedModel w' = userSelectedModel w)
                   (Server.isUserSubscribed env uid)) by inv_auto.
  specialize (H1 w Hw). specialize (H2 w (conj eq_refl (conj eq_refl eq_refl))).
  pose proof (isUserSubscribed_gives env uid w) as Hv.
  destruct (Server.isUserSubscribed env uid w) as [r w1]. simpl in *. subst r.
  exists w1. destruct H2 as (? & ? & ?). repeat split; assumption.
Qed.

Section Denied.
Variable env : Env.
Variable req : Server.Request.
Variable files : list UploadedFile.
Variables sid uid : string.
Variable L0 : list Event.


Lemma chat_authenticated_denied w :
  extends silent L0 w -> subscribed env (users w) uid = false ->
  let w' := (Server.chat_authenticated env req files sid uid w).2 in
  (Server.isPremiumModel (requested_model w sid (Server.body_model req)) = true ->
   Rejected L0 (answer403 Server.QUOTA_CHATS) w'
   \/ Rejected L0 (answer403 Server.QUOTA_MESSAGES) w'
   \/ Rejected L0 (answer403 Server.PREMIUM_REQUIRED) w')
  /\ (forall row, select_row (chats w) sid uid = Some row ->
                  Server.ge_num (message_count row) 20 = true ->
                  Rejected L0 (answer403 Server.QUOTA_MESSAGES) w').
Proof.
  intros Hw Hsub. cbv zeta. unfold Server.chat_authenticated.
  destruct (isUserSubscribed_run env uid L0 w Hw) as (w1 & E1 & Hs1 & Hc1 & Hu1 & Hm1).
  rewrite Hsub in E1. erewrite bind_ok; [|exact E1].
  erewrite bind_ok; [|apply db_select_chat_eq]. rewrite Hc1.
  set (w2 := add_log w1 [EDb (SelectChat sid uid)]).
  assert (Hs2 : extends silent L0 w2) by (apply extends_add_log; [exact Hs1 | reflexivity]).
  set (quota := Server.check_quota false (select_row (chats w) sid uid) uid
                  (res_status_json 403 Server.QUOTA_CHATS None)
                  (res_status_json 403 Server.QUOTA_MESSAGES None)).
  assert (Hq := check_quota_spec L0 (answer403 Server.QUOTA_CHATS)
                  (answer403 Server.QUOTA_MESSAGES)
                  (res_status_json 403 Server.QUOTA_CHATS None)
                  (res_status_json 403 Server.QUOTA_MESSAGES None)
                  (fun w => eq_refl) (fun w => eq_refl)
                  (conj eq_refl eq_refl) (conj eq_refl eq_refl)
                  false (select_row (chats w) sid uid) uid w2 Hs2).
  assert (Hqm := fun row => check_quota_messages L0 (answer403 Server.QUOTA_MESSAGES)
                  (res_status_json 403 Server.QUOTA_CHATS None)
                  (res_status_json 403 Server.QUOTA_MESSAGES None)
                  (fun w => eq_refl) (conj eq_refl eq_refl) row uid w2 Hs2).
  cbv zeta in Hq, Hqm. fold quota in Hq.
  split.
  - intros Hprem.
    destruct (quota w2) as [rq w3] eqn:Eq. cbn [fst snd] in Hq.
    destruct Hq as [(Hr & _ & Hrej) | (Hr & Hs3 & Hu3 & Hm3)]; subst rq.
    + erewrite bind_ok; [|exact Eq]. simpl. tauto.
    + erewrite bind_ok; [|exact Eq]. cbv iota beta.
      destruct (chat_attachments_gives env req files sid w3) as (uc & Hatt).
      assert (Hinv : inv (extends silent L0) (Server.chat_attachments env req files sid))
        by inv_auto.
      specialize (Hinv w3 Hs3).
      destruct (Server.chat_attachments env req files sid w3) as [ra w4] eqn:Ea.
      simpl in Hatt, Hinv. subst ra. erewrite bind_ok; [|exact Ea].
      cbv iota beta zeta. simpl fst. simpl snd.
      rewrite (requested_model_frame w w3 sid) by (subst w2; simpl in *; congruence).
      rewrite Hprem. change (true && negb false) with true. cbv iota.
      right. right.
      refine (silent_then_answer L0 (answer403 Server.PREMIUM_REQUIRED) w4 Hinv _ _);
        reflexivity.
  - intros row Hrow Hge. subst quota. rewrite Hrow.
    specialize (Hqm row Hge). destruct Hqm as [Hr Hrej].
    rewrite (bind_fst_ok _ _ _ _ Hr). exact Hrej.
Qed.

Lemma stream_authenticated_denied w :
  extends silent L0 w -> subscribed env (users w) uid = false ->
  let w' := (Server.stream_authenticated env req files sid uid w).2 in
  (Server.isPremiumModel (requested_model w sid (Server.body_model req)) = true ->
   Rejected L0 (answer_error Server.STREAM_QUOTA_CHATS) w'
   \/ Rejected L0 (answer_error Server.STREAM_QUOTA_MESSAGES) w'
   \/ Rejected L0 (answer_error Server.PREMIUM_REQUIRED) w')
  /\ (forall row, select_row (chats w) sid uid = Some row ->
                  Server.ge_num (message_count row) 20 = true ->
                  Rejected L0 (answer_error Server.STREAM_QUOTA_MESSAGES) w').
Proof.
  intros Hw Hsub. cbv zeta. unfold Server.stream_authenticated.
  destruct (isUserSubscribed_run env uid L0 w Hw) as (w1 & E1 & Hs1 & Hc1 & Hu1 & Hm1).
  rewrite Hsub in E1. erewrite bind_ok; [|exact E1].
  erewrite bind_ok; [|apply db_select_chat_eq]. rewrite Hc1.
  set (w2 := add_log w1 [EDb (SelectChat sid uid)]).
  assert (Hs2 : extends silent L0 w2) by (apply extends_add_log; [exact Hs1 | reflexivity]).
  set (quota := Server.check_quota false (select_row (chats w) sid uid) uid
                  (Server.stream_error Server.STREAM_QUOTA_CHATS None)
                  (Server.stream_error Server.STREAM_QUOTA_MESSAGES None)).
  assert (Hse : forall msg w, Server.stream_error msg None w = (Ok tt, add_log w (answer_error msg))).
  { intros msg w0. unfold Server.stream_error, res_write, res_end.
    rewrite emit_bind, emit_eq, add_log_app. reflexivity. }
  assert (Hq := check_quota_spec L0 (answer_error Server.STREAM_QUOTA_CHATS)
                  (answer_error Server.STREAM_QUOTA_MESSAGES)
                  (Server.stream_error Server.STREAM_QUOTA_CHATS None)
                  (Server.stream_error Server.STREAM_QUOTA_MESSAGES None)
                  (Hse _) (Hse _)
                  (conj eq_refl eq_refl) (conj eq_refl eq_refl)
                  false (select_row (chats w) sid uid) uid w2 Hs2).
  assert (Hqm := fun row => check_quota_messages L0 (answer_error Server.STREAM_QUOTA_MESSAGES)
                  (Server.stream_error Server.STREAM_QUOTA_CHATS None)
                  (Server.stream_error Server.STREAM_QUOTA_MESSAGES None)
                  (Hse _) (conj eq_refl eq_refl) row uid w2 Hs2).
  cbv zeta in Hq, Hqm. fold quota in Hq.
  split.
  - intros Hprem.
    destruct (quota w2) as [rq w3] eqn:Eq. cbn [fst snd] in Hq.
    destruct Hq as [(Hr & _ & Hrej) | (Hr & Hs3 & Hu3 & Hm3)]; subst rq.
    + erewrite bind_ok; [|exact Eq]. simpl. tauto.
    + erewrite bind_ok; [|exact Eq]. cbv iota beta.
      pose proof (stream_attachments_gives env req files sid w3) as Hatt.
      assert (Hinv : inv (extends silent L0) (Server.stream_attachments env req files sid))
        by inv_auto.
      specialize (Hinv w3 Hs3).
      destruct (Server.stream_attachments env req files sid w3) as [ra w4] eqn:Ea.
      simpl in Hatt, Hinv. subst ra. erewrite bind_ok; [|exact Ea].
      cbv iota beta zeta.
      rewrite (requested_model_frame w w3 sid) by (subst w2; simpl in *; congruence).
      rewrite Hprem. change (true && negb false) with true. cbv iota.
      right. right. erewrite bind_ok; [|apply Hse].
      refine (silent_then_answer L0 (answer_error Server.PREMIUM_REQUIRED) w4 Hinv _ _);
        reflexivity.
  - intros row Hrow Hge. subst quota. rewrite Hrow.
    specialize (Hqm row Hge). destruct Hqm as [Hr Hrej].
    rewrite (bind_fst_ok _ _ _ _ Hr). exact Hrej.
Qed.
End Denied.

(* ===================================================================== *)
(** ** Configuration checks of the adapters *)
(* ===================================================================== *)

Lemma truthy_str_true s : truthy_str s = true <-> s <> "".
Proof. destruct s; simpl; split; congruence. Qed.

Lemma openai_configured_iff pe :
  OpenAIService.isOpenAIConfigured pe = true <->
  exists k, OPENAI_API_KEY pe = Some k /\ k <> "" /\ startsWith k "sk-" = true.
Proof.
  unfold OpenAIService.isOpenAIConfigured, Config.openai_apiKey.
  destruct (OPENAI_API_KEY pe) as [k|].
  - rewrite andb_true_iff, truthy_str_true. split.
    + intros [H1 H2]. eauto.
    + intros [k' [[= <-] H]]. exact H.
  - split; [discriminate | intros [k [[=] _]]].
Qed.

Lemma or_str_cases o d :
  (exists k, o = Some k /\ k <> "" /\ or_str o d = k)
  \/ ((o = None \/ o = Some "") /\ or_str o d = d).
Proof.
  destruct o as [[|c k]|]; simpl; eauto.
Qed.

Lemma prefixed_configured_iff (o : option string) (prefix : string) :
  prefix <> "" ->
  truthy_str (or_str o "") && startsWith (or_str o "") prefix = true <->
  exists k, o = Some k /\ k <> "" /\ startsWith k prefix = true.
Proof.
  intros Hp. rewrite andb_true_iff, truthy_str_true.
  destruct (or_str_cases o "") as [[k [-> [Hk ->]]] | [Ho ->]].
  - split; [intros [_ H]; eauto | intros [k' [[= <-] [_ H]]]; auto].
  - split; [intros [H _]; congruence|].
    intros [k [Hk [Hne _]]]. destruct Ho as [->| ->]; congruence.
Qed.

Lemma gemini_configured_iff pe :
  GeminiService.isGeminiConfigured pe = true <->
  exists k, GEMINI_API_KEY pe = Some k /\ k <> ""
            /\ negb (String.eqb k Config.GEMINI_PLACEHOLDER) = true.
Proof.
  unfold GeminiService.isGeminiConfigured, Config.gemini_apiKey.
  rewrite andb_true_iff, truthy_str_true.
  destruct (or_str_cases (GEMINI_API_KEY pe) Config.GEMINI_PLACEHOLDER)
    as [[k [-> [Hk ->]]] | [Ho ->]].
  - split; [intros [_ H]; eauto | intros [k' [[= <-] [_ H]]]; auto].
  - split; [intros [_ H]; discriminate|].
    intros [k [Hk [Hne _]]]. destruct Ho as [Ho|Ho]; rewrite Ho in Hk; congruence.
Qed.

(** C8. For every provider adapter (OpenAI, Gemini, Claude, Grok):
    [isConfigured] is a function of the environment variables alone (so it
    makes no call), true exactly when the provider's credential is present,
    non-empty and passes the syntactic test; and on an unconfigured adapter
    the one-shot call throws the configuration error and the streaming call
    answers with the configuration error, neither having made any call on
    the provider endpoint (the log gains no network event). *)
Theorem unconfigured_adapter_calls_nothing (a : Adapter) :
  In a adapters ->
  (forall pe, isConfigured pe = true <->
              exists k, credential pe = Some k /\ k <> "" /\ plausible k = true)
  /\ (forall env args w,
        isConfigured (penv env) = false ->
        config_failure provider w (generate env args w)
        /\ forall onComplete,
             config_failure_streaming provider w (generateStreaming env args onComplete w)).
Proof.
  intros Ha. simpl in Ha.
  destruct Ha as [<-|[<-|[<-|[<-|[]]]]]; simpl.
  - (* OpenAI *)
    split; [apply openai_configured_iff|].
    intros env args w Hc. split.
    + unfold config_failure, OpenAIService.generateOpenAIResponse. now rewrite Hc.
    + intros k. unfold OpenAIService.generateOpenAIStreamingResponse. rewrite Hc. simpl.
      rewrite write_end. eexists. split; [|split; [left; reflexivity | reflexivity]]. reflexivity.
  - (* Gemini *)
    split; [apply gemini_configured_iff|].
    intros env args w Hc. split.
    + unfold config_failure, GeminiService.generateGeminiResponse. now rewrite Hc.
    + intros k.
      assert (Hg : GeminiService.generateGeminiResponse env (a_userContent args) (a_model args)
                     (a_imageFiles args) w = (Throw (not_configured Gemini), w)).
      { unfold GeminiService.generateGeminiResponse. now rewrite Hc. }
      unfold GeminiService.handleGeminiStreamingRequest.
      erewrite bind_throw; [|erewrite try_throw; [|erewrite bind_throw; [|exact Hg]; reflexivity];
                             rewrite write_end; reflexivity].
      eexists. split; [|split; [right; reflexivity | reflexivity]]. reflexivity.
  - (* Claude *)
    split.
    { intros pe. unfold ClaudeService.isClaudeConfigured, Config.claude_isConfigured,
        Config.claude_apiKey. now apply prefixed_configured_iff. }
    intros env args w Hc. split.
    + unfold config_failure, ClaudeService.generateClaudeResponse. now rewrite Hc.
    + intros k. unfold ClaudeService.generateClaudeStreamingResponse. rewrite Hc. simpl.
      rewrite write_end. eexists. split; [|split; [left; reflexivity | reflexivity]]. reflexivity.
  - (* Grok *)
    split.
    { intros pe. unfold GrokService.isGrokConfigured, Config.grok_isConfigured,
        Config.grok_apiKey. now apply prefixed_configured_iff. }
    intros env args w Hc. split.
    + unfold config_failure, GrokService.generateGrokResponse. now rewrite Hc.
    + intros k. unfold GrokService.generateGrokStreamingResponse. rewrite Hc. simpl.
      rewrite write_end. eexists. split; [|split; [left; reflexivity | reflexivity]]. reflexivity.
Qed.

Lemma unconfigured_adapter_witness :
  In openai_adapter adapters
  /\ OpenAIService.isOpenAIConfigured Sample.no_keys = false
  /\ config_failure OpenAI Sample.w0
       (OpenAIService.generateOpenAIResponse
          (Sample.env_of Sample.no_keys Sample.net_down)
          (a_messages Sample.args0) (a_model Sample.args0) Sample.w0).
Proof.
  split; [left; reflexivity|]. split; [reflexivity|].
  destruct (unconfigured_adapter_calls_nothing openai_adapter (or_introl eq_refl)) as [_ H].
  exact (proj1 (H (Sample.env_of Sample.no_keys Sample.net_down) Sample.args0 Sample.w0 eq_refl)).
Defined.

(* ===================================================================== *)
(** ** Simulated streaming of the Gemini adapter *)
(* ===================================================================== *)

(** C7. The streaming entry point of the Gemini service is the one-shot
    call with simulated streaming: whatever the one-shot call returns is
    written as a single chunk event, followed at once by the done event and
    the end of the stream, and is the value returned; nothing else is
    written.  When the one-shot call fails, one error event is written and
    the failure is raised again. *)
Theorem gemini_streaming_is_simulated env userContent model imageFiles w :
  GeminiService.handleGeminiStreamingRequest env userContent model imageFiles w
  = simulated_streaming "Gemini API error: "
      (GeminiService.generateGeminiResponse env userContent model imageFiles) w.
Proof. apply handleGemini_eq. Qed.

(** On success the events on the stream are exactly one chunk carrying the
    one-shot text, then done. *)
Corollary gemini_streaming_events env userContent model imageFiles w text w1 :
  GeminiService.generateGeminiResponse env userContent model imageFiles w = (Ok text, w1) ->
  GeminiService.handleGeminiStreamingRequest env userContent model imageFiles w
  = (Ok text, add_log w1 [EWrite (SChunk text); EWrite SDone; EEnd]).
Proof.
  intros H. rewrite handleGemini_eq. unfold simulated_streaming. now rewrite H.
Qed.

(* ===================================================================== *)
(** ** The upload limit *)
(* ===================================================================== *)

(** C9, as amended.  An uploaded file that the upload filter accepts and
    that is longer than 10 MiB makes the middleware answer 413 on both chat
    endpoints, and nothing else happens: the handler is not entered, so
    there is no authentication and no attachment processing.  Hence every
    file that reaches a handler, and its copy on disk, is at most 10 MiB
    long, and the test against the 20 MiB ceiling of the OpenAI and Grok
    image branches is false for each of them. *)
Theorem accepted_upload_over_limit_is_rejected env req w :
  ((exists p, In p (Server.parts req)
              /\ Server.fileFilter (Server.part_mimetype p) = true
              /\ Server.fileSize_limit < Server.part_size p) ->
   exists stores,
     forallb is_store stores = true
     /\ Server.chat env req w = (Ok tt, add_log w (stores ++ [TOO_LARGE]))
     /\ Server.chat_stream env req w = (Ok tt, add_log w (stores ++ [TOO_LARGE])))
  /\ (forall files w',
        Server.enhancedUpload req w = (Ok (Server.Continue files), w') ->
        Forall (fun f => size f <= 10 * FileUtils.MiB
                         /\ (exists e, disk w' !! path f = Some e
                                       /\ f_size e <= 10 * FileUtils.MiB)
                         /\ (20 * FileUtils.MiB <? size f) = false) files).
Proof.
  destruct (upload_spec (or_str (Server.body_sessionId req) "unknown") (Server.parts req) w)
    as (r & d & l & Hr & Hl & Hd & Hres).
  assert (Hup : Server.enhancedUpload req w
                = match r with
                  | Server.LIMIT_FILE_SIZE => (Ok Server.Returned, add_log w (l ++ [TOO_LARGE]))
                  | Server.Uploaded files => (Ok (Server.Continue files), with_disk_log w d l)
                  end).
  { unfold Server.enhancedUpload.
    change ((let* w0 := get_world in
             let* r := Server.upload (or_str (Server.body_sessionId req) "unknown")
                         (Server.parts req) in _) w)
      with ((let* r := Server.upload (or_str (Server.body_sessionId req) "unknown")
                         (Server.parts req) in
             match r with
             | Server.LIMIT_FILE_SIZE =>
                 let* _ := set_disk (disk w) in
                 let* _ := res_status_json 413 "File too large. Maximum size is 10MB." None in
                 ret Server.Returned
             | Server.Uploaded files => ret (Server.Continue files)
             end) w).
    erewrite bind_ok; [|exact Hr]. destruct r; [reflexivity|].
    unfold add_log, with_disk_log, TOO_LARGE. simpl. now rewrite app_assoc. }
  split.
  - intros (p & Hin & Hf & Hsz). destruct r as [files|].
    + destruct Hres as [Hall _]. specialize (Hall p Hin Hf). lia.
    + exists l. split; [exact Hl|].
      unfold Server.chat, Server.chat_stream.
      split; (erewrite bind_ok; [|exact Hup]); reflexivity.
  - intros files w' Hw'. rewrite Hup in Hw'. destruct r as [files'|]; [|discriminate].
    injection Hw' as <- <-. destruct Hres as [_ Hfiles].
    eapply Forall_impl; [exact Hfiles|].
    intros f [Hs (e & He & Hes)]. unfold Server.fileSize_limit, FileUtils.MiB in *.
    split; [lia|]. split; [exists e; split; [exact He | lia]|].
    apply Z.ltb_ge. lia.
Qed.

Lemma accepted_upload_over_limit_witness :
  (exists p, In p (Server.parts Sample.req_big)
             /\ Server.fileFilter (Server.part_mimetype p) = true
             /\ Server.fileSize_limit < Server.part_size p)
  /\ exists stores,
       forallb is_store stores = true
       /\ Server.chat (Sample.env_of Sample.all_keys Sample.net_down) Sample.req_big Sample.w0
          = (Ok tt, add_log Sample.w0 (stores ++ [TOO_LARGE]))
       /\ Server.chat_stream (Sample.env_of Sample.all_keys Sample.net_down) Sample.req_big
            Sample.w0
          = (Ok tt, add_log Sample.w0 (stores ++ [TOO_LARGE])).
Proof.
  assert (H : exists p, In p (Server.parts Sample.req_big)
                        /\ Server.fileFilter (Server.part_mimetype p) = true
                        /\ Server.fileSize_limit < Server.part_size p).
  { exists Sample.big_part. split; [left; reflexivity|]. split; reflexivity. }
  split; [exact H|].
  exact (proj1 (accepted_upload_over_limit_is_rejected
                  (Sample.env_of Sample.all_keys Sample.net_down) Sample.req_big Sample.w0) H).
Defined.

(** The claim as first stated fails on a file the filter refuses: an archive
    of 11 MiB is skipped by the middleware, which calls the handler with no
    file, and the request is answered by the provider. *)
Lemma refused_upload_over_limit_passes :
  In Sample.zip_part (Server.parts Sample.req_zip)
  /\ 10 * 1024 * 1024 < Server.part_size Sample.zip_part
  /\ Server.enhancedUpload Sample.req_zip Sample.w0 = (Ok (Server.Continue []), Sample.w0)
  /\ ~ In TOO_LARGE
         (log (Server.chat (Sample.env_of Sample.all_keys Sample.net_down)
                 Sample.req_zip Sample.w0).2).
Proof.
  split; [left; reflexivity|]. split; [reflexivity|]. split; [vm_compute; reflexivity|].
  vm_compute. intros [H|[H|[H|[H|[H|[H|[]]]]]]]; discriminate.
Qed.

(* ===================================================================== *)
(** ** What a streaming turn persists *)
(* ===================================================================== *)

Lemma forallb_not_done_no_done l : forallb not_done l = true -> ~ In (EWrite SDone) l.
Proof.
  intros H Hin. rewrite forallb_forall in H. specialize (H _ Hin). discriminate.
Qed.

Lemma persist_row sid uid uc reply c :
  match c !! sid with
  | None => persist sid uid uc reply c !! sid = Some (fresh_row uid uc reply)
  | Some row =>
      if String.eqb (user_id row) uid
      then persist sid uid uc reply c !! sid = Some (appended_row row uc reply)
      else persist sid uid uc reply c = c
  end.
Proof.
  unfold persist. destruct (c !! sid) as [row|]; [|apply lookup_insert_eq].
  destruct (String.eqb (user_id row) uid); [apply lookup_insert_eq | reflexivity].
Qed.

(** C1. For every streaming chat turn that ends with a done event, the
    assistant message appended to the session in memory, and the one given
    to the durable store, is exactly the concatenation, in order, of the
    chunk strings written on the stream during the turn.  The session's last
    message in memory is that assistant message.  The chats table is the
    one the request found with this turn written for the user whom the
    token of the request names: when the session had no row, its row is now
    a new row of that user holding the user message and that assistant
    message; when it had a row of that user, the row now holds its earlier
    messages followed by the two, with one more on its counter.  (When the
    session id is the id of a chat of another user, the insert is refused
    by the key of the table and nothing is stored.) *)
Theorem persisted_reply_is_chunk_concatenation env req w l :
  log (Server.chat_stream env req w).2 = log w ++ l ->
  In (EWrite SDone) l ->
  let w' := (Server.chat_stream env req w).2 in
  let sid := default "" (Server.body_sessionId req) in
  let reply := concat_str (chunks_of l) in
  exists uid userContent hist,
    user_of env req = Some uid
    /\ userConversations w' !! sid = Some (hist ++ [mkMessage "assistant" (CText reply)])
    /\ chats w' = persist sid uid userContent reply (chats w)
    /\ match chats w !! sid with
       | None =>
           chats w' !! sid
           = Some (mkChatRow uid
                     (Some [mkMessage "user" (CText userContent);
                            mkMessage "assistant" (CText reply)])
                     (Some 1))
       | Some row =>
           if String.eqb (user_id row) uid then
             chats w' !! sid
             = Some (mkChatRow uid
                       (Some (default [] (messages row)
                                ++ [mkMessage "user" (CText userContent);
                                    mkMessage "assistant" (CText reply)]))
                       (Some (Server.or_zero (message_count row) + 1)))
           else chats w' = chats w
       end.
Proof.
  intros Hl Hdone. cbv zeta.
  destruct (chat_stream_spec env req w)
    as [[_ (l' & Hl' & Hnd)] | (uid & Hu & l' & uc & Hl' & _ & Hc & hist & Hh)].
  - rewrite Hl in Hl'. apply app_inv_head in Hl'. subst l'.
    now apply forallb_not_done_no_done in Hnd.
  - rewrite Hl in Hl'. apply app_inv_head in Hl'. subst l'.
    exists uid, uc, hist. split; [exact Hu|]. split; [exact Hh|]. split; [exact Hc|].
    rewrite Hc.
    pose proof (persist_row (session_of req) uid uc (concat_str (chunks_of l)) (chats w)) as Hp.
    unfold session_of in *.
    destruct (chats w !! default "" (Server.body_sessionId req)) as [row|]; [|exact Hp].
    destruct (String.eqb (user_id row) uid) eqn:Hrow; [|exact Hp].
    apply String.eqb_eq in Hrow. rewrite Hp. unfold appended_row, turn_messages.
    now rewrite Hrow.
Qed.

Lemma persisted_reply_witness :
  let w' := (Server.chat_stream Sample.env_ok Sample.req_hello (Sample.after_turns 1)).2 in
  exists uid userContent hist,
    user_of Sample.env_ok Sample.req_hello = Some uid
    /\ userConversations w' !! "s1" = Some (hist ++ [mkMessage "assistant" (CText "hello")])
    /\ chats w' = persist "s1" uid userContent "hello" (chats (Sample.after_turns 1)).
Proof.
  destruct (persisted_reply_is_chunk_concatenation Sample.env_ok Sample.req_hello
              (Sample.after_turns 1)
              [ESseHeaders; EAuth "t"; EDb (SelectUser "u1"); EDb (SelectChat "s1" "u1");
               ENet (ReqOpenAI "gpt-3.5-turbo"
                       [mkMessage "system" (CText Server.STREAM_SYSTEM_PROMPT);
                        mkMessage "user" (CText "hello");
                        mkMessage "assistant" (CText "hi");
                        mkMessage "user" (CText "hello")] true);
               EWrite (SChunk "he"); EWrite (SChunk "llo"); EWrite SDone; EEnd;
               EDb (UpdateChat "s1")])
    as (uid & uc & hist & H1 & H2 & H3 & _).
  - vm_compute. reflexivity.
  - simpl. tauto.
  - exists uid, uc, hist. auto.
Defined.

(* ===================================================================== *)
(** ** The message counter *)
(* ===================================================================== *)

Lemma chat_stream_effect env req w :
  turn_effect (chats w) (chats (Server.chat_stream env req w).2).
Proof.
  destruct (chat_stream_spec env req w) as [[Hc _] | (uid & _ & l' & uc & _ & _ & Hc & _)];
    rewrite Hc; [apply turn_none | apply persist_effect].
Qed.

Lemma chat_delete_effect env sid auth w :
  chats (Server.chat_delete env sid auth w).2 = chats w
  \/ chats (Server.chat_delete env sid auth w).2 = delete sid (chats w).
Proof.
  set (c0 := chats w).
  assert (HIF : forall w, chats w = c0 -> chats w = c0 \/ chats w = delete sid c0)
    by (intros ? ->; now left).
  assert (H : steps (fun w => chats w = c0)
                    (fun w => chats w = c0 \/ chats w = delete sid c0)
                    (Server.chat_delete env sid auth)).
  2:{ apply H. reflexivity. }
  steps_auto ltac:(
    eapply steps_bind_switch;
    [ intros w1 Hw1; unfold Server.db_delete_chat; rewrite emit_bind;
      destruct (store_error env _); [left; exact Hw1|];
      rewrite get_world_bind; simpl chats; rewrite Hw1;
      destruct (c0 !! sid) as [row|]; [destruct (String.eqb (user_id row) _)|];
      simpl; [right | left | left]; first [reflexivity | exact Hw1]
    | intros ?; inv_auto ]).
Qed.

Lemma db_ok_delete sid c : db_ok c -> db_ok (delete sid c).
Proof.
  intros Hok s row. destruct (decide (sid = s)) as [<-|Hne].
  - rewrite lookup_delete_eq. discriminate.
  - rewrite lookup_delete_ne by assumption. apply Hok.
Qed.

Lemma reachable_ok w : reachable w -> db_ok (chats w).
Proof.
  induction 1 as [w Hw|env req w _ IH|env req w _ IH|env sid auth w _ IH].
  - rewrite Hw. intros s row. rewrite lookup_empty. discriminate.
  - eapply turn_effect_ok; [apply chat_effect | exact IH].
  - eapply turn_effect_ok; [apply chat_stream_effect | exact IH].
  - destruct (chat_delete_effect env sid auth w) as [-> | ->];
      [exact IH | now apply db_ok_delete].
Qed.

(** C10. Every chat turn, one-shot or streaming, leaves the chats table as
    it found it, or creates a row holding the two messages of the turn (the
    user's, then the assistant's) with [message_count] at 1, or appends these
    two messages to an existing row and adds exactly 1 to its
    [message_count].  Hence in every world the server can reach, every row
    has as many messages as twice its [message_count]: the counter counts
    turns, not messages. *)
Theorem message_count_counts_turns :
  (forall env req w,
     turn_effect (chats w) (chats (Server.chat env req w).2)
     /\ turn_effect (chats w) (chats (Server.chat_stream env req w).2))
  /\ (forall uid userContent reply,
        fresh_row uid userContent reply
        = mkChatRow uid (Some [mkMessage "user" (CText userContent);
                               mkMessage "assistant" (CText reply)]) (Some 1))
  /\ (forall row ms n userContent reply,
        messages row = Some ms -> message_count row = Some n ->
        appended_row row userContent reply
        = mkChatRow (user_id row)
                    (Some (ms ++ [mkMessage "user" (CText userContent);
                                  mkMessage "assistant" (CText reply)]))
                    (Some (n + 1)))
  /\ (forall w, reachable w ->
        forall sid row, chats w !! sid = Some row ->
          exists ms n, messages row = Some ms /\ message_count row = Some n
                       /\ Z.of_nat (length ms) = 2 * n).
Proof.
  split; [intros env req w; split; [apply chat_effect | apply chat_stream_effect]|].
  split; [reflexivity|].
  split.
  - intros row ms n uc reply Hms Hn. unfold appended_row. now rewrite Hms, Hn.
  - intros w Hw sid row Hrow. exact (reachable_ok w Hw sid row Hrow).
Qed.

Lemma message_count_witness :
  let w1 := (Server.chat Sample.env_ok Sample.req_hello Sample.w0).2 in
  let w2 := (Server.chat_stream Sample.env_ok Sample.req_hello w1).2 in
  reachable w2
  /\ exists row ms, chats w2 !! "s1" = Some row
                    /\ messages row = Some ms /\ message_count row = Some 2
                    /\ length ms = 4%nat.
Proof.
  cbv zeta.
  assert (Hr : reachable (Server.chat_stream Sample.env_ok Sample.req_hello
                            (Server.chat Sample.env_ok Sample.req_hello Sample.w0).2).2).
  { apply reach_stream, reach_chat, reach_start. reflexivity. }
  split; [exact Hr|].
  destruct (chats (Server.chat_stream Sample.env_ok Sample.req_hello
                     (Server.chat Sample.env_ok Sample.req_hello Sample.w0).2).2 !! "s1")
    as [row|] eqn:Hrow; [|vm_compute in Hrow; discriminate].
  destruct (proj2 (proj2 (proj2 message_count_counts_turns)) _ Hr "s1" row Hrow)
    as (ms & n & Hms & Hn & Hlen).
  exists row, ms. split; [reflexivity|]. split; [exact Hms|].
  vm_compute in Hrow. injection Hrow as <-. simpl in Hms, Hn.
  injection Hms as <-. injection Hn as <-. split; reflexivity.
Defined.
(* ===================================================================== *)
(** ** Access control of the chat endpoints *)
(* ===================================================================== *)

Lemma store_silent l : forallb is_store l = true -> forallb silent l = true.
Proof.
  intros H. apply forallb_forall. intros e He.
  rewrite forallb_forall in H. specialize (H e He). now destruct e.
Qed.

(** An upload that passes the middleware changes the disk and nothing else,
    and answers nothing. *)
Lemma upload_continue req w files w1 :
  Server.enhancedUpload req w = (Ok (Server.Continue files), w1) ->
  extends silent (log w) w1 /\ users w1 = users w /\ chats w1 = chats w
  /\ userConversations w1 = userConversations w
  /\ userSelectedModel w1 = userSelectedModel w.
Proof.
  intros H. destruct (enhancedUpload_eq req w) as (r & d & l & Hl & _ & Hres).
  destruct r as [fs|].
  - destruct Hres as (_ & _ & Heq). rewrite Heq in H. injection H as _ <-.
    split; [|repeat split]. exists l. split; [reflexivity | now apply store_silent].
  - destruct Hres as (_ & Heq). rewrite Heq in H. discriminate.
Qed.

Section Endpoints.
Variable env : Env.
Variable req : Server.Request.
Variable w : World.
Variable files : list UploadedFile.
Variable w1 : World.
Variables sid tok uid : string.
Hypothesis Hupload : Server.enhancedUpload req w = (Ok (Server.Continue files), w1).
Hypothesis Hauth : authenticated env req files sid tok uid.
Hypothesis Hsub : subscribed env (users w) uid = false.

Lemma chat_run :
  (Server.chat env req w).2
  = (Server.chat_authenticated env req files sid uid (add_log w1 [EAuth tok])).2.
Proof.
  unfold Server.chat. erewrite bind_ok; [|exact Hupload]. cbv beta iota.
  now rewrite (chat_handler_authenticated env req files sid tok uid w1 Hauth).
Qed.

Lemma chat_stream_run :
  (Server.chat_stream env req w).2
  = (Server.stream_authenticated env req files sid uid
       (add_log w1 [ESseHeaders; EAuth tok])).2.
Proof.
  unfold Server.chat_stream. erewrite bind_ok; [|exact Hupload]. cbv beta iota.
  now rewrite (chat_stream_handler_authenticated env req files sid tok uid w1 Hauth).
Qed.

Lemma chat_denied :
  let w' := (Server.chat env req w).2 in
  (Server.isPremiumModel (requested_model w sid (Server.body_model req)) = true ->
   Rejected (log w) (answer403 Server.QUOTA_CHATS) w'
   \/ Rejected (log w) (answer403 Server.QUOTA_MESSAGES) w'
   \/ Rejected (log w) (answer403 Server.PREMIUM_REQUIRED) w')
  /\ (forall row, select_row (chats w) sid uid = Some row ->
                  Server.ge_num (message_count row) 20 = true ->
                  Rejected (log w) (answer403 Server.QUOTA_MESSAGES) w').
Proof.
  cbv zeta. rewrite chat_run.
  destruct (upload_continue req w files w1 Hupload) as (Hs & Hu & Hc & Hcv & Hm).
  set (wa := add_log w1 [EAuth tok]).
  assert (Hsa : extends silent (log w) wa) by (apply extends_add_log; [exact Hs | reflexivity]).
  assert (Hua : subscribed env (users wa) uid = false) by (simpl; now rewrite Hu).
  destruct (chat_authenticated_denied env req files sid uid (log w) wa Hsa Hua) as [H1 H2].
  split.
  - intros Hp. apply H1. now rewrite (requested_model_frame w wa sid).
  - intros row Hrow. apply H2. simpl. now rewrite Hc.
Qed.

Lemma chat_stream_denied :
  let w' := (Server.chat_stream env req w).2 in
  (Server.isPremiumModel (requested_model w sid (Server.body_model req)) = true ->
   Rejected (log w) (answer_error Server.STREAM_QUOTA_CHATS) w'
   \/ Rejected (log w) (answer_error Server.STREAM_QUOTA_MESSAGES) w'
   \/ Rejected (log w) (answer_error Server.PREMIUM_REQUIRED) w')
  /\ (forall row, select_row (chats w) sid uid = Some row ->
                  Server.ge_num (message_count row) 20 = true ->
                  Rejected (log w) (answer_error Server.STREAM_QUOTA_MESSAGES) w').
Proof.
  cbv zeta. rewrite chat_stream_run.
  destruct (upload_continue req w files w1 Hupload) as (Hs & Hu & Hc & Hcv & Hm).
  set (wa := add_log w1 [ESseHeaders; EAuth tok]).
  assert (Hsa : extends silent (log w) wa) by (apply extends_add_log; [exact Hs | reflexivity]).
  assert (Hua : subscribed env (users wa) uid = false) by (simpl; now rewrite Hu).
  destruct (stream_authenticated_denied env req files sid uid (log w) wa Hsa Hua) as [H1 H2].
  split.
  - intros Hp. apply H1. now rewrite (requested_model_frame w wa sid).
  - intros row Hrow. apply H2. simpl. now rewrite Hc.
Qed.
End Endpoints.

Lemma isPremiumModel_markers m :
  Server.isPremiumModel m = true
  <-> exists pm, In pm ["gpt-4"; "claude"; "grok"; "deepseek"]
                 /\ includes (toLowerCase m) pm = true.
Proof. unfold Server.isPremiumModel, Server.premiumModels. cbv zeta. apply existsb_exists. Qed.

Lemma sample_authenticated req :
  Server.body_sessionId req = Some "s1" -> Server.body_message req = Some "hello" ->
  Server.authorization req = Some "Bearer t" ->
  authenticated Sample.env_ok req [] "s1" "t" "u1".
Proof.
  intros Hs Hm Ha. unfold authenticated. rewrite Hs, Hm, Ha.
  split; [reflexivity|]. split; [reflexivity|]. split; [reflexivity|].
  split; [exists "Bearer t"; split; reflexivity|]. split; [reflexivity|].
  exists "user@example.com". reflexivity.
Qed.

(** C3. A model id is premium exactly when its lowercase form contains one
    of the markers gpt-4, claude, grok, deepseek; and a request that passes
    the upload middleware and the identity check, from a user who is not
    subscribed, for a premium model, is answered with a 403 error (on the
    streaming endpoint: with one error event and the end of the stream),
    whatever the state of the quotas, and no provider is called. *)
Theorem premium_model_requires_subscription env req w files w1 sid tok uid :
  Server.enhancedUpload req w = (Ok (Server.Continue files), w1) ->
  authenticated env req files sid tok uid ->
  subscribed env (users w) uid = false ->
  (forall m, Server.isPremiumModel m = true
             <-> exists pm, In pm ["gpt-4"; "claude"; "grok"; "deepseek"]
                            /\ includes (toLowerCase m) pm = true)
  /\ (Server.isPremiumModel (requested_model w sid (Server.body_model req)) = true ->
      (exists msg, In msg [Server.QUOTA_CHATS; Server.QUOTA_MESSAGES; Server.PREMIUM_REQUIRED]
                   /\ Rejected (log w) [EStatusJson 403 msg None] (Server.chat env req w).2)
      /\ (exists msg,
             In msg [Server.STREAM_QUOTA_CHATS; Server.STREAM_QUOTA_MESSAGES;
                     Server.PREMIUM_REQUIRED]
             /\ Rejected (log w) [EWrite (SError msg None); EEnd]
                         (Server.chat_stream env req w).2)).
Proof.
  intros Hup Hauth Hsub. split; [apply isPremiumModel_markers|]. intros Hp.
  destruct (chat_denied env req w files w1 sid tok uid Hup Hauth Hsub) as [H1 _].
  destruct (chat_stream_denied env req w files w1 sid tok uid Hup Hauth Hsub) as [H2 _].
  cbv zeta in H1, H2. split.
  - destruct (H1 Hp) as [H | [H | H]]; eexists; (split; [|exact H]); simpl; tauto.
  - destruct (H2 Hp) as [H | [H | H]]; eexists; (split; [|exact H]); simpl; tauto.
Qed.

Lemma premium_model_witness :
  (Server.isPremiumModel "GPT-4-turbo" = true
   <-> exists pm, In pm ["gpt-4"; "claude"; "grok"; "deepseek"]
                  /\ includes (toLowerCase "GPT-4-turbo") pm = true)
  /\ (exists msg, In msg [Server.QUOTA_CHATS; Server.QUOTA_MESSAGES; Server.PREMIUM_REQUIRED]
                  /\ Rejected [] [EStatusJson 403 msg None]
                              (Server.chat Sample.env_ok Sample.req_premium Sample.w0).2)
  /\ (exists msg,
         In msg [Server.STREAM_QUOTA_CHATS; Server.STREAM_QUOTA_MESSAGES;
                 Server.PREMIUM_REQUIRED]
         /\ Rejected [] [EWrite (SError msg None); EEnd]
                     (Server.chat_stream Sample.env_ok Sample.req_premium Sample.w0).2).
Proof.
  destruct (premium_model_requires_subscription Sample.env_ok Sample.req_premium Sample.w0
              [] Sample.w0 "s1" "t" "u1") as [Hc Hr].
  - reflexivity.
  - apply sample_authenticated; reflexivity.
  - reflexivity.
  - split; [apply Hc|]. apply Hr. reflexivity.
Defined.

(** C4 as stated does not hold: after ten turns the row of the session
    holds 20 stored messages and its counter is at 10; the eleventh turn of
    the unsubscribed user is not rejected, on either endpoint: the provider
    is called and its reply is delivered. *)
Lemma twenty_stored_messages_are_not_rejected :
  let w := Sample.after_turns 10 in
  (exists row ms, select_row (chats w) "s1" "u1" = Some row
                  /\ messages row = Some ms /\ length ms = 20%nat
                  /\ message_count row = Some 10)
  /\ subscribed Sample.env_ok (users w) "u1" = false
  /\ (exists l, log (Server.chat Sample.env_ok Sample.req_hello w).2 = log w ++ l
                /\ responses l = [EJsonReply "hi"] /\ existsb is_net l = true)
  /\ (exists l, log (Server.chat_stream Sample.env_ok Sample.req_hello w).2 = log w ++ l
                /\ responses l = [EWrite (SChunk "he"); EWrite (SChunk "llo");
                                  EWrite SDone; EEnd]
                /\ existsb is_net l = true)
  /\ ~ Rejected (log w) [EStatusJson 403 Server.QUOTA_MESSAGES None]
                (Server.chat Sample.env_ok Sample.req_hello w).2
  /\ ~ Rejected (log w) [EWrite (SError Server.STREAM_QUOTA_MESSAGES None); EEnd]
                (Server.chat_stream Sample.env_ok Sample.req_hello w).2.
Proof.
  cbv zeta.
  assert (H1 : exists l, log (Server.chat Sample.env_ok Sample.req_hello
                                (Sample.after_turns 10)).2
                         = log (Sample.after_turns 10) ++ l
                         /\ responses l = [EJsonReply "hi"] /\ existsb is_net l = true).
  { exists (skipn (length (log (Sample.after_turns 10)))
                  (log (Server.chat Sample.env_ok Sample.req_hello (Sample.after_turns 10)).2)).
    split; [|split]; vm_compute; reflexivity. }
  assert (H2 : exists l, log (Server.chat_stream Sample.env_ok Sample.req_hello
                                (Sample.after_turns 10)).2
                         = log (Sample.after_turns 10) ++ l
                         /\ responses l = [EWrite (SChunk "he"); EWrite (SChunk "llo");
                                           EWrite SDone; EEnd]
                         /\ existsb is_net l = true).
  { exists (skipn (length (log (Sample.after_turns 10)))
                  (log (Server.chat_stream Sample.env_ok Sample.req_hello
                          (Sample.after_turns 10)).2)).
    split; [|split]; vm_compute; reflexivity. }
  split; [|split; [|split; [|split; [|split]]]].
  - exists (default (mkChatRow "" None None) (chats (Sample.after_turns 10) !! "s1")).
    exists (default [] (messages (default (mkChatRow "" None None)
                                         (chats (Sample.after_turns 10) !! "s1")))).
    split; [|split; [|split]]; vm_compute; reflexivity.
  - vm_compute. reflexivity.
  - exact H1.
  - exact H2.
  - intros (l' & Hl' & Hr' & _). destruct H1 as (l & Hl & Hr & _).
    rewrite Hl in Hl'. apply app_inv_head in Hl'. subst l'.
    rewrite Hr in Hr'. discriminate.
  - intros (l' & Hl' & Hr' & _). destruct H2 as (l & Hl & Hr & _).
    rewrite Hl in Hl'. apply app_inv_head in Hl'. subst l'.
    rewrite Hr in Hr'. discriminate.
Qed.

(** C4, amended. The per-chat quota is on the counter of the row: when the
    row of the session has a counter of 20 or more, the next turn of an
    unsubscribed user is answered with the per-chat-quota error and nothing
    else, on either endpoint, and no provider is called. *)
Theorem counter_at_twenty_is_rejected env req w files w1 sid tok uid row :
  Server.enhancedUpload req w = (Ok (Server.Continue files), w1) ->
  authenticated env req files sid tok uid ->
  subscribed env (users w) uid = false ->
  select_row (chats w) sid uid = Some row ->
  20 <= Server.or_zero (message_count row) ->
  Rejected (log w) [EStatusJson 403 Server.QUOTA_MESSAGES None] (Server.chat env req w).2
  /\ Rejected (log w) [EWrite (SError Server.STREAM_QUOTA_MESSAGES None); EEnd]
              (Server.chat_stream env req w).2.
Proof.
  intros Hup Hauth Hsub Hrow Hge.
  assert (Hb : Server.ge_num (message_count row) 20 = true)
    by (unfold Server.ge_num; now apply Z.leb_le).
  destruct (chat_denied env req w files w1 sid tok uid Hup Hauth Hsub) as [_ H1].
  destruct (chat_stream_denied env req w files w1 sid tok uid Hup Hauth Hsub) as [_ H2].
  split; [exact (H1 row Hrow Hb) | exact (H2 row Hrow Hb)].
Qed.

Lemma counter_at_twenty_witness :
  let w := Sample.after_turns 20 in
  Rejected (log w) [EStatusJson 403 Server.QUOTA_MESSAGES None]
           (Server.chat Sample.env_ok Sample.req_hello w).2
  /\ Rejected (log w) [EWrite (SError Server.STREAM_QUOTA_MESSAGES None); EEnd]
              (Server.chat_stream Sample.env_ok Sample.req_hello w).2.
Proof.
  cbv zeta.
  refine (counter_at_twenty_is_rejected Sample.env_ok Sample.req_hello (Sample.after_turns 20)
            [] (Sample.after_turns 20) "s1" "t" "u1"
            (default (mkChatRow "" None None) (chats (Sample.after_turns 20) !! "s1"))
            _ _ _ _ _).
  - vm_compute. reflexivity.
  - apply sample_authenticated; reflexivity.
  - vm_compute. reflexivity.
  - vm_compute. reflexivity.
  - vm_compute. discriminate.
Defined.
(* ===================================================================== *)
(** ** The order of the access checks and the work *)
(* ===================================================================== *)

Lemma inv_ordered {A} P Q L0 (m : M A) : emits Q m -> inv (ordered P Q L0) m.
Proof.
  intros Hm w (l1 & Hp & Hq). exists l1. split; [exact Hp|]. now apply Hm.
Qed.

Lemma steps_now {A} (I F : World -> Prop) (m : M A) :
  inv F m -> (forall w, I w -> F w) -> steps I F m.
Proof. intros Hm HIF w Hw. apply Hm, HIF, Hw. Qed.

(** From the processing of the uploads on, neither handler resolves a
    subscription or reads a quota counter. *)
Lemma chat_attachments_no_access env req files sid :
  emits no_access (Server.chat_attachments env req files sid).
Proof. intros L. inv_auto. Qed.

Lemma chat_generate_no_access env files selectedModel userContent existingChat sid uid :
  emits no_access (Server.chat_generate env files selectedModel userContent existingChat sid uid).
Proof. intros L. inv_auto. Qed.

Lemma stream_attachments_no_access env req files sid :
  emits no_access (Server.stream_attachments env req files sid).
Proof. intros L. inv_auto. Qed.

Lemma stream_generate_no_access env req files selectedModel existingChat sid uid :
  emits no_access (Server.stream_generate env req files selectedModel existingChat sid uid).
Proof. intros L. inv_auto. Qed.

Ltac quiet_step := apply steps_inv; [inv_auto | apply ordered_start].

Ltac quiet_guards :=
  repeat match goal with
         | |- steps _ _ (if ?c then _ else _) => destruct c; [quiet_step|]
         | |- steps _ _ (let _ := _ in _) => cbv zeta
         end.

Section Order.
Variable env : Env.
Variable req : Server.Request.
Variable L0 : list Event.

Lemma chat_authenticated_ordered files sid uid :
steps (extends no_work L0) (ordered no_work no_access L0)
      (Server.chat_authenticated env req files sid uid).
Proof.
unfold Server.chat_authenticated.
apply steps_bind_inv; [inv_auto | intros isSubscribed | apply ordered_start].
apply steps_bind_inv; [inv_auto | intros existingChat | apply ordered_start].
apply steps_bind_inv; [inv_auto | intros quota | apply ordered_start].
destruct quota; [|quiet_step].
apply steps_now; [|apply ordered_start].
apply inv_ordered. intros L.
apply inv_bind; [apply chat_attachments_no_access|]. intros [p|]; [|inv_auto].
cbv zeta. destruct (_ && _); [inv_auto | apply chat_generate_no_access].
Qed.

Lemma chat_ordered :
steps (extends no_work L0) (ordered no_work no_access L0) (Server.chat env req).
Proof.
unfold Server.chat.
apply steps_bind_inv; [inv_auto | intros up | apply ordered_start].
destruct up as [files|]; [|quiet_step].
unfold Server.chat_handler.
apply steps_try_catch; [|intros e; inv_auto].
quiet_guards.
apply steps_try_catch; [|intros e; inv_auto].
apply steps_bind_inv; [inv_auto | intros _ | apply ordered_start].
destruct (auth_getUser env _); try quiet_step.
apply steps_bind_switch; [apply chat_authenticated_ordered | intros ?; inv_auto].
Qed.

Lemma stream_authenticated_ordered files sid uid :
steps (extends no_work L0) (ordered no_work no_access L0)
      (Server.stream_authenticated env req files sid uid).
Proof.
unfold Server.stream_authenticated.
apply steps_bind_inv; [inv_auto | intros isSubscribed | apply ordered_start].
apply steps_bind_inv; [inv_auto | intros existingChat | apply ordered_start].
apply steps_bind_inv; [inv_auto | intros quota | apply ordered_start].
destruct quota; [|quiet_step].
apply steps_now; [|apply ordered_start].
apply inv_ordered. intros L.
apply inv_bind; [apply stream_attachments_no_access|]. intros [p|]; [|inv_auto].
destruct (_ && _); [inv_auto |].
apply inv_try_catch; [apply stream_generate_no_access | intros ?; inv_auto].
Qed.

Lemma chat_stream_ordered :
steps (extends no_work L0) (ordered no_work no_access L0) (Server.chat_stream env req).
Proof.
unfold Server.chat_stream.
apply steps_bind_inv; [inv_auto | intros up | apply ordered_start].
destruct up as [files|]; [|quiet_step].
unfold Server.chat_stream_handler.
apply steps_try_catch; [|intros e; inv_auto].
quiet_guards.
apply steps_bind_inv; [inv_auto | intros _ | apply ordered_start].
apply steps_try_catch; [|intros e; inv_auto].
apply steps_bind_inv; [inv_auto | intros _ | apply ordered_start].
destruct (auth_getUser env _); try quiet_step.
apply steps_bind_switch; [apply stream_authenticated_ordered | intros ?; inv_auto].
Qed.
End Order.

(** *** A request over the quota *)

Lemma db_count_chats_eq uid w :
  Server.db_count_chats uid w
  = (Ok (Z.of_nat (base.size (filter (fun kv => user_id (snd kv) = uid) (chats w)))),
     add_log w [EDb (CountChats uid)]).
Proof. reflexivity. Qed.

Lemma check_quota_over c sid uid (rc rm : M unit) w :
  chats w = c -> over_quota c sid uid = true -> total rc -> total rm ->
  (Server.check_quota false (select_row c sid uid) uid rc rm w).1 = Ok Server.Returned.
Proof.
  intros Hc Hover Hrc Hrm. unfold Server.check_quota, over_quota in *.
  change (negb false) with true. cbv iota.
  destruct (select_row c sid uid) as [row|].
  - rewrite Hover. destruct (Hrm w) as [[] Ha]. now rewrite (bind_fst_ok _ _ _ _ Ha).
  - erewrite bind_ok; [|apply db_count_chats_eq]. rewrite Hc, Hover.
    destruct (Hrc (add_log w [EDb (CountChats uid)])) as [[] Ha].
    now rewrite (bind_fst_ok _ _ _ _ Ha).
Qed.

Section OverQuota.
Variable env : Env.
Variable req : Server.Request.
Variable files : list UploadedFile.
Variables sid uid : string.
Variable L0 : list Event.

Lemma isUserSubscribed_quiet w :
extends no_work L0 w ->
extends no_work L0 (Server.isUserSubscribed env uid w).2
/\ chats (Server.isUserSubscribed env uid w).2 = chats w.
Proof.
intros Hw.
assert (H1 : inv (extends no_work L0) (Server.isUserSubscribed env uid)) by inv_auto.
assert (H2 : inv (fun w' => chats w' = chats w) (Server.isUserSubscribed env uid))
  by inv_auto.
split; [apply H1, Hw | now apply H2].
Qed.

Lemma chat_authenticated_over w :
extends no_work L0 w -> subscribed env (users w) uid = false ->
over_quota (chats w) sid uid = true ->
extends no_work L0 (Server.chat_authenticated env req files sid uid w).2.
Proof.
intros Hw Hsub Hover. unfold Server.chat_authenticated.
destruct (isUserSubscribed_quiet w Hw) as [H1 Hc1].
pose proof (isUserSubscribed_gives env uid w) as Hv. rewrite Hsub in Hv.
rewrite (bind_fst_ok _ _ _ _ Hv).
erewrite bind_ok; [|apply db_select_chat_eq].
set (w2 := add_log _ [EDb (SelectChat sid uid)]).
assert (H2 : extends no_work L0 w2) by (apply extends_add_log; [exact H1 | reflexivity]).
assert (Hq : (Server.check_quota false (select_row (chats w) sid uid) uid
                (res_status_json 403 Server.QUOTA_CHATS None)
                (res_status_json 403 Server.QUOTA_MESSAGES None) w2).1
             = Ok Server.Returned).
{ apply check_quota_over; [exact Hc1 | exact Hover | total_auto | total_auto]. }
rewrite Hc1. rewrite (bind_fst_ok _ _ _ _ Hq). cbv iota. unfold ret. simpl snd.
assert (Hi : inv (extends no_work L0)
                 (Server.check_quota false (select_row (chats w) sid uid) uid
                    (res_status_json 403 Server.QUOTA_CHATS None)
                    (res_status_json 403 Server.QUOTA_MESSAGES None))) by inv_auto.
apply Hi, H2.
Qed.

Lemma stream_authenticated_over w :
extends no_work L0 w -> subscribed env (users w) uid = false ->
over_quota (chats w) sid uid = true ->
extends no_work L0 (Server.stream_authenticated env req files sid uid w).2.
Proof.
intros Hw Hsub Hover. unfold Server.stream_authenticated.
destruct (isUserSubscribed_quiet w Hw) as [H1 Hc1].
pose proof (isUserSubscribed_gives env uid w) as Hv. rewrite Hsub in Hv.
rewrite (bind_fst_ok _ _ _ _ Hv).
erewrite bind_ok; [|apply db_select_chat_eq].
set (w2 := add_log _ [EDb (SelectChat sid uid)]).
assert (H2 : extends no_work L0 w2) by (apply extends_add_log; [exact H1 | reflexivity]).
assert (Hq : (Server.check_quota false (select_row (chats w) sid uid) uid
                (Server.stream_error Server.STREAM_QUOTA_CHATS None)
                (Server.stream_error Server.STREAM_QUOTA_MESSAGES None) w2).1
             = Ok Server.Returned).
{ apply check_quota_over; [exact Hc1 | exact Hover | total_auto | total_auto]. }
rewrite Hc1. rewrite (bind_fst_ok _ _ _ _ Hq). cbv iota. unfold ret. simpl snd.
assert (Hi : inv (extends no_work L0)
                 (Server.check_quota false (select_row (chats w) sid uid) uid
                    (Server.stream_error Server.STREAM_QUOTA_CHATS None)
                    (Server.stream_error Server.STREAM_QUOTA_MESSAGES None))) by inv_auto.
apply Hi, H2.
Qed.
End OverQuota.

Lemma silent_no_work_start req w files w1 :
  Server.enhancedUpload req w = (Ok (Server.Continue files), w1) ->
  extends no_work (log w) w1 /\ users w1 = users w /\ chats w1 = chats w.
Proof.
  intros H. destruct (enhancedUpload_eq req w) as (r & d & l & Hl & _ & Hres).
  destruct r as [fs|].
  - destruct Hres as (_ & _ & Heq). rewrite Heq in H. injection H as _ <-.
    split; [|split; reflexivity]. exists l. split; [reflexivity|].
    apply forallb_forall. intros e He. rewrite forallb_forall in Hl.
    specialize (Hl e He). now destruct e.
  - destruct Hres as (_ & Heq). rewrite Heq in H. discriminate.
Qed.

Lemma rejected_no_net L0 answer w :
  Rejected L0 answer w -> extends (fun e => negb (is_net e)) L0 w.
Proof. intros (l & Hl & _ & Hn). exists l. split; assumption. Qed.

(** C5 as stated does not hold: the premium gate comes after the uploads
    are processed.  An unsubscribed user asks for gpt-4 with a text
    document attached: on the one-shot endpoint the document is looked up,
    measured and read before the request is refused; on the streaming
    endpoint it is looked up before the request is refused. *)
Lemma premium_gate_follows_attachment_processing :
  subscribed Sample.env_ok (users Sample.w0) "u1" = false
  /\ log (Server.chat Sample.env_ok Sample.req_premium_notes Sample.w0).2
     = [EStore "uploads/s1/files-9.txt"; EAuth "t"; EDb (SelectUser "u1");
        EDb (SelectChat "s1" "u1"); EDb (CountChats "u1");
        EExists "uploads/s1/files-9.txt"; EExists "uploads/s1/files-9.txt";
        EStat "uploads/s1/files-9.txt"; EReadFile "uploads/s1/files-9.txt";
        EStatusJson 403 Server.PREMIUM_REQUIRED None]
  /\ log (Server.chat_stream Sample.env_ok Sample.req_premium_notes Sample.w0).2
     = [EStore "uploads/s1/files-9.txt"; ESseHeaders; EAuth "t"; EDb (SelectUser "u1");
        EDb (SelectChat "s1" "u1"); EDb (CountChats "u1");
        EExists "uploads/s1/files-9.txt";
        EWrite (SError Server.PREMIUM_REQUIRED None); EEnd]
  /\ ~ (forall env req w l,
          log (Server.chat env req w).2 = log w ++ l ->
          In (EStatusJson 403 Server.PREMIUM_REQUIRED None) l ->
          forallb no_work l = true)
  /\ ~ (forall env req w l,
          log (Server.chat_stream env req w).2 = log w ++ l ->
          In (EWrite (SError Server.PREMIUM_REQUIRED None)) l ->
          forallb no_work l = true).
Proof.
  assert (H1 : log (Server.chat Sample.env_ok Sample.req_premium_notes Sample.w0).2
               = [EStore "uploads/s1/files-9.txt"; EAuth "t"; EDb (SelectUser "u1");
                  EDb (SelectChat "s1" "u1"); EDb (CountChats "u1");
                  EExists "uploads/s1/files-9.txt"; EExists "uploads/s1/files-9.txt";
                  EStat "uploads/s1/files-9.txt"; EReadFile "uploads/s1/files-9.txt";
                  EStatusJson 403 Server.PREMIUM_REQUIRED None])
    by (vm_compute; reflexivity).
  assert (H2 : log (Server.chat_stream Sample.env_ok Sample.req_premium_notes Sample.w0).2
               = [EStore "uploads/s1/files-9.txt"; ESseHeaders; EAuth "t";
                  EDb (SelectUser "u1"); EDb (SelectChat "s1" "u1"); EDb (CountChats "u1");
                  EExists "uploads/s1/files-9.txt";
                  EWrite (SError Server.PREMIUM_REQUIRED None); EEnd])
    by (vm_compute; reflexivity).
  split; [vm_compute; reflexivity|]. split; [exact H1|]. split; [exact H2|]. split.
  - intros H. specialize (H _ _ _ _ H1). discriminate H. simpl. tauto.
  - intros H. specialize (H _ _ _ _ H2). discriminate H. simpl. tauto.
Qed.

(** C5, amended. On both endpoints and for every request, the calls that
    resolve the subscription and read the quota counters all come before
    the first access to an attachment on the disk and before the first
    provider call.  For a request that passes the upload middleware and the
    identity check, from a user who is not subscribed: when the free tier
    is used up, no attachment is accessed and no provider is called; when
    the model is premium, no provider is called (the uploads may have been
    processed by then). *)
Theorem access_checks_precede_work env req w :
  ordered no_work no_access (log w) (Server.chat env req w).2
  /\ ordered no_work no_access (log w) (Server.chat_stream env req w).2
  /\ forall files w1 sid tok uid,
       Server.enhancedUpload req w = (Ok (Server.Continue files), w1) ->
       authenticated env req files sid tok uid ->
       subscribed env (users w) uid = false ->
       (over_quota (chats w) sid uid = true ->
        extends no_work (log w) (Server.chat env req w).2
        /\ extends no_work (log w) (Server.chat_stream env req w).2)
       /\ (Server.isPremiumModel (requested_model w sid (Server.body_model req)) = true ->
           extends (fun e => negb (is_net e)) (log w) (Server.chat env req w).2
           /\ extends (fun e => negb (is_net e)) (log w) (Server.chat_stream env req w).2).
Proof.
  split; [apply chat_ordered, extends_refl|].
  split; [apply chat_stream_ordered, extends_refl|].
  intros files w1 sid tok uid Hup Hauth Hsub.
  destruct (silent_no_work_start req w files w1 Hup) as (Hs & Hu & Hc).
  split.
  - intros Hover.
    rewrite (chat_run env req w files w1 sid tok uid Hup Hauth).
    rewrite (chat_stream_run env req w files w1 sid tok uid Hup Hauth).
    split.
    + apply chat_authenticated_over.
      * apply extends_add_log; [exact Hs | reflexivity].
      * simpl. now rewrite Hu.
      * simpl. now rewrite Hc.
    + apply stream_authenticated_over.
      * apply extends_add_log; [exact Hs | reflexivity].
      * simpl. now rewrite Hu.
      * simpl. now rewrite Hc.
  - intros Hp.
    destruct (chat_denied env req w files w1 sid tok uid Hup Hauth Hsub) as [H1 _].
    destruct (chat_stream_denied env req w files w1 sid tok uid Hup Hauth Hsub) as [H2 _].
    cbv zeta in H1, H2. split.
    + destruct (H1 Hp) as [H | [H | H]]; exact (rejected_no_net _ _ _ H).
    + destruct (H2 Hp) as [H | [H | H]]; exact (rejected_no_net _ _ _ H).
Qed.

Lemma access_checks_witness :
  ordered no_work no_access [] (Server.chat Sample.env_ok Sample.req_premium Sample.w0).2
  /\ extends no_work (log (Sample.after_turns 20))
             (Server.chat Sample.env_ok Sample.req_hello (Sample.after_turns 20)).2
  /\ extends (fun e => negb (is_net e)) []
             (Server.chat_stream Sample.env_ok Sample.req_premium Sample.w0).2.
Proof.
  split; [apply (access_checks_precede_work Sample.env_ok Sample.req_premium Sample.w0)|].
  split.
  - destruct (access_checks_precede_work Sample.env_ok Sample.req_hello
                (Sample.after_turns 20)) as (_ & _ & H).
    destruct (H [] (Sample.after_turns 20) "s1" "t" "u1") as [Hq _].
    + vm_compute. reflexivity.
    + apply sample_authenticated; reflexivity.
    + vm_compute. reflexivity.
    + apply Hq. vm_compute. reflexivity.
  - destruct (access_checks_precede_work Sample.env_ok Sample.req_premium Sample.w0)
      as (_ & _ & H).
    destruct (H [] Sample.w0 "s1" "t" "u1") as [_ Hp].
    + reflexivity.
    + apply sample_authenticated; reflexivity.
    + reflexivity.
    + apply Hp. reflexivity.
Defined.
(* ===================================================================== *)
(** ** Splitting strings *)
(* ===================================================================== *)

Lemma has_char_app c a b : has_char c (a +:+ b) = has_char c a || has_char c b.
Proof.
  induction a as [|d a IH]; [reflexivity|].
  change (Ascii.eqb d c || has_char c (a +:+ b)
          = Ascii.eqb d c || has_char c a || has_char c b).
  rewrite IH. now rewrite orb_assoc.
Qed.

Lemma rev_app_append s t : String.rev_app s t = String.rev_app s "" +:+ t.
Proof.
  revert t. induction s as [|a s IH]; intros t; [reflexivity|].
  cbn [String.rev_app]. rewrite (IH (String a t)), (IH (String a "")).
  now rewrite str_app_assoc.
Qed.

Lemma rev_cons d cur : String.rev (String d cur) = String.rev cur +:+ String d "".
Proof. unfold String.rev. cbn [String.rev_app]. apply rev_app_append. Qed.

Lemma split_aux_none sep a cur :
  has_char sep a = false -> split_aux sep a cur = [String.rev cur +:+ a].
Proof.
  revert cur. induction a as [|d a IH]; intros cur H.
  - simpl. now rewrite str_app_nil_r.
  - simpl in H. apply orb_false_iff in H as [Hd Ha].
    cbn [split_aux]. rewrite Hd. rewrite (IH _ Ha). rewrite rev_cons.
    rewrite str_app_assoc. reflexivity.
Qed.

Lemma split_aux_first sep a b cur :
  has_char sep a = false ->
  split_aux sep (a +:+ String sep b) cur
  = (String.rev cur +:+ a) :: split_aux sep b EmptyString.
Proof.
  revert cur. induction a as [|d a IH]; intros cur H.
  - change (split_aux sep (String sep b) cur
            = (String.rev cur +:+ "") :: split_aux sep b EmptyString).
    cbn [split_aux]. rewrite Ascii.eqb_refl. now rewrite str_app_nil_r.
  - simpl in H. apply orb_false_iff in H as [Hd Ha].
    change (split_aux sep (String d (a +:+ String sep b)) cur
            = (String.rev cur +:+ String d a) :: split_aux sep b EmptyString).
    cbn [split_aux]. rewrite Hd. rewrite (IH _ Ha). rewrite rev_cons.
    rewrite str_app_assoc. reflexivity.
Qed.

Lemma split_none sep a : has_char sep a = false -> split sep a = [a].
Proof. intros H. unfold split. now rewrite split_aux_none. Qed.

Lemma split_first sep a b :
  has_char sep a = false -> split sep (a +:+ String sep b) = a :: split sep b.
Proof. intros H. unfold split. now rewrite split_aux_first. Qed.

Lemma startsWith_nil s : startsWith s "" = true.
Proof. now destruct s. Qed.

Lemma startsWith_app p s : startsWith (p +:+ s) p = true.
Proof.
  induction p as [|c p IH]; [apply startsWith_nil|].
  change (startsWith (String c (p +:+ s)) (String c p) = true).
  cbn [startsWith]. now rewrite Ascii.eqb_refl.
Qed.

(* ===================================================================== *)
(** ** The Authorization header *)
(* ===================================================================== *)

(** X1. The token is the second word of the Authorization header, whatever
    the first word is: [scheme token] gives [token].  A header without a
    space has no token, and the delete endpoint answers it with 401
    "Malformed Authorization header" without asking the identity service
    and without touching any table or map. *)
Theorem bearer_token_second_word scheme token h sessionId env w :
  has_char " " scheme = false -> has_char " " token = false ->
  has_char " " h = false -> truthy_str h = true -> truthy_str sessionId = true ->
  Server.bearer_token (scheme +:+ " " +:+ token) = Some token
  /\ Server.bearer_token h = None
  /\ Server.chat_delete env sessionId (Some h) w
     = (Ok tt, add_log w [EStatusJson 401 "Malformed Authorization header" None]).
Proof.
  intros Hs Ht Hh Hne Hsid. unfold Server.bearer_token.
  assert (H1 : split " " (scheme +:+ " " +:+ token) = [scheme; token]).
  { change (scheme +:+ " " +:+ token) with (scheme +:+ String " " token).
    rewrite split_first by exact Hs. now rewrite split_none. }
  assert (H2 : split " " h = [h]) by now apply split_none.
  split; [now rewrite H1|]. split; [now rewrite H2|].
  unfold Server.chat_delete, Server.bearer_token. rewrite Hsid.
  change (default "" (Some h)) with h. cbn [negb truthy_ostr]. rewrite Hne.
  cbv zeta. cbn [negb]. rewrite H2. reflexivity.
Qed.

Lemma bearer_token_witness :
  Server.bearer_token ("Basic" +:+ " " +:+ "abc") = Some "abc"
  /\ Server.bearer_token "Bearer" = None
  /\ Server.chat_delete Sample.env_ok "s1" (Some "Bearer") Sample.w0
     = (Ok tt, add_log Sample.w0 [EStatusJson 401 "Malformed Authorization header" None]).
Proof.
  apply (bearer_token_second_word "Basic" "abc" "Bearer" "s1" Sample.env_ok Sample.w0);
    reflexivity.
Defined.

(* ===================================================================== *)
(** ** Data URLs *)
(* ===================================================================== *)

Lemma or_str_plain mt :
  plain_media_type mt = true ->
  plain_media_type (or_str (Some mt) "application/octet-stream") = true.
Proof. intros H. destruct mt; [reflexivity | exact H]. Qed.

Lemma format_data_url mt d :
  plain_media_type mt = true -> has_char "," d = false ->
  ClaudeService.format_part (PImageUrl ("data:" +:+ mt +:+ ";base64," +:+ d))
  = [PImage mt (Some d)].
Proof.
  unfold plain_media_type. intros H Hd.
  apply andb_true_iff in H as [H Hcolon]. apply andb_true_iff in H as [Hcomma Hsemi].
  apply negb_true_iff in Hcolon, Hcomma, Hsemi.
  unfold ClaudeService.format_part.
  rewrite startsWith_app.
  assert (Hparts : split "," ("data:" +:+ mt +:+ ";base64," +:+ d)
                   = ["data:" +:+ mt +:+ ";base64"; d]).
  { replace ("data:" +:+ mt +:+ ";base64," +:+ d)
      with (("data:" +:+ mt +:+ ";base64") +:+ String "," d).
    2:{ rewrite !str_app_assoc. reflexivity. }
    rewrite split_first; [now rewrite split_none|].
    rewrite !has_char_app, Hcomma. reflexivity. }
  assert (Hhead : split ";" ("data:" +:+ mt +:+ ";base64") = ["data:" +:+ mt; "base64"]).
  { replace ("data:" +:+ mt +:+ ";base64") with (("data:" +:+ mt) +:+ String ";" "base64").
    2:{ rewrite !str_app_assoc. reflexivity. }
    rewrite split_first; [reflexivity|].
    rewrite has_char_app, Hsemi. reflexivity. }
  assert (Hmt : split ":" ("data:" +:+ mt) = ["data"; mt]).
  { change ("data:" +:+ mt) with ("data" +:+ String ":" mt).
    rewrite split_first by reflexivity. now rewrite split_none. }
  cbv zeta. rewrite Hparts. cbn [nth]. rewrite Hhead. cbn [nth]. rewrite Hmt. reflexivity.
Qed.

(** X2. What [fileToDataURL] encodes, [formatMessagesForClaude] decodes:
    for a readable file of at most 10 MiB, whose media type holds no
    comma, semicolon or colon, the data URL is produced, and the image part
    made of it is turned into Claude's image part with the same media type
    (or application/octet-stream for an empty one) and the same base64
    data. *)
Theorem data_url_round_trip env p mt f w :
  disk w !! p = Some f -> f_readable f = true -> f_size f <= 10 * FileUtils.MiB ->
  plain_media_type mt = true -> has_char "," (base64 env (f_data f)) = false ->
  exists u,
    FileUtils.fileToDataURL env p mt w
    = (Ok (Some u), add_log w [EExists p; EStat p; EReadFile p])
    /\ ClaudeService.format_part (PImageUrl u)
       = [PImage (or_str (Some mt) "application/octet-stream")
                 (Some (base64 env (f_data f)))].
Proof.
  intros Hf Hr Hsz Hmt Hd.
  exists ("data:" +:+ or_str (Some mt) "application/octet-stream" +:+ ";base64,"
            +:+ base64 env (f_data f)).
  split.
  - unfold FileUtils.fileToDataURL.
    erewrite try_ok; [reflexivity|].
    unfold fs_existsSync. rewrite bind_assoc, emit_bind, bind_assoc, get_world_bind.
    rewrite ret_bind. cbn [disk add_log]. rewrite Hf.
    rewrite bool_decide_eq_true_2 by (eexists; reflexivity).
    cbn [negb]. cbv iota.
    unfold fs_stat. rewrite bind_assoc, emit_bind, bind_assoc, get_world_bind.
    cbn [disk add_log]. rewrite Hf. rewrite ret_bind.
    assert (Hlt : (10 * FileUtils.MiB <? f_size f) = false) by now apply Z.ltb_ge.
    rewrite Hlt. cbv iota.
    unfold fs_readFile. rewrite bind_assoc, emit_bind, bind_assoc, get_world_bind.
    cbn [disk add_log]. rewrite Hf, Hr. rewrite ret_bind. cbv zeta.
    unfold ret. f_equal. unfold add_log. cbn. f_equal. now rewrite <- !app_assoc.
  - apply format_data_url; [now apply or_str_plain | exact Hd].
Qed.

Lemma data_url_witness :
  exists u,
    FileUtils.fileToDataURL Sample.env_ok (path Sample.small_image) "image/png" Sample.w_images
    = (Ok (Some u),
       add_log Sample.w_images
         [EExists (path Sample.small_image); EStat (path Sample.small_image);
          EReadFile (path Sample.small_image)])
    /\ ClaudeService.format_part (PImageUrl u) = [PImage "image/png" (Some "tiny")].
Proof.
  apply (data_url_round_trip Sample.env_ok (path Sample.small_image) "image/png"
           (mkFsFile 4 "tiny" true) Sample.w_images).
  - vm_compute. reflexivity.
  - reflexivity.
  - vm_compute. discriminate.
  - reflexivity.
  - reflexivity.
Defined.

(* ===================================================================== *)
(** ** Messages and model names of the provider services *)
(* ===================================================================== *)

Lemma format_message_role msg :
  map c_role (ClaudeService.format_message msg)
  = if is_chat_role (role msg) then [role msg] else [].
Proof.
  unfold ClaudeService.format_message, is_chat_role.
  destruct (String.eqb (role msg) "system") eqn:Hs.
  - apply String.eqb_eq in Hs. now rewrite Hs.
  - destruct (String.eqb (role msg) "user" || String.eqb (role msg) "assistant");
      [now destruct (content msg) | reflexivity].
Qed.

Lemma format_message_text m s :
  content m = CText s ->
  ClaudeService.format_message m
  = if is_chat_role (role m) then [mkClaudeMessage (role m) [PText s]] else [].
Proof.
  intros Hs. unfold ClaudeService.format_message, is_chat_role. rewrite Hs.
  destruct (String.eqb (role m) "system") eqn:Hsys; [|reflexivity].
  apply String.eqb_eq in Hsys. now rewrite Hsys.
Qed.

(** X3. [formatMessagesForClaude] keeps exactly the user and assistant
    messages, in their order: the roles of the messages sent to Claude are
    the roles of the conversation with every other role (the system
    messages among them) removed; a text message is sent as one text part
    holding the same text; and the system prompt is the content of the
    first system message, or the empty string when there is none. *)
Theorem claude_messages_keep_chat_roles (messages : list Message) :
  let formatted := ClaudeService.formatMessagesForClaude messages in
  map c_role formatted.2 = filter (fun r => is_chat_role r = true) (map role messages)
  /\ Forall (fun m => c_role m = "user" \/ c_role m = "assistant") formatted.2
  /\ (Forall (fun m => exists s, content m = CText s) messages ->
      formatted.2
      = omap (fun m => match content m with
                       | CText s => if is_chat_role (role m)
                                    then Some (mkClaudeMessage (role m) [PText s]) else None
                       | CParts _ => None
                       end) messages)
  /\ formatted.1
     = match filter (fun m => String.eqb (role m) "system" = true) messages with
       | m :: _ => content m
       | [] => CText ""
       end.
Proof.
  cbv zeta. unfold ClaudeService.formatMessagesForClaude. cbn [fst snd].
  assert (Hroles : map c_role (concat (map ClaudeService.format_message messages))
                   = filter (fun r => is_chat_role r = true) (map role messages)).
  { induction messages as [|m ms IH]; [reflexivity|].
    cbn [map concat]. rewrite map_app, IH, format_message_role.
    rewrite filter_cons. destruct (is_chat_role (role m)) eqn:Hm.
    - rewrite decide_True by reflexivity. reflexivity.
    - rewrite decide_False by discriminate. reflexivity. }
  split; [exact Hroles|]. split; [|split; [|reflexivity]].
  - apply Forall_forall. intros cm Hcm.
    assert (Hin : c_role cm ∈ map c_role (concat (map ClaudeService.format_message messages)))
      by (apply list_elem_of_fmap; exists cm; split; [reflexivity | exact Hcm]).
    rewrite Hroles in Hin. apply list_elem_of_filter in Hin as [Hr _].
    unfold is_chat_role in Hr. apply orb_true_iff in Hr as [Hr|Hr];
      apply String.eqb_eq in Hr; tauto.
  - intros Htext. clear Hroles. induction Htext as [|m ms [s Hs] _ IH]; [reflexivity|].
    cbn [map concat]. rewrite IH, (format_message_text m s Hs).
    destruct (is_chat_role (role m)) eqn:E; simpl; rewrite Hs, E; reflexivity.
Qed.

Lemma claude_messages_witness :
  let conversation := [mkMessage "system" (CText "Be brief.");
                       mkMessage "user" (CText "hello");
                       mkMessage "tool" (CText "x");
                       mkMessage "assistant" (CText "hi")] in
  (ClaudeService.formatMessagesForClaude conversation).2
  = [mkClaudeMessage "user" [PText "hello"]; mkClaudeMessage "assistant" [PText "hi"]].
Proof.
  cbv zeta.
  destruct (claude_messages_keep_chat_roles
              [mkMessage "system" (CText "Be brief.");
               mkMessage "user" (CText "hello");
               mkMessage "tool" (CText "x");
               mkMessage "assistant" (CText "hi")]) as (_ & _ & H & _).
  rewrite H; [reflexivity|].
  repeat constructor; eexists; reflexivity.
Defined.

(** *** Model names *)

Lemma inherited_in name : inherited name = true -> In name OBJECT_PROTOTYPE.
Proof.
  unfold inherited. intros H. apply existsb_exists in H as (k & Hin & Hk).
  apply String.eqb_eq in Hk. now subst k.
Qed.

(** No inherited property has a name that one of the services' tables
    holds, that carries a date, or that a handler routes to a service. *)
Lemma inherited_plain name :
  inherited name = true ->
  includes name "-202" = false /\ includes name "claude" = false
  /\ includes name "grok" = false /\ includes name "gemini" = false
  /\ own_property ClaudeService.CLAUDE_MODEL_MAPPING name = None
  /\ own_property GrokService.GROK_MODEL_MAPPING name = None
  /\ own_property GeminiService.GEMINI_MODEL_MAPPING name = None.
Proof.
  intros H. apply inherited_in in H. cbn in H.
  repeat (destruct H as [<-|H]; [repeat split; reflexivity|]). destruct H.
Qed.

Lemma routed_not_inherited name marker :
  In marker ["claude"; "grok"; "gemini"] -> includes name marker = true ->
  inherited name = false.
Proof.
  intros Hm Hi. destruct (inherited name) eqn:Hn; [|reflexivity].
  destruct (inherited_plain name Hn) as (_ & Hc & Hg & Hge & _).
  cbn in Hm. destruct Hm as [<-|[<-|[<-|[]]]]; congruence.
Qed.

Lemma resolve_alias_inherited table name fallback :
  own_property table name = None -> inherited name = true ->
  resolve_alias table name fallback = Inherited name.
Proof. intros Ho Hi. unfold resolve_alias. now rewrite Ho, Hi. Qed.

Lemma inv_call_net P L env r :
  P (ENet r) = true -> inv (extends P L) (call_net env r).
Proof.
  intros H. unfold call_net. apply inv_bind; [now apply extends_emit | intros ?; apply inv_lift].
Qed.

(** **** Claude *)

Lemma getClaudeModelName_dated model :
  inherited model = false ->
  exists dated,
    ClaudeService.getClaudeModelName model = ModelName dated
    /\ includes dated "-202" = true.
Proof.
  intros Hn. unfold ClaudeService.getClaudeModelName.
  destruct (includes model "-202") eqn:H; [now exists model|].
  unfold resolve_alias, ClaudeService.CLAUDE_MODEL_MAPPING. cbn [own_property].
  repeat match goal with
         | |- context [String.eqb model ?k] =>
             destruct (String.eqb model k); [eexists; split; reflexivity|]
         end.
  rewrite Hn. eexists; split; reflexivity.
Qed.

Lemma claude_request_dated messages model stream :
  inherited model = false ->
  claude_dated (ENet (ClaudeService.claude_request messages model stream)) = true.
Proof.
  intros Hn. unfold ClaudeService.claude_request.
  destruct (ClaudeService.formatMessagesForClaude messages) as [sys ms].
  destruct (getClaudeModelName_dated model Hn) as (dated & -> & Hd). exact Hd.
Qed.

Lemma claude_dated_calls e : claude_dated e = true -> claude_calls_dated e = true.
Proof. destruct e as [| | | | | | | | | | | | | |[? ? ?|[?|?] ? ? ?|? ? ?|? ?]]; trivial. Qed.

Section ClaudeCalls.
Variable env : Env.
Variable model : string.
Hypothesis Hn : inherited model = false.

Lemma claude_oneshot_dated messages :
  emits claude_dated (ClaudeService.generateClaudeResponse env messages model).
Proof.
  intros L. unfold ClaudeService.generateClaudeResponse.
  destruct (negb _); [inv_auto|].
  apply inv_bind; [now apply inv_call_net, claude_request_dated | intros ?; inv_auto].
Qed.

Lemma claude_streaming_dated messages existingChat sid uid uc :
  emits claude_dated
    (ClaudeService.generateClaudeStreamingResponse env messages model
       (Server.saveCompletedChat existingChat sid uid uc)).
Proof.
  intros L. unfold ClaudeService.generateClaudeStreamingResponse.
  destruct (negb _); [inv_auto|].
  apply inv_try_catch; [|intros ?; inv_auto].
  apply inv_bind; [now apply inv_call_net, claude_request_dated | intros ?; inv_auto].
Qed.
End ClaudeCalls.

Lemma emits_weaken {A} (P Q : Event -> bool) (m : M A) :
  (forall e, P e = true -> Q e = true) -> emits P m -> emits Q m.
Proof.
  intros HPQ Hm L w (l & Hl & Hq).
  destruct (Hm (log w) w (extends_refl _ w)) as (l' & Hl' & Hq').
  exists (l ++ l'). split; [rewrite Hl', Hl; now rewrite app_assoc|].
  rewrite forallb_app, Hq. cbn [andb]. rewrite forallb_forall in *. auto.
Qed.

(** X4. [getClaudeModelName] gives a dated Claude model (one whose name
    holds "-202") for every name but the twelve names of the properties
    that the model table inherits as an object: a dated name is kept, an
    alias of the table is replaced by its dated name, any other name by
    claude-3-5-sonnet-20240620, and resolving the result again changes
    nothing; for the name of an inherited property ("constructor",
    "toString", "__proto__", ...) the result is that property, not a model
    name.  A name that holds "claude" is not such a name, and these are the
    names the chat handlers send to the service.  So for every name but
    those twelve both entry points of the service call the Claude endpoint
    only, and only for a dated model; and every call on the Claude endpoint
    that the dispatch of either chat handler makes, whatever the model of
    the request, names a dated model. *)
Theorem claude_requests_name_a_dated_model env messages model existingChat sid uid uc
    userContent imageFiles :
  (inherited model = true -> ClaudeService.getClaudeModelName model = Inherited model)
  /\ (inherited model = false ->
      (exists dated,
         ClaudeService.getClaudeModelName model = ModelName dated
         /\ includes dated "-202" = true
         /\ ClaudeService.getClaudeModelName dated = ModelName dated)
      /\ emits claude_dated (ClaudeService.generateClaudeResponse env messages model)
      /\ emits claude_dated
           (ClaudeService.generateClaudeStreamingResponse env messages model
              (Server.saveCompletedChat existingChat sid uid uc)))
  /\ (includes model "claude" = true -> inherited model = false)
  /\ emits claude_calls_dated
       (Server.chat_dispatch env model userContent imageFiles messages)
  /\ emits claude_calls_dated
       (Server.stream_dispatch env model userContent imageFiles messages
          existingChat sid uid).
Proof.
  assert (Hr : includes model "claude" = true -> inherited model = false)
    by (apply routed_not_inherited; cbn; tauto).
  split.
  { intros Hi. destruct (inherited_plain model Hi) as (Hd & _ & _ & _ & Ho & _).
    unfold ClaudeService.getClaudeModelName. rewrite Hd.
    now apply resolve_alias_inherited. }
  split.
  { intros Hn. split; [|split].
    - destruct (getClaudeModelName_dated model Hn) as (dated & E & Hd).
      exists dated. split; [exact E|]. split; [exact Hd|].
      unfold ClaudeService.getClaudeModelName. now rewrite Hd.
    - now apply claude_oneshot_dated.
    - now apply claude_streaming_dated. }
  split; [exact Hr|]. split; intros L.
  - unfold Server.chat_dispatch.
    destruct (includes model "gemini"); [inv_auto|].
    destruct (includes model "claude").
    + apply (emits_weaken claude_dated); [apply claude_dated_calls|].
      apply claude_oneshot_dated. now apply Hr.
    + destruct (includes model "grok"); inv_auto.
  - unfold Server.stream_dispatch. cbv zeta.
    destruct (includes model "gemini"); [inv_auto|].
    destruct (includes model "claude").
    + apply inv_try_catch; [|intros ?; inv_auto].
      apply inv_bind; [|intros ?; inv_auto].
      apply (emits_weaken claude_dated); [apply claude_dated_calls|].
      apply claude_streaming_dated. now apply Hr.
    + destruct (includes model "grok"); inv_auto.
Qed.

Lemma claude_requests_witness :
  (exists dated,
     ClaudeService.getClaudeModelName "claude-3-opus" = ModelName dated
     /\ includes dated "-202" = true
     /\ ClaudeService.getClaudeModelName dated = ModelName dated)
  /\ ClaudeService.getClaudeModelName "constructor" = Inherited "constructor".
Proof.
  split.
  - destruct (claude_requests_name_a_dated_model Sample.env_ok [] "claude-3-opus" None
                "s1" "u1" "" "" [])
      as (_ & H & _).
    destruct H as [H _]; [reflexivity | exact H].
  - destruct (claude_requests_name_a_dated_model Sample.env_ok [] "constructor" None
                "s1" "u1" "" "" [])
      as (H & _).
    apply H. reflexivity.
Defined.

(** **** Grok *)

Lemma getGrokModelName_cases model :
  inherited model = false ->
  GrokService.getGrokModelName model = ModelName "grok-1"
  \/ GrokService.getGrokModelName model = ModelName "grok-2-latest".
Proof.
  intros Hn.
  unfold GrokService.getGrokModelName, resolve_alias, GrokService.GROK_MODEL_MAPPING.
  cbn [own_property].
  repeat match goal with
         | |- context [String.eqb model ?k] => destruct (String.eqb model k); [cbn; tauto|]
         end.
  rewrite Hn. tauto.
Qed.

Lemma grok_request_resolved model messages stream :
  inherited model = false ->
  grok_resolved (ENet (ReqGrok (GrokService.getGrokModelName model) messages stream)) = true.
Proof.
  intros Hn. cbn [grok_resolved].
  now destruct (getGrokModelName_cases model Hn) as [-> | ->].
Qed.

Lemma grok_resolved_calls e : grok_resolved e = true -> grok_calls_resolved e = true.
Proof. destruct e as [| | | | | | | | | | | | | |[? ? ?|? ? ? ?|[?|?] ? ?|? ?]]; trivial. Qed.

Section GrokCalls.
Variable env : Env.
Variable model : string.
Hypothesis Hn : inherited model = false.

Lemma grok_oneshot_resolved messages :
  emits grok_resolved (GrokService.generateGrokResponse env messages model).
Proof.
  intros L. unfold GrokService.generateGrokResponse.
  destruct (negb _); [inv_auto|].
  apply inv_bind; [now apply inv_call_net, grok_request_resolved | intros ?; inv_auto].
Qed.

Lemma grok_streaming_resolved messages existingChat sid uid uc :
  emits grok_resolved
    (GrokService.generateGrokStreamingResponse env messages model
       (Server.saveCompletedChat existingChat sid uid uc)).
Proof.
  intros L. unfold GrokService.generateGrokStreamingResponse.
  destruct (negb _); [inv_auto|].
  apply inv_try_catch; [|intros ?; inv_auto].
  apply inv_bind; [now apply inv_call_net, grok_request_resolved | intros ?; inv_auto].
Qed.
End GrokCalls.

(** X5. [getGrokModelName] gives grok-1 or grok-2-latest for every name but
    the twelve names of the properties that the model table inherits as an
    object (a name outside the table becomes grok-2-latest), and resolving
    the result again changes nothing; for the name of an inherited property
    the result is that property, not a model name.  A name that holds
    "grok" is not such a name.  So for every name but those twelve both
    entry points of the service call the Grok endpoint only, and only for
    one of the two models; and every call on the Grok endpoint that the
    dispatch of either chat handler makes, whatever the model of the
    request, names one of the two. *)
Theorem grok_requests_name_a_known_model env messages model existingChat sid uid uc
    userContent imageFiles :
  (inherited model = true -> GrokService.getGrokModelName model = Inherited model)
  /\ (inherited model = false ->
      (exists known,
         GrokService.getGrokModelName model = ModelName known
         /\ (known = "grok-1" \/ known = "grok-2-latest")
         /\ GrokService.getGrokModelName known = ModelName known)
      /\ emits grok_resolved (GrokService.generateGrokResponse env messages model)
      /\ emits grok_resolved
           (GrokService.generateGrokStreamingResponse env messages model
              (Server.saveCompletedChat existingChat sid uid uc)))
  /\ (includes model "grok" = true -> inherited model = false)
  /\ emits grok_calls_resolved
       (Server.chat_dispatch env model userContent imageFiles messages)
  /\ emits grok_calls_resolved
       (Server.stream_dispatch env model userContent imageFiles messages
          existingChat sid uid).
Proof.
  assert (Hr : includes model "grok" = true -> inherited model = false)
    by (apply routed_not_inherited; cbn; tauto).
  split.
  { intros Hi. destruct (inherited_plain model Hi) as (_ & _ & _ & _ & _ & Ho & _).
    now apply resolve_alias_inherited. }
  split.
  { intros Hn. split; [|split].
    - destruct (getGrokModelName_cases model Hn) as [E|E]; rewrite E; eexists;
        (split; [reflexivity|]); (split; [tauto | reflexivity]).
    - now apply grok_oneshot_resolved.
    - now apply grok_streaming_resolved. }
  split; [exact Hr|]. split; intros L.
  - unfold Server.chat_dispatch.
    destruct (includes model "gemini"); [inv_auto|].
    destruct (includes model "claude"); [inv_auto|].
    destruct (includes model "grok"); [|inv_auto].
    apply (emits_weaken grok_resolved); [apply grok_resolved_calls|].
    apply grok_oneshot_resolved. now apply Hr.
  - unfold Server.stream_dispatch. cbv zeta.
    destruct (includes model "gemini"); [inv_auto|].
    destruct (includes model "claude"); [inv_auto|].
    destruct (includes model "grok"); [|inv_auto].
    apply inv_try_catch; [|intros ?; inv_auto].
    apply inv_bind; [|intros ?; inv_auto].
    apply (emits_weaken grok_resolved); [apply grok_resolved_calls|].
    apply grok_streaming_resolved. now apply Hr.
Qed.

Lemma grok_requests_witness :
  (exists known,
     GrokService.getGrokModelName "grok-2" = ModelName known
     /\ (known = "grok-1" \/ known = "grok-2-latest")
     /\ GrokService.getGrokModelName known = ModelName known)
  /\ GrokService.getGrokModelName "toString" = Inherited "toString".
Proof.
  split.
  - destruct (grok_requests_name_a_known_model Sample.env_ok [] "grok-2" None
                "s1" "u1" "" "" [])
      as (_ & H & _).
    destruct H as [H _]; [reflexivity | exact H].
  - destruct (grok_requests_name_a_known_model Sample.env_ok [] "toString" None
                "s1" "u1" "" "" [])
      as (H & _).
    apply H. reflexivity.
Defined.

(** **** Gemini *)

Lemma getCurrentGeminiModel_known model :
  inherited model = false ->
  exists known,
    GeminiService.getCurrentGeminiModel model = ModelName known
    /\ existsb (String.eqb known) gemini_models = true.
Proof.
  intros Hn.
  unfold GeminiService.getCurrentGeminiModel, resolve_alias,
    GeminiService.GEMINI_MODEL_MAPPING.
  cbn [own_property].
  repeat match goal with
         | |- context [String.eqb model ?k] =>
             destruct (String.eqb model k); [eexists; split; reflexivity|]
         end.
  rewrite Hn. eexists; split; reflexivity.
Qed.

Lemma gemini_known_in known :
  existsb (String.eqb known) gemini_models = true -> In known gemini_models.
Proof.
  intros H. apply existsb_exists in H as (m & Hin & Hm). apply String.eqb_eq in Hm.
  now rewrite Hm.
Qed.

Lemma gemini_resolved_calls e : gemini_resolved e = true -> gemini_calls_resolved e = true.
Proof. destruct e as [| | | | | | | | | | | | | |[? ? ?|? ? ? ?|? ? ?|[?|?] ?]]; trivial. Qed.

Section GeminiCalls.
Variable env : Env.
Variable model : string.
Hypothesis Hn : inherited model = false.

Lemma gemini_oneshot_resolved userContent imageFiles :
  emits gemini_resolved
    (GeminiService.generateGeminiResponse env userContent model imageFiles).
Proof.
  intros L. unfold GeminiService.generateGeminiResponse. cbv zeta.
  destruct (negb (GeminiService.isGeminiConfigured _)); [inv_auto|].
  destruct (getCurrentGeminiModel_known model Hn) as (known & -> & Hk).
  assert (Hcall : forall apiModel parts,
            (apiModel = ModelName known \/ apiModel = ModelName "gemini-pro-vision") ->
            gemini_resolved (ENet (ReqGemini apiModel parts)) = true).
  { intros apiModel parts [-> | ->]; [exact Hk | reflexivity]. }
  assert (Hk' : forall apiModel,
            (apiModel = ModelName known \/ apiModel = ModelName "gemini-pro-vision") ->
            inv (extends gemini_resolved L)
              (let* parts :=
                 if match imageFiles with [] => false | _ => true end then
                   let* processedImages :=
                     GeminiService.processImagesForGemini env imageFiles in
                   ret ((if truthy_str userContent then [PText userContent] else [])
                          ++ omap id processedImages)
                 else ret (if truthy_str userContent then [PText userContent] else []) in
               let* geminiResponse := call_net env (ReqGemini apiModel parts) in
               if negb (r_ok geminiResponse) then
                 throw ("Gemini API responded with " +:+ r_status geminiResponse +:+ ": "
                          +:+ r_text geminiResponse)
               else
                 let* geminiData := lift (r_json geminiResponse) in
                 lift (GeminiService.extract_reply geminiData))).
  { intros apiModel Ha.
    apply inv_bind; [inv_auto|]. intros parts.
    apply inv_bind; [|intros ?; inv_auto].
    now apply inv_call_net, Hcall. }
  intros w Hw.
  destruct imageFiles as [|f fs]; rewrite ret_bind.
  - apply Hk'; [now left | exact Hw].
  - apply Hk'; [|exact Hw]. destruct (_ && _); [now right | now left].
Qed.

Lemma gemini_streaming_resolved userContent imageFiles :
  emits gemini_resolved
    (GeminiService.handleGeminiStreamingRequest env userContent model imageFiles).
Proof.
  intros L. unfold GeminiService.handleGeminiStreamingRequest.
  apply inv_try_catch; [|intros ?; inv_auto].
  apply inv_bind; [apply gemini_oneshot_resolved | intros ?; inv_auto].
Qed.
End GeminiCalls.

(** X6. [getCurrentGeminiModel] gives one of gemini-pro, gemini-pro-vision,
    gemini-2.0-flash and gemini-2.0-pro for every name but the twelve names
    of the properties that the model table inherits as an object (a name
    outside the table becomes gemini-pro), and resolving the result again
    changes nothing; for the name of an inherited property the result is
    that property, not a model name.  A name that holds "gemini" is not
    such a name.  With images attached, a resolved model of the older
    generation is replaced by gemini-pro-vision.  So for every name but
    those twelve both entry points of the service call the Gemini endpoint
    only, and only for one of the four models; and every call on the
    Gemini endpoint that the dispatch of either chat handler makes,
    whatever the model of the request, names one of the four. *)
Theorem gemini_requests_name_a_known_model env userContent model imageFiles messages
    existingChat sid uid :
  (inherited model = true -> GeminiService.getCurrentGeminiModel model = Inherited model)
  /\ (inherited model = false ->
      (exists known,
         GeminiService.getCurrentGeminiModel model = ModelName known
         /\ In known gemini_models
         /\ GeminiService.getCurrentGeminiModel known = ModelName known)
      /\ emits gemini_resolved
           (GeminiService.generateGeminiResponse env userContent model imageFiles)
      /\ emits gemini_resolved
           (GeminiService.handleGeminiStreamingRequest env userContent model imageFiles))
  /\ (includes model "gemini" = true -> inherited model = false)
  /\ emits gemini_calls_resolved
       (Server.chat_dispatch env model userContent imageFiles messages)
  /\ emits gemini_calls_resolved
       (Server.stream_dispatch env model userContent imageFiles messages
          existingChat sid uid).
Proof.
  assert (Hr : includes model "gemini" = true -> inherited model = false)
    by (apply routed_not_inherited; cbn; tauto).
  split.
  { intros Hi. destruct (inherited_plain model Hi) as (_ & _ & _ & _ & _ & _ & Ho).
    now apply resolve_alias_inherited. }
  split.
  { intros Hn. split; [|split].
    - destruct (getCurrentGeminiModel_known model Hn) as (known & E & Hk).
      exists known. split; [exact E|]. apply gemini_known_in in Hk.
      split; [exact Hk|]. cbn in Hk.
      destruct Hk as [H|[H|[H|[H|[]]]]]; rewrite <- H; reflexivity.
    - now apply gemini_oneshot_resolved.
    - now apply gemini_streaming_resolved. }
  split; [exact Hr|]. split; intros L.
  - unfold Server.chat_dispatch.
    destruct (includes model "gemini") eqn:Hg.
    + apply (emits_weaken gemini_resolved); [apply gemini_resolved_calls|].
      apply gemini_oneshot_resolved. now apply Hr.
    + destruct (includes model "claude"); [inv_auto|].
      destruct (includes model "grok"); inv_auto.
  - unfold Server.stream_dispatch. cbv zeta.
    destruct (includes model "gemini") eqn:Hg.
    + apply inv_try_catch; [|intros ?; inv_auto].
      apply inv_bind; [|intros ?; inv_auto].
      apply (emits_weaken gemini_resolved); [apply gemini_resolved_calls|].
      apply gemini_streaming_resolved. now apply Hr.
    + destruct (includes model "claude"); [inv_auto|].
      destruct (includes model "grok"); inv_auto.
Qed.

Lemma gemini_requests_witness :
  (exists known,
     GeminiService.getCurrentGeminiModel "gemini-flash" = ModelName known
     /\ In known gemini_models
     /\ GeminiService.getCurrentGeminiModel known = ModelName known)
  /\ GeminiService.getCurrentGeminiModel "__proto__" = Inherited "__proto__".
Proof.
  split.
  - destruct (gemini_requests_name_a_known_model Sample.env_ok "" "gemini-flash" [] []
                None "s1" "u1")
      as (_ & H & _).
    destruct H as [H _]; [reflexivity | exact H].
  - destruct (gemini_requests_name_a_known_model Sample.env_ok "" "__proto__" [] []
                None "s1" "u1")
      as (H & _).
    apply H. reflexivity.
Defined.
(* ===================================================================== *)
(** ** backend/fileUtils.js: reading the uploads *)
(* ===================================================================== *)

Lemma fs_existsSync_eq p w :
  fs_existsSync p w = (Ok (bool_decide (is_Some (disk w !! p))), add_log w [EExists p]).
Proof. reflexivity. Qed.

Lemma fs_stat_eq p w :
  fs_stat p w
  = (match disk w !! p with
     | Some f => Ok (f_size f)
     | None => Throw ("ENOENT: no such file or directory, stat '" +:+ p +:+ "'")
     end, add_log w [EStat p]).
Proof. unfold fs_stat, bind, emit, get_world. simpl. now destruct (disk w !! p). Qed.

Lemma fs_readFile_eq p w :
  fs_readFile p w
  = (match disk w !! p with
     | Some f => if f_readable f then Ok (f_data f)
                 else Throw ("EIO: i/o error, read '" +:+ p +:+ "'")
     | None => Throw ("ENOENT: no such file or directory, open '" +:+ p +:+ "'")
     end, add_log w [EReadFile p]).
Proof.
  unfold fs_readFile, bind, emit, get_world. simpl.
  destruct (disk w !! p) as [f|]; [now destruct (f_readable f) | reflexivity].
Qed.

Lemma fs_readHead_eq p w :
  FileUtils.fs_readHead p w
  = (match disk w !! p with
     | Some f => if f_readable f
                 then Ok (String.substring 0 (Z.to_nat (100 * FileUtils.KiB)) (f_data f))
                 else Throw ("EIO: i/o error, read '" +:+ p +:+ "'")
     | None => Throw ("ENOENT: no such file or directory, open '" +:+ p +:+ "'")
     end, add_log w [EReadHead p]).
Proof.
  unfold FileUtils.fs_readHead, bind, emit, get_world. simpl.
  destruct (disk w !! p) as [f|]; [now destruct (f_readable f) | reflexivity].
Qed.

(** X7. [readFileContent] never throws and changes nothing: it answers
    [null] exactly when the file is missing or cannot be read; a file of at
    most 1 MiB is returned whole; of a longer one, only the first 100 KiB
    are read and returned, followed by the truncation notice. *)
Theorem readFileContent_contract p w :
  exists l,
    forallb is_fs l = true
    /\ FileUtils.readFileContent p w
       = (Ok (match disk w !! p with
              | Some f =>
                  if f_readable f then
                    Some (if 1 * FileUtils.MiB <? f_size f
                          then String.substring 0 (Z.to_nat (100 * FileUtils.KiB)) (f_data f)
                                 +:+ FileUtils.TRUNCATED
                          else f_data f)
                  else None
              | None => None
              end),
          add_log w l)
    /\ (existsb is_read l = true -> is_Some (disk w !! p))
    /\ (In (EReadFile p) l -> exists f, disk w !! p = Some f /\ f_size f <= 1 * FileUtils.MiB).
Proof.
  unfold FileUtils.readFileContent.
  destruct (disk w !! p) as [f|] eqn:Hf.
  - destruct (1 * FileUtils.MiB <? f_size f) eqn:Hsz.
    + exists [EExists p; EStat p; EReadHead p]. split; [reflexivity|]. split; [|split].
      * unfold try_catch, bind. rewrite fs_existsSync_eq. cbn [disk add_log]. rewrite Hf.
        rewrite bool_decide_eq_true_2 by (eexists; reflexivity). cbn [negb].
        rewrite fs_stat_eq. cbn [disk add_log]. rewrite Hf, Hsz.
        rewrite fs_readHead_eq. cbn [disk add_log]. rewrite Hf.
        destruct (f_readable f); unfold ret, add_log; cbn; rewrite <- !app_assoc; reflexivity.
      * intros _. eexists; reflexivity.
      * intros [H|[H|[H|[]]]]; discriminate.
    + exists [EExists p; EStat p; EReadFile p]. split; [reflexivity|]. split; [|split].
      * unfold try_catch, bind. rewrite fs_existsSync_eq. cbn [disk add_log]. rewrite Hf.
        rewrite bool_decide_eq_true_2 by (eexists; reflexivity). cbn [negb].
        rewrite fs_stat_eq. cbn [disk add_log]. rewrite Hf, Hsz.
        rewrite fs_readFile_eq. cbn [disk add_log]. rewrite Hf.
        destruct (f_readable f); unfold ret, add_log; cbn; rewrite <- !app_assoc; reflexivity.
      * intros _. eexists; reflexivity.
      * intros _. exists f. split; [reflexivity|]. now apply Z.ltb_ge.
  - exists [EExists p]. split; [reflexivity|]. split; [|split].
    + unfold try_catch, bind. rewrite fs_existsSync_eq. cbn [disk add_log]. rewrite Hf.
      rewrite bool_decide_eq_false_2 by (intros [? ?]; discriminate). reflexivity.
    + discriminate.
    + intros [H|[]]; discriminate.
Qed.
(* ===================================================================== *)
(** ** backend/fileUtils.js: the images *)
(* ===================================================================== *)

Section SmallReads.
Variable d : gmap string FsFile.
Variable L : list Event.

Lemma reads_small_quiet {A} (m : M A) :
  inv (fun w => disk w = d) m -> inv (extends (small_read d) L) m -> inv (reads_small d L) m.
Proof. intros H1 H2 w [Hd He]. split; [now apply H1 | now apply H2]. Qed.

(** A read guarded by a size test: the file is measured, and read only
    when it is not longer than [limit]. *)
Lemma guarded_read {A} p limit (m0 : M A) (k : string -> M A) :
  limit <= 10 * FileUtils.MiB ->
  inv (reads_small d L) m0 -> (forall s, inv (reads_small d L) (k s)) ->
  inv (reads_small d L)
      (let* sz := fs_stat p in
       if limit <? sz then m0 else let* fileBuffer := fs_readFile p in k fileBuffer).
Proof.
  intros Hlim H0 Hk w [Hd He]. unfold bind at 1. rewrite fs_stat_eq.
  assert (H1 : reads_small d L (add_log w [EStat p]))
    by (split; [exact Hd | apply extends_add_log; [exact He | reflexivity]]).
  destruct (disk w !! p) as [f|] eqn:Hf; [|exact H1].
  destruct (limit <? f_size f) eqn:Hsz; [now apply H0|].
  apply Z.ltb_ge in Hsz. unfold bind. rewrite fs_readFile_eq. cbn [disk add_log]. rewrite Hf.
  assert (H2 : reads_small d L (add_log (add_log w [EStat p]) [EReadFile p])).
  { split; [exact Hd|]. apply extends_add_log; [apply H1|].
    cbn [forallb small_read]. rewrite <- Hd, Hf.
    rewrite andb_true_r. apply Z.leb_le. lia. }
  destruct (f_readable f); [now apply Hk | exact H2].
Qed.

Lemma reads_small_fileToDataURL env p mt : inv (reads_small d L) (FileUtils.fileToDataURL env p mt).
Proof.
  unfold FileUtils.fileToDataURL.
  apply inv_try_catch; [|intros ?; apply inv_ret].
  apply inv_bind; [apply reads_small_quiet; inv_auto|]. intros ex.
  destruct (negb ex); [apply inv_ret|].
  apply (guarded_read p (10 * FileUtils.MiB)); [lia | apply inv_ret | intros s; apply inv_ret].
Qed.

Lemma reads_small_claude_image env f : inv (reads_small d L) (FileUtils.claude_image env f).
Proof.
  unfold FileUtils.claude_image. apply inv_try_catch; [|intros ?; apply inv_ret].
  apply (guarded_read (path f) (10 * FileUtils.MiB));
    [lia | apply inv_ret | intros s; apply inv_ret].
Qed.

Lemma reads_small_gemini_image env f : inv (reads_small d L) (FileUtils.gemini_image env f).
Proof.
  unfold FileUtils.gemini_image. apply inv_try_catch; [|intros ?; apply inv_ret].
  apply (guarded_read (path f) (10 * FileUtils.MiB));
    [lia | apply inv_ret | intros s; apply inv_ret].
Qed.

Lemma reads_small_dataurl_image env f : inv (reads_small d L) (FileUtils.dataurl_image env f).
Proof.
  unfold FileUtils.dataurl_image. apply inv_try_catch; [|intros ?; apply inv_ret].
  apply inv_bind; [apply reads_small_quiet; inv_auto|]. intros sz.
  destruct (_ <? _); [apply inv_ret|].
  apply inv_bind; [apply reads_small_fileToDataURL|].
  intros [u|]; [destruct (truthy_str u)|]; apply inv_ret.
Qed.

Lemma reads_small_prepareClaudeImages env files :
  inv (reads_small d L) (FileUtils.prepareClaudeImages env files).
Proof.
  unfold FileUtils.prepareClaudeImages. destruct files as [|f files]; [apply inv_ret|].
  apply inv_bind; [apply reads_small_quiet; inv_auto|]. intros [|i rest]; [apply inv_ret|].
  apply inv_try_catch; [|intros ?; apply inv_ret].
  apply inv_bind; [|intros ?; apply inv_ret].
  apply inv_mapM. intros x. apply reads_small_claude_image.
Qed.

Lemma reads_small_prepareImagesForModel env files target :
  inv (reads_small d L) (FileUtils.prepareImagesForModel env files target).
Proof.
  unfold FileUtils.prepareImagesForModel. destruct files as [|f files]; [apply inv_ret|].
  apply inv_bind; [apply reads_small_quiet; inv_auto|]. intros [|i rest]; [apply inv_ret|].
  destruct (includes target "claude").
  - apply inv_bind; [apply reads_small_prepareClaudeImages | intros ?; apply inv_ret].
  - apply inv_try_catch; [|intros ?; apply inv_ret].
    destruct (includes target "gemini");
      [apply inv_mapM; intros x; apply reads_small_gemini_image|].
    destruct (includes target "grok"); apply inv_mapM; intros x;
      apply reads_small_dataurl_image.
Qed.
End SmallReads.

Lemma same_state_add_log w w' l :
  same_state w w' -> log w' = log w ++ l -> w' = add_log w l.
Proof.
  intros (H1 & H2 & H3 & H4 & H5 & H6) Hl. destruct w'. unfold add_log. simpl in *.
  now subst.
Qed.

Lemma same_state_prepareImagesForModel env files target w :
  same_state w (FileUtils.prepareImagesForModel env files target w).2.
Proof.
  assert (H : inv (fun w' => sessionFiles w' = sessionFiles w
                             /\ userConversations w' = userConversations w
                             /\ userSelectedModel w' = userSelectedModel w
                             /\ chats w' = chats w /\ users w' = users w
                             /\ disk w' = disk w)
                  (FileUtils.prepareImagesForModel env files target)) by inv_auto.
  apply H. repeat split.
Qed.

Lemma total_prepareImagesForModel env files target :
  total (FileUtils.prepareImagesForModel env files target).
Proof. total_auto. Qed.

(** X8. [prepareImagesForModel] never throws and changes nothing, whatever
    the target.  It only looks files up, measures them and reads them, and
    it reads a file only when the file is at most 10 MiB long: this is so
    for the OpenAI and Grok targets as well, whose own test is against
    20 MiB, because [fileToDataURL] refuses what is over 10 MiB. *)
Theorem prepareImagesForModel_reads_at_most_10MiB env files target w :
  exists r l,
    FileUtils.prepareImagesForModel env files target w = (Ok r, add_log w l)
    /\ forallb is_fs l = true
    /\ forall p, In (EReadFile p) l ->
                 exists f, disk w !! p = Some f /\ f_size f <= 10 * FileUtils.MiB.
Proof.
  destruct (total_run _ w (total_prepareImagesForModel env files target)) as [r Hr].
  pose proof (reads_small_prepareImagesForModel (disk w) (log w) env files target w
                (conj eq_refl (extends_refl _ w))) as [_ (l & Hl & Hs)].
  pose proof (same_state_add_log _ _ l (same_state_prepareImagesForModel env files target w) Hl)
    as Hw.
  exists r, l. rewrite Hr, Hw. split; [reflexivity|]. split.
  - apply forallb_forall. intros e He. rewrite forallb_forall in Hs. specialize (Hs e He).
    destruct e; try discriminate; reflexivity.
  - intros p Hp. rewrite forallb_forall in Hs. specialize (Hs _ Hp). cbn [small_read] in Hs.
    destruct (disk w !! p) as [f|]; [|discriminate].
    exists f. split; [reflexivity | now apply Z.leb_le].
Qed.
(* ===================================================================== *)
(** ** backend/fileUtils.js: the registry of uploads *)
(* ===================================================================== *)

Lemma with_files_log_id w l0 sid :
  sessionFiles w !! sid = Some l0 ->
  with_files_log w (<[sid := l0 ++ []]> (sessionFiles w)) [] = w.
Proof.
  intros H. unfold with_files_log. rewrite !app_nil_r, insert_id by exact H. now destruct w.
Qed.

Lemma process_loop env sid files :
  forall w l0,
    sessionFiles w !! sid = Some l0 ->
    exists rs l,
      mapM (fun f => try_catch (FileUtils.process_one env sid f) (fun _ => ret None)) files w
      = (Ok rs, with_files_log w (<[sid := l0 ++ omap id rs]> (sessionFiles w)) l)
      /\ map fi_path (omap id rs)
         = map path (filter (fun f => on_disk (disk w) f = true) files)
      /\ forallb is_exists l = true.
Proof.
  induction files as [|f files IH]; intros w l0 Hsid.
  - exists [], []. split; [|split; reflexivity].
    cbn [mapM]. unfold ret. f_equal. symmetry. exact (with_files_log_id w l0 sid Hsid).
  - cbn [mapM]. rewrite filter_cons.
    unfold FileUtils.process_one.
    destruct (truthy_str (path f)) eqn:Hp; cbn [negb andb].
    2:{ destruct (IH w l0 Hsid) as (rs & l & Hrun & Hpaths & Hl).
        assert (Hon : on_disk (disk w) f = false) by (unfold on_disk; now rewrite Hp).
        exists (None :: rs), l. rewrite decide_False by (rewrite Hon; discriminate).
        split; [|split; assumption].
        erewrite bind_ok; [|reflexivity]. erewrite bind_ok; [|exact Hrun]. reflexivity. }
    destruct (bool_decide (is_Some (disk w !! path f))) eqn:Hex.
    2:{ destruct (IH (add_log w [EExists (path f)]) l0 Hsid) as (rs & l & Hrun & Hpaths & Hl).
        assert (Hon : on_disk (disk w) f = false) by (unfold on_disk; now rewrite Hp, Hex).
        exists (None :: rs), (EExists (path f) :: l).
        rewrite decide_False by (rewrite Hon; discriminate).
        split; [|split; assumption].
        erewrite bind_ok.
        2:{ erewrite try_ok; [reflexivity|]. erewrite bind_ok; [|apply fs_existsSync_eq].
            cbn [disk add_log]. rewrite Hex. reflexivity. }
        erewrite bind_ok; [|exact Hrun]. unfold ret, with_files_log, add_log. cbn.
        now rewrite <- app_assoc. }
    set (info := {| fi_filename := or_str (Some (filename f)) ("file-" +:+ now env);
                    fi_originalName := or_str (Some (originalname f)) "unknown";
                    fi_mimetype := or_str (Some (mimetype f)) "application/octet-stream";
                    fi_size := size f;
                    fi_path := path f |}).
    set (w1 := with_files_log w (<[sid := l0 ++ [info]]> (sessionFiles w)) [EExists (path f)]).
    assert (Hsid1 : sessionFiles w1 !! sid = Some (l0 ++ [info])) by apply lookup_insert_eq.
    destruct (IH w1 (l0 ++ [info]) Hsid1) as (rs & l & Hrun & Hpaths & Hl).
    assert (Hon : on_disk (disk w) f = true) by (unfold on_disk; now rewrite Hp, Hex).
    exists (Some info :: rs), (EExists (path f) :: l). rewrite decide_True by exact Hon.
    split; [|split].
    + erewrite bind_ok.
      2:{ erewrite try_ok; [reflexivity|]. erewrite bind_ok; [|apply fs_existsSync_eq].
          cbn [disk add_log]. rewrite Hex. cbn [negb]. cbv zeta.
          rewrite get_world_bind. cbn [sessionFiles add_log]. rewrite Hsid.
          erewrite bind_ok; [|reflexivity]. reflexivity. }
      erewrite bind_ok; [|exact Hrun]. unfold ret, with_files_log. cbn.
      rewrite insert_insert_eq, <- !app_assoc. reflexivity.
    + change (map fi_path (info :: omap id rs)
              = path f :: map path (filter (fun f => on_disk (disk w) f = true) files)).
      cbn [map]. f_equal. exact Hpaths.
    + exact Hl.
Qed.

(** X9. [processUploadedFiles] registers, in order, the uploads that have a
    path and are found on the disk, and returns what it registered: the
    list kept for the session grows by exactly the returned entries, the
    lists of the other sessions are untouched, and nothing else changes;
    the disk is only looked at.  It never throws.  Without files it does
    nothing: no list is created for the session. *)
Theorem processUploadedFiles_registers env files sessionId w :
  truthy_str sessionId = true -> files <> [] ->
  FileUtils.processUploadedFiles env [] sessionId w = (Ok [], w)
  /\ exists infos l,
       FileUtils.processUploadedFiles env files sessionId w
       = (Ok infos,
          with_files_log w
            (<[sessionId := default [] (sessionFiles w !! sessionId) ++ infos]> (sessionFiles w))
            l)
       /\ map fi_path infos = map path (filter (fun f => on_disk (disk w) f = true) files)
       /\ forallb is_exists l = true.
Proof.
  intros Hsid Hne. split; [reflexivity|].
  unfold FileUtils.processUploadedFiles. destruct files as [|f files]; [congruence|].
  cbv zeta. rewrite Hsid. rewrite get_world_bind.
  destruct (sessionFiles w !! sessionId) as [l0|] eqn:Hl0.
  - destruct (process_loop env sessionId (f :: files) w l0 Hl0) as (rs & l & Hrun & Hp & Hl).
    exists (omap id rs), l. split; [|split; assumption].
    rewrite ret_bind. erewrite bind_ok; [|exact Hrun]. reflexivity.
  - set (w1 := with_files_log w (<[sessionId := []]> (sessionFiles w)) []).
    assert (Hs1 : sessionFiles w1 !! sessionId = Some []) by apply lookup_insert_eq.
    destruct (process_loop env sessionId (f :: files) w1 [] Hs1) as (rs & l & Hrun & Hp & Hl).
    exists (omap id rs), l. split; [|split; assumption].
    erewrite bind_ok.
    2:{ unfold set_sessionFiles. reflexivity. }
    assert (Hw1 : mkWorld (<[sessionId := []]> (sessionFiles w)) (userConversations w)
                    (userSelectedModel w) (chats w) (users w) (disk w) (log w) = w1).
    { unfold w1, with_files_log. now rewrite app_nil_r. }
    rewrite Hw1. erewrite bind_ok; [|exact Hrun]. unfold ret, with_files_log. cbn.
    rewrite insert_insert_eq, app_nil_r. reflexivity.
Qed.

Lemma processUploadedFiles_witness :
  exists infos l,
    FileUtils.processUploadedFiles Sample.env_ok [Sample.small_image] "s1" Sample.w_images
    = (Ok infos, with_files_log Sample.w_images (<[ "s1" := [] ++ infos]> ∅) l)
    /\ map fi_path infos = [path Sample.small_image]
    /\ forallb is_exists l = true.
Proof.
  destruct (processUploadedFiles_registers Sample.env_ok [Sample.small_image] "s1"
              Sample.w_images) as (_ & infos & l & H1 & H2 & H3).
  - reflexivity.
  - discriminate.
  - exists infos, l. split; [exact H1|]. split; [|exact H3].
    rewrite H2. vm_compute. reflexivity.
Defined.

(* ===================================================================== *)
(** ** Subscription status *)
(* ===================================================================== *)


Lemma db_update_user_eq uid flag w :
  Server.db_update_user uid flag w
  = (Ok tt, with_users_log w
              (alter (fun p => mkProfile (Some flag) (stripe_subscription_id p)) uid (users w))
              [EDb (UpdateUser uid flag)]).
Proof. reflexivity. Qed.

Lemma alter_as_insert_user (f : Profile -> Profile) uid p (us : gmap string Profile) :
  us !! uid = Some p -> alter f uid us = <[uid := f p]> us.
Proof.
  intros H. apply map_eq. intros j. destruct (decide (uid = j)) as [<-|Hne].
  - rewrite lookup_alter_eq, lookup_insert_eq, H. reflexivity.
  - rewrite lookup_alter_ne, lookup_insert_ne by assumption. reflexivity.
Qed.





(* ===================================================================== *)
(** ** DELETE /api/chat/:sessionId *)
(* ===================================================================== *)

Lemma db_delete_chat_eq env sid uid w :
  store_error env (DeleteChat sid uid) = None ->
  Server.db_delete_chat env sid uid w
  = (Ok None,
     with_chats_log w
       (match chats w !! sid with
        | Some row => if String.eqb (user_id row) uid then delete sid (chats w) else chats w
        | None => chats w
        end)
       [EDb (DeleteChat sid uid)]).
Proof.
  intros Hs. unfold Server.db_delete_chat. rewrite emit_bind, Hs, get_world_bind.
  cbn [chats add_log].
  destruct (chats w !! sid) as [row|]; [destruct (String.eqb (user_id row) uid)|];
    reflexivity.
Qed.

Lemma db_delete_chat_refused env sid uid e w :
  store_error env (DeleteChat sid uid) = Some e ->
  Server.db_delete_chat env sid uid w = (Ok (Some e), add_log w [EDb (DeleteChat sid uid)]).
Proof. intros Hs. unfold Server.db_delete_chat. rewrite emit_bind, Hs. reflexivity. Qed.

(** X12. A delete request from an identified user, when the store carries
    the delete out, removes the chat row of that session only if the row is
    this user's: afterwards the user has no row for the session, every row
    of another session or of another user is still there, and no row has
    appeared; the uploads, the conversation and the model kept in memory
    for the session are dropped, also when the row is another user's; the
    answer is the success reply.  When the store answers the delete with an
    error, the request is answered with status 500 "Failed to delete
    chat." and nothing is dropped: the tables and the three maps are as
    before. *)
Theorem chat_delete_removes_own_chat env sid h tok uid email w :
  truthy_str sid = true -> Server.bearer_token h = Some tok -> truthy_str tok = true ->
  auth_getUser env tok = AuthUser uid email ->
  exists w',
    Server.chat_delete env sid (Some h) w = (Ok tt, w')
    /\ match store_error env (DeleteChat sid uid) with
       | None =>
           log w' = log w ++ [EAuth tok; EDb (DeleteChat sid uid); EJsonSuccess]
           /\ select_row (chats w') sid uid = None
           /\ (forall s row, chats w !! s = Some row -> s <> sid \/ user_id row <> uid ->
                             chats w' !! s = Some row)
           /\ (forall s row, chats w' !! s = Some row -> chats w !! s = Some row)
           /\ sessionFiles w' = delete sid (sessionFiles w)
           /\ userConversations w' = delete sid (userConversations w)
           /\ userSelectedModel w' = delete sid (userSelectedModel w)
           /\ users w' = users w /\ disk w' = disk w
       | Some _ =>
           log w' = log w ++ [EAuth tok; EDb (DeleteChat sid uid);
                              EStatusJson 500 "Failed to delete chat." None]
           /\ same_state w w'
       end.
Proof.
  intros Hsid Htok Ht Hauth. unfold Server.chat_delete. rewrite Hsid.
  change (default "" (Some h)) with h. cbn [negb truthy_ostr].
  rewrite (bearer_token_nonempty h tok Htok), Htok. cbv zeta. cbn [negb truthy_ostr].
  rewrite Ht. cbn [negb]. change (default "" (Some tok)) with tok.
  destruct (store_error env (DeleteChat sid uid)) as [e|] eqn:Hs.
  { eexists. split.
    { erewrite try_ok; [reflexivity|]. rewrite emit_bind, Hauth.
      erewrite try_ok; [reflexivity|].
      erewrite bind_ok; [|eapply db_delete_chat_refused; exact Hs]. cbv beta iota.
      unfold res_status_json. rewrite emit_eq, !add_log_app. reflexivity. }
    split; [reflexivity|]. unfold same_state. cbn. tauto. }
  eexists. split.
  { erewrite try_ok; [reflexivity|]. rewrite emit_bind, Hauth.
    erewrite try_ok; [reflexivity|].
    erewrite bind_ok; [|eapply db_delete_chat_eq; exact Hs]. cbv beta iota.
    rewrite get_world_bind.
    reflexivity. }
  cbn [log chats sessionFiles userConversations userSelectedModel users disk
       with_chats_log add_log].
  split; [now rewrite <- !app_assoc|].
  repeat split.
  - unfold select_row.
    destruct (chats w !! sid) as [row|] eqn:Hrow.
    + destruct (String.eqb (user_id row) uid) eqn:Hu.
      * now rewrite lookup_delete_eq.
      * now rewrite Hrow, Hu.
    + now rewrite Hrow.
  - intros s row Hs' Hor.
    destruct (chats w !! sid) as [row0|] eqn:Hrow; [|exact Hs'].
    destruct (String.eqb (user_id row0) uid) eqn:Hu; [|exact Hs'].
    destruct (decide (s = sid)) as [->|Hne].
    + rewrite Hrow in Hs'. injection Hs' as <-. apply String.eqb_eq in Hu.
      destruct Hor as [Hor|Hor]; congruence.
    + now rewrite lookup_delete_ne.
  - intros s row Hs'.
    destruct (chats w !! sid) as [row0|] eqn:Hrow; [|exact Hs'].
    destruct (String.eqb (user_id row0) uid); [|exact Hs'].
    apply lookup_delete_Some in Hs'. tauto.
Qed.

Lemma chat_delete_witness :
  exists w',
    Server.chat_delete Sample.env_ok "s1" (Some "Bearer t") (Sample.after_turns 1) = (Ok tt, w')
    /\ log w' = log (Sample.after_turns 1)
                ++ [EAuth "t"; EDb (DeleteChat "s1" "u1"); EJsonSuccess]
    /\ select_row (chats w') "s1" "u1" = None.
Proof.
  destruct (chat_delete_removes_own_chat Sample.env_ok "s1" "Bearer t" "t" "u1"
              "user@example.com" (Sample.after_turns 1)) as (w' & H1 & H2 & H3 & _);
    [reflexivity | reflexivity | reflexivity | reflexivity |].
  exists w'. split; [exact H1|]. split; [exact H2 | exact H3].
Defined.

(** X13. What a delete request is refused with, and that a refused request
    deletes nothing.  A request that names no session is answered 400 "Chat
    ID is required."; one without an Authorization header 401 "Missing
    Authorization header"; one whose header has no second word 401
    "Malformed Authorization header"; in these cases nothing else happens.
    Otherwise the identity service is asked about the token: when it
    reports an error the answer is 401 with its message, when it knows no
    user for the token 401 "No user found for this token", when the call
    fails 500 "Authentication error".  In every one of these cases the
    answer is the only one, the store is not called, and the tables and
    the maps are as before. *)
Theorem chat_delete_needs_a_user env sid auth w :
  let run l := Server.chat_delete env sid auth w = (Ok tt, add_log w l) in
  (truthy_str sid = false -> run [EStatusJson 400 "Chat ID is required." None])
  /\ (truthy_str sid = true -> truthy_ostr auth = false ->
      run [EStatusJson 401 "Missing Authorization header" None])
  /\ (truthy_str sid = true -> truthy_ostr auth = true ->
      truthy_ostr (Server.bearer_token (default "" auth)) = false ->
      run [EStatusJson 401 "Malformed Authorization header" None])
  /\ (forall tok,
        truthy_str sid = true -> truthy_ostr auth = true ->
        Server.bearer_token (default "" auth) = Some tok -> truthy_str tok = true ->
        match auth_getUser env tok with
        | AuthThrows _ => run [EAuth tok; EStatusJson 500 "Authentication error" None]
        | AuthError msg =>
            run [EAuth tok; EStatusJson 401 ("Authentication failed: " +:+ msg) None]
        | AuthNoUser =>
            run [EAuth tok; EStatusJson 401 "No user found for this token" None]
        | AuthUser _ _ => True
        end).
Proof.
  cbv zeta. unfold Server.chat_delete. repeat split.
  - intros ->. reflexivity.
  - intros -> ->. reflexivity.
  - intros -> -> Ht. cbn [negb]. cbv zeta. rewrite Ht. reflexivity.
  - intros tok -> -> Htok Ht. cbn [negb]. cbv zeta. rewrite Htok. cbn [truthy_ostr].
    rewrite Ht. cbn [negb]. change (default "" (Some tok)) with tok.
    destruct (auth_getUser env tok) as [e|msg| |u email]; [| | |exact I].
    + erewrite try_throw; [|rewrite emit_bind; reflexivity].
      unfold res_status_json. rewrite emit_eq, add_log_app. reflexivity.
    + erewrite try_ok; [reflexivity|]. rewrite emit_bind.
      unfold res_status_json. rewrite emit_eq, add_log_app. reflexivity.
    + erewrite try_ok; [reflexivity|]. rewrite emit_bind.
      unfold res_status_json. rewrite emit_eq, add_log_app. reflexivity.
Qed.

Lemma chat_delete_stranger_witness :
  Server.chat_delete Sample2.env_stranger "s1" (Some "Bearer t") (Sample.after_turns 1)
  = (Ok tt, add_log (Sample.after_turns 1)
              [EAuth "t"; EStatusJson 401 "No user found for this token" None])
  /\ Server.chat_delete Sample.env_ok "" (Some "Bearer t") (Sample.after_turns 1)
     = (Ok tt, add_log (Sample.after_turns 1) [EStatusJson 400 "Chat ID is required." None]).
Proof.
  split.
  - destruct (chat_delete_needs_a_user Sample2.env_stranger "s1" (Some "Bearer t")
                (Sample.after_turns 1)) as (_ & _ & _ & H).
    apply (H "t"); reflexivity.
  - destruct (chat_delete_needs_a_user Sample.env_ok "" (Some "Bearer t")
                (Sample.after_turns 1)) as (H & _).
    apply H. reflexivity.
Defined.
(* ===================================================================== *)
(** ** Subscribers *)
(* ===================================================================== *)






(* ===================================================================== *)
(** ** The quota on new chats *)
(* ===================================================================== *)

Lemma check_quota_new_chat L0 answer (reject rm : M unit) uid w :
  (forall w, reject w = (Ok tt, add_log w answer)) ->
  responses answer = answer -> no_net answer ->
  extends silent L0 w -> 3 <= chats_of_user (chats w) uid ->
  (Server.check_quota false None uid reject rm w).1 = Ok Server.Returned
  /\ Rejected L0 answer (Server.check_quota false None uid reject rm w).2.
Proof.
  intros Hrej Ha Hn Hw Hc. unfold Server.check_quota. change (negb false) with true. cbv iota.
  erewrite bind_ok; [|apply db_count_chats_eq].
  fold (chats_of_user (chats w) uid).
  assert (Hle : (3 <=? chats_of_user (chats w) uid) = true) by now apply Z.leb_le.
  rewrite Hle. erewrite bind_ok; [|apply Hrej]. cbn [fst snd ret].
  split; [reflexivity|].
  apply silent_then_answer; [|exact Ha|exact Hn].
  apply extends_add_log; [exact Hw | reflexivity].
Qed.

Lemma stream_error_eq msg w :
  Server.stream_error msg None w = (Ok tt, add_log w (answer_error msg)).
Proof.
  unfold Server.stream_error, res_write, res_end.
  rewrite emit_bind, emit_eq, add_log_app. reflexivity.
Qed.

(** X15. The quota on new chats: a request that passes the upload
    middleware and the identity check, from a user who is not subscribed,
    for a session in which the user has no chat row yet, is refused when
    the user already has three chat rows or more: the one-shot endpoint
    answers 403 and the streaming endpoint one error event, each with its
    message about the three chats, nothing else is answered, and no provider
    is called. *)
Theorem fourth_chat_is_refused env req w files w1 sid tok uid :
  Server.enhancedUpload req w = (Ok (Server.Continue files), w1) ->
  authenticated env req files sid tok uid ->
  subscribed env (users w) uid = false ->
  select_row (chats w) sid uid = None ->
  3 <= chats_of_user (chats w) uid ->
  Rejected (log w) [EStatusJson 403 Server.QUOTA_CHATS None] (Server.chat env req w).2
  /\ Rejected (log w) [EWrite (SError Server.STREAM_QUOTA_CHATS None); EEnd]
              (Server.chat_stream env req w).2.
Proof.
  intros Hup Hauth Hsub Hrow Hcount.
  destruct (upload_continue req w files w1 Hup) as (Hs & Hu & Hc & _).
  rewrite (chat_run env req w files w1 sid tok uid Hup Hauth).
  rewrite (chat_stream_run env req w files w1 sid tok uid Hup Hauth).
  split.
  - set (wa := add_log w1 [EAuth tok]).
    assert (Hsa : extends silent (log w) wa)
      by (apply extends_add_log; [exact Hs | reflexivity]).
    destruct (isUserSubscribed_run env uid (log w) wa Hsa) as (w2 & E1 & Hs2 & Hc2 & _).
    assert (Hsub' : subscribed env (users wa) uid = false) by (simpl; now rewrite Hu).
    rewrite Hsub' in E1. unfold Server.chat_authenticated.
    erewrite bind_ok; [|exact E1]. erewrite bind_ok; [|apply db_select_chat_eq].
    assert (Hc3 : chats w2 = chats w) by (rewrite Hc2; simpl; exact Hc).
    rewrite Hc3, Hrow.
    destruct (check_quota_new_chat (log w) (answer403 Server.QUOTA_CHATS)
                (res_status_json 403 Server.QUOTA_CHATS None)
                (res_status_json 403 Server.QUOTA_MESSAGES None) uid
                (add_log w2 [EDb (SelectChat sid uid)]))
      as [Hr Hrej]; [reflexivity | reflexivity | reflexivity | | |].
    + apply extends_add_log; [exact Hs2 | reflexivity].
    + simpl. now rewrite Hc3.
    + rewrite (bind_fst_ok _ _ _ _ Hr). exact Hrej.
  - set (wa := add_log w1 [ESseHeaders; EAuth tok]).
    assert (Hsa : extends silent (log w) wa)
      by (apply extends_add_log; [exact Hs | reflexivity]).
    destruct (isUserSubscribed_run env uid (log w) wa Hsa) as (w2 & E1 & Hs2 & Hc2 & _).
    assert (Hsub' : subscribed env (users wa) uid = false) by (simpl; now rewrite Hu).
    rewrite Hsub' in E1. unfold Server.stream_authenticated.
    erewrite bind_ok; [|exact E1]. erewrite bind_ok; [|apply db_select_chat_eq].
    assert (Hc3 : chats w2 = chats w) by (rewrite Hc2; simpl; exact Hc).
    rewrite Hc3, Hrow.
    destruct (check_quota_new_chat (log w) (answer_error Server.STREAM_QUOTA_CHATS)
                (Server.stream_error Server.STREAM_QUOTA_CHATS None)
                (Server.stream_error Server.STREAM_QUOTA_MESSAGES None) uid
                (add_log w2 [EDb (SelectChat sid uid)]))
      as [Hr Hrej]; [apply stream_error_eq | reflexivity | reflexivity | | |].
    + apply extends_add_log; [exact Hs2 | reflexivity].
    + simpl. now rewrite Hc3.
    + rewrite (bind_fst_ok _ _ _ _ Hr). exact Hrej.
Qed.

Lemma sample_authenticated_in sid :
  truthy_str sid = true ->
  authenticated Sample.env_ok (Sample3.req_in sid) [] sid "t" "u1".
Proof.
  intros Hs. unfold authenticated. cbn [Server.body_sessionId Server.body_message
                                        Server.authorization Sample3.req_in].
  split; [reflexivity|]. split; [exact Hs|]. split; [reflexivity|].
  split; [exists "Bearer t"; split; reflexivity|]. split; [reflexivity|].
  exists "user@example.com". reflexivity.
Qed.

Lemma fourth_chat_witness :
  Rejected (log Sample3.w_three_chats) [EStatusJson 403 Server.QUOTA_CHATS None]
           (Server.chat Sample.env_ok (Sample3.req_in "s4") Sample3.w_three_chats).2
  /\ Rejected (log Sample3.w_three_chats)
              [EWrite (SError Server.STREAM_QUOTA_CHATS None); EEnd]
              (Server.chat_stream Sample.env_ok (Sample3.req_in "s4") Sample3.w_three_chats).2.
Proof.
  apply (fourth_chat_is_refused Sample.env_ok (Sample3.req_in "s4") Sample3.w_three_chats
           [] Sample3.w_three_chats "s4" "t" "u1").
  - vm_compute. reflexivity.
  - apply sample_authenticated_in. reflexivity.
  - vm_compute. reflexivity.
  - vm_compute. reflexivity.
  - vm_compute. discriminate.
Defined.
(* ===================================================================== *)
(** ** Routing *)
(* ===================================================================== *)

Lemma chat_dispatch_routed env selectedModel userContent imageFiles messages :
  emits (calls_only (route selectedModel))
        (Server.chat_dispatch env selectedModel userContent imageFiles messages).
Proof.
  intros L. unfold Server.chat_dispatch, route.
  destruct (includes selectedModel "gemini"); [inv_auto|].
  destruct (includes selectedModel "claude"); [inv_auto|].
  destruct (includes selectedModel "grok"); inv_auto.
Qed.

Lemma stream_dispatch_routed env selectedModel userContent imageFiles messages
    existingChat sid uid :
  emits (calls_only (route selectedModel))
        (Server.stream_dispatch env selectedModel userContent imageFiles messages
           existingChat sid uid).
Proof.
  intros L. unfold Server.stream_dispatch, route. cbv zeta.
  destruct (includes selectedModel "gemini"); [inv_auto|].
  destruct (includes selectedModel "claude"); [inv_auto|].
  destruct (includes selectedModel "grok"); inv_auto.
Qed.
(* ===================================================================== *)
(** ** One answer per request *)
(* ===================================================================== *)

Lemma responses_unanswered l : forallb unanswered l = true -> responses l = [].
Proof.
  induction l as [|e l IH]; [reflexivity|]. cbn [forallb]. intros H.
  apply andb_true_iff in H as [He Hl]. unfold responses. cbn [List.filter].
  unfold unanswered in He. apply negb_true_iff in He. rewrite He. now apply IH.
Qed.

Lemma answer_now env req L0 c0 code msg details w :
  Pending L0 c0 w ->
  Answered env req L0 c0 (add_log w [EStatusJson code msg details]).
Proof.
  intros [(l & Hl & Hq) Hc]. exists (l ++ [EStatusJson code msg details]), (EStatusJson code msg details).
  split; [|split; [|exact Hc]].
  - cbn [log add_log]. rewrite Hl. now rewrite app_assoc.
  - now rewrite responses_app, (responses_unanswered l Hq).
Qed.

(** Saving a turn, with the write that is made. *)
Lemma save_chat_run sid uid uc reply w :
  Server.save_chat (select_row (chats w) sid uid) sid uid uc reply w
  = (Ok tt, with_chats_log w (persist sid uid uc reply (chats w))
              [EDb (save_op (chats w) sid uid)]).
Proof.
  unfold Server.save_chat, save_op, select_row, persist.
  destruct (chats w !! sid) as [row|] eqn:Hrow.
  - destruct (String.eqb (user_id row) uid) eqn:Hu.
    + unfold try_catch, Server.db_update_chat. rewrite emit_bind. unfold bind, get_world.
      simpl. rewrite (alter_as_insert _ sid row) by exact Hrow. reflexivity.
    + unfold try_catch, Server.db_insert_chat. rewrite emit_bind. unfold bind, get_world.
      simpl. rewrite Hrow. destruct w; reflexivity.
  - unfold try_catch, Server.db_insert_chat. rewrite emit_bind. unfold bind, get_world.
    simpl. rewrite Hrow. reflexivity.
Qed.

Section Answers.
Variables U D : World -> Prop.

Lemma answers_silent {A B} (good : B -> bool) (m : M A) (k : A -> M B) :
  inv U m -> (forall a, answers U D good (k a)) -> answers U D good (bind m k).
Proof.
  intros Hm Hk. apply (hoare_bind _ (fun _ => U)).
  - now apply inv_hoare.
  - exact Hk.
  - intros e w Hw. exact Hw.
Qed.

Lemma answers_val {A B} (good : B -> bool) (m : M A) (k : A -> M B) v :
  gives U m v -> inv U m -> answers U D good (k v) -> answers U D good (bind m k).
Proof.
  intros Hv Hm Hk w Hw. unfold bind. specialize (Hm w Hw). specialize (Hv w Hw).
  destruct (m w) as [[a|e] w1]; cbn [fst snd] in *; [|discriminate].
  injection Hv as ->. now apply Hk.
Qed.

Lemma answers_flow {A B} (good : Server.Flow B -> bool) (m : M (Server.Flow A))
    (k : A -> M (Server.Flow B)) :
  answers U D is_returned m -> (forall x, answers U D good (k x)) ->
  good Server.Returned = true ->
  answers U D good
    (bind m (fun r => match r with
                      | Server.Continue x => k x
                      | Server.Returned => ret Server.Returned
                      end)).
Proof.
  intros Hm Hk Hg. apply (hoare_bind _ (ends U D is_returned)); [exact Hm| |].
  - intros [x|]; [apply Hk|]. intros w Hw. cbn [ends is_returned] in Hw.
    cbn [ret fst snd ends]. now rewrite Hg.
  - intros e w Hw. exact Hw.
Qed.

Lemma answers_try {A} (good : A -> bool) (m : M A) (h : string -> M A) :
  answers U D good m -> (forall e, answers U D good (h e)) ->
  answers U D good (try_catch m h).
Proof.
  intros Hm Hh. apply (hoare_try_catch _ (ends U D good)); [exact Hm| |].
  - intros e. exact (Hh e).
  - intros a w Hw. exact Hw.
Qed.

Lemma answers_ret {A} (good : A -> bool) (a : A) : good a = false -> answers U D good (ret a).
Proof. intros Hg w Hw. cbn [ret fst snd ends]. now rewrite Hg. Qed.

Lemma answers_throw {A} (good : A -> bool) e : answers U D good (@throw A e).
Proof. intros w Hw. exact Hw. Qed.

Lemma answers_then_ret {A B} (m : M A) (b : B) :
  answers U D always m -> answers U D always (bind m (fun _ => ret b)).
Proof.
  intros Hm w Hw. specialize (Hm w Hw). unfold bind.
  destruct (m w) as [[a|e] w1]; exact Hm.
Qed.
End Answers.

Section Closing.
Variables U D : World -> Prop.
Hypothesis D_U : forall w, D w -> U w.



Lemma answers_then {A B} (m : M A) (k : A -> M B) :
  answers U D always m -> (forall a, inv D (k a)) -> answers U D always (bind m k).
Proof.
  intros Hm Hk w Hw. specialize (Hm w Hw). unfold bind.
  destruct (m w) as [[a|e] w1]; cbn [fst snd ends always] in *; [|exact Hm].
  specialize (Hk a w1 Hm). unfold ends, always.
  destruct (k a w1) as [[b|e] w2]; cbn [fst snd] in *; [exact Hk | now apply D_U].
Qed.

End Closing.






Ltac still := unfold Pending; inv_auto.
Ltac split_if :=
  match goal with |- answers _ _ _ (if ?c then _ else _) => destruct c end.

Section OneShot.
Variable env : Env.
Variable req : Server.Request.
Variable L0 : list Event.
Variable c0 : gmap string ChatRow.

Lemma answers_status {A} (good : A -> bool) code msg details (a : A) :
  good a = true ->
  answers (Pending L0 c0) (Answered env req L0 c0) good (bind (res_status_json code msg details) (fun _ => ret a)).
Proof.
  intros Hg w Hw. unfold res_status_json. rewrite emit_bind. cbn [ret fst snd ends].
  rewrite Hg. now apply answer_now.
Qed.

Lemma answers_status_unit code msg details :
  answers (Pending L0 c0) (Answered env req L0 c0) always (res_status_json code msg details).
Proof.
  intros w Hw. unfold res_status_json. rewrite emit_eq. cbn [fst snd ends always].
  now apply answer_now.
Qed.

Lemma check_quota_answers isSubscribed existingChat uid :
  answers (Pending L0 c0) (Answered env req L0 c0) is_returned
    (Server.check_quota isSubscribed existingChat uid
       (res_status_json 403 Server.QUOTA_CHATS None)
       (res_status_json 403 Server.QUOTA_MESSAGES None)).
Proof.
  unfold Server.check_quota.
  destruct (negb isSubscribed); [|now apply answers_ret].
  destruct existingChat as [c|].
  - destruct (Server.ge_num _ _); [now apply answers_status | now apply answers_ret].
  - apply answers_silent; [still|]. intros n.
    destruct (3 <=? n); [now apply answers_status | now apply answers_ret].
Qed.

Lemma register_uploads_answers files sid :
  answers (Pending L0 c0) (Answered env req L0 c0) is_returned
    (Server.register_uploads env files sid (fun msg => res_status_json 500 msg None)).
Proof.
  unfold Server.register_uploads.
  destruct (Server.nonempty files); [|now apply answers_ret].
  apply answers_try.
  - apply answers_silent; [still|]. intros _. now apply answers_ret.
  - intros e. now apply answers_status.
Qed.

Lemma chat_attachments_answers files sid :
  answers (Pending L0 c0) (Answered env req L0 c0) is_returned (Server.chat_attachments env req files sid).
Proof.
  unfold Server.chat_attachments.
  apply answers_flow; [apply register_uploads_answers| |reflexivity].
  intros _. cbv zeta.
  apply answers_silent; [still|]. intros _.
  apply answers_silent; [still|]. intros t.
  apply answers_silent; [still|]. intros _.
  apply answers_silent; [still|]. intros m.
  now apply answers_ret.
Qed.

Lemma chat_images_answers selectedModel imageFiles userContent messages :
  answers (Pending L0 c0) (Answered env req L0 c0) is_returned
    (Server.chat_images env selectedModel imageFiles userContent messages).
Proof.
  unfold Server.chat_images.
  destruct (Server.nonempty imageFiles); [|now apply answers_ret].
  apply answers_try.
  - apply answers_silent; [|intros ms; now apply answers_ret].
    destruct (includes selectedModel "claude"); [still|].
    destruct (negb _ && negb _); [still|].
    destruct (includes selectedModel "grok"); still.
  - intros e. now apply answers_status.
Qed.

Lemma chat_dispatch_quiet selectedModel userContent imageFiles messages :
  inv (Pending L0 c0) (Server.chat_dispatch env selectedModel userContent imageFiles messages).
Proof.
  unfold Server.chat_dispatch.
  destruct (includes selectedModel "gemini"); [still|].
  destruct (includes selectedModel "claude"); [still|].
  destruct (includes selectedModel "grok"); still.
Qed.

(** The end of a successful turn: the conversation, the table, the reply. *)
Lemma reply_answers uid userContent botReply :
  user_of env req = Some uid ->
  answers (Pending L0 c0) (Answered env req L0 c0) always
    (let* _ := Server.history_push (session_of req) (mkMessage "assistant" (CText botReply)) in
     let* _ := Server.save_chat (select_row c0 (session_of req) uid) (session_of req) uid
                 userContent botReply in
     let* _ := emit (EJsonReply botReply) in
     ret (Server.Continue tt)).
Proof.
  intros Huid w [Hq Hc]. subst c0.
  unfold Server.history_push. rewrite bind_assoc, get_world_bind.
  erewrite bind_ok; [|reflexivity].
  match goal with |- context [bind (Server.save_chat _ _ _ _ _) _ ?w1] => set (wh := w1) end.
  pose proof (save_chat_run (session_of req) uid userContent botReply wh) as E.
  change (chats wh) with (chats w) in E.
  erewrite bind_ok; [|exact E]. rewrite emit_bind. cbn [ret fst snd ends always].
  clear E. subst wh.
  destruct Hq as (l & Hl & Hlq).
  exists (l ++ [EDb (save_op (chats w) (session_of req) uid); EJsonReply botReply]),
         (EJsonReply botReply).
  split; [|split].
  - cbn [log add_log with_chats_log set_userConversations snd]. rewrite Hl.
    now rewrite <- !app_assoc.
  - rewrite responses_app, (responses_unanswered l Hlq). reflexivity.
  - cbn [settled]. exists uid, userContent. eexists _, l. split; [exact Huid|].
    split; [reflexivity|]. split; [reflexivity|].
    cbn [userConversations add_log with_chats_log set_userConversations snd].
    now rewrite lookup_insert_eq.
Qed.

Lemma chat_generate_answers files selectedModel userContent uid :
  user_of env req = Some uid ->
  answers (Pending L0 c0) (Answered env req L0 c0) always
    (Server.chat_generate env files selectedModel userContent
       (select_row c0 (session_of req) uid) (session_of req) uid).
Proof.
  intros Huid. unfold Server.chat_generate. cbv zeta.
  apply answers_try; [|intros e; now apply answers_status].
  apply answers_silent; [still|]. intros w.
  apply answers_flow; [apply chat_images_answers| |reflexivity]. intros messages.
  apply answers_silent; [apply chat_dispatch_quiet|]. intros botReply.
  now apply reply_answers.
Qed.

Lemma chat_authenticated_answers files uid :
  user_of env req = Some uid ->
  answers (Pending L0 c0) (Answered env req L0 c0) always (Server.chat_authenticated env req files (session_of req) uid).
Proof.
  intros Huid. unfold Server.chat_authenticated.
  apply answers_silent; [still|]. intros isSubscribed.
  eapply answers_val;
    [ apply gives_select_chat; intros w Hw; exact (proj2 Hw) | still | ].
  apply answers_flow; [apply check_quota_answers| |reflexivity]. intros _.
  apply answers_flow; [apply chat_attachments_answers| |reflexivity]. intros p.
  cbv zeta.
  destruct (Server.isPremiumModel _ && negb _); [now apply answers_status|].
  now apply chat_generate_answers.
Qed.

Lemma chat_handler_answers files :
  answers (Pending L0 c0) (Answered env req L0 c0) always (Server.chat_handler env req files).
Proof.
  unfold Server.chat_handler.
  apply answers_try; [|intros e; apply answers_status_unit].
  split_if; [apply answers_status_unit|]. cbv zeta.
  split_if; [apply answers_status_unit|].
  destruct (Server.bearer_token (default "" (Server.authorization req))) as [tok|] eqn:Htok;
    [|apply answers_status_unit].
  split_if; [apply answers_status_unit|].
  apply answers_try; [|intros e; apply answers_status_unit].
  apply answers_silent; [still|]. intros _.
  change (default "" (Some tok)) with tok.
  destruct (auth_getUser env tok) eqn:Hauth;
    first [ apply answers_throw | apply answers_status_unit | idtac ].
  apply answers_then_ret. apply chat_authenticated_answers.
  unfold user_of. now rewrite Htok, Hauth.
Qed.

Lemma enhancedUpload_answers :
  answers (Pending L0 c0) (Answered env req L0 c0) is_returned (Server.enhancedUpload req).
Proof.
  unfold Server.enhancedUpload.
  apply answers_silent; [still|]. intros w0.
  apply answers_silent; [still|]. intros [files|].
  - now apply answers_ret.
  - apply answers_silent; [still|]. intros _. now apply answers_status.
Qed.

Lemma chat_answers :
  answers (Pending L0 c0) (Answered env req L0 c0) always (Server.chat env req).
Proof.
  unfold Server.chat. intros w Hw.
  pose proof (enhancedUpload_answers w Hw) as Hup. unfold bind.
  destruct (Server.enhancedUpload req w) as [[[files|]|e] w1];
    cbn [fst snd ends is_returned] in Hup.
  - exact (chat_handler_answers files w1 Hup).
  - exact Hup.
  - exact Hup.
Qed.
End OneShot.

Lemma total_chat env req : total (Server.chat env req).
Proof.
  unfold Server.chat. apply total_bind; [apply total_enhancedUpload|].
  intros [files|]; [|apply total_ret].
  unfold Server.chat_handler. apply total_try_catch. intros e. total_auto.
Qed.

(** X17. The one-shot chat endpoint answers every request exactly once,
    whatever the request, the stored state and the behaviour of the
    identity service, the payment service, the file system and the
    providers: the handler returns without an uncaught exception, and what
    it sent is one status with a JSON body or one reply, never two answers
    and never a stream event.  When the answer is a status, the table of
    chats is as it was.  When the answer is a reply, the reply is the last
    thing the handler did and the write of the turn on the table of chats
    came just before it, made for the user whom the token of the request
    names; the session's conversation in memory ends with the reply.  What
    that write leaves in the table: when the session had no row, a new row
    of the user with the user message and the reply; when it had a row of
    the user, that row with the two messages appended and one more on its
    counter; when the session id is the id of a chat of another user, the
    insert is refused by the key of the table, nothing is stored, and the
    reply is sent all the same. *)
Theorem chat_answers_once_and_saves_first env req w :
  let w' := (Server.chat env req w).2 in
  let sid := session_of req in
  exists l e,
    Server.chat env req w = (Ok tt, w')
    /\ log w' = log w ++ l
    /\ responses l = [e]
    /\ ((exists code msg details,
           e = EStatusJson code msg details /\ chats w' = chats w)
        \/ (exists reply uid userContent hist l0,
              e = EJsonReply reply
              /\ user_of env req = Some uid
              /\ l = l0 ++ [EDb (save_op (chats w) sid uid); EJsonReply reply]
              /\ userConversations w' !! sid
                 = Some (hist ++ [mkMessage "assistant" (CText reply)])
              /\ match chats w !! sid with
                 | None =>
                     chats w'
                     = <[sid := mkChatRow uid
                                  (Some [mkMessage "user" (CText userContent);
                                         mkMessage "assistant" (CText reply)])
                                  (Some 1)]> (chats w)
                 | Some row =>
                     if String.eqb (user_id row) uid then
                       chats w'
                       = <[sid := mkChatRow uid
                                    (Some (default [] (messages row)
                                             ++ [mkMessage "user" (CText userContent);
                                                 mkMessage "assistant" (CText reply)]))
                                    (Some (Server.or_zero (message_count row) + 1))]>
                           (chats w)
                     else chats w' = chats w
                 end)).
Proof.
  cbv zeta.
  pose proof (chat_answers env req (log w) (chats w) w
                (conj (extends_refl _ w) eq_refl)) as H.
  destruct (total_run (Server.chat env req) w (total_chat env req)) as [[] Hrun].
  rewrite Hrun in H. cbn [fst snd ends always] in H.
  destruct H as (l & e & Hl & Hr & He).
  exists l, e. split; [exact Hrun|]. split; [exact Hl|]. split; [exact Hr|].
  destruct e; cbn [settled] in He; try contradiction.
  - left. eauto.
  - right. destruct He as (uid & uc & hist & l0 & H1 & H2 & H3 & H4).
    exists reply, uid, uc, hist, l0. split; [reflexivity|]. split; [exact H1|].
    split; [exact H2|]. split; [exact H4|]. rewrite H3. unfold persist.
    destruct (chats w !! session_of req) as [row|]; [|reflexivity].
    destruct (String.eqb (user_id row) uid) eqn:Hrow; [|reflexivity].
    apply String.eqb_eq in Hrow. unfold appended_row, turn_messages. now rewrite Hrow.
Qed.
(* ===================================================================== *)
(** ** Every response of the streaming endpoint is closed *)
(* ===================================================================== *)


(** The stream, from the event-stream headers on, for any pair of a state
    [U] in which the stream is still open and a state [D] in which it has
    been ended. *)
Section Stream.
Variable env : Env.
Variables U D : World -> Prop.
Hypothesis D_U : forall w, D w -> U w.
Hypothesis U_quiet : forall A (m : M A), emits streaming m -> inv U m.
Hypothesis D_quiet : forall A (m : M A), emits unanswered m -> inv D m.
Hypothesis close : forall w l0 t,
  U w -> forallb streaming l0 = true -> is_terminal t = true ->
  D (add_log w (l0 ++ [EWrite t; EEnd])).


















End Stream.

(** *** Something was sent and the last thing sent closes the response *)




Section Closes.
Variable env : Env.
Variable L0 : list Event.




End Closes.



(** *** What the client receives of a stream *)















Section Serves.
Variable env : Env.
Variable L0 : list Event.





End Serves.

(* ===================================================================== *)
(** ** Provider calls of a turn *)
(* ===================================================================== *)

Lemma net_calls_app l1 l2 : net_calls (l1 ++ l2) = net_calls l1 ++ net_calls l2.
Proof. apply List.filter_app. Qed.

Lemma net_calls_none l : forallb not_net l = true -> net_calls l = [].
Proof.
  induction l as [|e l IH]; [reflexivity|]. cbn [forallb]. intros H.
  apply andb_true_iff in H as [He Hl]. unfold net_calls. cbn [List.filter].
  unfold not_net in He. apply negb_true_iff in He. rewrite He. now apply IH.
Qed.

Lemma uncalled_once L0 w : Uncalled L0 w -> CalledOnce L0 w.
Proof.
  intros (l & Hl & Hq). exists l. split; [exact Hl|]. rewrite (net_calls_none l Hq).
  cbn [length]. lia.
Qed.

Lemma once_quiet {A} L0 (m : M A) : emits not_net m -> inv (CalledOnce L0) m.
Proof.
  intros Hm w (l & Hl & Hn).
  destruct (Hm (log w) w (extends_refl _ w)) as (l' & Hl' & Hq).
  exists (l ++ l'). split.
  - rewrite Hl', Hl. now rewrite <- app_assoc.
  - now rewrite net_calls_app, (net_calls_none l' Hq), app_nil_r.
Qed.

Lemma steps_call_net L0 env r : steps (Uncalled L0) (CalledOnce L0) (call_net env r).
Proof.
  intros w (l & Hl & Hq). unfold call_net. rewrite emit_bind.
  assert (Hlog : log (lift (net env r) (add_log w [ENet r])).2 = log w ++ [ENet r])
    by (unfold lift; reflexivity).
  exists (l ++ [ENet r]). split.
  - rewrite Hlog, Hl. now rewrite <- app_assoc.
  - rewrite net_calls_app, (net_calls_none l Hq). cbn. lia.
Qed.

Ltac calm := unfold Uncalled; inv_auto.
Ltac mute := apply once_quiet; intros ?; inv_auto.

(** Stepping to the one call of a turn. *)
Ltac net_step :=
  lazymatch goal with
  | |- steps _ _ (bind (call_net _ _) _) =>
      apply steps_bind_switch; [ apply steps_call_net | intros ?; solve [mute] ]
  | |- steps _ _ (bind _ _) =>
      first [ apply steps_bind_inv; [ solve [calm] | intros ?; net_step | apply uncalled_once ]
            | apply steps_bind_switch; [ net_step | intros ?; solve [mute] ] ]
  | |- steps _ _ (try_catch _ _) =>
      apply steps_try_catch; [ net_step | intros ?; solve [mute] ]
  | |- steps _ _ (match ?x with _ => _ end) => destruct x; net_step
  | |- steps _ _ (let _ := _ in _) => cbv zeta; net_step
  | |- steps _ _ ?m =>
      first [ apply steps_inv; [ solve [calm] | apply uncalled_once ]
            | let h := head_of m in unfold h; net_step ]
  end.

Section Calls.
Variable env : Env.
Variable L0 : list Event.

Lemma chat_dispatch_calls_once selectedModel userContent imageFiles messages :
  steps (Uncalled L0) (CalledOnce L0)
        (Server.chat_dispatch env selectedModel userContent imageFiles messages).
Proof. net_step. Qed.

Lemma stream_dispatch_calls_once selectedModel userContent imageFiles messages
    existingChat sid uid :
  steps (Uncalled L0) (CalledOnce L0)
        (Server.stream_dispatch env selectedModel userContent imageFiles messages
           existingChat sid uid).
Proof. net_step. Qed.

Lemma chat_calls_once req : steps (Uncalled L0) (CalledOnce L0) (Server.chat env req).
Proof. net_step. Qed.

Lemma chat_stream_calls_once req :
  steps (Uncalled L0) (CalledOnce L0) (Server.chat_stream env req).
Proof. net_step. Qed.
End Calls.

(** X19. A turn calls a provider at most once.  Among the events either
    chat endpoint adds for a request there is at most one network call,
    whatever the request and whatever the provider answers: no call is
    repeated after a failure, and a turn that is refused or fails before
    the dispatch makes none. *)
Theorem turn_calls_a_provider_at_most_once env req w :
  (exists l, log (Server.chat env req w).2 = log w ++ l /\ (length (net_calls l) <= 1)%nat)
  /\ (exists l, log (Server.chat_stream env req w).2 = log w ++ l
                /\ (length (net_calls l) <= 1)%nat).
Proof.
  split.
  - exact (chat_calls_once env (log w) req w (extends_refl _ w)).
  - exact (chat_stream_calls_once env (log w) req w (extends_refl _ w)).
Qed.

(* ===================================================================== *)
(** ** The provider that is called *)
(* ===================================================================== *)

Lemma called_quiet {A} p L0 (m : M A) : emits not_net m -> inv (CalledAt p L0) m.
Proof.
  intros Hm w (l & r & Hl & Hn & Hp).
  destruct (Hm (log w) w (extends_refl _ w)) as (l' & Hl' & Hq).
  exists (l ++ l'), r. split; [|split; [|exact Hp]].
  - rewrite Hl', Hl. now rewrite <- app_assoc.
  - now rewrite net_calls_app, (net_calls_none l' Hq), app_nil_r.
Qed.

Lemma steps_call_at p L0 env r :
  provider_of r = p -> steps (Uncalled L0) (CalledAt p L0) (call_net env r).
Proof.
  intros Hp w (l & Hl & Hq). unfold call_net. rewrite emit_bind.
  assert (Hlog : log (lift (net env r) (add_log w [ENet r])).2 = log w ++ [ENet r])
    by (unfold lift; reflexivity).
  exists (l ++ [ENet r]), r. split; [|split; [|exact Hp]].
  - rewrite Hlog, Hl. now rewrite <- app_assoc.
  - rewrite net_calls_app, (net_calls_none l Hq). reflexivity.
Qed.

(** A step that cannot fail, before the call. *)
Lemma steps_bind_total {A B} (I F : World -> Prop) (m : M A) (k : A -> M B) :
  total m -> inv I m -> (forall a, steps I F (k a)) -> steps I F (bind m k).
Proof.
  intros Ht Hm Hk w Hw. unfold bind. specialize (Hm w Hw). destruct (Ht w) as [a Ha].
  destruct (m w) as [[a'|e] w1]; cbn [fst snd] in *; [now apply Hk | discriminate].
Qed.

Ltac still_called := apply called_quiet; intros ?; inv_auto.

(** Stepping to the call of a configured provider. *)
Ltac call_step :=
  lazymatch goal with
  | |- steps _ _ (bind (call_net _ _) _) =>
      apply steps_bind_switch;
        [ apply steps_call_at; reflexivity | intros ?; solve [still_called] ]
  | |- steps _ _ (bind _ _) =>
      first [ apply steps_bind_total; [ solve [total_auto] | solve [calm] | intros ?; call_step ]
            | apply steps_bind_switch; [ call_step | intros ?; solve [still_called] ] ]
  | |- steps _ _ (try_catch _ _) =>
      apply steps_try_catch; [ call_step | intros ?; solve [still_called] ]
  | |- steps _ _ (let _ := _ in _) => cbv zeta; call_step
  | |- steps _ _ ?m => let h := head_of m in unfold h; call_step
  end.

Section Routing.
Variable env : Env.
Variable L0 : list Event.

Lemma gemini_calls_gemini userContent modelName imageFiles :
  GeminiService.isGeminiConfigured (penv env) = true ->
  includes modelName "gemini" = true ->
  steps (Uncalled L0) (CalledAt Gemini L0)
    (GeminiService.generateGeminiResponse env userContent modelName imageFiles).
Proof.
  intros Hc Hi. unfold GeminiService.generateGeminiResponse. cbv zeta. rewrite Hc.
  cbn [negb].
  assert (Hn : inherited modelName = false)
    by (apply (routed_not_inherited modelName "gemini"); [cbn; tauto | exact Hi]).
  destruct (getCurrentGeminiModel_known modelName Hn) as (known & -> & _).
  destruct imageFiles as [|f fs]; call_step.
Qed.

Lemma chat_dispatch_calls selectedModel userContent imageFiles messages :
  configured (penv env) (route selectedModel) = true ->
  steps (Uncalled L0) (CalledAt (route selectedModel) L0)
    (Server.chat_dispatch env selectedModel userContent imageFiles messages).
Proof.
  unfold route, Server.chat_dispatch. intros Hc.
  destruct (includes selectedModel "gemini") eqn:Hg; [now apply gemini_calls_gemini|].
  destruct (includes selectedModel "claude");
    [|destruct (includes selectedModel "grok")]; cbn [configured] in Hc.
  - unfold ClaudeService.generateClaudeResponse. rewrite Hc. cbn [negb]. call_step.
  - unfold GrokService.generateGrokResponse. rewrite Hc. cbn [negb]. call_step.
  - unfold OpenAIService.generateOpenAIResponse. rewrite Hc. cbn [negb]. call_step.
Qed.

Lemma stream_dispatch_calls selectedModel userContent imageFiles messages
    existingChat sid uid :
  configured (penv env) (route selectedModel) = true ->
  steps (Uncalled L0) (CalledAt (route selectedModel) L0)
    (Server.stream_dispatch env selectedModel userContent imageFiles messages
       existingChat sid uid).
Proof.
  unfold route, Server.stream_dispatch. cbv zeta. intros Hc.
  destruct (includes selectedModel "gemini") eqn:Hg.
  - apply steps_try_catch; [|intros ?; solve [still_called]].
    apply steps_bind_switch; [|intros ?; solve [still_called]].
    unfold GeminiService.handleGeminiStreamingRequest.
    apply steps_try_catch; [|intros ?; solve [still_called]].
    apply steps_bind_switch; [|intros ?; solve [still_called]].
    now apply gemini_calls_gemini.
  - destruct (includes selectedModel "claude");
      [|destruct (includes selectedModel "grok")]; cbn [configured] in Hc.
    + apply steps_try_catch; [|intros ?; solve [still_called]].
      apply steps_bind_switch; [|intros ?; solve [still_called]].
      unfold ClaudeService.generateClaudeStreamingResponse. rewrite Hc. cbn [negb].
      call_step.
    + apply steps_try_catch; [|intros ?; solve [still_called]].
      apply steps_bind_switch; [|intros ?; solve [still_called]].
      unfold GrokService.generateGrokStreamingResponse. rewrite Hc. cbn [negb].
      call_step.
    + apply steps_bind_switch; [|intros ?; solve [still_called]].
      unfold OpenAIService.generateOpenAIStreamingResponse. rewrite Hc. cbn [negb].
      call_step.
Qed.
End Routing.

Lemma generate_routed env req files selectedModel userContent existingChat sid uid :
  emits (calls_only (route selectedModel))
        (Server.chat_generate env files selectedModel userContent existingChat sid uid)
  /\ emits (calls_only (route selectedModel))
           (Server.stream_generate env req files selectedModel existingChat sid uid).
Proof.
  split; intros L.
  - unfold Server.chat_generate. cbv zeta.
    apply inv_try_catch; [|intros ?; inv_auto].
    apply inv_bind; [inv_auto|]. intros w.
    apply inv_bind; [inv_auto|]. intros [messages|]; [|inv_auto].
    apply inv_bind; [apply chat_dispatch_routed | intros ?; inv_auto].
  - unfold Server.stream_generate. cbv zeta.
    apply inv_bind; [inv_auto|]. intros w.
    apply inv_bind; [inv_auto|]. intros textFilesContent.
    apply inv_bind; [inv_auto|]. intros [messages|]; [|inv_auto].
    apply inv_bind; [apply stream_dispatch_routed | intros ?; inv_auto].
Qed.

(** X16. Both chat handlers send a turn to one provider, chosen by the
    model name alone: a name containing "gemini" goes to Gemini; otherwise
    one containing "claude" to Claude; otherwise one containing "grok" to
    Grok; every other name (the deepseek names among them) to OpenAI.  When
    the service of that provider is configured, the dispatch of either
    handler makes exactly one provider call, and that call is a request to
    the chosen provider, whatever the provider then answers.  And from the
    preparation of the images to the answer, configured or not, no other
    provider is called. *)
Theorem turn_calls_the_routed_provider env req files selectedModel userContent
    imageFiles messages existingChat sid uid w :
  configured (penv env) (route selectedModel) = true ->
  (exists l r,
     log (Server.chat_dispatch env selectedModel userContent imageFiles messages w).2
       = log w ++ l
     /\ net_calls l = [ENet r] /\ provider_of r = route selectedModel)
  /\ (exists l r,
        log (Server.stream_dispatch env selectedModel userContent imageFiles messages
               existingChat sid uid w).2 = log w ++ l
        /\ net_calls l = [ENet r] /\ provider_of r = route selectedModel)
  /\ emits (calls_only (route selectedModel))
           (Server.chat_generate env files selectedModel userContent existingChat sid uid)
  /\ emits (calls_only (route selectedModel))
           (Server.stream_generate env req files selectedModel existingChat sid uid).
Proof.
  intros Hc. split; [|split].
  - exact (chat_dispatch_calls env (log w) selectedModel userContent imageFiles messages
             Hc w (extends_refl _ w)).
  - exact (stream_dispatch_calls env (log w) selectedModel userContent imageFiles messages
             existingChat sid uid Hc w (extends_refl _ w)).
  - apply generate_routed.
Qed.

Lemma turn_calls_the_routed_provider_witness :
  configured (penv Sample.env_ok) (route "claude-3-opus") = true
  /\ exists l r,
       log (Server.chat_dispatch Sample.env_ok "claude-3-opus" "hello" []
              [mkMessage "user" (CText "hello")] Sample.w0).2 = log Sample.w0 ++ l
       /\ net_calls l = [ENet r] /\ provider_of r = Claude.
Proof.
  split; [reflexivity|].
  exact (proj1 (turn_calls_the_routed_provider Sample.env_ok Sample.req_hello []
                  "claude-3-opus" "hello" [] [mkMessage "user" (CText "hello")] None
                  "s1" "u1" Sample.w0 eq_refl)).
Defined.
(* ===================================================================== *)
(** ** Sessions are kept apart *)
(* ===================================================================== *)

Lemma inv_get {A} (I : World -> Prop) (k : World -> M A) :
  (forall w, I w -> I (k w w).2) -> inv I (bind get_world k).
Proof. intros H w Hw. rewrite get_world_bind. exact (H w Hw). Qed.

Section Apart.
Variable sid : string.
Variable w0 : World.

Lemma elsewhere_step w w' :
  Elsewhere sid w0 w -> (forall s, s <> sid -> session_state w' s = session_state w s) ->
  Elsewhere sid w0 w'.
Proof. intros Hw H s Hs. rewrite (H s Hs). exact (Hw s Hs). Qed.

Ltac local_step w Hw :=
  apply (elsewhere_step w); [exact Hw|];
  let s := fresh "s" in let Hs := fresh "Hs" in
  intros s Hs; unfold session_state;
  cbn [bind ret set_sessionFiles set_userConversations set_userSelectedModel set_chats
       add_log fst snd sessionFiles userConversations userSelectedModel chats];
  rewrite ?lookup_insert_ne, ?lookup_alter_ne by congruence; reflexivity.

Lemma apart_history_push msg : inv (Elsewhere sid w0) (Server.history_push sid msg).
Proof. unfold Server.history_push. apply inv_get. intros w Hw. local_step w Hw. Qed.

Lemma apart_init_conversation model :
  inv (Elsewhere sid w0) (Server.init_conversation sid model).
Proof.
  unfold Server.init_conversation. apply inv_get. intros w Hw.
  destruct (userConversations w !! sid); [exact Hw|]. local_step w Hw.
Qed.

Lemma apart_select_model model : inv (Elsewhere sid w0) (Server.select_model sid model).
Proof.
  unfold Server.select_model. apply inv_get. intros w Hw. cbv zeta. local_step w Hw.
Qed.

Lemma apart_db_insert_chat row : inv (Elsewhere sid w0) (Server.db_insert_chat sid row).
Proof.
  unfold Server.db_insert_chat. intros w Hw. rewrite emit_bind, get_world_bind.
  destruct (chats (add_log w _) !! sid); [exact Hw|]. local_step w Hw.
Qed.

Lemma apart_db_update_chat msgs count :
  inv (Elsewhere sid w0) (Server.db_update_chat sid msgs count).
Proof.
  unfold Server.db_update_chat. intros w Hw. rewrite emit_bind, get_world_bind.
  local_step w Hw.
Qed.

Lemma apart_process_one env file : inv (Elsewhere sid w0) (FileUtils.process_one env sid file).
Proof.
  unfold FileUtils.process_one.
  destruct (negb _); [apply inv_ret|].
  apply inv_bind; [inv_auto|]. intros ex.
  destruct (negb ex); [apply inv_ret|]. cbv zeta.
  apply inv_get. intros w Hw. local_step w Hw.
Qed.

Lemma apart_processUploadedFiles env files :
  truthy_str sid = true ->
  inv (Elsewhere sid w0) (FileUtils.processUploadedFiles env files sid).
Proof.
  intros Ht. unfold FileUtils.processUploadedFiles.
  destruct files as [|f files]; [apply inv_ret|]. rewrite Ht. cbv zeta.
  assert (HK : inv (Elsewhere sid w0)
                 (let* rs := mapM (fun f0 => try_catch (FileUtils.process_one env sid f0)
                                               (fun _ => ret None)) (f :: files) in
                  ret (omap id rs))).
  { apply inv_bind; [|intros ?; apply inv_ret].
    apply inv_mapM. intros f0. apply inv_try_catch; [apply apart_process_one|].
    intros ?. apply inv_ret. }
  apply inv_get. intros w Hw.
  destruct (sessionFiles w !! sid).
  - rewrite ret_bind. exact (HK w Hw).
  - erewrite bind_ok; [|reflexivity]. apply HK. local_step w Hw.
Qed.
End Apart.

Ltac apart_prim := let w := fresh "w" in let H := fresh "H" in intros w H; exact H.

(** Stepping through a handler: the writes to the session are taken by the
    lemmas above, every other step leaves the four maps alone. *)
Ltac apart :=
  first
  [ solve [ apply apart_history_push | apply apart_init_conversation
          | apply apart_select_model | apply apart_db_insert_chat
          | apply apart_db_update_chat
          | apply apart_processUploadedFiles; assumption ]
  | lazymatch goal with
    | |- inv _ (bind _ _) => apply inv_bind; [apart | intros ?; apart]
    | |- inv _ (try_catch _ _) => apply inv_try_catch; [apart | intros ?; apart]
    | |- inv _ (ret _) => apply inv_ret
    | |- inv _ (throw _) => apply inv_throw
    | |- inv _ (lift _) => apply inv_lift
    | |- inv _ get_world => apply inv_get_world
    | |- inv _ (mapM _ _) => apply inv_mapM; intros ?; apart
    | |- inv _ (emit _) => apart_prim
    | |- inv _ (set_users _) => apart_prim
    | |- inv _ (set_disk _) => apart_prim
    | |- inv _ (fs_existsSync _) => apply inv_fs_existsSync; apart_prim
    | |- inv _ (fs_stat _) => apply inv_fs_stat; apart_prim
    | |- inv _ (fs_readFile _) => apply inv_fs_readFile; apart_prim
    | |- inv _ (FileUtils.fs_readHead _) => apply inv_fs_readHead; apart_prim
    | |- inv _ (Server.upload _ _) => apply inv_upload; intros ?; apart_prim
    | |- inv _ (FileUtils.filter_images _) => apply inv_filter_images; intros ?; apart_prim
    | |- inv _ (OpenAIService.openai_loop _ _) => apply inv_openai_loop; intros ?; apart_prim
    | |- inv _ (reads_loop _ _ _ _) => apply inv_reads_loop; intros ?; apart_prim
    | |- inv _ (match ?x with _ => _ end) => destruct x; apart
    | |- inv _ (let _ := _ in _) => cbv zeta; apart
    | |- inv _ ?m => let h := head_of m in unfold h; apart
    end ].

Lemma truthy_session req :
  truthy_ostr (Server.body_sessionId req) = true -> truthy_str (session_of req) = true.
Proof. unfold session_of. destruct (Server.body_sessionId req); [trivial | discriminate]. Qed.

Section ApartHandlers.
Variable env : Env.
Variable req : Server.Request.
Variable w0 : World.

Lemma chat_apart : inv (Elsewhere (session_of req) w0) (Server.chat env req).
Proof.
  unfold Server.chat. apply inv_bind; [apart|]. intros [files|]; [|apply inv_ret].
  unfold Server.chat_handler.
  destruct (truthy_ostr (Server.body_sessionId req)) eqn:E; cbn [negb orb]; [|apart].
  pose proof (truthy_session req E) as Ht. unfold session_of in *.
  apart.
Qed.

Lemma chat_stream_apart : inv (Elsewhere (session_of req) w0) (Server.chat_stream env req).
Proof.
  unfold Server.chat_stream. apply inv_bind; [apart|]. intros [files|]; [|apply inv_ret].
  unfold Server.chat_stream_handler.
  destruct (truthy_ostr (Server.body_sessionId req)) eqn:E; cbn [negb orb]; [|apart].
  pose proof (truthy_session req E) as Ht. unfold session_of in *.
  apart.
Qed.
End ApartHandlers.

(** X20. A turn touches its own session only.  After a request to either
    chat endpoint, every other session has the uploads, the conversation
    and the model in memory and the row in the table of chats that it had
    before, whatever the request, its user and the outcome of the turn. *)
Theorem turn_leaves_other_sessions_alone env req w s :
  s <> session_of req ->
  session_state (Server.chat env req w).2 s = session_state w s
  /\ session_state (Server.chat_stream env req w).2 s = session_state w s.
Proof.
  intros Hs. split.
  - exact (chat_apart env req w w (fun _ _ => eq_refl) s Hs).
  - exact (chat_stream_apart env req w w (fun _ _ => eq_refl) s Hs).
Qed.

Lemma other_sessions_witness :
  session_state (Server.chat Sample.env_ok (Sample3.req_in "s1") Sample3.w_three_chats).2 "s2"
  = session_state Sample3.w_three_chats "s2"
  /\ session_state
       (Server.chat_stream Sample.env_ok (Sample3.req_in "s1") Sample3.w_three_chats).2 "s2"
     = session_state Sample3.w_three_chats "s2".
Proof.
  apply (turn_leaves_other_sessions_alone Sample.env_ok (Sample3.req_in "s1")
           Sample3.w_three_chats "s2").
  discriminate.
Defined.
(* ===================================================================== *)
(** ** Conversations only grow *)
(* ===================================================================== *)

Section Grows.
Variable u0 : gmap string (list Message).

Lemma kept_history_push sid msg : inv (Kept u0) (Server.history_push sid msg).
Proof.
  unfold Server.history_push. apply inv_get. intros w Hw s h Hs.
  destruct (Hw s h Hs) as [ext Hext].
  cbn [set_userConversations snd userConversations].
  destruct (decide (s = sid)) as [->|Hne].
  - rewrite lookup_insert_eq, Hext. cbn [default]. exists (ext ++ [msg]).
    now rewrite app_assoc.
  - rewrite lookup_insert_ne by congruence. now exists ext.
Qed.

Lemma kept_init_conversation sid model : inv (Kept u0) (Server.init_conversation sid model).
Proof.
  unfold Server.init_conversation. apply inv_get. intros w Hw.
  destruct (userConversations w !! sid) eqn:E; [exact Hw|].
  intros s h Hs. destruct (Hw s h Hs) as [ext Hext].
  cbn [bind set_userConversations set_userSelectedModel fst snd userConversations].
  destruct (decide (s = sid)) as [->|Hne]; [congruence|].
  rewrite lookup_insert_ne by congruence. now exists ext.
Qed.
End Grows.

Ltac kept :=
  first
  [ solve [ apply kept_history_push | apply kept_init_conversation ]
  | lazymatch goal with
    | |- inv _ (bind _ _) => apply inv_bind; [kept | intros ?; kept]
    | |- inv _ (try_catch _ _) => apply inv_try_catch; [kept | intros ?; kept]
    | |- inv _ (ret _) => apply inv_ret
    | |- inv _ (throw _) => apply inv_throw
    | |- inv _ (lift _) => apply inv_lift
    | |- inv _ get_world => apply inv_get_world
    | |- inv _ (mapM _ _) => apply inv_mapM; intros ?; kept
    | |- inv _ (emit _) => apart_prim
    | |- inv _ (set_sessionFiles _) => apart_prim
    | |- inv _ (set_userSelectedModel _) => apart_prim
    | |- inv _ (set_chats _) => apart_prim
    | |- inv _ (set_users _) => apart_prim
    | |- inv _ (set_disk _) => apart_prim
    | |- inv _ (fs_existsSync _) => apply inv_fs_existsSync; apart_prim
    | |- inv _ (fs_stat _) => apply inv_fs_stat; apart_prim
    | |- inv _ (fs_readFile _) => apply inv_fs_readFile; apart_prim
    | |- inv _ (FileUtils.fs_readHead _) => apply inv_fs_readHead; apart_prim
    | |- inv _ (Server.upload _ _) => apply inv_upload; intros ?; apart_prim
    | |- inv _ (FileUtils.filter_images _) => apply inv_filter_images; intros ?; apart_prim
    | |- inv _ (OpenAIService.openai_loop _ _) => apply inv_openai_loop; intros ?; apart_prim
    | |- inv _ (reads_loop _ _ _ _) => apply inv_reads_loop; intros ?; apart_prim
    | |- inv _ (match ?x with _ => _ end) => destruct x; kept
    | |- inv _ (let _ := _ in _) => cbv zeta; kept
    | |- inv _ ?m => let h := head_of m in unfold h; kept
    end ].

Lemma kept_refl w : Kept (userConversations w) w.
Proof. intros s h Hs. exists []. now rewrite app_nil_r. Qed.

(** X21. A turn never drops or rewrites what a conversation in memory
    holds: after a request to either chat endpoint, every conversation that
    was in memory is still there and starts with the messages it had, in
    the same order; a turn can only add messages at its end. *)
Theorem conversations_only_grow env req w s h :
  userConversations w !! s = Some h ->
  (exists ext, userConversations (Server.chat env req w).2 !! s = Some (h ++ ext))
  /\ (exists ext, userConversations (Server.chat_stream env req w).2 !! s = Some (h ++ ext)).
Proof.
  intros Hs. split.
  - assert (H : inv (Kept (userConversations w)) (Server.chat env req)) by kept.
    exact (H w (kept_refl w) s h Hs).
  - assert (H : inv (Kept (userConversations w)) (Server.chat_stream env req)) by kept.
    exact (H w (kept_refl w) s h Hs).
Qed.

Lemma conversations_witness :
  exists h,
    userConversations (Sample.after_turns 1) !! "s1" = Some h
    /\ (exists ext, userConversations
                      (Server.chat Sample.env_ok Sample.req_hello (Sample.after_turns 1)).2
                    !! "s1" = Some (h ++ ext))
    /\ (exists ext, userConversations
                      (Server.chat_stream Sample.env_ok Sample.req_hello
                         (Sample.after_turns 1)).2
                    !! "s1" = Some (h ++ ext)).
Proof.
  eexists. split; [vm_compute; reflexivity|].
  apply (conversations_only_grow Sample.env_ok Sample.req_hello (Sample.after_turns 1) "s1").
  vm_compute. reflexivity.
Defined.
(* ===================================================================== *)
(** ** The subscription override *)
(* ===================================================================== *)

Lemma select_user_ok env uid w :
  store_error env (SelectUser uid) = None ->
  Admin.select_user env uid w = (Ok (users w !! uid, None), add_log w [EDb (SelectUser uid)]).
Proof. intros Hs. unfold Admin.select_user. now rewrite Hs. Qed.

Lemma select_user_refused env uid e w :
  store_error env (SelectUser uid) = Some e ->
  Admin.select_user env uid w = (Ok (None, Some e), add_log w [EDb (SelectUser uid)]).
Proof. intros Hs. unfold Admin.select_user. now rewrite Hs. Qed.

Lemma set_subscription_ok env uid p flag w :
  store_error env (UpdateUser uid flag) = None -> users w !! uid = Some p ->
  Admin.set_subscription env uid flag (add_log w [EDb (SelectUser uid)])
  = (Ok tt,
     with_users_log w (<[uid := mkProfile (Some flag) (stripe_subscription_id p)]> (users w))
       [EDb (SelectUser uid); EDb (UpdateUser uid flag); EJsonSuccess]).
Proof.
  intros Hs Hp. unfold Admin.set_subscription, Admin.update_user. rewrite Hs.
  rewrite bind_assoc. erewrite bind_ok; [|apply db_update_user_eq].
  rewrite ret_bind, emit_eq. unfold with_users_log, add_log. cbn.
  rewrite (alter_as_insert_user _ uid p) by exact Hp. now rewrite <- !app_assoc.
Qed.

Lemma set_subscription_refused env uid flag e w :
  store_error env (UpdateUser uid flag) = Some e ->
  Admin.set_subscription env uid flag (add_log w [EDb (SelectUser uid)])
  = (Ok tt,
     add_log w [EDb (SelectUser uid); EDb (UpdateUser uid flag);
                EStatusJson 500 "Failed to update subscription" (Some e)]).
Proof.
  intros Hs. unfold Admin.set_subscription, Admin.update_user. rewrite Hs.
  rewrite bind_assoc, emit_bind, ret_bind. unfold res_status_json. rewrite emit_eq.
  now rewrite !add_log_app.
Qed.

(** The handler, case by case. *)
Lemma override_cases env userId action w :
  let run l := Admin.override_subscription env userId action w = (Ok tt, add_log w l) in
  let uid := default "" userId in
  let set p flag :=
    match store_error env (UpdateUser uid flag) with
    | None =>
        Admin.override_subscription env userId action w
        = (Ok tt,
           with_users_log w
             (<[uid := mkProfile (Some flag) (stripe_subscription_id p)]> (users w))
             [EDb (SelectUser uid); EDb (UpdateUser uid flag); EJsonSuccess])
    | Some e =>
        run [EDb (SelectUser uid); EDb (UpdateUser uid flag);
             EStatusJson 500 "Failed to update subscription" (Some e)]
    end in
  if negb (truthy_ostr userId) then run [EStatusJson 400 "User ID is required" None]
  else
    match store_error env (SelectUser uid), users w !! uid with
    | Some e, _ => run [EDb (SelectUser uid); EStatusJson 404 "User not found" (Some e)]
    | None, None => run [EDb (SelectUser uid); EStatusJson 404 "User not found" None]
    | None, Some p =>
        if Admin.action_is action "enable" then set p true
        else if Admin.action_is action "disable" then set p false
        else run [EDb (SelectUser uid);
                  EStatusJson 400 "Invalid action. Use 'enable' or 'disable'." None]
    end.
Proof.
  cbv zeta. unfold Admin.override_subscription.
  destruct (negb (truthy_ostr userId)); [reflexivity|]. cbv zeta.
  destruct (store_error env (SelectUser (default "" userId))) as [e|] eqn:Hs.
  { apply try_ok. erewrite bind_ok; [|eapply select_user_refused; exact Hs].
    cbv beta iota. unfold res_status_json. now rewrite emit_eq, add_log_app. }
  destruct (users w !! default "" userId) as [p|] eqn:Hp.
  2:{ apply try_ok. erewrite bind_ok; [|eapply select_user_ok; exact Hs].
      rewrite Hp. cbv beta iota. unfold res_status_json. now rewrite emit_eq, add_log_app. }
  assert (Hset : forall flag,
    match store_error env (UpdateUser (default "" userId) flag) with
    | Some e =>
        Admin.set_subscription env (default "" userId) flag
          (add_log w [EDb (SelectUser (default "" userId))])
        = (Ok tt, add_log w [EDb (SelectUser (default "" userId));
                             EDb (UpdateUser (default "" userId) flag);
                             EStatusJson 500 "Failed to update subscription" (Some e)])
    | None =>
        Admin.set_subscription env (default "" userId) flag
          (add_log w [EDb (SelectUser (default "" userId))])
        = (Ok tt,
           with_users_log w
             (<[default "" userId := mkProfile (Some flag) (stripe_subscription_id p)]>
                (users w))
             [EDb (SelectUser (default "" userId));
              EDb (UpdateUser (default "" userId) flag); EJsonSuccess])
    end).
  { intros flag. destruct (store_error env (UpdateUser _ flag)) eqn:Hu.
    - now apply set_subscription_refused.
    - now apply set_subscription_ok. }
  destruct (Admin.action_is action "enable");
    [|destruct (Admin.action_is action "disable")].
  - specialize (Hset true). destruct (store_error env (UpdateUser _ true));
      (apply try_ok; erewrite bind_ok; [|eapply select_user_ok; exact Hs]);
      rewrite Hp; cbv beta iota; exact Hset.
  - specialize (Hset false). destruct (store_error env (UpdateUser _ false));
      (apply try_ok; erewrite bind_ok; [|eapply select_user_ok; exact Hs]);
      rewrite Hp; cbv beta iota; exact Hset.
  - apply try_ok. erewrite bind_ok; [|eapply select_user_ok; exact Hs].
    rewrite Hp. cbv beta iota. unfold res_status_json. now rewrite emit_eq, add_log_app.
Qed.

Lemma action_for_is flag :
  Admin.action_is (Some (Admin.action_for flag)) "enable" = flag
  /\ Admin.action_is (Some (Admin.action_for flag)) "disable" = negb flag.
Proof. now destruct flag. Qed.

(** X22. The subscription override asks for no credentials.  For a request
    that names an existing user and the action enable or disable, when the
    store answers the read of the users table: if the store accepts the
    update, the stored flag of that user is set accordingly, after one
    read and one write of the users table and without a call on the
    identity service or on the payment service; the row keeps its Stripe
    subscription, every other row and all other state are unchanged, the
    answer is the success answer, and from then on, for a user without a
    Stripe subscription that Stripe answers for, the subscription check of
    the chat endpoints returns the flag that was set.  If the store refuses
    the update, the answer is 500 "Failed to update subscription" with the
    store's message, and no row has changed. *)
Theorem override_sets_the_subscription env uid p flag w :
  truthy_str uid = true -> users w !! uid = Some p ->
  store_error env (SelectUser uid) = None ->
  let w' := (Admin.override_subscription env (Some uid) (Some (Admin.action_for flag)) w).2 in
  Admin.override_subscription env (Some uid) (Some (Admin.action_for flag)) w = (Ok tt, w')
  /\ sessionFiles w' = sessionFiles w /\ userConversations w' = userConversations w
  /\ userSelectedModel w' = userSelectedModel w /\ chats w' = chats w
  /\ disk w' = disk w
  /\ (forall u, u <> uid -> users w' !! u = users w !! u)
  /\ match store_error env (UpdateUser uid flag) with
     | None =>
         log w' = log w ++ [EDb (SelectUser uid); EDb (UpdateUser uid flag); EJsonSuccess]
         /\ users w' = <[uid := mkProfile (Some flag) (stripe_subscription_id p)]> (users w)
         /\ ((truthy_ostr (stripe_subscription_id p) = false
              \/ (exists e, stripe_retrieve env (default "" (stripe_subscription_id p))
                            = Throw e)) ->
             (Server.isUserSubscribed env uid w').1 = Ok flag)
     | Some e =>
         log w' = log w ++ [EDb (SelectUser uid); EDb (UpdateUser uid flag);
                            EStatusJson 500 "Failed to update subscription" (Some e)]
         /\ users w' = users w
     end.
Proof.
  intros Ht Hp Hs. cbv zeta.
  pose proof (override_cases env (Some uid) (Some (Admin.action_for flag)) w) as H.
  cbv zeta in H. cbn [truthy_ostr] in H. rewrite Ht in H. cbn [negb] in H.
  change (default "" (Some uid)) with uid in H. rewrite Hs, Hp in H.
  destruct (action_for_is flag) as [He Hd]. rewrite He, Hd in H.
  assert (H' :
    match store_error env (UpdateUser uid flag) with
    | Some e =>
        Admin.override_subscription env (Some uid) (Some (Admin.action_for flag)) w
        = (Ok tt, add_log w [EDb (SelectUser uid); EDb (UpdateUser uid flag);
                             EStatusJson 500 "Failed to update subscription" (Some e)])
    | None =>
        Admin.override_subscription env (Some uid) (Some (Admin.action_for flag)) w
        = (Ok tt,
           with_users_log w
             (<[uid := mkProfile (Some flag) (stripe_subscription_id p)]> (users w))
             [EDb (SelectUser uid); EDb (UpdateUser uid flag); EJsonSuccess])
    end) by (destruct flag; exact H).
  clear H. destruct (store_error env (UpdateUser uid flag)) as [e|]; rewrite H'.
  - do 6 (split; [reflexivity|]). split; [reflexivity|]. split; reflexivity.
  - do 6 (split; [reflexivity|]). split; [|split; [reflexivity|split; [reflexivity|]]].
    + intros u Hu. cbn [snd users with_users_log]. now rewrite lookup_insert_ne by congruence.
    + intros Hsub. rewrite isUserSubscribed_gives. f_equal. unfold subscribed.
      rewrite Ht. cbn [negb snd users with_users_log]. rewrite lookup_insert_eq.
      cbn [stripe_subscription_id is_subscribed].
      destruct Hsub as [Hsub|[e He']].
      * now rewrite Hsub.
      * rewrite He'. now destruct (truthy_ostr _).
Qed.

Lemma override_witness :
  let w' := (Admin.override_subscription Sample.env_ok (Some "u1") (Some "disable")
               Sample2.w_flag_only).2 in
  users w' = <["u1" := mkProfile (Some false) None]> (users Sample2.w_flag_only)
  /\ (Server.isUserSubscribed Sample.env_ok "u1" w').1 = Ok false.
Proof.
  destruct (override_sets_the_subscription Sample.env_ok "u1" (mkProfile (Some true) None)
              false Sample2.w_flag_only eq_refl eq_refl eq_refl)
    as (_ & _ & _ & _ & _ & _ & _ & _ & H2 & H3).
  split; [exact H2|]. apply H3. left. reflexivity.
Defined.

(** X23. The subscription override changes nothing unless it is given an
    existing user, one of its two actions, and a store that accepts the
    update.  Case by case, with the one answer of each: without a user id,
    400 "User ID is required" before anything is read; when the store
    refuses the read of the user, 404 "User not found" with the store's
    message; for an id with no row, 404 "User not found"; for an existing
    user and any action other than enable and disable (none included), 400
    "Invalid action. Use 'enable' or 'disable'."; and when the store
    refuses the update, 500 "Failed to update subscription" with the
    store's message.  In each of these cases the handler returns, the log
    grows by the events shown and nothing else of the state changes; no
    update is issued except in the last case, where the store refused it.
    In the remaining case the flag is set. *)
Theorem override_refuses_without_user_or_action env userId action w :
  let run l := Admin.override_subscription env userId action w = (Ok tt, add_log w l) in
  let uid := default "" userId in
  let set p flag :=
    match store_error env (UpdateUser uid flag) with
    | None =>
        Admin.override_subscription env userId action w
        = (Ok tt,
           with_users_log w
             (<[uid := mkProfile (Some flag) (stripe_subscription_id p)]> (users w))
             [EDb (SelectUser uid); EDb (UpdateUser uid flag); EJsonSuccess])
    | Some e =>
        run [EDb (SelectUser uid); EDb (UpdateUser uid flag);
             EStatusJson 500 "Failed to update subscription" (Some e)]
    end in
  if negb (truthy_ostr userId) then run [EStatusJson 400 "User ID is required" None]
  else
    match store_error env (SelectUser uid), users w !! uid with
    | Some e, _ => run [EDb (SelectUser uid); EStatusJson 404 "User not found" (Some e)]
    | None, None => run [EDb (SelectUser uid); EStatusJson 404 "User not found" None]
    | None, Some p =>
        if Admin.action_is action "enable" then set p true
        else if Admin.action_is action "disable" then set p false
        else run [EDb (SelectUser uid);
                  EStatusJson 400 "Invalid action. Use 'enable' or 'disable'." None]
    end.
Proof. exact (override_cases env userId action w). Qed.

Lemma override_refusal_witness :
  Admin.override_subscription Sample.env_ok (Some "u1") (Some "toggle") Sample2.w_flag_only
  = (Ok tt, add_log Sample2.w_flag_only
              [EDb (SelectUser "u1");
               EStatusJson 400 "Invalid action. Use 'enable' or 'disable'." None]).
Proof.
  exact (override_refuses_without_user_or_action Sample.env_ok (Some "u1") (Some "toggle")
           Sample2.w_flag_only).
Defined.
(* ===================================================================== *)
(** ** Image size ceilings *)
(* ===================================================================== *)

Lemma small_read_bounded d e : small_read d e = true -> bounded_read d e = true.
Proof. destruct e; try reflexivity; try discriminate. cbn. now destruct (d !! p). Qed.

Lemma store_bounded d l : forallb is_store l = true -> forallb (bounded_read d) l = true.
Proof.
  intros H. apply forallb_forall. intros e He.
  rewrite forallb_forall in H. specialize (H e He). now destruct e.
Qed.

Lemma stored_small_filter d (P : UploadedFile -> Prop) `{!forall f, Decision (P f)} files :
  stored_small d files -> stored_small d (filter P files).
Proof.
  unfold stored_small. induction 1 as [|f files Hf _ IH]; [constructor|].
  rewrite filter_cons. destruct (decide (P f)); [now constructor | exact IH].
Qed.

Section WithinLimit.
Variable d : gmap string FsFile.
Variable L : list Event.

Lemma within_quiet {A} (m : M A) :
  inv (fun w => disk w = d) m -> inv (extends (bounded_read d) L) m -> inv (Within d L) m.
Proof. intros H1 H2 w [Hd He]. split; [now apply H1 | now apply H2]. Qed.

Lemma within_add_log w l :
  Within d L w -> forallb (bounded_read d) l = true -> Within d L (add_log w l).
Proof. intros [Hd He] Hl. split; [exact Hd | now apply extends_add_log]. Qed.

Lemma within_emit e : bounded_read d e = true -> inv (Within d L) (emit e).
Proof. intros He w Hw. apply (within_add_log w [e]); [exact Hw|]. cbn. now rewrite He. Qed.

(** What reads whole files only when small, from any point on. *)
Lemma within_of_small {A} (m : M A) :
  (forall L', inv (reads_small d L') m) -> inv (Within d L) m.
Proof.
  intros Hm w [Hd (l & Hl & Hq)].
  destruct (Hm (log w) w (conj Hd (extends_refl _ w))) as [Hd' (l' & Hl' & Hq')].
  split; [exact Hd'|]. exists (l ++ l'). split; [rewrite Hl', Hl; now rewrite app_assoc|].
  rewrite forallb_app, Hq. cbn [andb].
  apply forallb_forall. intros e He. rewrite forallb_forall in Hq'.
  apply small_read_bounded, Hq', He.
Qed.

Lemma within_prepareImagesForModel env files target :
  inv (Within d L) (FileUtils.prepareImagesForModel env files target).
Proof. apply within_of_small. intros L'. apply reads_small_prepareImagesForModel. Qed.

(** A read guarded by a size test. *)
Lemma within_guarded_read {A} p limit (m0 : M A) (k : string -> M A) :
  limit <= 10 * FileUtils.MiB ->
  inv (Within d L) m0 -> (forall s, inv (Within d L) (k s)) ->
  inv (Within d L)
      (let* sz := fs_stat p in
       if limit <? sz then m0 else let* fileBuffer := fs_readFile p in k fileBuffer).
Proof.
  intros Hlim H0 Hk w [Hd He]. unfold bind at 1. rewrite fs_stat_eq.
  assert (H1 : Within d L (add_log w [EStat p]))
    by (apply within_add_log; [now split | reflexivity]).
  destruct (disk w !! p) as [f|] eqn:Hf; [|exact H1].
  destruct (limit <? f_size f) eqn:Hsz; [now apply H0|].
  apply Z.ltb_ge in Hsz. unfold bind. rewrite fs_readFile_eq. cbn [disk add_log]. rewrite Hf.
  assert (H2 : Within d L (add_log (add_log w [EStat p]) [EReadFile p])).
  { apply within_add_log; [exact H1|]. cbn [forallb bounded_read]. rewrite <- Hd, Hf.
    rewrite andb_true_r. apply Z.leb_le. lia. }
  destruct (f_readable f); [now apply Hk | exact H2].
Qed.

Lemma within_readFileContent p : inv (Within d L) (FileUtils.readFileContent p).
Proof.
  unfold FileUtils.readFileContent.
  apply inv_try_catch; [|intros ?; apply inv_ret].
  apply inv_bind; [apply within_quiet; inv_auto|]. intros ex.
  destruct (negb ex); [apply inv_ret|].
  apply (within_guarded_read p (1 * FileUtils.MiB)).
  - unfold FileUtils.MiB. lia.
  - apply inv_bind; [apply within_quiet; inv_auto | intros ?; apply inv_ret].
  - intros s. apply inv_ret.
Qed.

(** The Gemini service reads an image without measuring it: the read is of
    a small file when the file is one that the upload stored. *)
Lemma within_gemini_inline env f :
  (exists e, d !! path f = Some e /\ f_size e <= 10 * FileUtils.MiB) ->
  inv (Within d L) (GeminiService.gemini_inline env f).
Proof.
  intros (e & He & Hsz). unfold GeminiService.gemini_inline.
  apply inv_try_catch; [|intros ?; apply inv_ret].
  apply inv_bind; [|intros ?; apply inv_ret].
  apply inv_fs_readFile, within_emit. cbn [bounded_read]. rewrite He. now apply Z.leb_le.
Qed.

Lemma within_mapM_gemini_inline env files :
  stored_small d files -> inv (Within d L) (mapM (GeminiService.gemini_inline env) files).
Proof.
  induction 1 as [|f files Hf _ IH]; cbn [mapM]; [apply inv_ret|].
  apply inv_bind; [now apply within_gemini_inline|]. intros y.
  apply inv_bind; [exact IH | intros ?; apply inv_ret].
Qed.

Lemma within_processImagesForGemini env files :
  stored_small d files -> inv (Within d L) (GeminiService.processImagesForGemini env files).
Proof.
  intros Hs. unfold GeminiService.processImagesForGemini.
  destruct files as [|f files]; [apply inv_ret|].
  apply inv_try_catch; [now apply within_mapM_gemini_inline | intros ?; apply inv_ret].
Qed.
End WithinLimit.

Ltac within_prim := let w := fresh "w" in let H := fresh "H" in intros w H; exact H.

(** Stepping through a handler: the whole-file reads are taken by the
    lemmas above, every other step reads no whole file and leaves the disk
    alone. *)
Ltac within :=
  first
  [ solve [ apply within_readFileContent | apply within_prepareImagesForModel
          | apply within_processImagesForGemini;
              first [ assumption | apply stored_small_filter; assumption ] ]
  | lazymatch goal with
    | |- inv _ (bind _ _) => apply inv_bind; [within | intros ?; within]
    | |- inv _ (try_catch _ _) => apply inv_try_catch; [within | intros ?; within]
    | |- inv _ (ret _) => apply inv_ret
    | |- inv _ (throw _) => apply inv_throw
    | |- inv _ (lift _) => apply inv_lift
    | |- inv _ get_world => apply inv_get_world
    | |- inv _ (mapM _ _) => apply inv_mapM; intros ?; within
    | |- inv _ (emit _) => apply within_emit; reflexivity
    | |- inv _ (set_sessionFiles _) => within_prim
    | |- inv _ (set_userConversations _) => within_prim
    | |- inv _ (set_userSelectedModel _) => within_prim
    | |- inv _ (set_chats _) => within_prim
    | |- inv _ (set_users _) => within_prim
    | |- inv _ (fs_existsSync _) => apply inv_fs_existsSync, within_emit; reflexivity
    | |- inv _ (fs_stat _) => apply inv_fs_stat, within_emit; reflexivity
    | |- inv _ (FileUtils.fs_readHead _) => apply inv_fs_readHead, within_emit; reflexivity
    | |- inv _ (FileUtils.filter_images _) =>
        apply inv_filter_images; intros ?; apply within_emit; reflexivity
    | |- inv _ (OpenAIService.openai_loop _ _) =>
        apply inv_openai_loop; intros ?; apply within_emit; reflexivity
    | |- inv _ (reads_loop _ _ _ _) =>
        apply inv_reads_loop; intros ?; apply within_emit; reflexivity
    | |- inv _ (match ?x with _ => _ end) => destruct x; within
    | |- inv _ (let _ := _ in _) => cbv zeta; within
    | |- inv _ ?m => let h := head_of m in unfold h; within
    end ].

Section WithinHandlers.
Variable env : Env.
Variable d : gmap string FsFile.
Variable L : list Event.
Variable files : list UploadedFile.
Hypothesis Hfiles : stored_small d files.

Lemma chat_handler_within req : inv (Within d L) (Server.chat_handler env req files).
Proof. within. Qed.

Lemma chat_stream_handler_within req :
  inv (Within d L) (Server.chat_stream_handler env req files).
Proof. within. Qed.
End WithinHandlers.

(** *** The requests *)

Lemma chat_within env req w : exists d, Within d (log w) (Server.chat env req w).2.
Proof.
  destruct (enhancedUpload_eq req w) as (r & d & l & Hl & _ & Hres).
  unfold Server.chat. destruct r as [files|].
  - destruct Hres as (_ & Hfiles & Heq). erewrite bind_ok; [|exact Heq]. exists d.
    apply chat_handler_within.
    + eapply Forall_impl; [exact Hfiles|]. intros f [_ (e & He & Hsz)].
      exists e. split; [exact He|]. unfold Server.fileSize_limit, FileUtils.MiB in *. lia.
    + split; [reflexivity|]. exists l. split; [reflexivity | now apply store_bounded].
  - destruct Hres as (_ & Heq). erewrite bind_ok; [|exact Heq]. exists (disk w).
    split; [reflexivity|]. exists (l ++ [TOO_LARGE]). split; [reflexivity|].
    rewrite forallb_app, (store_bounded _ l Hl). reflexivity.
Qed.

Lemma chat_stream_within env req w :
  exists d, Within d (log w) (Server.chat_stream env req w).2.
Proof.
  destruct (enhancedUpload_eq req w) as (r & d & l & Hl & _ & Hres).
  unfold Server.chat_stream. destruct r as [files|].
  - destruct Hres as (_ & Hfiles & Heq). erewrite bind_ok; [|exact Heq]. exists d.
    apply chat_stream_handler_within.
    + eapply Forall_impl; [exact Hfiles|]. intros f [_ (e & He & Hsz)].
      exists e. split; [exact He|]. unfold Server.fileSize_limit, FileUtils.MiB in *. lia.
    + split; [reflexivity|]. exists l. split; [reflexivity | now apply store_bounded].
  - destruct Hres as (_ & Heq). erewrite bind_ok; [|exact Heq]. exists (disk w).
    split; [reflexivity|]. exists (l ++ [TOO_LARGE]). split; [reflexivity|].
    rewrite forallb_app, (store_bounded _ l Hl). reflexivity.
Qed.

Lemma within_reads d L w :
  Within d L w ->
  exists l, log w = L ++ l
            /\ forall p f, In (EReadFile p) l -> disk w !! p = Some f ->
                           f_size f <= 10 * FileUtils.MiB.
Proof.
  intros [Hd (l & Hl & Hq)]. exists l. split; [exact Hl|]. intros p f Hp Hf.
  rewrite forallb_forall in Hq. specialize (Hq _ Hp). cbn [bounded_read] in Hq.
  rewrite <- Hd, Hf in Hq. now apply Z.leb_le.
Qed.

Lemma upload_over_limit_aborts env req w :
  (exists p, In p (Server.parts req)
             /\ Server.fileFilter (Server.part_mimetype p) = true
             /\ 10 * FileUtils.MiB < Server.part_size p) ->
  exists stores,
    forallb is_store stores = true
    /\ Server.chat env req w = (Ok tt, add_log w (stores ++ [TOO_LARGE]))
    /\ Server.chat_stream env req w = (Ok tt, add_log w (stores ++ [TOO_LARGE])).
Proof.
  intros (p & Hin & Hf & Hsz).
  destruct (enhancedUpload_eq req w) as (r & d & l & Hl & _ & Hres).
  destruct r as [files|].
  - destruct Hres as (Hall & _). specialize (Hall p Hin Hf).
    unfold Server.fileSize_limit, FileUtils.MiB in *. lia.
  - destruct Hres as (_ & Heq). exists l. split; [exact Hl|].
    unfold Server.chat, Server.chat_stream.
    split; (erewrite bind_ok; [|exact Heq]); reflexivity.
Qed.

(** *** [prepareImagesForModel] goes on after a file it leaves out *)

Section Prepare.
Variable env : Env.
Variable d : gmap string FsFile.

Lemma worker_runs {A} (m : M A) w :
  total m -> inv (same_state w) m -> emits anything m ->
  exists a l, m w = (Ok a, add_log w l).
Proof.
  intros Ht Hs He. destruct (total_run m w Ht) as [a Ha].
  destruct (emits_delta _ m w He) as (l & Hl & _).
  assert (Hw : same_state w (m w).2) by (apply Hs; repeat split).
  exists a, l. rewrite Ha. f_equal. now apply same_state_add_log.
Qed.

Lemma filter_images_keeps files : forall w,
  disk w = d ->
  exists kept l,
    FileUtils.filter_images files w = (Ok kept, add_log w l)
    /\ forall f, In f files -> image_file f = true -> readable_small d f -> In f kept.
Proof.
  induction files as [|x files IH]; intros w Hd.
  - exists [], []. rewrite add_log_nil. split; [reflexivity | intros f []].
  - cbn [FileUtils.filter_images].
    assert (Hk : exists keep l1,
               (if truthy_str (mimetype x) && FileUtils.is_image x
                then fs_existsSync (path x) else ret false) w = (Ok keep, add_log w l1)
               /\ (image_file x = true -> readable_small d x -> keep = true)).
    { unfold image_file. destruct (truthy_str (mimetype x) && FileUtils.is_image x).
      - exists (bool_decide (is_Some (disk w !! path x))), [EExists (path x)].
        split; [apply fs_existsSync_eq|]. intros _ (e & He & _). rewrite Hd, He.
        apply bool_decide_eq_true_2. eauto.
      - exists false, []. rewrite add_log_nil. split; [reflexivity | discriminate]. }
    destruct Hk as (keep & l1 & E1 & Hkeep).
    destruct (IH (add_log w l1) Hd) as (kept & l2 & E2 & Hkept).
    exists (if keep then x :: kept else kept), (l1 ++ l2).
    split.
    + erewrite bind_ok; [|exact E1]. erewrite bind_ok; [|exact E2].
      now rewrite add_log_app.
    + intros f [<-|Hin] Hi Hg.
      * rewrite (Hkeep Hi Hg). now left.
      * specialize (Hkept f Hin Hi Hg). destruct keep; [now right | exact Hkept].
Qed.

Lemma mapM_reads {B} (worker : UploadedFile -> M B) :
  (forall f w, disk w = d ->
     exists b l, worker f w = (Ok b, add_log w l)
                 /\ (readable_small d f -> In (EReadFile (path f)) l)) ->
  forall files w, disk w = d ->
    exists r l, mapM worker files w = (Ok r, add_log w l)
                /\ forall f, In f files -> readable_small d f -> In (EReadFile (path f)) l.
Proof.
  intros Hworker. induction files as [|x files IH]; intros w Hd.
  - exists [], []. rewrite add_log_nil. split; [reflexivity | intros f []].
  - destruct (Hworker x w Hd) as (b & l1 & E1 & R1).
    destruct (IH (add_log w l1) Hd) as (r & l2 & E2 & R2).
    exists (b :: r), (l1 ++ l2). split.
    + cbn [mapM]. erewrite bind_ok; [|exact E1]. erewrite bind_ok; [|exact E2].
      now rewrite add_log_app.
    + intros f [<-|Hin] Hg; apply in_or_app; [left; now apply R1 | right; now apply R2].
Qed.

Lemma claude_image_reads f w :
  disk w = d ->
  exists b l, FileUtils.claude_image env f w = (Ok b, add_log w l)
              /\ (readable_small d f -> In (EReadFile (path f)) l).
Proof.
  intros Hd.
  destruct (worker_runs (FileUtils.claude_image env f) w) as (b & l & E);
    [total_auto | inv_auto | intros ?; inv_auto |].
  exists b, l. split; [exact E|]. intros (e & He & Hr & Hsz).
  revert E. unfold FileUtils.claude_image, try_catch, bind. rewrite fs_stat_eq, Hd, He.
  replace (10 * FileUtils.MiB <? f_size e) with false by (symmetry; apply Z.ltb_ge; lia).
  rewrite fs_readFile_eq. cbn [disk add_log]. rewrite Hd, He, Hr. cbn [ret fst snd].
  rewrite add_log_app. intros E. injection E as _ E. apply app_inv_head in E.
  rewrite <- E. right. now left.
Qed.

Lemma gemini_image_reads f w :
  disk w = d ->
  exists b l, FileUtils.gemini_image env f w = (Ok b, add_log w l)
              /\ (readable_small d f -> In (EReadFile (path f)) l).
Proof.
  intros Hd.
  destruct (worker_runs (FileUtils.gemini_image env f) w) as (b & l & E);
    [total_auto | inv_auto | intros ?; inv_auto |].
  exists b, l. split; [exact E|]. intros (e & He & Hr & Hsz).
  revert E. unfold FileUtils.gemini_image, try_catch, bind. rewrite fs_stat_eq, Hd, He.
  replace (10 * FileUtils.MiB <? f_size e) with false by (symmetry; apply Z.ltb_ge; lia).
  rewrite fs_readFile_eq. cbn [disk add_log]. rewrite Hd, He, Hr. cbn [ret fst snd].
  rewrite add_log_app. intros E. injection E as _ E. apply app_inv_head in E.
  rewrite <- E. right. now left.
Qed.

Lemma dataurl_image_reads f w :
  disk w = d ->
  exists b l, FileUtils.dataurl_image env f w = (Ok b, add_log w l)
              /\ (readable_small d f -> In (EReadFile (path f)) l).
Proof.
  intros Hd.
  destruct (worker_runs (FileUtils.dataurl_image env f) w) as (b & l & E);
    [total_auto | inv_auto | intros ?; inv_auto |].
  exists b, l. split; [exact E|]. intros (e & He & Hr & Hsz).
  assert (Hurl : FileUtils.fileToDataURL env (path f) (mimetype f) (add_log w [EStat (path f)])
                 = (Ok (Some ("data:" +:+ or_str (Some (mimetype f)) "application/octet-stream"
                                +:+ ";base64," +:+ base64 env (f_data e))),
                    add_log w [EStat (path f); EExists (path f); EStat (path f);
                               EReadFile (path f)])).
  { unfold FileUtils.fileToDataURL, try_catch, bind.
    rewrite fs_existsSync_eq. cbn [disk add_log]. rewrite Hd, He.
    rewrite bool_decide_eq_true_2 by eauto. cbn [negb].
    rewrite fs_stat_eq. cbn [disk add_log]. rewrite Hd, He.
    replace (10 * FileUtils.MiB <? f_size e) with false by (symmetry; apply Z.ltb_ge; lia).
    rewrite fs_readFile_eq. cbn [disk add_log]. rewrite Hd, He, Hr. cbn [ret fst snd].
    unfold add_log. cbn. now rewrite <- !app_assoc. }
  revert E. unfold FileUtils.dataurl_image, try_catch. unfold bind at 1.
  rewrite fs_stat_eq, Hd, He.
  replace (20 * FileUtils.MiB <? f_size e) with false
    by (symmetry; apply Z.ltb_ge; unfold FileUtils.MiB in *; lia).
  erewrite bind_ok; [|exact Hurl].
  intros E.
  assert (El : log (add_log w l)
               = log (add_log w [EStat (path f); EExists (path f); EStat (path f);
                                 EReadFile (path f)])).
  { cbv beta iota in E.
    match type of E with context [truthy_str ?u] => destruct (truthy_str u) end;
      cbn [ret fst snd] in E; apply (f_equal snd) in E; cbn [snd] in E; now rewrite E. }
  cbn [log add_log] in El. apply app_inv_head in El. rewrite El. cbn. tauto.
Qed.

Lemma prepareClaudeImages_reads files w :
  disk w = d ->
  exists r l,
    FileUtils.prepareClaudeImages env files w = (Ok r, add_log w l)
    /\ forall f, In f files -> image_file f = true -> readable_small d f ->
                 In (EReadFile (path f)) l.
Proof.
  intros Hd. unfold FileUtils.prepareClaudeImages.
  destruct files as [|x files].
  { exists [], []. rewrite add_log_nil. split; [reflexivity | intros f []]. }
  destruct (filter_images_keeps (x :: files) w Hd) as (kept & l1 & E1 & Hkept).
  erewrite bind_ok; [|exact E1].
  destruct kept as [|k kept].
  { exists [], l1. split; [reflexivity|]. intros f Hin Hi Hg. destruct (Hkept f Hin Hi Hg). }
  destruct (mapM_reads (FileUtils.claude_image env) claude_image_reads (k :: kept)
              (add_log w l1) Hd) as (r & l2 & E2 & R2).
  exists (omap id r), (l1 ++ l2). split.
  - unfold try_catch. erewrite bind_ok; [|exact E2]. cbn [ret fst snd].
    now rewrite add_log_app.
  - intros f Hin Hi Hg. apply in_or_app. right. apply R2; [now apply Hkept | exact Hg].
Qed.

Lemma prepareImagesForModel_reads files target w :
  disk w = d ->
  exists r l,
    FileUtils.prepareImagesForModel env files target w = (Ok r, add_log w l)
    /\ forall f, In f files -> image_file f = true -> readable_small d f ->
                 In (EReadFile (path f)) l.
Proof.
  intros Hd. unfold FileUtils.prepareImagesForModel.
  destruct files as [|x files].
  { exists [], []. rewrite add_log_nil. split; [reflexivity | intros f []]. }
  destruct (filter_images_keeps (x :: files) w Hd) as (kept & l1 & E1 & Hkept).
  erewrite bind_ok; [|exact E1].
  destruct kept as [|k kept].
  { exists [], l1. split; [reflexivity|]. intros f Hin Hi Hg. destruct (Hkept f Hin Hi Hg). }
  assert (Hmap : forall worker : UploadedFile -> M (option ContentPart),
            (forall f w, disk w = d ->
               exists b l, worker f w = (Ok b, add_log w l)
                           /\ (readable_small d f -> In (EReadFile (path f)) l)) ->
            exists r l,
              try_catch (mapM worker (k :: kept)) (fun _ => ret []) (add_log w l1)
              = (Ok r, add_log w l)
              /\ forall f, In f (x :: files) -> image_file f = true -> readable_small d f ->
                           In (EReadFile (path f)) l).
  { intros worker Hworker.
    destruct (mapM_reads worker Hworker (k :: kept) (add_log w l1) Hd)
      as (r & l2 & E2 & R2).
    exists r, (l1 ++ l2). split.
    - unfold try_catch. rewrite E2. cbn [fst snd]. now rewrite add_log_app.
    - intros f Hin Hi Hg. apply in_or_app. right. apply R2; [now apply Hkept | exact Hg]. }
  destruct (includes target "claude").
  - destruct (prepareClaudeImages_reads (k :: kept) (add_log w l1) Hd)
      as (r & l2 & E2 & R2).
    exists (map Some r), (l1 ++ l2). split.
    + erewrite bind_ok; [|exact E2]. cbn [ret]. now rewrite add_log_app.
    + intros f Hin Hi Hg. apply in_or_app. right.
      apply R2; [now apply Hkept | exact Hi | exact Hg].
  - destruct (includes target "gemini"); [exact (Hmap _ gemini_image_reads)|].
    destruct (includes target "grok"); exact (Hmap _ dataurl_image_reads).
Qed.
End Prepare.

(** C6, as amended.  No whole-file read of a chat request is of a file of
    more than 10 MiB, whatever the provider, and this is the work of the
    upload middleware, not of a ceiling that drops a file and goes on.
    (1, 2) Among the events either chat endpoint adds for a request, every
    whole-file read is of a file of at most 10 MiB: the reads of
    [prepareImagesForModel] for the Claude, Grok and OpenAI targets, and
    the reads of the Gemini service, which measures nothing and is handed
    what the upload stored.  (3) An upload with an accepted part of more
    than 10 MiB is answered 413 on both endpoints and nothing else is done:
    the file is not dropped with the others processed, the request is
    aborted.  (4) [prepareImagesForModel] itself never throws and changes
    nothing but the log; it reads a file only when the file is at most
    10 MiB long, for every target (for the OpenAI and Grok targets the test
    against 20 MiB is followed by the test against 10 MiB of
    [fileToDataURL]); and it reads every image file of its list that is on
    the disk, readable and at most 10 MiB long, wherever longer files stand
    in the list: a file over 10 MiB is left out and the others are still
    processed.  (5) The reader of the Gemini service measures nothing: it
    reads any file that is on the disk and readable, whatever its length;
    by (1) and (2) the files it is handed within a request are at most
    10 MiB long. *)
Theorem whole_file_reads_stay_within_10MiB env req w files target w0 :
  (let w' := (Server.chat env req w).2 in
   exists l, log w' = log w ++ l
             /\ forall p f, In (EReadFile p) l -> disk w' !! p = Some f ->
                            f_size f <= 10 * FileUtils.MiB)
  /\ (let w' := (Server.chat_stream env req w).2 in
      exists l, log w' = log w ++ l
                /\ forall p f, In (EReadFile p) l -> disk w' !! p = Some f ->
                               f_size f <= 10 * FileUtils.MiB)
  /\ ((exists p, In p (Server.parts req)
                 /\ Server.fileFilter (Server.part_mimetype p) = true
                 /\ 10 * FileUtils.MiB < Server.part_size p) ->
      exists stores,
        forallb is_store stores = true
        /\ Server.chat env req w = (Ok tt, add_log w (stores ++ [TOO_LARGE]))
        /\ Server.chat_stream env req w = (Ok tt, add_log w (stores ++ [TOO_LARGE])))
  /\ (exists r l,
       FileUtils.prepareImagesForModel env files target w0 = (Ok r, add_log w0 l)
       /\ (forall p, In (EReadFile p) l ->
                     exists e, disk w0 !! p = Some e /\ f_size e <= 10 * FileUtils.MiB)
       /\ (forall f, In f files -> image_file f = true ->
                     readable_small (disk w0) f -> In (EReadFile (path f)) l))
  /\ (forall f e,
        disk w0 !! path f = Some e -> f_readable e = true ->
        GeminiService.gemini_inline env f w0
        = (Ok (Some (PInline (base64 env (f_data e)) (mimetype f))),
           add_log w0 [EReadFile (path f)])).
Proof.
  split; [|split; [|split; [|split]]].
  - cbv zeta. destruct (chat_within env req w) as [d Hd]. exact (within_reads _ _ _ Hd).
  - cbv zeta. destruct (chat_stream_within env req w) as [d Hd].
    exact (within_reads _ _ _ Hd).
  - apply upload_over_limit_aborts.
  - destruct (prepareImagesForModel_reads env (disk w0) files target w0 eq_refl)
      as (r & l & E & Hread).
    exists r, l. split; [exact E|]. split; [|exact Hread].
    pose proof (reads_small_prepareImagesForModel (disk w0) (log w0) env files target w0
                  (conj eq_refl (extends_refl _ w0))) as [_ (l' & Hl' & Hs)].
    rewrite E in Hl'. cbn [snd log add_log] in Hl'. apply app_inv_head in Hl'. subst l'.
    intros p Hp. rewrite forallb_forall in Hs. specialize (Hs _ Hp). cbn [small_read] in Hs.
    destruct (disk w0 !! p) as [e|]; [|discriminate].
    exists e. split; [reflexivity | now apply Z.leb_le].
  - intros f e He Hr. unfold GeminiService.gemini_inline, try_catch, bind.
    rewrite fs_readFile_eq, He, Hr. reflexivity.
Qed.

Lemma whole_file_reads_witness :
  (exists p, In p (Server.parts Sample.req_images)
             /\ Server.fileFilter (Server.part_mimetype p) = true
             /\ 10 * FileUtils.MiB < Server.part_size p)
  /\ exists stores,
       forallb is_store stores = true
       /\ Server.chat Sample.env_gemini Sample.req_images Sample.w0
          = (Ok tt, add_log Sample.w0 (stores ++ [TOO_LARGE])).
Proof.
  assert (H : exists p, In p (Server.parts Sample.req_images)
                        /\ Server.fileFilter (Server.part_mimetype p) = true
                        /\ 10 * FileUtils.MiB < Server.part_size p).
  { exists Sample.over_part. split; [right; left; reflexivity|]. split; reflexivity. }
  split; [exact H|].
  destruct (proj1 (proj2 (proj2 (whole_file_reads_stay_within_10MiB Sample.env_gemini
                                   Sample.req_images Sample.w0 [] "gemini" Sample.w0))) H)
    as (stores & Hs & Hc & _).
  exists stores. split; [exact Hs | exact Hc].
Defined.

(** The claim as first stated fails on an image one byte over 10 MiB sent
    with a small one for a Gemini model: the image exceeds the ceiling of
    its provider, and it is not dropped while the small image is processed.
    On both endpoints the whole request is answered 413 after the small
    image was stored; no file is read and no provider is called.  The same
    request without the long image is served: the small image is read and
    sent to the provider. *)
Lemma oversize_image_aborts_the_request :
  In Sample.over_part (Server.parts Sample.req_images)
  /\ FileUtils.is_image (Server.stored_file "s1" Sample.over_part) = true
  /\ 10 * FileUtils.MiB < Server.part_size Sample.over_part
  /\ Server.chat Sample.env_gemini Sample.req_images Sample.w0
     = (Ok tt, add_log Sample.w0 [EStore "uploads/s1/files-1.png"; TOO_LARGE])
  /\ Server.chat_stream Sample.env_gemini Sample.req_images Sample.w0
     = (Ok tt, add_log Sample.w0 [EStore "uploads/s1/files-1.png"; TOO_LARGE])
  /\ In (ENet (ReqGemini (ModelName "gemini-2.0-flash")
                 [PText "look"; PInline "tiny" "image/png"]))
        (log (Server.chat Sample.env_gemini Sample.req_small_image Sample.w0).2).
Proof.
  split; [right; left; reflexivity|]. split; [reflexivity|]. split; [reflexivity|].
  split; [vm_compute; reflexivity|]. split; [vm_compute; reflexivity|].
  vm_compute. tauto.
Qed.
